(** * Chain merging (cstrd, [lib/merge_chains.py]): a shallow embedding

    The Python program mutates shared [Chain] and [Node] objects.  The
    embedding keeps an explicit object store ([World]): chains and nodes
    are referred to by their address in the store, so that two lists that
    hold the same object see each other's updates, exactly as in Python.

    Three layers of computations are used:
    - [Result A]: a pure computation that may raise a Python exception;
    - [Rd A]: a computation that reads the store and may raise;
    - [St A]: a computation that reads and writes the store and may raise.

    Debug image dumping ([debugging_chains]) is file output that only
    happens when [state.debug] is set; the embedding covers the algorithm
    itself, i.e. the runs where [debugging_chains] does nothing. *)

From Stdlib Require Import ZArith Floats.SpecFloat.
From stdpp Require Import base option list.

Open Scope Z_scope.

(** ** Python floats: IEEE 754 binary64, as specified by [SpecFloat] *)

Module PyFloat.

Definition float : Type := spec_float.

Definition prec : Z := 53.
Definition emax : Z := 1024.

(** Conversion of a Python [int]; exact below 2^53 in absolute value. *)
Definition of_Z (z : Z) : float := binary_normalize prec emax z 0 false.

Definition eqb (a b : float) : bool := SFeqb a b.
Definition ltb (a b : float) : bool := SFltb a b.
Definition leb (a b : float) : bool := SFleb a b.
Definition mul (a b : float) : float := SFmul prec emax a b.
Definition div (a b : float) : float := SFdiv prec emax a b.
Definition add (a b : float) : float := SFadd prec emax a b.
Definition sub (a b : float) : float := SFsub prec emax a b.
Definition sqrt (a : float) : float := SFsqrt prec emax a.

Definition zero : float := S754_zero false.
(** [-1], as a float: [of_Z (-1)]. *)
Definition minus_one : float := S754_finite true 4503599627370496 (-52).

(** The literals of the source, as the nearest binary64 values. *)
Definition lit_0_9 : float := S754_finite false 8106479329266893 (-53).
Definition lit_0_1 : float := S754_finite false 7205759403792794 (-56).
Definition lit_0_2 : float := S754_finite false 7205759403792794 (-55).
Definition lit_1_5 : float := S754_finite false 6755399441055744 (-52).

Definition is_nan (a : float) : bool :=
  match a with S754_nan => true | _ => false end.

(** [math.ceil] of a finite float; [None] for infinities and NaN. *)
Definition ceil (a : float) : option Z :=
  match a with
  | S754_zero _ => Some 0
  | S754_finite s m e =>
      if decide (0 ≤ e) then Some (cond_Zopp s (Z.pos m * 2 ^ e))
      else
        let d := 2 ^ (- e) in
        let q := Z.pos m `div` d in
        let r := Z.pos m `mod` d in
        Some (if s then - q else if decide (r = 0) then q else q + 1)
  | _ => None
  end.

End PyFloat.

Abbreviation float := PyFloat.float.

(** ** Python exceptions and results *)

(** [InvalidReference] and [OutOfFuel] are not Python exceptions: the first
    marks an address that is not in the store (which Python rules out by
    construction), the second a loop of the embedding that ran out of
    fuel. *)
Inductive exn : Type :=
  | IndexError
  | ValueError
  | StopIteration
  | AttributeError
  | AssertionError
  | TypeError
  | RuntimeError
  | ZeroDivisionError
  | InvalidReference
  | OutOfFuel.

Inductive Result (A : Type) : Type :=
  | Ok (a : A)
  | Raise (e : exn).

Arguments Ok {A} a.
Arguments Raise {A} e.

#[global] Instance Result_ret : MRet Result := λ A a, Ok a.
#[global] Instance Result_bind : MBind Result := λ A B f m,
  match m with Ok a => f a | Raise e => Raise e end.

Definition from_option {A : Type} (e : exn) (o : option A) : Result A :=
  match o with Some a => Ok a | None => Raise e end.

Definition from_option_list {A : Type} (o : option A) : list A :=
  match o with Some a => [a] | None => [] end.

(** ** Data model ([lib/chain.py]) *)

Module ch.

(** Modelled from the spec: [lib/chain.py] is not under src/.  Section 3
    of the spec gives a chain a [type] (normal | border), two endpoints
    [extA]/[extB], and the source names the members [EndPoints.A],
    [EndPoints.B], [ChainLocation.inwards], [ChainLocation.outwards],
    [TypeChains.border]. *)
Inductive TypeChains : Type := normal | border.
Inductive EndPoints : Type := A | B.
Inductive ChainLocation : Type := inwards | outwards.

#[global] Instance TypeChains_eq_dec : EqDecision TypeChains.
Proof. solve_decision. Defined.
#[global] Instance EndPoints_eq_dec : EqDecision EndPoints.
Proof. solve_decision. Defined.
#[global] Instance ChainLocation_eq_dec : EqDecision ChainLocation.
Proof. solve_decision. Defined.

(** Modelled from the spec: a node is "a boundary sample at a discrete ray
    angle and a radial distance from the center; carries the identifier of
    its owning chain".  [x], [y] are its pixel coordinates. *)
Module Node.
Record t : Type := mk {
  x : float;
  y : float;
  chain_id : Z;
  radial_distance : float;
  angle : float
}.
Definition set_chain_id (i : Z) (n : t) : t :=
  mk (x n) (y n) i (radial_distance n) (angle n).
End Node.

(** Modelled from the spec: a chain has a "unique integer id", [size]
    (node count), [Nr], [type], the two endpoints and the "four neighbour
    references [A_inward/A_outward/B_inward/B_outward]".  Nodes, endpoints
    and neighbours are addresses in the object store. *)
Module Chain.
Record t : Type := mk {
  id : Z;
  size : Z;
  Nr : Z;
  type : TypeChains;
  l_nodes : list nat;
  extA : option nat;
  extB : option nat;
  A_outward : option nat;
  A_inward : option nat;
  B_outward : option nat;
  B_inward : option nat
}.
Definition set_id (i : Z) (c : t) : t :=
  mk i (size c) (Nr c) (type c) (l_nodes c) (extA c) (extB c)
     (A_outward c) (A_inward c) (B_outward c) (B_inward c).
Definition set_nodes (l : list nat) (ea eb : option nat) (c : t) : t :=
  mk (id c) (Z.of_nat (length l)) (Nr c) (type c) l ea eb
     (A_outward c) (A_inward c) (B_outward c) (B_inward c).
Definition set_A_outward (o : option nat) (c : t) : t :=
  mk (id c) (size c) (Nr c) (type c) (l_nodes c) (extA c) (extB c)
     o (A_inward c) (B_outward c) (B_inward c).
Definition set_A_inward (o : option nat) (c : t) : t :=
  mk (id c) (size c) (Nr c) (type c) (l_nodes c) (extA c) (extB c)
     (A_outward c) o (B_outward c) (B_inward c).
Definition set_B_outward (o : option nat) (c : t) : t :=
  mk (id c) (size c) (Nr c) (type c) (l_nodes c) (extA c) (extB c)
     (A_outward c) (A_inward c) o (B_inward c).
Definition set_B_inward (o : option nat) (c : t) : t :=
  mk (id c) (size c) (Nr c) (type c) (l_nodes c) (extA c) (extB c)
     (A_outward c) (A_inward c) (B_outward c) o.
End Chain.

End ch.

(** ** The object store *)

Record World : Type := mkWorld {
  nodes : list ch.Node.t;
  chains : list ch.Chain.t
}.

Definition Rd (A : Type) : Type := World → Result A.
Definition St (A : Type) : Type := World → Result (A * World).

#[global] Instance Rd_ret : MRet Rd := λ A a w, Ok a.
#[global] Instance Rd_bind : MBind Rd := λ A B f m w,
  match m w with Ok a => f a w | Raise e => Raise e end.
#[global] Instance St_ret : MRet St := λ A a w, Ok (a, w).
#[global] Instance St_bind : MBind St := λ A B f m w,
  match m w with Ok (a, w') => f a w' | Raise e => Raise e end.

Definition pure {A : Type} (r : Result A) : Rd A := λ _, r.
Definition read {A : Type} (m : Rd A) : St A := λ w,
  match m w with Ok a => Ok (a, w) | Raise e => Raise e end.
Definition raise_rd {A : Type} (e : exn) : Rd A := λ _, Raise e.
Definition raise_st {A : Type} (e : exn) : St A := λ _, Raise e.

Definition get_node (r : nat) : Rd ch.Node.t := λ w,
  from_option InvalidReference (nodes w !! r).
Definition get_chain (r : nat) : Rd ch.Chain.t := λ w,
  from_option InvalidReference (chains w !! r).

Definition upd_node (r : nat) (f : ch.Node.t → ch.Node.t) : St unit := λ w,
  match nodes w !! r with
  | Some _ => Ok (tt, mkWorld (alter f r (nodes w)) (chains w))
  | None => Raise InvalidReference
  end.
Definition upd_chain (r : nat) (f : ch.Chain.t → ch.Chain.t) : St unit := λ w,
  match chains w !! r with
  | Some _ => Ok (tt, mkWorld (nodes w) (alter f r (chains w)))
  | None => Raise InvalidReference
  end.

Definition new_node (n : ch.Node.t) : St nat := λ w,
  Ok (length (nodes w), mkWorld (nodes w ++ [n]) (chains w)).
Definition new_chain (c : ch.Chain.t) : St nat := λ w,
  Ok (length (chains w), mkWorld (nodes w) (chains w ++ [c])).

(** Monadic iteration over a Python list. *)
Fixpoint rd_map {A B : Type} (f : A → Rd B) (l : list A) : Rd (list B) :=
  match l with
  | [] => mret []
  | a :: l' => b ← f a; bs ← rd_map f l'; mret (b :: bs)
  end.

Fixpoint rd_filter {A : Type} (f : A → Rd bool) (l : list A) : Rd (list A) :=
  match l with
  | [] => mret []
  | a :: l' => b ← f a; r ← rd_filter f l'; mret (if b : bool then a :: r else r)
  end.

Fixpoint st_map {A B : Type} (f : A → St B) (l : list A) : St (list B) :=
  match l with
  | [] => mret []
  | a :: l' => b ← f a; bs ← st_map f l'; mret (b :: bs)
  end.

Fixpoint st_iter {A : Type} (f : A → St unit) (l : list A) : St unit :=
  match l with
  | [] => mret tt
  | a :: l' => _ ← f a; st_iter f l'
  end.

(** ** Python and numpy list primitives *)

Module Py.

(** [list.index] under an equality test: position of the first match. *)
Fixpoint index_where {A : Type} (p : A → bool) (l : list A) : option nat :=
  match l with
  | [] => None
  | a :: l' => if p a then Some 0%nat else S <$> index_where p l'
  end.

(** [list.sort] / [sorted] are stable: an element is inserted after the
    elements that do not compare greater.  [lt x y] is the strict order of
    the keys ([reverse=True] swaps its arguments, which keeps stability). *)
Fixpoint insert_sorted {A : Type} (lt : A → A → bool) (x : A) (l : list A) : list A :=
  match l with
  | [] => [x]
  | y :: l' => if lt x y then x :: y :: l' else y :: insert_sorted lt x l'
  end.

Definition sorted {A : Type} (lt : A → A → bool) (l : list A) : list A :=
  foldl (λ acc x, insert_sorted lt x acc) [] l.

(** Sorting with [key=]: the keys are computed once per element. *)
Definition sorted_by_key {K A : Type} (lt : K → K → bool) (l : list (K * A)) : list A :=
  (sorted (λ a b, lt a.1 b.1) l).*2.

(** [np.unique]: the sorted distinct values. *)
Fixpoint insert_unique {A : Type} (lt eq : A → A → bool) (x : A) (l : list A) : list A :=
  match l with
  | [] => [x]
  | y :: l' =>
      if eq x y then l
      else if lt x y then x :: l
      else y :: insert_unique lt eq x l'
  end.

Definition np_unique {A : Type} (lt eq : A → A → bool) (l : list A) : list A :=
  foldl (λ acc x, insert_unique lt eq x acc) [] l.

Definition mem {A : Type} (eq : A → A → bool) (x : A) (l : list A) : bool :=
  existsb (eq x) l.

(** [np.intersect1d]: the sorted distinct values present in both. *)
Definition np_intersect1d {A : Type} (lt eq : A → A → bool) (a b : list A) : list A :=
  filter (λ x, mem eq x b = true) (np_unique lt eq a).

(** Normalisation of a numpy index on an axis of length [n]: negative
    indices count from the end, anything else out of range raises. *)
Definition np_index (n : nat) (i : Z) : Result nat :=
  if decide (0 ≤ i < Z.of_nat n) then Ok (Z.to_nat i)
  else if decide (- Z.of_nat n ≤ i < 0) then Ok (Z.to_nat (Z.of_nat n + i))
  else Raise IndexError.

(** [np.arange(0, 360, 360 / Nr)] with an [int] [Nr]: the step is the
    float quotient, the length is [ceil(360 / step)] and element [i] is
    [0 + i * step]. *)
Definition np_arange_0_360 (Nr : Z) : Result (list float) :=
  if decide (Nr = 0) then Raise ZeroDivisionError
  else
    let step := PyFloat.div (PyFloat.of_Z 360) (PyFloat.of_Z Nr) in
    match PyFloat.ceil (PyFloat.div (PyFloat.of_Z 360) step) with
    | None => Raise ValueError
    | Some len =>
        Ok (map (λ i : nat, PyFloat.mul (PyFloat.of_Z (Z.of_nat i)) step)
                (seq 0 (Z.to_nat len)))
    end.

End Py.

(** ** The intersection matrix: a two-dimensional numpy array *)

(** Rows of entries.  The entries are the numbers numpy stores; [np.eye]
    and every assignment of the program store 0 or 1. *)
Abbreviation Matrix := (list (list Z)).

Module np.

Definition nrows (m : Matrix) : nat := length m.
Definition ncols (m : Matrix) : nat :=
  match m with [] => 0%nat | r :: _ => length r end.

Definition eye (n : nat) : Matrix :=
  map (λ i, map (λ j, if decide (i = j) then 1 else 0) (seq 0 n)) (seq 0 n).

(** [m[i]] *)
Definition get_row (m : Matrix) (i : Z) : Result (list Z) :=
  r ← Py.np_index (nrows m) i;
  from_option IndexError (m !! r).

(** [m[i] = v] *)
Definition set_row (m : Matrix) (i : Z) (v : list Z) : Result Matrix :=
  r ← Py.np_index (nrows m) i;
  mret (<[r := v]> m).

(** [m[:, j] = v]: entry [x] of [v] goes to row [x], column [j]. *)
Definition set_col (m : Matrix) (j : Z) (v : list Z) : Result Matrix :=
  c ← Py.np_index (ncols m) j;
  mret (zip_with (λ row x, <[c := x]> row) m v).

(** [np.logical_or], stored back into a numeric array. *)
Definition logical_or (a b : list Z) : list Z :=
  zip_with (λ x y, if decide (x = 0 ∧ y = 0) then 0 else 1) a b.

(** [np.delete(m, k, 1)] and [np.delete(m, k, 0)] *)
Definition delete_col (m : Matrix) (k : Z) : Result Matrix :=
  c ← Py.np_index (ncols m) k;
  mret (map (delete c) m).
Definition delete_row (m : Matrix) (k : Z) : Result Matrix :=
  r ← Py.np_index (nrows m) k;
  mret (delete r m).

(** [np.where(v == 1)[0]] *)
Definition where_eq_1 (v : list Z) : list Z :=
  (filter (λ p, p.2 = 1) (zip (Z.of_nat <$> seq 0 (length v)) v)).*1.

(** [m[i, js] = 1] for a list of column indices [js]. *)
Fixpoint set_row_entries (m : Matrix) (r : nat) (cs : list nat) : Matrix :=
  match cs with
  | [] => m
  | c :: cs' => set_row_entries (alter (λ row, <[c := 1]> row) r m) r cs'
  end.
(** [m[ks, j] = 1] for a list of row indices [ks]. *)
Fixpoint set_col_entries (m : Matrix) (rs : list nat) (c : nat) : Matrix :=
  match rs with
  | [] => m
  | r :: rs' => set_col_entries (alter (λ row, <[c := 1]> row) r m) rs' c
  end.

Fixpoint indices (n : nat) (l : list Z) : Result (list nat) :=
  match l with
  | [] => Ok []
  | i :: l' => r ← Py.np_index n i; rs ← indices n l'; mret (r :: rs)
  end.

Definition assign_row_1 (m : Matrix) (i : Z) (js : list Z) : Result Matrix :=
  r ← Py.np_index (nrows m) i;
  cs ← indices (ncols m) js;
  mret (set_row_entries m r cs).
Definition assign_col_1 (m : Matrix) (ks : list Z) (j : Z) : Result Matrix :=
  rs ← indices (nrows m) ks;
  c ← Py.np_index (ncols m) j;
  mret (set_col_entries m rs c).

(** [x, y = np.meshgrid(ids, ids); m[x, y] = 1]: every pair of ids. *)
Definition assign_mesh_1 (m : Matrix) (ids : list Z) : Result Matrix :=
  rs ← indices (nrows m) ids;
  cs ← indices (ncols m) ids;
  mret (foldl (λ acc r, set_row_entries acc r cs) m rs).

End np.

(** ** System state ([class SystemStatus]) *)

(** The attributes set by [SystemStatus.__init__], without those that only
    serve debug output ([debug], [img], [height], [width], [label],
    [counter], [path]).  [size_l_chain_init] and
    [chain_size_at_the_end_of_iteration] are created by
    [find_support_chain]; [None] means that the attribute does not exist
    yet. *)
Module SystemStatus.
Record t : Type := mk {
  l_nodes_s : list nat;
  l_ch_s : list nat;
  Nr : Z;
  derivative_from_center : bool;
  th_distribution_size : Z;
  neighbourhood_size : Z;
  M : Matrix;
  center : float * float;
  next_chain_index : nat;
  iterations_since_last_change : Z;
  th_radial_tolerance : float;
  th_regular_derivative : float;
  check_overlapping : bool;
  size_l_chain_init : option Z;
  chain_size_at_the_end_of_iteration : option Z
}.
Definition set_l_nodes_s (v : list nat) (s : t) : t :=
  mk v (l_ch_s s) (Nr s) (derivative_from_center s) (th_distribution_size s)
     (neighbourhood_size s) (M s) (center s) (next_chain_index s)
     (iterations_since_last_change s) (th_radial_tolerance s)
     (th_regular_derivative s) (check_overlapping s) (size_l_chain_init s)
     (chain_size_at_the_end_of_iteration s).
Definition set_l_ch_s (v : list nat) (s : t) : t :=
  mk (l_nodes_s s) v (Nr s) (derivative_from_center s) (th_distribution_size s)
     (neighbourhood_size s) (M s) (center s) (next_chain_index s)
     (iterations_since_last_change s) (th_radial_tolerance s)
     (th_regular_derivative s) (check_overlapping s) (size_l_chain_init s)
     (chain_size_at_the_end_of_iteration s).
Definition set_M (v : Matrix) (s : t) : t :=
  mk (l_nodes_s s) (l_ch_s s) (Nr s) (derivative_from_center s)
     (th_distribution_size s) (neighbourhood_size s) v (center s)
     (next_chain_index s) (iterations_since_last_change s)
     (th_radial_tolerance s) (th_regular_derivative s) (check_overlapping s)
     (size_l_chain_init s) (chain_size_at_the_end_of_iteration s).
Definition set_next_chain_index (v : nat) (s : t) : t :=
  mk (l_nodes_s s) (l_ch_s s) (Nr s) (derivative_from_center s)
     (th_distribution_size s) (neighbourhood_size s) (M s) (center s)
     v (iterations_since_last_change s)
     (th_radial_tolerance s) (th_regular_derivative s) (check_overlapping s)
     (size_l_chain_init s) (chain_size_at_the_end_of_iteration s).
Definition set_iterations_since_last_change (v : Z) (s : t) : t :=
  mk (l_nodes_s s) (l_ch_s s) (Nr s) (derivative_from_center s)
     (th_distribution_size s) (neighbourhood_size s) (M s) (center s)
     (next_chain_index s) v
     (th_radial_tolerance s) (th_regular_derivative s) (check_overlapping s)
     (size_l_chain_init s) (chain_size_at_the_end_of_iteration s).
Definition set_size_l_chain_init (v : option Z) (s : t) : t :=
  mk (l_nodes_s s) (l_ch_s s) (Nr s) (derivative_from_center s)
     (th_distribution_size s) (neighbourhood_size s) (M s) (center s)
     (next_chain_index s) (iterations_since_last_change s)
     (th_radial_tolerance s) (th_regular_derivative s) (check_overlapping s)
     v (chain_size_at_the_end_of_iteration s).
Definition set_chain_size_at_the_end_of_iteration (v : option Z) (s : t) : t :=
  mk (l_nodes_s s) (l_ch_s s) (Nr s) (derivative_from_center s)
     (th_distribution_size s) (neighbourhood_size s) (M s) (center s)
     (next_chain_index s) (iterations_since_last_change s)
     (th_radial_tolerance s) (th_regular_derivative s) (check_overlapping s)
     (size_l_chain_init s) v.
End SystemStatus.

(** ** External collaborators *)

(** The geometry, interpolation and similarity functions that
    [merge_chains.py] imports from [lib/chain.py],
    [lib/interpolation_nodes.py] and [lib/basic_properties.py].  They are
    not under src/ and are taken as parameters; every theorem below holds
    for all of them.  They read the object store and do not write it.
    Chains and registered nodes are passed by address, a support chain that
    may be [None] as an option. *)
Class Collaborators : Type := {
  (** the angularly first and last node of a node sequence ([extA], [extB]) *)
  angular_endpoints : list (nat * ch.Node.t) → option nat * option nat;
  euclidean_distance_between_nodes : ch.Node.t → ch.Node.t → float;
  angular_distance_between_chains : World → nat → nat → ch.EndPoints → float;
  minimum_euclidean_distance_between_chains_endpoints : World → nat → nat → float;
  compute_interpolation_domain :
    ch.EndPoints → ch.Node.t → ch.Node.t → Z → list float;
  (** the new nodes between two endpoints, guided by the support chain(s) *)
  interpolate_nodes_given_chains :
    World → option nat → nat → nat → ch.EndPoints → nat → option nat →
    Result (list ch.Node.t);
  (** [similarity_conditions(state, th_radial_tolerance, th_distribution_size,
      th_regular_derivative, derivative_from_center, ch_i, ch_j,
      candidate_chain, endpoint, check_overlapping)] *)
  similarity_conditions :
    World → SystemStatus.t → float → Z → float → bool → nat → nat → nat →
    ch.EndPoints → bool → bool * float;
  (** [exist_chain_overlapping(l_ch_s, nodes, chain, chain, endpoint, ch_i)] *)
  exist_chain_overlapping :
    World → list nat → list nat → nat → nat → ch.EndPoints → option nat → bool
}.

(** ** The operations of [lib/chain.py] used by the merging engine *)

Module chain_py.
Section chain_py.
Context `{Collaborators}.

(** Modelled from the spec: [Chain.__eq__] is not under src/; the data
    model gives every chain a unique integer id, and two chains are equal
    when their ids are.  Comparison with [None] is false. *)
Definition chain_eq (r1 r2 : nat) : Rd bool :=
  c1 ← get_chain r1; c2 ← get_chain r2;
  mret (bool_decide (ch.Chain.id c1 = ch.Chain.id c2)).

Definition opt_chain_eq (o : option nat) (r : nat) : Rd bool :=
  match o with
  | None => mret false
  | Some r1 => chain_eq r1 r
  end.

(** [l.index(chain)] and [chain in l] for lists of chains. *)
Fixpoint index (l : list nat) (r : nat) : Rd nat :=
  match l with
  | [] => raise_rd ValueError
  | a :: l' =>
      b ← chain_eq a r;
      if b : bool then mret 0%nat else i ← index l' r; mret (S i)
  end.

Fixpoint contains (l : list nat) (r : nat) : Rd bool :=
  match l with
  | [] => mret false
  | a :: l' => b ← chain_eq a r; if b : bool then mret true else contains l' r
  end.

(** Modelled from the spec: [Node.__eq__] is not under src/; a node is its
    own identity ("a node already registered before being added"). *)
Definition node_eq (n1 n2 : nat) : bool := bool_decide (n1 = n2).

(** Modelled from the spec: [Chain.change_id] is not under src/.  A node
    "carries the identifier of its owning chain", so renumbering a chain
    renumbers the nodes it owns. *)
Definition change_id (r : nat) (index : Z) : St unit :=
  _ ← upd_chain r (ch.Chain.set_id index);
  c ← read (get_chain r);
  st_iter (λ n, upd_node n (ch.Node.set_chain_id index)) (ch.Chain.l_nodes c).

(** Modelled from the spec: [Chain.add_nodes_list] is not under src/.  It
    "appends" the nodes to the chain; [size] is the node count and
    "[extA]/[extB] always reflect the current angularly-first/last node".
    The result tells whether an endpoint changed. *)
Definition add_nodes_list (r : nat) (l : list nat) : St bool :=
  c ← read (get_chain r);
  let l' := ch.Chain.l_nodes c ++ l in
  ns ← read (rd_map get_node l');
  let e := angular_endpoints (zip l' ns) in
  _ ← upd_chain r (ch.Chain.set_nodes l' e.1 e.2);
  mret (negb (bool_decide (e.1 = ch.Chain.extA c ∧ e.2 = ch.Chain.extB c))).

(** Modelled from the spec: the "set of sampled angles" of a chain. *)
Definition get_dot_angle_values (r : nat) : Rd (list float) :=
  c ← get_chain r;
  ns ← rd_map get_node (ch.Chain.l_nodes c);
  mret (ch.Node.angle <$> ns).

Fixpoint first_node_with_angle (angle : float) (l : list nat) : Rd (option nat) :=
  match l with
  | [] => mret None
  | n :: l' =>
      v ← get_node n;
      if PyFloat.eqb (ch.Node.angle v) angle then mret (Some n)
      else first_node_with_angle angle l'
  end.

(** Modelled from the spec: the node of the chain on a given ray, if any. *)
Definition get_node_by_angle (r : nat) (angle : float) : Rd (option nat) :=
  c ← get_chain r;
  first_node_with_angle angle (ch.Chain.l_nodes c).

(** Modelled from the spec: "id-based lookup": the first chain of the list
    with the given id, or [None]. *)
Fixpoint get_chain_from_list_by_id (chain_list : list nat) (chain_id : Z) : Rd (option nat) :=
  match chain_list with
  | [] => mret None
  | r :: l' =>
      c ← get_chain r;
      if decide (ch.Chain.id c = chain_id) then mret (Some r)
      else get_chain_from_list_by_id l' chain_id
  end.

(** Modelled from the spec: the "chains sharing that endpoint's ray
    angle": the chains of the list that have a node at [angle]. *)
Definition get_chains_within_angle (angle : float) (chain_list : list nat) : Rd (list nat) :=
  rd_filter (λ r, o ← get_node_by_angle r angle; mret (bool_decide (is_Some o)))
            chain_list.

(** Modelled from the spec: the nodes of the given chains on the ray
    [angle], sorted by ascending distance to the center. *)
Definition get_closest_dots_to_angle_on_radial_direction_sorted_by_ascending_distance_to_center
    (chains_list : list nat) (angle : float) : Rd (list nat) :=
  os ← rd_map (λ r, get_node_by_angle r angle) chains_list;
  let ns := omap (λ o : option nat, o) os in
  keyed ← rd_map (λ n, v ← get_node n; mret (ch.Node.radial_distance v, n)) ns;
  mret (Py.sorted_by_key PyFloat.ltb keyed).

(** Modelled from the spec: "chain deep-copy": a new chain object that
    owns new copies of the nodes; the copy starts without neighbours. *)
Definition copy_chain (r : nat) : St nat :=
  c ← read (get_chain r);
  ns ← read (rd_map get_node (ch.Chain.l_nodes c));
  news ← st_map new_node ns;
  let tr (o : option nat) : option nat :=
    o' ← o; i ← Py.index_where (node_eq o') (ch.Chain.l_nodes c); news !! i in
  new_chain (ch.Chain.mk (ch.Chain.id c) (ch.Chain.size c) (ch.Chain.Nr c)
               (ch.Chain.type c) news (tr (ch.Chain.extA c)) (tr (ch.Chain.extB c))
               None None None None).

(** [node.attr] on a value that may be [None]. *)
Definition node_of (o : option nat) : Rd ch.Node.t :=
  match o with
  | Some n => get_node n
  | None => raise_rd AttributeError
  end.

End chain_py.
End chain_py.

(** ** Parameter schedule and iteration parameters ([class ConnectParameters]) *)

(** The attributes of a [ConnectParameters] object and the class constants
    [iterations] and [params] (table 1 of the paper). *)
Module ConnectParameters.
Record t : Type := mk {
  border_chain : nat;
  ch_s_without_border : list nat;
  nodes_s_without_border : list nat
}.
Definition iterations : nat := 9.
Definition th_radial_tolerance : list float :=
  [PyFloat.lit_0_1; PyFloat.lit_0_2; PyFloat.lit_0_1; PyFloat.lit_0_2; PyFloat.lit_0_1;
   PyFloat.lit_0_2; PyFloat.lit_0_1; PyFloat.lit_0_2; PyFloat.lit_0_2].
Definition neighbourhood_size : list Z := [10; 10; 22; 22; 45; 45; 22; 45; 45].
Definition th_regular_derivative : list float :=
  [PyFloat.lit_1_5; PyFloat.lit_1_5; PyFloat.lit_1_5; PyFloat.lit_1_5; PyFloat.lit_1_5;
   PyFloat.lit_1_5; PyFloat.of_Z 2; PyFloat.of_Z 2; PyFloat.of_Z 2].
Definition th_distribution_size : list Z := [2; 2; 3; 3; 3; 3; 2; 3; 3].
Definition derivative_from_center : list bool :=
  [false; false; false; false; false; false; true; true; true].
End ConnectParameters.

Module IterationParams.
Record t : Type := mk {
  th_radial_tolerance : float;
  th_distribution_size : Z;
  neighbourhood_size : Z;
  th_regular_derivative : float;
  derivative_from_center : bool;
  l_ch_s : list nat;
  l_nodes_s : list nat
}.
End IterationParams.

(** [class Set]: a distance with a chain ([cad]). *)
Abbreviation Set_ := (float * nat)%type.

(** ** The merging engine ([lib/merge_chains.py]) *)

Section merge_chains_py.
Context `{Collaborators}.

Import chain_py.

(** *** Neighbourhood pointers *)

Definition get_dots_in_radial_direction (node_direction : option nat)
    (chain_list : list nat) : Rd (Z * list nat) :=
  nd ← node_of node_direction;
  chains_in_radial_direction ← get_chains_within_angle (ch.Node.angle nd) chain_list;
  nodes_over_ray ←
    get_closest_dots_to_angle_on_radial_direction_sorted_by_ascending_distance_to_center
      chains_in_radial_direction (ch.Node.angle nd);
  vals ← rd_map get_node nodes_over_ray;
  let list_dot_chain_index :=
    Py.index_where (λ v, bool_decide (ch.Node.chain_id v = ch.Node.chain_id nd)) vals in
  match list_dot_chain_index with
  | Some idx => mret (Z.of_nat idx, nodes_over_ray)
  | None => mret (-1, [])
  end.

Definition chain_of_dot (chain_list : list nat) (dots : list nat) (i : Z) : Rd (option nat) :=
  dot ← pure (from_option IndexError (dots !! Z.to_nat i));
  v ← get_node dot;
  get_chain_from_list_by_id chain_list (ch.Node.chain_id v).

Definition get_inward_and_outward_visible_chains (chain_list : list nat)
    (chain : nat) (endpoint : ch.EndPoints) : Rd (option nat * option nat * option nat) :=
  c ← get_chain chain;
  let node_direction :=
    if decide (endpoint = ch.A) then ch.Chain.extA c else ch.Chain.extB c in
  '(dot_chain_index, dots_over_ray_direction) ←
    get_dots_in_radial_direction node_direction chain_list;
  if decide (dot_chain_index < 0) then mret (None, None, node_direction)
  else
    inward_chain ←
      (if decide (dot_chain_index > 0)
       then chain_of_dot chain_list dots_over_ray_direction (dot_chain_index - 1)
       else mret None);
    outward_chain ←
      (if decide (Z.of_nat (length dots_over_ray_direction) - 1 > dot_chain_index)
       then chain_of_dot chain_list dots_over_ray_direction (dot_chain_index + 1)
       else mret None);
    mret (inward_chain, outward_chain, node_direction).

(** [SystemStatus.update_chain_neighbourhood]; it reads [self.l_ch_s]. *)
Definition update_chain_neighbourhood (state : SystemStatus.t)
    (l_chains_to_update_neighborhood : list nat) : St unit :=
  st_iter (λ chain_p,
    '(inward_chain, outward_chain, _) ←
      read (get_inward_and_outward_visible_chains (SystemStatus.l_ch_s state) chain_p ch.A);
    _ ← upd_chain chain_p (ch.Chain.set_A_outward outward_chain);
    _ ← upd_chain chain_p (ch.Chain.set_A_inward inward_chain);
    '(inward_chain, outward_chain, _) ←
      read (get_inward_and_outward_visible_chains (SystemStatus.l_ch_s state) chain_p ch.B);
    _ ← upd_chain chain_p (ch.Chain.set_B_outward outward_chain);
    upd_chain chain_p (ch.Chain.set_B_inward inward_chain))
  l_chains_to_update_neighborhood.

(** The chains of a list, each with its [size] as sort key. *)
Definition with_size (l : list nat) : Rd (list (Z * nat)) :=
  rd_map (λ r, c ← get_chain r; mret (ch.Chain.size c, r)) l.

(** [key=lambda x: x.size, reverse=True] *)
Definition sort_by_size_desc (l : list nat) : Rd (list nat) :=
  keyed ← with_size l;
  mret (Py.sorted_by_key (λ a b, Z.ltb b a) keyed).

(** [SystemStatus.__init__] *)
Definition SystemStatus_init (l_ch l_nodes : list nat) (M : Matrix) (cy cx : float)
    (Nr : Z) (th_radial_tolerance : float) (th_distribution_size : Z)
    (th_regular_derivative : float) (neighbourhood_size : Z)
    (derivative_from_center : bool) : St SystemStatus.t :=
  sorted_chains ← read (sort_by_size_desc l_ch);
  let state :=
    SystemStatus.mk l_nodes sorted_chains Nr derivative_from_center
      th_distribution_size neighbourhood_size M (cy, cx) 0%nat 0
      th_radial_tolerance th_regular_derivative true None None in
  _ ← update_chain_neighbourhood state sorted_chains;
  mret state.

(** [SystemStatus.get_common_chain_to_both_borders] *)
Definition get_common_chain_to_both_borders (state : SystemStatus.t) (chain : nat)
    : Rd (option nat) :=
  chain_angle_domain ← get_dot_angle_values chain;
  rays ← pure (Py.np_arange_0_360 (SystemStatus.Nr state));
  c ← get_chain chain;
  extA ← node_of (ch.Chain.extA c);
  extB ← node_of (ch.Chain.extB c);
  let angles_where_there_is_no_nodes :=
    filter (λ angle, Py.mem PyFloat.eqb angle chain_angle_domain = false) rays
    ++ [ch.Node.angle extA; ch.Node.angle extB] in
  chains_where_there_is_no_nodes ←
    rd_filter (λ ch_i,
      ch_i_angles ← get_dot_angle_values ch_i;
      mret (bool_decide
        (length (Py.np_intersect1d PyFloat.ltb PyFloat.eqb ch_i_angles
                   angles_where_there_is_no_nodes)
         = length angles_where_there_is_no_nodes)))
      (SystemStatus.l_ch_s state);
  match chains_where_there_is_no_nodes with
  | [] => mret None
  | _ =>
      nodes_in_ray_a ←
        rd_map (λ cad,
          o ← get_node_by_angle cad (ch.Node.angle extA);
          v ← node_of o;
          mret (euclidean_distance_between_nodes v extA, v))
        chains_where_there_is_no_nodes;
      match Py.sorted_by_key PyFloat.ltb nodes_in_ray_a with
      | [] => raise_rd IndexError
      | closest :: _ =>
          get_chain_from_list_by_id (SystemStatus.l_ch_s state) (ch.Node.chain_id closest)
      end
  end.

(** [SystemStatus.get_next_chain_index_in_list] *)
Definition get_next_chain_index_in_list (chains_list : list nat) (support_chain : nat)
    : Rd nat :=
  i ← index chains_list support_chain;
  mret ((i + 1) `mod` length chains_list)%nat.

(** [SystemStatus.find_support_chain].  The state object is updated in
    place by the source; here the updated state is returned with the
    result. *)
Definition find_support_chain (state : SystemStatus.t) (ch_i : option nat)
    (l_s_outward l_s_inward : option (list nat)) : Rd (option nat * SystemStatus.t) :=
  if decide (length (SystemStatus.l_ch_s state) = 0%nat) then mret (None, state)
  else
    state ←
      match ch_i with
      | None =>
          (* First iteration *)
          mret (SystemStatus.set_next_chain_index 0%nat state)
      | Some ch_i =>
          let state :=
            SystemStatus.set_chain_size_at_the_end_of_iteration
              (Some (Z.of_nat (length (SystemStatus.l_ch_s state)))) state in
          size_l_chain_init ←
            pure (from_option AttributeError (SystemStatus.size_l_chain_init state));
          let chains_were_merged_during_iteration :=
            bool_decide (size_l_chain_init > Z.of_nat (length (SystemStatus.l_ch_s state))) in
          if chains_were_merged_during_iteration then
            let state := SystemStatus.set_iterations_since_last_change 0 state in
            sorted_chains ← sort_by_size_desc (SystemStatus.l_ch_s state);
            let state := SystemStatus.set_l_ch_s sorted_chains state in
            l_s_outward ← pure (from_option TypeError l_s_outward);
            l_s_inward ← pure (from_option TypeError l_s_inward);
            l_current_iteration ← sort_by_size_desc ([ch_i] ++ l_s_outward ++ l_s_inward);
            longest_chain ← pure (from_option IndexError (l_current_iteration !! 0%nat));
            cl ← get_chain longest_chain;
            ci ← get_chain ch_i;
            if decide (ch.Chain.id cl = ch.Chain.id ci) then
              i ← get_next_chain_index_in_list (SystemStatus.l_ch_s state) ch_i;
              mret (SystemStatus.set_next_chain_index i state)
            else
              i ← index (SystemStatus.l_ch_s state) longest_chain;
              mret (SystemStatus.set_next_chain_index i state)
          else
            i ← get_next_chain_index_in_list (SystemStatus.l_ch_s state) ch_i;
            let state := SystemStatus.set_next_chain_index i state in
            mret (SystemStatus.set_iterations_since_last_change
                    (SystemStatus.iterations_since_last_change state + 1) state)
      end;
    if decide (SystemStatus.iterations_since_last_change state
               >= Z.of_nat (length (SystemStatus.l_ch_s state)))
    then
      (* No chain was merged during the last iteration. *)
      mret (None, state)
    else
      ch_i ← pure (from_option IndexError
                     (SystemStatus.l_ch_s state !! SystemStatus.next_chain_index state));
      let state :=
        SystemStatus.set_size_l_chain_init
          (Some (Z.of_nat (length (SystemStatus.l_ch_s state)))) state in
      mret (Some ch_i, state).

Definition update_pointer (ch_j : nat) (closest : option nat) (l_candidates_chi : list nat)
    : Rd nat :=
  ch_j_index ← index l_candidates_chi ch_j;
  mret (if closest is Some _ then ch_j_index else (ch_j_index + 1)%nat).

(** *** Registering interpolated nodes *)

(** [SystemStatus._chains_id_over_radial_direction] *)
Definition chains_id_over_radial_direction (state : SystemStatus.t) (angle : float)
    : Rd (list Z * list nat) :=
  chains_in_radial_direction ← get_chains_within_angle angle (SystemStatus.l_ch_s state);
  cs ← rd_map get_chain chains_in_radial_direction;
  mret (ch.Chain.id <$> cs, chains_in_radial_direction).

Definition update_intersection_matrix_in_radial_direction (state : SystemStatus.t)
    (ch_j : nat) (new_node : nat) : Rd (list nat * SystemStatus.t) :=
  nn ← get_node new_node;
  '(chain_id_intersecting, chains_over_radial_direction) ←
    chains_id_over_radial_direction state (ch.Node.angle nn);
  cj ← get_chain ch_j;
  m ← pure (np.assign_row_1 (SystemStatus.M state) (ch.Chain.id cj) chain_id_intersecting);
  m ← pure (np.assign_col_1 m chain_id_intersecting (ch.Chain.id cj));
  mret (chains_over_radial_direction, SystemStatus.set_M m state).

(** The pointer of [chain] that leaves from the endpoint [dot], if [dot]
    is one of its endpoints: [if dot == chain.extA: ... elif dot ==
    chain.extB: ...]. *)
Definition set_pointer_at_endpoint (chain : option nat) (dot : nat)
    (set_at_A set_at_B : option nat → ch.Chain.t → ch.Chain.t) (ch_j : nat) : St unit :=
  match chain with
  | None => raise_st AttributeError
  | Some r =>
      c ← read (get_chain r);
      if decide (ch.Chain.extA c = Some dot) then upd_chain r (set_at_A (Some ch_j))
      else if decide (ch.Chain.extB c = Some dot) then upd_chain r (set_at_B (Some ch_j))
      else mret tt
  end.

Definition update_visibility_chain_pointers_in_radial_direction
    (chains_over_radial_direction : list nat) (new_node : nat) (ch_j : nat) : St unit :=
  nn ← read (get_node new_node);
  per_chain ← read (rd_map (λ chain,
    c ← get_chain chain;
    rd_filter (λ dot, v ← get_node dot;
                 mret (PyFloat.eqb (ch.Node.angle v) (ch.Node.angle nn)))
              (ch.Chain.l_nodes c)) chains_over_radial_direction);
  let dots_over_direction := concat per_chain ++ [new_node] in
  keyed ← read (rd_map (λ n, v ← get_node n; mret (ch.Node.radial_distance v, n))
                  dots_over_direction);
  let dots_over_direction := Py.sorted_by_key PyFloat.ltb keyed in
  idx_new_dot ← read (pure (from_option ValueError
                       (Py.index_where (node_eq new_node) dots_over_direction)));
  _ ← (match
        (if decide (idx_new_dot < length dots_over_direction - 1)%nat
         then dots_over_direction !! (idx_new_dot + 1)%nat else None)
      with
      | Some up_dot =>
          v ← read (get_node up_dot);
          up_chain ← read (get_chain_from_list_by_id chains_over_radial_direction
                             (ch.Node.chain_id v));
          set_pointer_at_endpoint up_chain up_dot
            ch.Chain.set_A_inward ch.Chain.set_B_inward ch_j
      | None => mret tt
      end : St unit);
  match
    (if decide (0 < idx_new_dot)%nat
     then dots_over_direction !! (idx_new_dot - 1)%nat else None)
  with
  | Some down_dot =>
      v ← read (get_node down_dot);
      down_chain ← read (get_chain_from_list_by_id chains_over_radial_direction
                           (ch.Node.chain_id v));
      set_pointer_at_endpoint down_chain down_dot
        ch.Chain.set_A_outward ch.Chain.set_B_outward ch_j
  | None => mret tt
  end.

Fixpoint add_interpolated_nodes_loop (state : SystemStatus.t) (ch_j : nat)
    (interpolated : list nat) : St SystemStatus.t :=
  match interpolated with
  | [] => mret state
  | new_node :: rest =>
      if Py.mem node_eq new_node (SystemStatus.l_nodes_s state)
      then raise_st AssertionError
      else
        let state :=
          SystemStatus.set_l_nodes_s (SystemStatus.l_nodes_s state ++ [new_node]) state in
        '(chains_over_radial_direction, state) ←
          read (update_intersection_matrix_in_radial_direction state ch_j new_node);
        _ ← update_visibility_chain_pointers_in_radial_direction
              chains_over_radial_direction new_node ch_j;
        add_interpolated_nodes_loop state ch_j rest
  end.

Definition add_interpolated_nodes_to_system (state : SystemStatus.t) (ch_j : nat)
    (interpolated : list nat) : St SystemStatus.t :=
  state ← add_interpolated_nodes_loop state ch_j interpolated;
  _ ← update_chain_neighbourhood state [ch_j];
  mret state.

(** *** Closing pass *)

(** The collaborator creates the new node objects; they enter the store
    when they are created. *)
Definition interpolate (ch_i : option nat) (ch_j_endpoint ch_k_endpoint : option nat)
    (endpoint : ch.EndPoints) (ch_j : nat) (support2 : option nat) : St (list nat) :=
  ej ← read (pure (from_option AttributeError ch_j_endpoint));
  ek ← read (pure (from_option AttributeError ch_k_endpoint));
  vals ← (λ w, match interpolate_nodes_given_chains w ch_i ej ek endpoint ch_j support2 with
               | Ok vals => Ok (vals, w)
               | Raise e => Raise e
               end);
  st_map new_node vals.

(** [close_chain], Algorithm 5.  [state] may be [None]. *)
Definition close_chain (state : option SystemStatus.t) (chain : nat) (ch_i : option nat)
    (support2 : option nat) : St (option SystemStatus.t) :=
  c ← read (get_chain chain);
  let ch_j_endpoint_node := ch.Chain.extB c in
  let ch_k_endpoint_node := ch.Chain.extA c in
  let ch_j_endpoint_type := ch.B in
  chain_copy ← copy_chain chain;
  interpolated_nodes ←
    interpolate ch_i ch_j_endpoint_node ch_k_endpoint_node ch_j_endpoint_type
      chain_copy support2;
  let interpolated_nodes_plus_endpoints :=
    from_option_list ch_j_endpoint_node ++ interpolated_nodes
    ++ from_option_list ch_k_endpoint_node in
  exist_chain ←
    match state with
    | Some state =>
        (λ w, Ok (exist_chain_overlapping w (SystemStatus.l_ch_s state)
                    interpolated_nodes_plus_endpoints chain chain
                    ch_j_endpoint_type ch_i, w))
    | None => mret false
    end;
  if exist_chain : bool then mret state
  else
    _ ← add_nodes_list chain interpolated_nodes;
    match state with
    | Some state =>
        state ← add_interpolated_nodes_to_system state chain interpolated_nodes;
        mret (Some state)
    | None => mret None
    end.

(** The guard of the closing pass:
    [chain.size >= chain.Nr or chain.size < threshold * chain.Nr]. *)
Definition skip_closing (threshold : float) (c : ch.Chain.t) : bool :=
  bool_decide (ch.Chain.size c >= ch.Chain.Nr c)
  || PyFloat.ltb (PyFloat.of_Z (ch.Chain.size c))
                 (PyFloat.mul threshold (PyFloat.of_Z (ch.Chain.Nr c))).

Fixpoint closing_loop (state : SystemStatus.t) (threshold : float) (l : list nat)
    : St SystemStatus.t :=
  match l with
  | [] => mret state
  | chain :: rest =>
      c ← read (get_chain chain);
      if skip_closing threshold c then closing_loop state threshold rest
      else
        support1 ← read (get_common_chain_to_both_borders state chain);
        o ← close_chain (Some state) chain support1 None;
        closing_loop (default state o) threshold rest
  end.

Definition iterate_over_chains_list_and_complete_them_if_met_conditions
    (state : SystemStatus.t) (threshold : float) : St (list nat * list nat * Matrix) :=
  state ← closing_loop state threshold (SystemStatus.l_ch_s state);
  mret (SystemStatus.l_ch_s state, SystemStatus.l_nodes_s state, SystemStatus.M state).

(** *** Closest-chain search *)

Definition ask : Rd World := λ w, Ok w.

Definition distance_between_border (chain_1 chain_2 : nat) (border_1 : ch.EndPoints)
    : Rd float :=
  node1 ← (if decide (border_1 = ch.A)
           then c1 ← get_chain chain_1; mret (ch.Chain.extA c1)
           else c2 ← get_chain chain_2; mret (ch.Chain.extB c2));
  node2 ← (if decide (border_1 = ch.A)
           then c2 ← get_chain chain_2; mret (ch.Chain.extB c2)
           else c2 ← get_chain chain_2; mret (ch.Chain.extA c2));
  v1 ← node_of node1;
  v2 ← node_of node2;
  mret (euclidean_distance_between_nodes v1 v2).

Definition select_closest_chain (chain : nat) (a_neighbour_chain b_neighbour_chain : option nat)
    : Rd (option nat * option ch.EndPoints) :=
  d_a ← match a_neighbour_chain with
        | Some a => distance_between_border chain a ch.A
        | None => mret PyFloat.minus_one
        end;
  d_b ← match b_neighbour_chain with
        | Some b => distance_between_border chain b ch.B
        | None => mret PyFloat.minus_one
        end;
  if PyFloat.eqb d_a d_b && PyFloat.eqb d_b PyFloat.minus_one then mret (None, None)
  else if PyFloat.leb d_b d_a then mret (a_neighbour_chain, Some ch.A)
  else if PyFloat.ltb d_a d_b then mret (b_neighbour_chain, Some ch.B)
  else raise_rd RuntimeError.

(** [np.where(M[chain.id] == 1)[0]] *)
Definition ids_intersecting (M : Matrix) (chain : nat) : Rd (list Z) :=
  c ← get_chain chain;
  row ← pure (np.get_row M (ch.Chain.id c));
  mret (np.where_eq_1 row).

Definition id_in (ids : list Z) (cad : nat) : Rd bool :=
  c ← get_chain cad;
  mret (bool_decide (ch.Chain.id c ∈ ids)).

Definition find_non_intersection (M : Matrix) (l_candidates_chi : list nat) (ch_j : nat)
    : Rd (list nat) :=
  id_inter ← ids_intersecting M ch_j;
  rd_filter (λ cad, b ← id_in id_inter cad; mret (negb b)) l_candidates_chi.

Definition get_intersection_chains (M : Matrix) (l_candidates_chi : list nat) (ch_j : nat)
    : Rd (list nat) :=
  id_inter ← ids_intersecting M ch_j;
  rd_filter (id_in id_inter) l_candidates_chi.

Definition check_endpoints (support_chain ch_j candidate_chain : nat)
    (endpoint : ch.EndPoints) : Rd bool :=
  support_chain_angular_domain ← get_dot_angle_values support_chain;
  cj ← get_chain ch_j;
  cc ← get_chain candidate_chain;
  cs ← get_chain support_chain;
  ext_cad_1 ← node_of (if decide (endpoint = ch.A) then ch.Chain.extA cj else ch.Chain.extB cj);
  ext_cad_2 ← node_of (if decide (endpoint = ch.A) then ch.Chain.extB cc else ch.Chain.extA cc);
  let interpolation_domain :=
    compute_interpolation_domain endpoint ext_cad_1 ext_cad_2 (ch.Chain.Nr cs) in
  let intersection :=
    Py.np_intersect1d PyFloat.ltb PyFloat.eqb interpolation_domain
      support_chain_angular_domain in
  mret (bool_decide (length intersection = length interpolation_domain)).

Definition connectivity_goodness_condition (state : SystemStatus.t)
    (ch_j candidate_chain ch_i : nat) (endpoint : ch.EndPoints) : Rd (bool * float) :=
  cj ← get_chain ch_j;
  cc ← get_chain candidate_chain;
  (* Size criterion *)
  if decide (ch.Chain.size cj + ch.Chain.size cc > ch.Chain.Nr cj)
  then mret (false, PyFloat.minus_one)
  else
    (* Connect chains by correct endpoint *)
    check_pass ← check_endpoints ch_i ch_j candidate_chain endpoint;
    if negb check_pass then mret (false, PyFloat.minus_one)
    else
      (* Radial check *)
      w ← ask;
      mret (similarity_conditions w state (SystemStatus.th_radial_tolerance state)
              (SystemStatus.th_distribution_size state)
              (SystemStatus.th_regular_derivative state)
              (SystemStatus.derivative_from_center state) ch_i ch_j candidate_chain
              endpoint (SystemStatus.check_overlapping state)).

Definition sort_chains_in_neighbourhood (chains_in_neighbourhood : list Set_) (ch_j : nat)
    : Rd (list Set_) :=
  let unique_angular_distances :=
    Py.np_unique PyFloat.ltb PyFloat.eqb (chains_in_neighbourhood.*1) in
  groups ← rd_map (λ d,
    let chains_same_angular_distance :=
      (filter (λ conj : Set_, PyFloat.eqb conj.1 d = true) chains_in_neighbourhood).*2 in
    euclidean_distance_set ← rd_map (λ ch_d,
        w ← ask;
        mret (minimum_euclidean_distance_between_chains_endpoints w ch_d ch_j, ch_d))
      chains_same_angular_distance;
    mret ((λ cad, (d, cad)) <$> Py.sorted_by_key PyFloat.ltb euclidean_distance_set))
    unique_angular_distances;
  mret (concat groups).

Fixpoint chains_within_angular_neighbourhood (neighbourhood_size : Z)
    (l_no_intersection_j : list nat) (ch_j : nat) (endpoint : ch.EndPoints)
    : Rd (list Set_) :=
  match l_no_intersection_j with
  | [] => mret []
  | cand_chain :: rest =>
      w ← ask;
      let angular_distance := angular_distance_between_chains w ch_j cand_chain endpoint in
      cc ← get_chain cand_chain;
      cj ← get_chain ch_j;
      r ← chains_within_angular_neighbourhood neighbourhood_size rest ch_j endpoint;
      if PyFloat.leb angular_distance (PyFloat.of_Z neighbourhood_size)
         && negb (bool_decide (ch.Chain.id cc = ch.Chain.id cj))
      then mret ((angular_distance, cand_chain) :: r)
      else mret r
  end.

Definition get_chains_in_neighbourhood (neighbourhood_size : Z)
    (l_no_intersection_j : list nat) (ch_j ch_i : nat) (endpoint : ch.EndPoints)
    (location : ch.ChainLocation) : Rd (list Set_) :=
  l_chains_in_neighbourhood ←
    chains_within_angular_neighbourhood neighbourhood_size l_no_intersection_j ch_j endpoint;
  let pointer : ch.Chain.t → option nat :=
    match endpoint, location with
    | ch.A, ch.inwards => ch.Chain.B_outward
    | ch.A, ch.outwards => ch.Chain.B_inward
    | ch.B, ch.inwards => ch.Chain.A_outward
    | ch.B, ch.outwards => ch.Chain.A_inward
    end in
  l_chains_in_neighbourhood ←
    rd_filter (λ element : Set_,
      c ← get_chain element.2; opt_chain_eq (pointer c) ch_i)
      l_chains_in_neighbourhood;
  sort_chains_in_neighbourhood l_chains_in_neighbourhood ch_j.

Definition intersection_chains (M : Matrix) (candidate_chain : nat)
    (l_sorted_chains_in_neighbourhood : list Set_) : Rd (list nat) :=
  inter_next_chain ← ids_intersecting M candidate_chain;
  cc ← get_chain candidate_chain;
  l ← rd_filter (λ set : Set_,
        c ← get_chain set.2;
        mret (bool_decide (ch.Chain.id c ∈ inter_next_chain)
              && negb (bool_decide (ch.Chain.id cc = ch.Chain.id c))))
      l_sorted_chains_in_neighbourhood;
  mret (l.*2).

Fixpoint get_all_chain_in_subset_that_satisfy_condition_loop (state : SystemStatus.t)
    (ch_j ch_i : nat) (endpoint : ch.EndPoints) (l_intersections_candidate : list nat)
    : Rd (list Set_) :=
  match l_intersections_candidate with
  | [] => mret []
  | chain_inter :: rest =>
      '(pass_control, radial_distance) ←
        connectivity_goodness_condition state ch_j chain_inter ch_i endpoint;
      r ← get_all_chain_in_subset_that_satisfy_condition_loop state ch_j ch_i endpoint rest;
      mret (if pass_control : bool then (radial_distance, chain_inter) :: r else r)
  end.

Definition get_all_chain_in_subset_that_satisfy_condition (state : SystemStatus.t)
    (ch_j ch_i : nat) (endpoint : ch.EndPoints) (radial_distance : float)
    (candidate_chain : nat) (l_intersections_candidate : list nat) : Rd (list Set_) :=
  r ← get_all_chain_in_subset_that_satisfy_condition_loop state ch_j ch_i endpoint
        l_intersections_candidate;
  mret ((radial_distance, candidate_chain) :: r).

Definition get_the_closest_chain_by_radial_distance_that_does_not_intersect
    (state : SystemStatus.t) (ch_j ch_i : nat) (endpoint : ch.EndPoints)
    (candidate_chain_radial_distance : float) (candidate_chain : nat) (M : Matrix)
    (l_sorted_chains_in_neighbourhood : list Set_) : Rd nat :=
  l_intersections_candidate ←
    intersection_chains M candidate_chain l_sorted_chains_in_neighbourhood;
  l_intersections_candidate_set ←
    get_all_chain_in_subset_that_satisfy_condition state ch_j ch_i endpoint
      candidate_chain_radial_distance candidate_chain l_intersections_candidate;
  let sorted_set :=
    Py.sorted (λ a b : Set_, PyFloat.ltb a.1 b.1) l_intersections_candidate_set in
  pure (from_option IndexError (snd <$> sorted_set !! 0%nat)).

(** The [while] loop of [get_closest_chain]: the first candidate that
    passes decides. *)
Fixpoint get_closest_chain_loop (state : SystemStatus.t) (ch_j ch_i : nat)
    (endpoint : ch.EndPoints) (M : Matrix) (l_sorted_chains_in_neighbourhood : list Set_)
    (remaining : list Set_) : Rd (option nat) :=
  match remaining with
  | [] => mret None
  | set :: rest =>
      let candidate_chain := set.2 in
      '(pass_control, radial_distance) ←
        connectivity_goodness_condition state ch_j candidate_chain ch_i endpoint;
      if pass_control : bool then
        ch_k ← get_the_closest_chain_by_radial_distance_that_does_not_intersect
                 state ch_j ch_i endpoint radial_distance candidate_chain M
                 l_sorted_chains_in_neighbourhood;
        mret (Some ch_k)
      else get_closest_chain_loop state ch_j ch_i endpoint M
             l_sorted_chains_in_neighbourhood rest
  end.

Definition get_closest_chain (state : SystemStatus.t) (ch_j : nat)
    (l_no_intersection_j : list nat) (ch_i : nat) (location : ch.ChainLocation)
    (endpoint : ch.EndPoints) (M : Matrix) : Rd (option nat) :=
  let neighbourhood_size := SystemStatus.neighbourhood_size state in
  l_sorted_chains_in_neighbourhood ←
    get_chains_in_neighbourhood neighbourhood_size l_no_intersection_j ch_j ch_i
      endpoint location;
  get_closest_chain_loop state ch_j ch_i endpoint M l_sorted_chains_in_neighbourhood
    l_sorted_chains_in_neighbourhood.

Definition get_closest_chain_logic (state : SystemStatus.t) (ch_j : nat)
    (l_candidates_chi l_no_intersection_j : list nat) (ch_i : nat)
    (location : ch.ChainLocation) (endpoint : ch.EndPoints) (symmetric : bool)
    : Rd (option nat) :=
  ch_k ← get_closest_chain state ch_j l_no_intersection_j ch_i location endpoint
           (SystemStatus.M state);
  match ch_k with
  | None => mret None
  | Some k =>
      if negb symmetric then mret (Some k)
      else
        l_no_intersection_k ← find_non_intersection (SystemStatus.M state) l_candidates_chi k;
        let endpoint_k := if decide (endpoint = ch.B) then ch.A else ch.B in
        symmetric_chain ←
          get_closest_chain state k l_no_intersection_k ch_i location endpoint_k
            (SystemStatus.M state);
        same ← opt_chain_eq symmetric_chain ch_j;
        if negb same then mret None
        else
          ck ← get_chain k;
          cj ← get_chain ch_j;
          if decide (ch.Chain.size ck + ch.Chain.size cj > ch.Chain.Nr ck)
          then mret None
          else mret (Some k)
  end.

Definition find_closest (state : SystemStatus.t) (ch_j : nat)
    (l_candidates_chi l_no_intersection_j : list nat) (ch_i : nat)
    (location : ch.ChainLocation) (symmetric_check : bool)
    : Rd (option nat * option ch.EndPoints) :=
  ch_k_b ← get_closest_chain_logic state ch_j l_candidates_chi l_no_intersection_j
             ch_i location ch.B symmetric_check;
  ch_k_a ← get_closest_chain_logic state ch_j l_candidates_chi l_no_intersection_j
             ch_i location ch.A symmetric_check;
  select_closest_chain ch_j ch_k_a ch_k_b.

(** *** Merge executor *)

Definition move_nodes_from_one_chain_to_another (ch_j ch_k : nat) : St bool :=
  ck ← read (get_chain ch_k);
  cj ← read (get_chain ch_j);
  _ ← st_iter (λ node, upd_node node (ch.Node.set_chain_id (ch.Chain.id cj)))
        (ch.Chain.l_nodes ck);
  add_nodes_list ch_j (ch.Chain.l_nodes ck).

Definition updating_chain_nodes (state : SystemStatus.t) (ch_j ch_k : nat) : St unit :=
  change_border ← move_nodes_from_one_chain_to_another ch_j ch_k;
  if change_border : bool then update_chain_neighbourhood state [ch_j] else mret tt.

Definition delete_closest_chain (state : SystemStatus.t) (ch_k : nat)
    (l_candidates_chi : list nat) : Rd (SystemStatus.t * list nat) :=
  cad_2_index ← index (SystemStatus.l_ch_s state) ch_k;
  let state := SystemStatus.set_l_ch_s (delete cad_2_index (SystemStatus.l_ch_s state)) state in
  id_connected_chain ← index l_candidates_chi ch_k;
  mret (state, delete id_connected_chain l_candidates_chi).

Definition update_intersection_matrix (state : SystemStatus.t) (ch_j ch_k : nat)
    : Rd SystemStatus.t :=
  cj ← get_chain ch_j;
  ck ← get_chain ch_k;
  inter_cad_1 ← pure (np.get_row (SystemStatus.M state) (ch.Chain.id cj));
  inter_cad_2 ← pure (np.get_row (SystemStatus.M state) (ch.Chain.id ck));
  let or_inter_cad1_cad2 := np.logical_or inter_cad_1 inter_cad_2 in
  m ← pure (np.set_row (SystemStatus.M state) (ch.Chain.id cj) or_inter_cad1_cad2);
  m ← pure (np.set_col m (ch.Chain.id cj) or_inter_cad1_cad2);
  m ← pure (np.delete_col m (ch.Chain.id ck));
  m ← pure (np.delete_row m (ch.Chain.id ck));
  mret (SystemStatus.set_M m state).

Definition update_chains_ids (state : SystemStatus.t) (ch_k : nat) : St unit :=
  st_iter (λ ch_old,
    co ← read (get_chain ch_old);
    ck ← read (get_chain ch_k);
    if decide (ch.Chain.id co > ch.Chain.id ck)
    then change_id ch_old (ch.Chain.id co - 1)
    else mret tt)
  (SystemStatus.l_ch_s state).

(** [merge_two_chains], Algorithm 4: all nodes are added to [ch_j]. *)
Definition merge_two_chains (ch_j ch_k : nat) (endpoint : ch.EndPoints) (ch_i : nat)
    (support2 : option nat) : St (list nat) :=
  cj ← read (get_chain ch_j);
  ck ← read (get_chain ch_k);
  let ch_j_endpoint := if decide (endpoint = ch.A) then ch.Chain.extA cj else ch.Chain.extB cj in
  let ch_k_endpoint := if decide (endpoint = ch.A) then ch.Chain.extB ck else ch.Chain.extA ck in
  interpolated ← interpolate (Some ch_i) ch_j_endpoint ch_k_endpoint endpoint ch_j support2;
  _ ← add_nodes_list ch_j interpolated;
  _ ← move_nodes_from_one_chain_to_another ch_j ch_k;
  mret interpolated.

(** [if p is not None: if p.id == ch_k.id: p = ch_j] for one pointer. *)
Definition repoint (ch_j ch_k : nat) (chain : nat)
    (get : ch.Chain.t → option nat) (set : option nat → ch.Chain.t → ch.Chain.t) : St unit :=
  c ← read (get_chain chain);
  match get c with
  | Some p =>
      cp ← read (get_chain p);
      ck ← read (get_chain ch_k);
      if decide (ch.Chain.id cp = ch.Chain.id ck) then upd_chain chain (set (Some ch_j))
      else mret tt
  | None => mret tt
  end.

Definition update_chain_after_connect (state : SystemStatus.t) (ch_j ch_k : nat) : St unit :=
  st_iter (λ chain,
    _ ← repoint ch_j ch_k chain ch.Chain.A_outward ch.Chain.set_A_outward;
    _ ← repoint ch_j ch_k chain ch.Chain.A_inward ch.Chain.set_A_inward;
    _ ← repoint ch_j ch_k chain ch.Chain.B_outward ch.Chain.set_B_outward;
    repoint ch_j ch_k chain ch.Chain.B_inward ch.Chain.set_B_inward)
  (SystemStatus.l_ch_s state).

(** [update_chain_list]: the state and the candidate list are updated in
    place by the source; here both are returned. *)
Definition update_chain_list (state : SystemStatus.t) (ch_j ch_k : nat)
    (l_candidates_chi : list nat) (interpolated : list nat)
    : St (SystemStatus.t * list nat) :=
  (* update chain j: add new nodes to ch_j *)
  state ← add_interpolated_nodes_to_system state ch_j interpolated;
  (* visibility pointers from ch_k to ch_j *)
  _ ← update_chain_after_connect state ch_j ch_k;
  (* update intersection matrix *)
  state ← read (update_intersection_matrix state ch_j ch_k);
  (* delete ch_k from l_candidates_chi and state.l_ch_s *)
  '(state, l_candidates_chi) ← read (delete_closest_chain state ch_k l_candidates_chi);
  (* update ids *)
  _ ← update_chains_ids state ch_k;
  mret (state, l_candidates_chi).

(** *** Support-chain driver *)

Fixpoint get_inward_and_outward_list_chains_via_pointers_loop (l_ch_s : list nat)
    (support_chain : nat) (l_s_outward l_s_inward : list nat) : Rd (list nat * list nat) :=
  match l_ch_s with
  | [] => mret (l_s_outward, l_s_inward)
  | ch_cand :: rest =>
      same ← chain_eq ch_cand support_chain;
      if same : bool then
        get_inward_and_outward_list_chains_via_pointers_loop rest support_chain
          l_s_outward l_s_inward
      else
        c ← get_chain ch_cand;
        in_out ← contains l_s_outward ch_cand;
        let l_s_outward :=
          if negb in_out
             && (bool_decide (ch.Chain.A_inward c = Some support_chain)
                 || bool_decide (ch.Chain.B_inward c = Some support_chain))
          then l_s_outward ++ [ch_cand] else l_s_outward in
        in_inw ← contains l_s_inward ch_cand;
        let l_s_inward :=
          if negb in_inw
             && (bool_decide (ch.Chain.A_outward c = Some support_chain)
                 || bool_decide (ch.Chain.B_outward c = Some support_chain))
          then l_s_inward ++ [ch_cand] else l_s_inward in
        get_inward_and_outward_list_chains_via_pointers_loop rest support_chain
          l_s_outward l_s_inward
  end.

Definition get_inward_and_outward_list_chains_via_pointers (l_ch_s : list nat)
    (support_chain : nat) : Rd (list nat * list nat) :=
  get_inward_and_outward_list_chains_via_pointers_loop l_ch_s support_chain [] [].

(** [S_up.remove(cad)]: removes the first element equal to [cad]. *)
Definition list_remove (l : list nat) (cad : nat) : Rd (list nat) :=
  i ← index l cad; mret (delete i l).

Fixpoint remove_all (S_up : list nat) (up_down : list nat) : Rd (list nat) :=
  match up_down with
  | [] => mret S_up
  | cad :: rest => S_up ← list_remove S_up cad; remove_all S_up rest
  end.

Definition remove_chains_if_present_at_both_groups (S_up S_down : list nat)
    : Rd (list nat * list nat) :=
  up_down ← rd_filter (λ cad, contains S_down cad) S_up;
  S_up ← remove_all S_up up_down;
  mret (up_down, S_up).

Definition find_visible_chains (l_ch_s : list nat) (support_chain : nat)
    : Rd (list nat * list nat) :=
  '(l_s_outward, l_s_inward) ←
    get_inward_and_outward_list_chains_via_pointers l_ch_s support_chain;
  '(_, l_s_outward) ← remove_chains_if_present_at_both_groups l_s_outward l_s_inward;
  mret (l_s_outward, l_s_inward).

(** Lines 7 and 8 of the main loop: the chain to connect to [ch_j], if any. *)
Definition find_merge_target (state : SystemStatus.t) (candidates_chi : list nat)
    (ch_j ch_i : nat) (location : ch.ChainLocation) : Rd (option nat * option ch.EndPoints) :=
  valid_chains ← find_non_intersection (SystemStatus.M state) candidates_chi ch_j;
  find_closest state ch_j candidates_chi valid_chains ch_i location true.

(** Lines 10 and 11 of the main loop: [merge_two_chains] followed by
    [update_chain_list]. *)
Definition merge_and_update (state : SystemStatus.t) (ch_j ch_k : nat)
    (endpoint : ch.EndPoints) (ch_i : nat) (candidates_chi : list nat)
    : St (SystemStatus.t * list nat) :=
  new_nodes ← merge_two_chains ch_j ch_k endpoint ch_i None;
  update_chain_list state ch_j ch_k candidates_chi new_nodes.

(** One turn of the inner [while] loop of [merge_chains_main_logic]. *)
Definition candidate_step (state : SystemStatus.t) (candidates_chi : list nat)
    (j_pointer : nat) (ch_i : nat) (location : ch.ChainLocation)
    : St (SystemStatus.t * list nat * nat) :=
  ch_j ← read (pure (from_option IndexError (candidates_chi !! j_pointer)));
  '(ch_k, endpoint) ← read (find_merge_target state candidates_chi ch_j ch_i location);
  '(state, candidates_chi) ←
    match endpoint with
    | None => mret (state, candidates_chi)
    | Some endpoint =>
        same ← read (opt_chain_eq ch_k ch_j);
        if same : bool then mret (state, candidates_chi)
        else
          k ← read (pure (from_option AttributeError ch_k));
          merge_and_update state ch_j k endpoint ch_i candidates_chi
    end;
  (* update chain pointer to the next chain *)
  j_pointer ← read (update_pointer ch_j ch_k candidates_chi);
  mret (state, candidates_chi, j_pointer).

Fixpoint candidates_loop (fuel : nat) (state : SystemStatus.t) (candidates_chi : list nat)
    (j_pointer : nat) (ch_i : nat) (location : ch.ChainLocation)
    : St (SystemStatus.t * list nat) :=
  if decide (j_pointer < length candidates_chi)%nat then
    match fuel with
    | O => raise_st OutOfFuel
    | S fuel =>
        '(state, candidates_chi, j_pointer) ←
          candidate_step state candidates_chi j_pointer ch_i location;
        candidates_loop fuel state candidates_chi j_pointer ch_i location
    end
  else mret (state, candidates_chi).

(** One turn of the outer [while ch_i:] loop. *)
Definition support_step (fuel : nat) (state : SystemStatus.t) (ch_i : nat)
    : St (option nat * SystemStatus.t) :=
  '(l_s_outward, l_s_inward) ← read (find_visible_chains (SystemStatus.l_ch_s state) ch_i);
  '(state, l_s_inward) ← candidates_loop fuel state l_s_inward 0 ch_i ch.inwards;
  '(state, l_s_outward) ← candidates_loop fuel state l_s_outward 0 ch_i ch.outwards;
  read (find_support_chain state (Some ch_i) (Some l_s_outward) (Some l_s_inward)).

Fixpoint support_loop (fuel : nat) (state : SystemStatus.t) (ch_i : option nat)
    : St SystemStatus.t :=
  match ch_i with
  | None => mret state
  | Some ch_i =>
      match fuel with
      | O => raise_st OutOfFuel
      | S fuel' =>
          '(ch_i, state) ← support_step fuel state ch_i;
          support_loop fuel' state ch_i
      end
  end.

(** [merge_chains_main_logic], lines 2 to 16 of Algorithm 3.  [fuel]
    bounds the turns of each [while] loop. *)
Definition merge_chains_main_logic (fuel : nat) (M : Matrix) (cy cx : float) (nr : Z)
    (l_ch_s l_nodes_s : list nat) (th_radial_tolerance : float)
    (th_distribution_size : Z) (th_regular_derivative : float) (neighbourhood_size : Z)
    (derivative_from_center : bool) : St (list nat * list nat * Matrix) :=
  state ← SystemStatus_init l_ch_s l_nodes_s M cy cx nr th_radial_tolerance
            th_distribution_size th_regular_derivative neighbourhood_size
            derivative_from_center;
  '(ch_i, state) ← read (find_support_chain state None None None);
  state ← support_loop fuel state ch_i;
  iterate_over_chains_list_and_complete_them_if_met_conditions state PyFloat.lit_0_9.

(** *** Intersection matrix *)

Definition np_max (l : list Z) : Result Z :=
  match l with
  | [] => Raise ValueError
  | a :: l' => Ok (foldl Z.max a l')
  end.

Definition np_eye (n : Z) : Result Matrix :=
  if decide (n < 0) then Raise ValueError else Ok (np.eye (Z.to_nat n)).

Fixpoint mark_rays (vals : list ch.Node.t) (rays : list float) (M : Matrix) : Result Matrix :=
  match rays with
  | [] => Ok M
  | angle :: rest =>
      let chains_id_over_direction :=
        Py.np_unique Z.ltb Z.eqb
          (ch.Node.chain_id <$>
             filter (λ node, PyFloat.eqb (ch.Node.angle node) angle = true) vals) in
      match chains_id_over_direction with
      | [] => mark_rays vals rest M
      | _ => M ← np.assign_mesh_1 M chains_id_over_direction; mark_rays vals rest M
      end
  end.

Definition compute_intersection_matrix (nodes_list : list nat) (Nr : Z) : Rd Matrix :=
  vals ← rd_map get_node nodes_list;
  let chains_id := ch.Node.chain_id <$> vals in
  mx ← pure (np_max chains_id);
  M ← pure (np_eye (mx + 1));
  rays ← pure (Py.np_arange_0_360 Nr);
  pure (mark_rays vals rays M).

(** [get_ids_chain_intersection]: the ids marked in row [chain_id] of the
    matrix, without [chain_id] itself;
    [list.remove] raises [ValueError] when the value is absent. *)
Definition get_ids_chain_intersection (state : SystemStatus.t) (chain_id : Z)
    : Result (list Z) :=
  row ← np.get_row (SystemStatus.M state) chain_id;
  let ids_interseccion := np.where_eq_1 row in
  i ← from_option ValueError (Py.index_where (Z.eqb chain_id) ids_interseccion);
  mret (delete i ids_interseccion).

(** *** Parameter schedule *)

Fixpoint first_border (ch_s : list nat) : Rd nat :=
  match ch_s with
  | [] => raise_rd StopIteration
  | chain :: rest =>
      c ← get_chain chain;
      if decide (ch.Chain.type c = ch.border) then mret chain else first_border rest
  end.

Definition extract_border_chain_from_list (ch_s nodes_s : list nat)
    : Rd (nat * list nat * list nat) :=
  ch_s_without_border ←
    rd_filter (λ chain, c ← get_chain chain;
                 mret (negb (bool_decide (ch.Chain.type c = ch.border)))) ch_s;
  border_chain ← first_border ch_s;
  cb ← get_chain border_chain;
  nodes_s_without_border ←
    rd_filter (λ node, v ← get_node node;
                 mret (negb (bool_decide (ch.Node.chain_id v = ch.Chain.id cb)))) nodes_s;
  mret (border_chain, ch_s_without_border, nodes_s_without_border).

(** [ConnectParameters.__init__] *)
Definition ConnectParameters_init (ch_s nodes_s : list nat) : Rd ConnectParameters.t :=
  '(border_chain, ch_s_without_border, nodes_s_without_border) ←
    extract_border_chain_from_list ch_s nodes_s;
  mret (ConnectParameters.mk border_chain ch_s_without_border nodes_s_without_border).

Definition get_iteration_parameters (self : ConnectParameters.t) (counter : nat)
    : St IterationParams.t :=
  let param {A : Type} (table : list A) : St A :=
    read (pure (from_option IndexError (table !! counter))) in
  th_radial_tolerance ← param ConnectParameters.th_radial_tolerance;
  th_distribution_size ← param ConnectParameters.th_distribution_size;
  neighbourhood_size ← param ConnectParameters.neighbourhood_size;
  th_regular_derivative ← param ConnectParameters.th_regular_derivative;
  derivative_from_center ← param ConnectParameters.derivative_from_center;
  cb ← read (get_chain (ConnectParameters.border_chain self));
  let before_last := bool_decide (counter < ConnectParameters.iterations - 1)%nat in
  let l_ch_s :=
    if before_last then ConnectParameters.ch_s_without_border self
    else ConnectParameters.ch_s_without_border self ++ [ConnectParameters.border_chain self] in
  let l_nodes_s :=
    if before_last then ConnectParameters.nodes_s_without_border self
    else ConnectParameters.nodes_s_without_border self ++ ch.Chain.l_nodes cb in
  _ ← (if decide (counter = ConnectParameters.iterations - 1)%nat
       then change_id (ConnectParameters.border_chain self)
              (Z.of_nat (length (ConnectParameters.ch_s_without_border self)))
       else mret tt);
  mret (IterationParams.mk th_radial_tolerance th_distribution_size neighbourhood_size
          th_regular_derivative derivative_from_center l_ch_s l_nodes_s).

Definition update_list_for_next_iteration (self : ConnectParameters.t)
    (ch_c nodes_c : list nat) : ConnectParameters.t :=
  ConnectParameters.mk (ConnectParameters.border_chain self) ch_c nodes_c.

Definition copy_chains_and_nodes (ch_s : list nat) : St (list nat * list nat) :=
  ch_s ← st_map copy_chain ch_s;
  cs ← read (rd_map get_chain ch_s);
  mret (ch_s, concat (ch.Chain.l_nodes <$> cs)).

(** *** Entry point *)

(** One turn of the [for i in range(parameters.iterations)] loop of
    [merge_chains]: the parameters of column [i], one run of the main
    logic, and the hand-over of its result to the next turn. *)
Definition schedule_pass (fuel : nat) (cy cx : float) (nr : Z) (i : nat)
    (parameters : ConnectParameters.t) (M : Matrix)
    : St (list nat * ConnectParameters.t * Matrix) :=
  iteration_params ← get_iteration_parameters parameters i;
  '(l_ch_c, l_nodes_c, M) ←
    merge_chains_main_logic fuel M cy cx nr
      (IterationParams.l_ch_s iteration_params)
      (IterationParams.l_nodes_s iteration_params)
      (IterationParams.th_radial_tolerance iteration_params)
      (IterationParams.th_distribution_size iteration_params)
      (IterationParams.th_regular_derivative iteration_params)
      (IterationParams.neighbourhood_size iteration_params)
      (IterationParams.derivative_from_center iteration_params);
  mret (l_ch_c, update_list_for_next_iteration parameters l_ch_c l_nodes_c, M).

Fixpoint schedule (fuel : nat) (cy cx : float) (nr : Z) (counters : list nat)
    (l_ch_c : list nat) (parameters : ConnectParameters.t) (M : Matrix)
    : St (list nat * ConnectParameters.t * Matrix) :=
  match counters with
  | [] => mret (l_ch_c, parameters, M)
  | i :: rest =>
      '(l_ch_c, parameters, M) ← schedule_pass fuel cy cx nr i parameters M;
      schedule fuel cy cx nr rest l_ch_c parameters M
  end.

(** [merge_chains], Algorithm 3. *)
Definition merge_chains (fuel : nat) (l_ch_s : list nat) (cy cx : float) (nr : Z)
    : St (list nat) :=
  '(l_ch_s, l_nodes_s) ← copy_chains_and_nodes l_ch_s;
  parameters ← read (ConnectParameters_init l_ch_s l_nodes_s);
  M ← read (compute_intersection_matrix l_nodes_s nr);
  '(l_ch_c, _, _) ←
    schedule fuel cy cx nr (seq 0 ConnectParameters.iterations) [] parameters M;
  mret l_ch_c.

End merge_chains_py.

(** * Vocabulary of the statements *)

(** ** The intersection matrix *)


(** [M[a][b]] for in-range natural indices. *)
Definition mget (M : Matrix) (a b : nat) : option Z := row ← M !! a; row !! b.

(** An [n] by [n] array that is symmetric and has ones on the diagonal. *)
Record intersection_matrix (n : nat) (M : Matrix) : Prop := {
  im_rows : length M = n;
  im_cols : ∀ a row, M !! a = Some row → length row = n;
  im_symmetric : ∀ a b, mget M a b = mget M b a;
  im_diagonal : ∀ a, (a < n)%nat → mget M a a = Some 1
}.

(** The index at which position [i] was before position [k] was deleted. *)
Definition skip (k i : nat) : nat := if decide (i < k)%nat then i else S i.

(** An entry after it was assigned 1. *)
Definition mark (x : option Z) : option Z := (λ _, 1) <$> x.

(** ** The chains of a state *)

(** Everything of a chain but its four neighbour references. *)
Definition chain_core (c : ch.Chain.t)
    : Z * Z * Z * ch.TypeChains * list nat * option nat * option nat :=
  (ch.Chain.id c, ch.Chain.size c, ch.Chain.Nr c, ch.Chain.type c,
   ch.Chain.l_nodes c, ch.Chain.extA c, ch.Chain.extB c).

(** The store changed in neighbour references only. *)
Definition pointers_only (w w' : World) : Prop :=
  nodes w' = nodes w ∧ chain_core <$> chains w' = chain_core <$> chains w.

(** Renumbering: [x] becomes [x - 1] when it exceeds the deleted id. *)
Definition renumber (idk x : Z) : Z := if decide (x > idk) then x - 1 else x.

(** The live chains of a reachable state: every chain object occurs once
    in the list, no two live chains share an id, and no node is owned by
    two live chains. *)
Record live_chains (w : World) (l : list nat) : Prop := {
  live_nodup : NoDup l;
  live_ids : ∀ r1 r2 c1 c2,
    r1 ∈ l → r2 ∈ l → chains w !! r1 = Some c1 → chains w !! r2 = Some c2 →
    ch.Chain.id c1 = ch.Chain.id c2 → r1 = r2;
  live_owner : ∀ r1 r2 c1 c2 n,
    r1 ∈ l → r2 ∈ l → chains w !! r1 = Some c1 → chains w !! r2 = Some c2 →
    n ∈ ch.Chain.l_nodes c1 → n ∈ ch.Chain.l_nodes c2 → r1 = r2
}.

(** The endpoint of the candidate that faces the endpoint [e] of [ch_j]. *)
Definition opposite (e : ch.EndPoints) : ch.EndPoints :=
  if decide (e = ch.B) then ch.A else ch.B.

(** ** Neighbour references, visibility, order and growth of the store *)

(** Two nodes of [vals] lie on one of the [rays], one of them in the chain
    of row [a], the other in the chain of row [b]. *)
Definition share_ray (vals : list ch.Node.t) (rays : list float) (n a b : nat) : Prop :=
  ∃ angle u v,
    angle ∈ rays ∧ u ∈ vals ∧ v ∈ vals
    ∧ PyFloat.eqb (ch.Node.angle u) angle = true
    ∧ PyFloat.eqb (ch.Node.angle v) angle = true
    ∧ Py.np_index n (ch.Node.chain_id u) = Ok a
    ∧ Py.np_index n (ch.Node.chain_id v) = Ok b.

(** [np.logical_or] on two entries. *)
Definition entry_or (x y : option Z) : option Z :=
  x ← x; y ← y; Some (if decide (x = 0 ∧ y = 0) then 0 else 1).

(** A neighbour reference after [update_chain_after_connect]: a reference
    to a chain whose id is [idk] becomes a reference to [ch_j]. *)
Definition retarget (w : World) (ch_j : nat) (idk : Z) (p : option nat) : option nat :=
  match p with
  | Some q =>
      match chains w !! q with
      | Some cq => if decide (ch.Chain.id cq = idk) then Some ch_j else p
      | None => p
      end
  | None => None
  end.

Definition retarget_chain (w : World) (ch_j : nat) (idk : Z) (c : ch.Chain.t)
    : ch.Chain.t :=
  ch.Chain.set_B_inward (retarget w ch_j idk (ch.Chain.B_inward c))
    (ch.Chain.set_B_outward (retarget w ch_j idk (ch.Chain.B_outward c))
       (ch.Chain.set_A_inward (retarget w ch_j idk (ch.Chain.A_inward c))
          (ch.Chain.set_A_outward (retarget w ch_j idk (ch.Chain.A_outward c)) c))).

(** No two chains of the list share an id. *)
Definition distinct_ids (w : World) (l : list nat) : Prop :=
  ∀ r1 r2 c1 c2,
    r1 ∈ l → r2 ∈ l → chains w !! r1 = Some c1 → chains w !! r2 = Some c2 →
    ch.Chain.id c1 = ch.Chain.id c2 → r1 = r2.

(** [x == s] for two chains. *)
Definition same_id (w : World) (x s : nat) : Prop :=
  ∃ cx cs, chains w !! x = Some cx ∧ chains w !! s = Some cs
           ∧ ch.Chain.id cx = ch.Chain.id cs.

(** A neighbour reference of [x] towards the center, or away from it, is
    the chain [s] itself. *)
Definition points_inward (w : World) (s x : nat) : Prop :=
  ∃ c, chains w !! x = Some c
       ∧ (ch.Chain.A_inward c = Some s ∨ ch.Chain.B_inward c = Some s).
Definition points_outward (w : World) (s x : nat) : Prop :=
  ∃ c, chains w !! x = Some c
       ∧ (ch.Chain.A_outward c = Some s ∨ ch.Chain.B_outward c = Some s).

(** The neighbour reference of a candidate that must be the support
    chain: the one at the endpoint facing [ch_j], on the side of the
    support chain. *)
Definition facing_pointer (endpoint : ch.EndPoints) (location : ch.ChainLocation)
    : ch.Chain.t → option nat :=
  match endpoint, location with
  | ch.A, ch.inwards => ch.Chain.B_outward
  | ch.A, ch.outwards => ch.Chain.B_inward
  | ch.B, ch.inwards => ch.Chain.A_outward
  | ch.B, ch.outwards => ch.Chain.A_inward
  end.

(** Keys in descending order. *)
Definition descending {A : Type} (l : list (Z * A)) : Prop :=
  ∀ i j a b, (i ≤ j)%nat → l !! i = Some a → l !! j = Some b → b.1 ≤ a.1.

(** The store only grew: nodes were appended, and every chain kept its
    id, ray count and type, and the nodes it had, in front of new ones. *)
Definition only_grows (w w' : World) : Prop :=
  (∃ vs, nodes w' = nodes w ++ vs)
  ∧ ∀ r c, chains w !! r = Some c →
      ∃ c', chains w' !! r = Some c'
            ∧ ch.Chain.id c' = ch.Chain.id c ∧ ch.Chain.Nr c' = ch.Chain.Nr c
            ∧ ch.Chain.type c' = ch.Chain.type c
            ∧ ch.Chain.l_nodes c `prefix_of` ch.Chain.l_nodes c'.

(** [r'] is a deep copy of the chain [r], made after the store was [w]:
    in [w'] it is another chain object with the id, size, number of rays
    and type of [r], and its nodes are other node objects, made after
    [w] as well, with the values of the nodes of [r]. *)
Definition deep_copy (w w' : World) (r r' : nat) : Prop :=
  (length (chains w) ≤ r')%nat
  ∧ ∃ c c',
      chains w' !! r = Some c ∧ chains w' !! r' = Some c'
      ∧ ch.Chain.id c' = ch.Chain.id c ∧ ch.Chain.size c' = ch.Chain.size c
      ∧ ch.Chain.Nr c' = ch.Chain.Nr c ∧ ch.Chain.type c' = ch.Chain.type c
      ∧ Forall2 (λ n n', (length (nodes w) ≤ n')%nat
                         ∧ ∃ v, nodes w' !! n = Some v ∧ nodes w' !! n' = Some v)
          (ch.Chain.l_nodes c) (ch.Chain.l_nodes c').

(** The bookkeeping of the outer loop: the length of the chain list at
    the start of the turn and the number of turns since the last merge. *)
Definition same_counters (s s' : SystemStatus.t) : Prop :=
  SystemStatus.size_l_chain_init s' = SystemStatus.size_l_chain_init s
  ∧ SystemStatus.iterations_since_last_change s'
    = SystemStatus.iterations_since_last_change s.

(** What the inner loop does to the chain list and to its candidates:
    it only removes chains, and only candidates. *)
Definition merged_only (state : SystemStatus.t) (cands : list nat)
    (state' : SystemStatus.t) (cands' : list nat) : Prop :=
  same_counters state state'
  ∧ (∀ x, x ∈ cands' → x ∈ cands)
  ∧ (∀ x, x ∈ SystemStatus.l_ch_s state' → x ∈ SystemStatus.l_ch_s state)
  ∧ (∀ x, x ∈ SystemStatus.l_ch_s state → x ∉ cands → x ∈ SystemStatus.l_ch_s state')
  ∧ (length (SystemStatus.l_ch_s state') ≤ length (SystemStatus.l_ch_s state))%nat.

Section driver.
Context `{Collaborators}.

(** A chain is admissible for [ch_j] when it passed the connectivity
    goodness condition. *)
Definition admissible (state : SystemStatus.t) (ch_j ch_i : nat) (e : ch.EndPoints)
    (w : World) (k : nat) : Prop :=
  ∃ d, connectivity_goodness_condition state ch_j k ch_i e w = Ok (true, d).

(** Consecutive turns of the outer loop in which no chain is merged: the
    chain list stays as it is, and every call of [find_support_chain]
    receives the chain the previous call returned.  Runs at most [n] calls
    and stops at the first call that returns [None]. *)
Fixpoint idle_calls (n : nat) (state : SystemStatus.t) (ch_i : nat)
    (l_s_outward l_s_inward : option (list nat)) : Rd (option nat * SystemStatus.t) :=
  match n with
  | O => mret (Some ch_i, state)
  | S n' =>
      '(r, state) ← find_support_chain state (Some ch_i) l_s_outward l_s_inward;
      match r with
      | None => mret (None, state)
      | Some ch_i => idle_calls n' state ch_i l_s_outward l_s_inward
      end
  end.

(** The first [k] turns of the loop of [merge_chains]. *)
Definition first_passes (k : nat) (fuel : nat) (l_ch_s : list nat) (cy cx : float) (nr : Z)
    : St (list nat * ConnectParameters.t * Matrix) :=
  '(l_ch_s, l_nodes_s) ← copy_chains_and_nodes l_ch_s;
  parameters ← read (ConnectParameters_init l_ch_s l_nodes_s);
  M ← read (compute_intersection_matrix l_nodes_s nr);
  schedule fuel cy cx nr (seq 0 k) [] parameters M.

(** The state in which the support-chain driver starts its first pass:
    the entry of [merge_chains], the parameters of column 0, the
    initialisation of [merge_chains_main_logic] and the first call of
    [find_support_chain]. *)
Definition first_pass_start (l_ch_s : list nat) (cy cx : float) (nr : Z)
    : St (option nat * SystemStatus.t) :=
  '(_, parameters, M) ← first_passes 0 0 l_ch_s cy cx nr;
  p ← get_iteration_parameters parameters 0;
  state ← SystemStatus_init (IterationParams.l_ch_s p) (IterationParams.l_nodes_s p) M
            cy cx nr (IterationParams.th_radial_tolerance p)
            (IterationParams.th_distribution_size p)
            (IterationParams.th_regular_derivative p)
            (IterationParams.neighbourhood_size p)
            (IterationParams.derivative_from_center p);
  read (find_support_chain state None None None).

(** A chain of the neighbourhood of the endpoint of [ch_j]. *)
Definition in_neighbourhood (state : SystemStatus.t) (ch_j ch_i : nat)
    (location : ch.ChainLocation) (endpoint : ch.EndPoints) (w : World) (k : nat) : Prop :=
  ∃ ck cj,
    chains w !! k = Some ck ∧ chains w !! ch_j = Some cj
    ∧ ch.Chain.id ck ≠ ch.Chain.id cj
    ∧ PyFloat.leb (angular_distance_between_chains w ch_j k endpoint)
        (PyFloat.of_Z (SystemStatus.neighbourhood_size state)) = true
    ∧ chain_py.opt_chain_eq (facing_pointer endpoint location ck) ch_i w = Ok true.

(** [n] turns of the inner [while] loop of [merge_chains_main_logic]. *)
Fixpoint candidate_turns (n : nat) (state : SystemStatus.t) (candidates_chi : list nat)
    (j_pointer : nat) (ch_i : nat) (location : ch.ChainLocation)
    : St (SystemStatus.t * list nat * nat) :=
  match n with
  | O => mret (state, candidates_chi, j_pointer)
  | S n =>
      '(state, candidates_chi, j_pointer) ←
        candidate_step state candidates_chi j_pointer ch_i location;
      candidate_turns n state candidates_chi j_pointer ch_i location
  end.

(** The inner [while] loop of [merge_chains_main_logic] with no bound on
    its turns: [candidates_run ch_i location state candidates_chi
    j_pointer w r] holds when the loop, entered with these values, leaves
    with result [r], after finitely many turns. *)
Inductive candidates_run (ch_i : nat) (location : ch.ChainLocation)
  : SystemStatus.t → list nat → nat → World
    → Result (SystemStatus.t * list nat * World) → Prop :=
| candidates_run_exit state candidates_chi j_pointer w :
    (length candidates_chi ≤ j_pointer)%nat →
    candidates_run ch_i location state candidates_chi j_pointer w
      (Ok ((state, candidates_chi), w))
| candidates_run_raise state candidates_chi j_pointer w e :
    (j_pointer < length candidates_chi)%nat →
    candidate_step state candidates_chi j_pointer ch_i location w = Raise e →
    candidates_run ch_i location state candidates_chi j_pointer w (Raise e)
| candidates_run_turn state candidates_chi j_pointer w state' candidates_chi' j_pointer' w' r :
    (j_pointer < length candidates_chi)%nat →
    candidate_step state candidates_chi j_pointer ch_i location w
    = Ok ((state', candidates_chi', j_pointer'), w') →
    candidates_run ch_i location state' candidates_chi' j_pointer' w' r →
    candidates_run ch_i location state candidates_chi j_pointer w r.

(** One turn of the outer [while ch_i:] loop, its two inner loops run
    with no bound on their turns. *)
Definition support_turn (state : SystemStatus.t) (ch_i : nat) (w : World)
    (r : Result (option nat * SystemStatus.t * World)) : Prop :=
  match read (find_visible_chains (SystemStatus.l_ch_s state) ch_i) w with
  | Raise e => r = Raise e
  | Ok ((l_s_outward, l_s_inward), w) =>
      ∃ r_inward, candidates_run ch_i ch.inwards state l_s_inward 0 w r_inward
        ∧ match r_inward with
          | Raise e => r = Raise e
          | Ok ((state, l_s_inward), w) =>
              ∃ r_outward,
                candidates_run ch_i ch.outwards state l_s_outward 0 w r_outward
                ∧ match r_outward with
                  | Raise e => r = Raise e
                  | Ok ((state, l_s_outward), w) =>
                      r = read (find_support_chain state (Some ch_i) (Some l_s_outward)
                                  (Some l_s_inward)) w
                  end
          end
  end.

(** The outer loop with no bound on its turns: [support_run n state ch_i
    w r] holds when the loop, entered with these values, leaves with
    result [r] after [n] turns. *)
Inductive support_run
  : nat → SystemStatus.t → option nat → World → Result (SystemStatus.t * World) → Prop :=
| support_run_exit state w : support_run 0 state None w (Ok (state, w))
| support_run_raise state ch_i w e :
    support_turn state ch_i w (Raise e) → support_run 1 state (Some ch_i) w (Raise e)
| support_run_turn n state ch_i w ch_i' state' w' r :
    support_turn state ch_i w (Ok ((ch_i', state'), w')) →
    support_run n state' ch_i' w' r →
    support_run (S n) state (Some ch_i) w r.

End driver.

(** * A concrete geometry

    The geometric routines of the program are parameters of the
    development.  The instance below is a small geometry in which every
    node sits on a ray at a given radial distance; it is used to run the
    program on concrete chains. *)

Module RayGeometry.

Definition node_at (a r id : Z) : ch.Node.t :=
  ch.Node.mk (PyFloat.of_Z a) (PyFloat.of_Z r) id (PyFloat.of_Z r) (PyFloat.of_Z a).

Definition pick (better : float → float → bool) (l : list (nat * ch.Node.t)) : option nat :=
  fst <$> foldl (λ acc p,
            match acc with
            | None => Some p
            | Some q => if better (ch.Node.angle p.2) (ch.Node.angle q.2) then Some p else Some q
            end) None l.

Definition endpoints (l : list (nat * ch.Node.t)) : option nat * option nat :=
  (pick PyFloat.ltb l, pick (λ a b, PyFloat.ltb b a) l).

Definition euclid (a b : ch.Node.t) : float :=
  let dx := PyFloat.sub (ch.Node.x a) (ch.Node.x b) in
  let dy := PyFloat.sub (ch.Node.y a) (ch.Node.y b) in
  PyFloat.sqrt (PyFloat.add (PyFloat.mul dx dx) (PyFloat.mul dy dy)).

Definition ext (w : World) (r : nat) (e : ch.EndPoints) : option ch.Node.t :=
  c ← chains w !! r;
  n ← (if decide (e = ch.A) then ch.Chain.extA c else ch.Chain.extB c);
  nodes w !! n.

Definition wrap (d : float) : float :=
  if PyFloat.ltb d PyFloat.zero then PyFloat.add d (PyFloat.of_Z 360) else d.

Definition infinity : float := S754_infinity false.

Definition ang_dist (w : World) (ch_j cand : nat) (e : ch.EndPoints) : float :=
  match ext w ch_j e, ext w cand (if decide (e = ch.A) then ch.B else ch.A) with
  | Some a, Some b =>
      if decide (e = ch.A)
      then wrap (PyFloat.sub (ch.Node.angle a) (ch.Node.angle b))
      else wrap (PyFloat.sub (ch.Node.angle b) (ch.Node.angle a))
  | _, _ => infinity
  end.

Definition fmin (a b : float) : float := if PyFloat.ltb b a then b else a.

Definition min_euclid (w : World) (c1 c2 : nat) : float :=
  match ext w c1 ch.A, ext w c1 ch.B, ext w c2 ch.A, ext w c2 ch.B with
  | Some a1, Some b1, Some a2, Some b2 =>
      fmin (fmin (euclid a1 a2) (euclid a1 b2)) (fmin (euclid b1 a2) (euclid b1 b2))
  | _, _, _, _ => infinity
  end.

Definition rays_between (lo hi : float) (Nr : Z) : list float :=
  match Py.np_arange_0_360 Nr with
  | Ok rays => filter (λ r, PyFloat.leb lo r && PyFloat.leb r hi = true) rays
  | Raise _ => []
  end.

Definition domain (e : ch.EndPoints) (n1 n2 : ch.Node.t) (Nr : Z) : list float :=
  if decide (e = ch.A) then rays_between (ch.Node.angle n2) (ch.Node.angle n1) Nr
  else rays_between (ch.Node.angle n1) (ch.Node.angle n2) Nr.

Definition interpolate (w : World) (ch_i : option nat) (ej ek : nat) (e : ch.EndPoints)
    (ch_j : nat) (support2 : option nat) : Result (list ch.Node.t) :=
  match ch_i, nodes w !! ej, nodes w !! ek, chains w !! ch_j with
  | Some _, Some nj, Some nk, Some cj =>
      Ok ((λ a, ch.Node.mk a (ch.Node.y nj) (ch.Chain.id cj) (ch.Node.radial_distance nj) a)
          <$> filter (λ r, negb (PyFloat.eqb r (ch.Node.angle nj))
                           && negb (PyFloat.eqb r (ch.Node.angle nk)) = true)
                (domain e nj nk (ch.Chain.Nr cj)))
  | _, _, _, _ => Raise AttributeError
  end.

Definition fabs (a : float) : float :=
  if PyFloat.ltb a PyFloat.zero then PyFloat.sub PyFloat.zero a else a.

Definition similar (w : World) (state : SystemStatus.t) (th_radial_tolerance : float)
    (th_distribution_size : Z) (th_regular_derivative : float)
    (derivative_from_center : bool) (ch_i ch_j candidate : nat) (e : ch.EndPoints)
    (check_overlapping : bool) : bool * float :=
  match ext w ch_j e, ext w candidate (if decide (e = ch.A) then ch.B else ch.A) with
  | Some a, Some b =>
      let d := fabs (PyFloat.sub (ch.Node.radial_distance a) (ch.Node.radial_distance b)) in
      (PyFloat.leb d (PyFloat.mul th_radial_tolerance (ch.Node.radial_distance a)), d)
  | _, _ => (false, PyFloat.minus_one)
  end.

#[export] Instance collaborators : Collaborators := {|
  angular_endpoints := endpoints;
  euclidean_distance_between_nodes := euclid;
  angular_distance_between_chains := ang_dist;
  minimum_euclidean_distance_between_chains_endpoints := min_euclid;
  compute_interpolation_domain := domain;
  interpolate_nodes_given_chains := interpolate;
  similarity_conditions := similar;
  exist_chain_overlapping := λ _ _ _ _ _ _ _, false
|}.

Definition make_chain (id : Z) (type : ch.TypeChains) (Nr : Z) (r : Z) (rays : list Z)
    : St nat :=
  ns ← st_map (λ a, new_node (node_at a r id)) rays;
  c ← new_chain (ch.Chain.mk id 0 Nr type [] None None None None None None);
  _ ← chain_py.add_nodes_list c ns;
  mret c.

Definition empty_world : World := mkWorld [] [].
Definition no_state : SystemStatus.t :=
  SystemStatus.mk [] [] 0 false 0 0 [] (PyFloat.zero, PyFloat.zero) 0 0
    PyFloat.zero PyFloat.zero true None None.

Definition world_of {A : Type} (m : St A) : World :=
  match m empty_world with Ok (_, w) => w | Raise _ => empty_world end.
Definition result_of {A : Type} (d : A) (m : St A) : A :=
  match m empty_world with Ok (a, _) => a | Raise _ => d end.
Definition state_of {A : Type} (m : St (A * SystemStatus.t)) : SystemStatus.t :=
  match m empty_world with Ok ((_, s), _) => s | Raise _ => no_state end.

(** Two arcs [J] and [K] on the rays 0, 5 and 15, 20, at the radial
    distances 20 and [rK], above the arc [I] and below the border chain. *)
Definition two_arcs (rK : Z) : St (list nat) :=
  i ← make_chain 0 ch.normal 72 10 [0; 5; 10; 15; 20];
  j ← make_chain 1 ch.normal 72 20 [0; 5];
  k ← make_chain 2 ch.normal 72 rK [15; 20];
  b ← make_chain 3 ch.border 72 100 [0; 5; 10; 15; 20];
  mret [i; j; k; b].

Definition start1 : St (option nat * SystemStatus.t) :=
  l ← two_arcs 20; first_pass_start l PyFloat.zero PyFloat.zero 72.

(** The copies made at entry are the chains 4 ([I]), 5 ([J]), 6 ([K]) and
    7 (the border chain). *)
Definition world1 : World := Eval vm_compute in world_of start1.
Definition state1 : SystemStatus.t := Eval vm_compute in state_of start1.

(** The merge of [K] into [J] at the endpoint B of [J]. *)
Definition merge1 : St (SystemStatus.t * list nat) :=
  merge_and_update state1 5 6 ch.B 4 [5; 6]%nat.
Definition world2 : World :=
  Eval vm_compute in match merge1 world1 with Ok (_, w) => w | Raise _ => empty_world end.
Definition state2 : SystemStatus.t :=
  Eval vm_compute in match merge1 world1 with Ok ((s, _), _) => s | Raise _ => no_state end.

(** The arc [K] at the radial distance 23: too far from [J] for the
    radial tolerance of pass 0, near enough for the one of pass 1. *)
Definition passes23 (k : nat) : St (list nat * ConnectParameters.t * Matrix) :=
  l ← two_arcs 23; first_passes k 50 l PyFloat.zero PyFloat.zero 72.

Definition no_pass : list nat * ConnectParameters.t * Matrix :=
  ([], ConnectParameters.mk 0 [] [], []).
Definition pass0 : list nat * ConnectParameters.t * Matrix :=
  Eval vm_compute in result_of no_pass (passes23 1).
Definition world_pass0 : World := Eval vm_compute in world_of (passes23 1).
Definition pass1 : list nat * ConnectParameters.t * Matrix :=
  Eval vm_compute in result_of no_pass (passes23 2).
Definition world_pass1 : World := Eval vm_compute in world_of (passes23 2).

(** The parameters, the matrix and the store at the start of pass 0. *)
Definition start23 : list nat * ConnectParameters.t * Matrix :=
  Eval vm_compute in result_of no_pass (passes23 0).
Definition world_start23 : World := Eval vm_compute in world_of (passes23 0).

(** Three arcs in a row: [K1] on the rays 0, 5, [J] on 15, 20 and [K2] on
    30, 35.  The copies are the chains 5 ([I]), 6 ([K1]), 7 ([J]), 8 ([K2])
    and 9 (the border chain). *)
Definition three_arcs : St (list nat) :=
  i ← make_chain 0 ch.normal 72 10 [0; 5; 10; 15; 20; 25; 30; 35];
  k1 ← make_chain 1 ch.normal 72 20 [0; 5];
  j ← make_chain 2 ch.normal 72 20 [15; 20];
  k2 ← make_chain 3 ch.normal 72 20 [30; 35];
  b ← make_chain 4 ch.border 72 100 [0; 5; 10; 15; 20; 25; 30; 35];
  mret [i; k1; j; k2; b].

Definition start3 : St (option nat * SystemStatus.t) :=
  l ← three_arcs; first_pass_start l PyFloat.zero PyFloat.zero 72.
Definition world3 : World := Eval vm_compute in world_of start3.
Definition state3 : SystemStatus.t := Eval vm_compute in state_of start3.

(** Three rays only: two chains of two nodes each (chains 0 and 1) and a
    chain that covers all the rays (chain 2). *)
Definition three_rays : St (list nat) :=
  a ← make_chain 0 ch.normal 3 10 [0; 120];
  b ← make_chain 1 ch.normal 3 20 [120; 240];
  c ← make_chain 2 ch.normal 3 30 [0; 120; 240];
  mret [a; b; c].
Definition world_three_rays : World := Eval vm_compute in world_of three_rays.

(** The same geometry with an interpolation that goes round the full
    turn, from the last ray on to the first: the one a chain is closed
    with. *)
Definition rays_around (lo hi : float) (Nr : Z) : list float :=
  if PyFloat.ltb hi lo then
    match Py.np_arange_0_360 Nr with
    | Ok rays => filter (λ r, PyFloat.leb lo r || PyFloat.leb r hi = true) rays
    | Raise _ => []
    end
  else rays_between lo hi Nr.

Definition interpolate_around (w : World) (ch_i : option nat) (ej ek : nat)
    (e : ch.EndPoints) (ch_j : nat) (support2 : option nat) : Result (list ch.Node.t) :=
  match ch_i, nodes w !! ej, nodes w !! ek, chains w !! ch_j with
  | Some _, Some nj, Some nk, Some cj =>
      Ok ((λ a, ch.Node.mk a (ch.Node.y nj) (ch.Chain.id cj) (ch.Node.radial_distance nj) a)
          <$> filter (λ r, negb (PyFloat.eqb r (ch.Node.angle nj))
                           && negb (PyFloat.eqb r (ch.Node.angle nk)) = true)
                (if decide (e = ch.A)
                 then rays_around (ch.Node.angle nk) (ch.Node.angle nj) (ch.Chain.Nr cj)
                 else rays_around (ch.Node.angle nj) (ch.Node.angle nk) (ch.Chain.Nr cj)))
  | _, _, _, _ => Raise AttributeError
  end.

Definition full_turn : Collaborators := {|
  angular_endpoints := endpoints;
  euclidean_distance_between_nodes := euclid;
  angular_distance_between_chains := ang_dist;
  minimum_euclidean_distance_between_chains_endpoints := min_euclid;
  compute_interpolation_domain := domain;
  interpolate_nodes_given_chains := interpolate_around;
  similarity_conditions := similar;
  exist_chain_overlapping := λ _ _ _ _ _ _ _, false
|}.

(** Ten rays: the chain [I] on all of them (chain 0) and the chain [J]
    on all but the last (chain 1), above [I]. *)
Definition open_ring : St SystemStatus.t :=
  i ← make_chain 0 ch.normal 10 10 [0; 36; 72; 108; 144; 180; 216; 252; 288; 324];
  j ← make_chain 1 ch.normal 10 20 [0; 36; 72; 108; 144; 180; 216; 252; 288];
  M ← read (compute_intersection_matrix (seq 0 19) 10);
  SystemStatus_init [i; j] (seq 0 19) M PyFloat.zero PyFloat.zero 10
    PyFloat.lit_0_1 2 PyFloat.lit_1_5 10 false.
Definition world_ring : World := Eval vm_compute in world_of open_ring.
Definition state_ring : SystemStatus.t :=
  Eval vm_compute in
    match open_ring empty_world with Ok (s, _) => s | Raise _ => no_state end.

End RayGeometry.

(** * Reasoning principles for the three layers *)

Lemma Result_bind_Ok {A B : Type} (m : Result A) (f : A → Result B) (b : B) :
  m ≫= f = Ok b ↔ ∃ a, m = Ok a ∧ f a = Ok b.
Proof.
  unfold mbind, Result_bind. destruct m as [a|e]; split.
  - intros Hf. by exists a.
  - by intros (a' & [= <-] & Hf).
  - discriminate.
  - by intros (a' & ? & _).
Qed.

Lemma Rd_bind_Ok {A B : Type} (m : Rd A) (f : A → Rd B) (w : World) (b : B) :
  (m ≫= f) w = Ok b ↔ ∃ a, m w = Ok a ∧ f a w = Ok b.
Proof.
  unfold mbind, Rd_bind. destruct (m w) as [a|e]; split.
  - intros Hf. by exists a.
  - by intros (a' & [= <-] & Hf).
  - discriminate.
  - by intros (a' & ? & _).
Qed.

Lemma St_bind_Ok {A B : Type} (m : St A) (f : A → St B) (w w' : World) (b : B) :
  (m ≫= f) w = Ok (b, w') ↔ ∃ a w1, m w = Ok (a, w1) ∧ f a w1 = Ok (b, w').
Proof.
  unfold mbind, St_bind. destruct (m w) as [[a w1]|e]; split.
  - intros Hf. by exists a, w1.
  - by intros (a' & w1' & [= <- <-] & Hf).
  - discriminate.
  - by intros (a' & w1' & ? & _).
Qed.

Lemma read_Ok {A : Type} (m : Rd A) (w w' : World) (a : A) :
  read m w = Ok (a, w') ↔ m w = Ok a ∧ w' = w.
Proof.
  unfold read. destruct (m w) as [a'|e]; split.
  - by intros [= <- <-].
  - by intros [[= <-] ->].
  - discriminate.
  - by intros [? _].
Qed.

Lemma pure_Ok {A : Type} (r : Result A) (w : World) (a : A) : pure r w = Ok a ↔ r = Ok a.
Proof. done. Qed.

Lemma Rd_ret_Ok {A : Type} (a b : A) (w : World) : (mret a : Rd A) w = Ok b ↔ a = b.
Proof. unfold mret, Rd_ret. split; [by intros [= <-] | by intros <-]. Qed.

Lemma St_ret_Ok {A : Type} (a b : A) (w w' : World) :
  (mret a : St A) w = Ok (b, w') ↔ a = b ∧ w = w'.
Proof. unfold mret, St_ret. split; [by intros [= <- <-] | by intros [<- <-]]. Qed.

Lemma from_option_Ok {A : Type} (e : exn) (o : option A) (a : A) :
  from_option e o = Ok a ↔ o = Some a.
Proof. destruct o; simpl; split; congruence. Qed.

Lemma get_chain_Ok (r : nat) (w : World) (c : ch.Chain.t) :
  get_chain r w = Ok c ↔ chains w !! r = Some c.
Proof. apply from_option_Ok. Qed.

Lemma get_node_Ok (r : nat) (w : World) (v : ch.Node.t) :
  get_node r w = Ok v ↔ nodes w !! r = Some v.
Proof. apply from_option_Ok. Qed.

(** One step of inversion of a successful run. *)
Ltac inv_step H :=
  lazymatch type of H with
  | (_ ≫= _) _ = Ok _ =>
      let a := fresh "a" in let w := fresh "w" in
      let H1 := fresh H in
      first [ apply St_bind_Ok in H as (a & w & H1 & H)
            | apply Rd_bind_Ok in H as (a & H1 & H) ]
  | _ ≫= _ = Ok _ =>
      let a := fresh "a" in
      let H1 := fresh H in
      apply Result_bind_Ok in H as (a & H1 & H)
  | read _ _ = Ok (_, _) =>
      let Hw := fresh "Hw" in
      apply read_Ok in H as [H Hw]; subst
  | pure _ _ = Ok _ => apply pure_Ok in H
  | from_option _ _ = Ok _ => apply from_option_Ok in H
  | get_chain _ _ = Ok _ => apply get_chain_Ok in H
  | get_node _ _ = Ok _ => apply get_node_Ok in H
  | mret _ _ = Ok _ =>
      let Hw := fresh "Hw" in
      first [ apply St_ret_Ok in H as [H Hw]; subst
            | apply Rd_ret_Ok in H; subst ]
  | mret _ = Ok _ => injection H as H; subst
  | raise_rd _ _ = Ok _ => discriminate H
  | raise_st _ _ = Ok _ => discriminate H
  | Raise _ = Ok _ => discriminate H
  | Ok _ = Ok _ => injection H as H; subst
  end.

(** Inversion of every successful run among the hypotheses. *)
Ltac inv_all :=
  repeat match goal with
         | H : _ = Ok _ |- _ => inv_step H
         end.

(** Boolean tests among the hypotheses, as propositions. *)
Ltac bool_hyps :=
  repeat match goal with
         | H : negb _ = true |- _ => apply negb_true_iff in H
         | H : negb _ = false |- _ => apply negb_false_iff in H
         | H : bool_decide _ = true |- _ => apply bool_decide_eq_true in H
         | H : bool_decide _ = false |- _ => apply bool_decide_eq_false in H
         | H : _ && _ = true |- _ => apply andb_true_iff in H as [? ?]
         | H : _ || _ = false |- _ => apply orb_false_iff in H as [? ?]
         end.

Import chain_py.

(** * Lemmas about the program *)

(** ** Comparison of floats *)

Lemma nonneg_not_minus_one (d : float) :
  PyFloat.leb PyFloat.zero d = true → PyFloat.eqb d PyFloat.minus_one = false.
Proof.
  unfold PyFloat.leb, PyFloat.eqb, SFleb, SFeqb, PyFloat.zero, PyFloat.minus_one.
  destruct d as [s|s| |s m e]; try destruct s; cbn [SFcompare]; try done.
Qed.

Lemma SFcompare_antisym (a b : float) (c : comparison) :
  SFcompare a b = Some c → SFcompare b a = Some (CompOpp c).
Proof.
  destruct a as [sa|sa| |sa ma ea], b as [sb|sb| |sb mb eb]; cbn [SFcompare]; try done;
    try (intros [= <-]; by repeat case_match).
  intros [= <-]. f_equal.
  destruct sa, sb; cbn [CompOpp]; try done.
  - rewrite (Z.compare_antisym ea eb).
    destruct (ea ?= eb)%Z eqn:He; cbn [CompOpp]; try done.
    rewrite (Pos.compare_cont_antisym mb ma Eq). cbn [CompOpp].
    by rewrite CompOpp_involutive.
  - rewrite (Z.compare_antisym ea eb).
    destruct (ea ?= eb)%Z eqn:He; cbn [CompOpp]; try done.
    by rewrite (Pos.compare_cont_antisym ma mb Eq).
Qed.

Lemma nonneg_total (a b : float) :
  PyFloat.leb PyFloat.zero a = true → PyFloat.leb PyFloat.zero b = true →
  PyFloat.leb b a = false → PyFloat.ltb a b = true.
Proof.
  unfold PyFloat.leb, PyFloat.ltb, SFleb, SFltb, PyFloat.zero. intros Ha Hb.
  destruct (SFcompare b a) as [c|] eqn:Hc.
  - apply SFcompare_antisym in Hc. rewrite Hc. by destruct c.
  - destruct a as [sa|sa| |sa ma ea], b as [sb|sb| |sb mb eb]; cbn [SFcompare] in *; done.
Qed.

(** ** Lists, filters and sorting *)

(** ** Lists *)

Lemma rd_filter_Ok {A : Type} (f : A → Rd bool) (l r : list A) (w : World) :
  rd_filter f l w = Ok r →
  ∀ x, x ∈ r ↔ x ∈ l ∧ f x w = Ok true.
Proof.
  revert r. induction l as [|a l IH]; intros r Hr x; simpl in Hr.
  - inv_step Hr. split; [by intros ?%elem_of_nil | by intros [?%elem_of_nil _]].
  - inv_step Hr. inv_step Hr. inv_step Hr.
    specialize (IH _ Hr1 x). destruct a0.
    + rewrite !elem_of_cons, IH. split.
      * intros [->|[??]]; [split; [by left|done] | split; [by right|done]].
      * intros [[->|?] ?]; [by left | by right].
    + rewrite elem_of_cons, IH. split.
      * intros [??]. split; [by right|done].
      * intros [[->|?] Hf]; [congruence|done].
Qed.

Lemma insert_sorted_elem {A : Type} (lt : A → A → bool) (x y : A) (l : list A) :
  y ∈ Py.insert_sorted lt x l ↔ y = x ∨ y ∈ l.
Proof.
  induction l as [|a l IH]; simpl.
  - rewrite list_elem_of_singleton, elem_of_nil. tauto.
  - destruct (lt x a); rewrite !elem_of_cons; [tauto|]. rewrite IH. tauto.
Qed.

Lemma sorted_elem {A : Type} (lt : A → A → bool) (y : A) (l : list A) :
  y ∈ Py.sorted lt l ↔ y ∈ l.
Proof.
  unfold Py.sorted.
  assert (Hgen : ∀ acc, y ∈ foldl (λ acc x, Py.insert_sorted lt x acc) acc l ↔ y ∈ acc ∨ y ∈ l).
  { induction l as [|a l IH]; intros acc; simpl.
    - rewrite elem_of_nil. tauto.
    - rewrite IH, insert_sorted_elem, elem_of_cons. tauto. }
  rewrite Hgen, elem_of_nil. tauto.
Qed.

Lemma sorted_by_key_elem {K A : Type} (lt : K → K → bool) (y : A) (l : list (K * A)) :
  y ∈ Py.sorted_by_key lt l ↔ y ∈ l.*2.
Proof.
  unfold Py.sorted_by_key. rewrite !list_elem_of_fmap.
  split; intros (p & -> & Hp); exists p; split; try done.
  - by apply sorted_elem in Hp.
  - by apply sorted_elem.
Qed.

Lemma where_eq_1_elem (v : list Z) (j : Z) :
  j ∈ np.where_eq_1 v ↔ 0 ≤ j ∧ v !! Z.to_nat j = Some 1.
Proof.
  unfold np.where_eq_1. rewrite list_elem_of_fmap. split.
  - intros ([i x] & -> & Hin). apply list_elem_of_filter in Hin as [Hx Hin]. simpl in *.
    subst x. apply list_elem_of_lookup in Hin as [k Hk].
    apply lookup_zip_with_Some in Hk as (a & b & [= <- <-] & Ha & Hb).
    rewrite list_lookup_fmap in Ha. apply fmap_Some in Ha as (k' & Hk' & ->).
    apply lookup_seq in Hk' as [-> _]. simpl. split; [lia|]. by rewrite Nat2Z.id.
  - intros [Hj Hv]. exists (j, 1). split; [done|].
    apply list_elem_of_filter. split; [done|].
    apply list_elem_of_lookup. exists (Z.to_nat j).
    apply lookup_zip_with_Some. exists j, 1. split; [done|]. split; [|done].
    rewrite list_lookup_fmap. apply lookup_lt_Some in Hv as Hlt.
    rewrite lookup_seq_lt by done. simpl. f_equal. lia.
Qed.

Lemma elem_of_concat {A : Type} (x : A) (ls : list (list A)) :
  x ∈ concat ls ↔ ∃ l, x ∈ l ∧ l ∈ ls.
Proof.
  rewrite list_elem_of_In, in_concat. split.
  - intros (l & Hl & Hx). exists l. by rewrite !list_elem_of_In.
  - intros (l & Hx & Hl). exists l. by rewrite <- !list_elem_of_In.
Qed.

(** ** The search for the closest chain *)

Section closest_chain_search.
Context `{Collaborators}.

Lemma find_non_intersection_Ok (M : Matrix) (l r : list nat) (ch_j : nat) (w : World) :
  find_non_intersection M l ch_j w = Ok r →
  ∃ cj row,
    chains w !! ch_j = Some cj ∧ np.get_row M (ch.Chain.id cj) = Ok row ∧
    ∀ x, x ∈ r ↔ x ∈ l ∧ ∃ cx, chains w !! x = Some cx
                              ∧ ch.Chain.id cx ∉ np.where_eq_1 row.
Proof.
  intros Hr. unfold find_non_intersection, ids_intersecting in Hr.
  inv_all. eexists _, _. split_and!; try eassumption.
  intros x. rewrite (rd_filter_Ok _ _ _ _ Hr x). apply and_iff_compat_l.
  unfold id_in. split.
  - intros Hx. inv_all. bool_hyps. eauto.
  - intros (cx & Hcx & Hnot). unfold mbind, Rd_bind, get_chain. rewrite Hcx. simpl.
    unfold mret, Rd_ret. f_equal. apply negb_true_iff. by apply bool_decide_eq_false.
Qed.

Lemma chains_within_angular_neighbourhood_elem (n : Z) (l : list nat) (ch_j : nat)
    (e : ch.EndPoints) (w : World) (r : list Set_) :
  chains_within_angular_neighbourhood n l ch_j e w = Ok r → ∀ s, s ∈ r → s.2 ∈ l.
Proof.
  revert r. induction l as [|a l IH]; intros r Hr s Hs; simpl in Hr.
  - inv_step Hr. by apply elem_of_nil in Hs.
  - inv_all. case_match; inv_step Hr.
    + apply elem_of_cons in Hs as [->|Hs]; [left|right; by eapply IH].
    + right. by eapply IH.
Qed.

Lemma rd_map_Ok_elem {A B : Type} (f : A → Rd B) (l : list A) (r : list B) (w : World) :
  rd_map f l w = Ok r → ∀ b, b ∈ r → ∃ a, a ∈ l ∧ f a w = Ok b.
Proof.
  revert r. induction l as [|a l IH]; intros r Hr b Hb; simpl in Hr.
  - inv_step Hr. by apply elem_of_nil in Hb.
  - inv_all. apply elem_of_cons in Hb as [->|Hb].
    + exists a. split; [left|done].
    + destruct (IH _ Hr1 b Hb) as (a' & ? & ?). exists a'. split; [by right|done].
Qed.

Lemma sort_chains_in_neighbourhood_elem (l r : list Set_) (ch_j : nat) (w : World) :
  sort_chains_in_neighbourhood l ch_j w = Ok r → ∀ s, s ∈ r → s.2 ∈ l.*2.
Proof.
  intros Hr s Hs. unfold sort_chains_in_neighbourhood in Hr. inv_all.
  apply elem_of_concat in Hs as (g & Hs & Hg).
  match goal with
  | Hm : rd_map _ _ _ = Ok _ |- _ =>
      destruct (rd_map_Ok_elem _ _ _ _ Hm g Hg) as (d & _ & Hd)
  end.
  inv_all.
  apply list_elem_of_fmap in Hs as (cad & -> & Hcad). simpl.
  apply sorted_by_key_elem in Hcad.
  apply list_elem_of_fmap in Hcad as ([k c] & -> & Hkc). simpl.
  match goal with
  | Hm : rd_map _ (_.*2) _ = Ok _ |- _ =>
      destruct (rd_map_Ok_elem _ _ _ _ Hm _ Hkc) as (c' & Hc' & Hf)
  end.
  inv_all. simplify_eq.
  apply list_elem_of_fmap in Hc' as (p & -> & Hp).
  apply list_elem_of_filter in Hp as [_ Hp].
  apply list_elem_of_fmap. by exists p.
Qed.

Lemma get_chains_in_neighbourhood_elem (n : Z) (l : list nat) (ch_j ch_i : nat)
    (e : ch.EndPoints) (loc : ch.ChainLocation) (w : World) (r : list Set_) :
  get_chains_in_neighbourhood n l ch_j ch_i e loc w = Ok r → ∀ s, s ∈ r → s.2 ∈ l.
Proof.
  intros Hr s Hs. unfold get_chains_in_neighbourhood in Hr. inv_all.
  apply (sort_chains_in_neighbourhood_elem _ _ _ _ Hr) in Hs.
  apply list_elem_of_fmap in Hs as (p & -> & Hp).
  match goal with
  | Hm : rd_filter _ _ _ = Ok _ |- _ => apply (rd_filter_Ok _ _ _ _ Hm) in Hp as [Hp _]
  end.
  by eapply chains_within_angular_neighbourhood_elem.
Qed.

Lemma connectivity_goodness_condition_true (state : SystemStatus.t)
    (ch_j cand ch_i : nat) (e : ch.EndPoints) (w : World) (d : float) :
  connectivity_goodness_condition state ch_j cand ch_i e w = Ok (true, d) →
  ∃ cj cc, chains w !! ch_j = Some cj ∧ chains w !! cand = Some cc
           ∧ ch.Chain.size cj + ch.Chain.size cc ≤ ch.Chain.Nr cj.
Proof.
  intros Hc. unfold connectivity_goodness_condition in Hc. inv_all.
  exists a, a0. split_and!; try done.
  case_decide; [by inv_step Hc | lia].
Qed.

Lemma get_all_chain_in_subset_loop_elem (state : SystemStatus.t) (ch_j ch_i : nat)
    (e : ch.EndPoints) (l : list nat) (w : World) (r : list Set_) :
  get_all_chain_in_subset_that_satisfy_condition_loop state ch_j ch_i e l w = Ok r →
  ∀ s, s ∈ r → s.2 ∈ l ∧ admissible state ch_j ch_i e w s.2.
Proof.
  revert r. induction l as [|a l IH]; intros r Hr s Hs; simpl in Hr.
  - inv_step Hr. by apply elem_of_nil in Hs.
  - inv_all. destruct a0 as [pass dist]. repeat inv_step Hr.
    destruct pass.
    + apply elem_of_cons in Hs as [->|Hs].
      * split; [left|by exists dist].
      * destruct (IH _ Hr1 s Hs). split; [by right|done].
    + destruct (IH _ Hr1 s Hs). split; [by right|done].
Qed.

Lemma get_the_closest_chain_elem (state : SystemStatus.t) (ch_j ch_i : nat)
    (e : ch.EndPoints) (d : float) (cand : nat) (M : Matrix) (nb : list Set_)
    (w : World) (k : nat) :
  get_the_closest_chain_by_radial_distance_that_does_not_intersect
    state ch_j ch_i e d cand M nb w = Ok k →
  k = cand ∨ (k ∈ nb.*2 ∧ admissible state ch_j ch_i e w k).
Proof.
  intros Hk. unfold get_the_closest_chain_by_radial_distance_that_does_not_intersect in Hk.
  inv_all. apply fmap_Some in Hk as (s & Hs & ->).
  apply list_elem_of_lookup_2, sorted_elem in Hs.
  unfold get_all_chain_in_subset_that_satisfy_condition in Hk1. inv_all.
  apply elem_of_cons in Hs as [->|Hs]; [by left|right].
  destruct (get_all_chain_in_subset_loop_elem _ _ _ _ _ _ _ Hk2 s Hs) as [Hin Hadm].
  split; [|done].
  unfold intersection_chains in Hk0. inv_all.
  apply list_elem_of_fmap in Hin as (p & Hp & Hin). rewrite Hp.
  match goal with
  | Hm : rd_filter _ _ _ = Ok _ |- _ => apply (rd_filter_Ok _ _ _ _ Hm) in Hin as [Hin _]
  end.
  apply list_elem_of_fmap. by exists p.
Qed.

Lemma get_closest_chain_loop_elem (state : SystemStatus.t) (ch_j ch_i : nat)
    (e : ch.EndPoints) (M : Matrix) (nb rest : list Set_) (w : World) (k : nat) :
  get_closest_chain_loop state ch_j ch_i e M nb rest w = Ok (Some k) →
  (∀ s, s ∈ rest → s ∈ nb) →
  k ∈ nb.*2 ∧ admissible state ch_j ch_i e w k.
Proof.
  induction rest as [|s rest IH]; intros Hk Hsub; simpl in Hk.
  - by inv_step Hk.
  - inv_step Hk. destruct a as [pass dist]. destruct pass.
    + inv_all. injection Hk as <-.
      apply get_the_closest_chain_elem in Hk1 as [->|?]; [|done].
      split; [|by exists dist].
      apply list_elem_of_fmap. exists s. split; [done|]. apply Hsub. left.
    + apply IH; [done|]. intros s' Hs'. apply Hsub. by right.
Qed.

Lemma get_closest_chain_elem (state : SystemStatus.t) (ch_j : nat) (l : list nat)
    (ch_i : nat) (loc : ch.ChainLocation) (e : ch.EndPoints) (M : Matrix) (w : World)
    (k : nat) :
  get_closest_chain state ch_j l ch_i loc e M w = Ok (Some k) →
  k ∈ l ∧ admissible state ch_j ch_i e w k.
Proof.
  intros Hk. unfold get_closest_chain in Hk. inv_all.
  apply get_closest_chain_loop_elem in Hk as [Hin Hadm]; [|done].
  split; [|done].
  apply list_elem_of_fmap in Hin as (s & -> & Hs).
  by eapply get_chains_in_neighbourhood_elem.
Qed.

Lemma opt_chain_eq_true (o : option nat) (r : nat) (w : World) :
  opt_chain_eq o r w = Ok true ↔
  ∃ s cs cr, o = Some s ∧ chains w !! s = Some cs ∧ chains w !! r = Some cr
             ∧ ch.Chain.id cs = ch.Chain.id cr.
Proof.
  destruct o as [s|]; simpl; split.
  - intros He. unfold chain_eq in He. inv_all.
    apply bool_decide_eq_true in He. by exists s, a, a0.
  - intros (s' & cs & cr & [= <-] & Hs & Hr & Hid).
    unfold chain_eq, mbind, Rd_bind, get_chain. rewrite Hs, Hr. simpl.
    unfold mret, Rd_ret. by rewrite bool_decide_eq_true_2.
  - unfold mret, Rd_ret. by intros [=].
  - by intros (s & ? & ? & [=] & _).
Qed.

End closest_chain_search.

(** ** The chain the driver merges *)

Section merge_target.
Context `{Collaborators}.

Lemma select_closest_chain_Ok (chain : nat) (a b : option nat) (w : World)
    (o : option nat) (e : option ch.EndPoints) :
  select_closest_chain chain a b w = Ok (o, e) →
  (o = None ∧ e = None) ∨ (o = a ∧ e = Some ch.A) ∨ (o = b ∧ e = Some ch.B).
Proof.
  intros Hs. unfold select_closest_chain in Hs. inv_step Hs. inv_step Hs.
  repeat case_match; inv_all; simplify_eq; tauto.
Qed.

Lemma get_closest_chain_logic_elem (state : SystemStatus.t) (ch_j : nat)
    (cands l : list nat) (ch_i : nat) (loc : ch.ChainLocation) (e : ch.EndPoints)
    (w : World) (k : nat) :
  get_closest_chain_logic state ch_j cands l ch_i loc e true w = Ok (Some k) →
  k ∈ l ∧ admissible state ch_j ch_i e w k.
Proof.
  intros Hk. unfold get_closest_chain_logic in Hk. inv_step Hk.
  destruct a as [k'|]; [|by inv_step Hk]. simpl in Hk.
  assert (k = k') as ->; [|by eapply get_closest_chain_elem].
  do 3 inv_step Hk. destruct (negb _); [by inv_step Hk|].
  do 2 inv_step Hk. case_decide; inv_step Hk; by simplify_eq.
Qed.

Lemma find_closest_elem (state : SystemStatus.t) (ch_j : nat) (cands l : list nat)
    (ch_i : nat) (loc : ch.ChainLocation) (w : World) (k : nat)
    (e : option ch.EndPoints) :
  find_closest state ch_j cands l ch_i loc true w = Ok (Some k, e) →
  k ∈ l ∧ (∃ e', e = Some e' ∧ admissible state ch_j ch_i e' w k).
Proof.
  intros Hf. unfold find_closest in Hf. inv_step Hf. inv_step Hf.
  apply select_closest_chain_Ok in Hf as [[[=] _]|[[<- ->]|[<- ->]]].
  - destruct (get_closest_chain_logic_elem _ _ _ _ _ _ _ _ _ Hf1). eauto.
  - destruct (get_closest_chain_logic_elem _ _ _ _ _ _ _ _ _ Hf0). eauto.
Qed.

Lemma find_merge_target_elem (state : SystemStatus.t) (cands : list nat)
    (ch_j ch_i : nat) (loc : ch.ChainLocation) (w : World) (k : nat)
    (e : option ch.EndPoints) :
  find_merge_target state cands ch_j ch_i loc w = Ok (Some k, e) →
  ∃ cj ck row e',
    chains w !! ch_j = Some cj ∧ chains w !! k = Some ck ∧ k ∈ cands
    ∧ np.get_row (SystemStatus.M state) (ch.Chain.id cj) = Ok row
    ∧ (ch.Chain.id ck ∉ np.where_eq_1 row)
    ∧ e = Some e'
    ∧ ch.Chain.size cj + ch.Chain.size ck ≤ ch.Chain.Nr cj.
Proof.
  intros Ht. unfold find_merge_target in Ht. inv_step Ht.
  apply find_closest_elem in Ht as (Hin & e' & -> & d & Hadm).
  apply find_non_intersection_Ok in Ht0 as (cj & row & Hcj & Hrow & Hvalid).
  apply Hvalid in Hin as (Hin & ck & Hck & Hnot).
  apply connectivity_goodness_condition_true in Hadm as (cj' & ck' & ? & ? & ?).
  simplify_eq. by exists cj, ck, row, e'.
Qed.

End merge_target.

(** ** The closing pass *)

Lemma skip_closing_false (threshold : float) (c : ch.Chain.t) :
  skip_closing threshold c = false → ch.Chain.size c < ch.Chain.Nr c.
Proof.
  unfold skip_closing. intros Hs. apply orb_false_iff in Hs as [Hs _].
  apply bool_decide_eq_false in Hs. lia.
Qed.

(** ** The support chain *)

Section support_chain.
Context `{Collaborators}.

Lemma chain_eq_Ok (r1 r2 : nat) (w : World) (c1 c2 : ch.Chain.t) :
  chains w !! r1 = Some c1 → chains w !! r2 = Some c2 →
  chain_eq r1 r2 w = Ok (bool_decide (ch.Chain.id c1 = ch.Chain.id c2)).
Proof.
  intros H1 H2. unfold chain_eq, mbind, Rd_bind, get_chain. by rewrite H1, H2.
Qed.

Lemma index_total (l : list nat) (r : nat) (w : World) :
  r ∈ l → (∀ x, x ∈ l → is_Some (chains w !! x)) →
  ∃ i, index l r w = Ok i ∧ (i < length l)%nat.
Proof.
  induction l as [|a l IH]; intros Hin Hval; [by apply elem_of_nil in Hin|].
  destruct (Hval a) as [ca Ha]; [left|].
  destruct (Hval r Hin) as [cr Hr].
  simpl. unfold mbind, Rd_bind. rewrite (chain_eq_Ok _ _ _ _ _ Ha Hr).
  case_bool_decide as Hid.
  - exists 0%nat. split; [done|simpl; lia].
  - apply elem_of_cons in Hin as [->|Hin]; [by simplify_eq|].
    destruct IH as (i & Hi & Hlt); [done|by intros; apply Hval; right|].
    exists (S i). rewrite Hi. split; [done|simpl; lia].
Qed.

(** One call that observes no structural change. *)
Lemma find_support_chain_idle (state : SystemStatus.t) (ch_i : nat)
    (outs inws : option (list nat)) (w : World) :
  let n := length (SystemStatus.l_ch_s state) in
  (0 < n)%nat →
  SystemStatus.size_l_chain_init state = Some (Z.of_nat n) →
  ch_i ∈ SystemStatus.l_ch_s state →
  (∀ x, x ∈ SystemStatus.l_ch_s state → is_Some (chains w !! x)) →
  ∃ r state',
    find_support_chain state (Some ch_i) outs inws w = Ok (r, state')
    ∧ SystemStatus.l_ch_s state' = SystemStatus.l_ch_s state
    ∧ SystemStatus.iterations_since_last_change state'
      = SystemStatus.iterations_since_last_change state + 1
    ∧ (SystemStatus.iterations_since_last_change state' >= Z.of_nat n → r = None)
    ∧ (SystemStatus.iterations_since_last_change state' < Z.of_nat n →
       ∃ c, r = Some c ∧ c ∈ SystemStatus.l_ch_s state
            ∧ SystemStatus.size_l_chain_init state' = Some (Z.of_nat n)).
Proof.
  intros n Hn Hinit Hin Hval.
  destruct (index_total _ _ _ Hin Hval) as (i & Hi & Hlt).
  destruct state as [lns l nr dfc tds nbs M cen nci cnt trt trd co sli cse].
  subst n. cbn in *. subst sli.
  unfold find_support_chain. cbn.
  rewrite decide_False by lia.
  unfold mbind at 1. unfold Rd_bind.
  unfold mbind at 1. unfold Rd_bind. cbn.
  rewrite bool_decide_eq_false_2 by lia.
  unfold get_next_chain_index_in_list.
  unfold mbind at 1. unfold Rd_bind.
  unfold mbind at 1. unfold Rd_bind.
  rewrite Hi. cbn.
  destruct (decide (cnt + 1 >= Z.of_nat (length l))) as [Hge|Hlt'].
  - eexists _, _. split; [reflexivity|]. cbn. split_and!; try done; lia.
  - assert (Hm : ((i + 1) `mod` length l < length l)%nat)
      by (apply Nat.mod_upper_bound; lia).
    destruct (lookup_lt_is_Some_2 l _ Hm) as [c Hc].
    unfold mbind, Rd_bind, pure. rewrite Hc. cbn.
    eexists _, _. split; [reflexivity|]. cbn. split_and!; try done; try lia.
    intros _. exists c. split_and!; try done. by eapply list_elem_of_lookup_2.
Qed.

Lemma find_support_chain_terminal (state state' : SystemStatus.t) (ch_i : option nat)
    (outs inws : option (list nat)) (w : World) (r : option nat) :
  find_support_chain state ch_i outs inws w = Ok (r, state') →
  SystemStatus.iterations_since_last_change state'
  >= Z.of_nat (length (SystemStatus.l_ch_s state')) →
  r = None.
Proof.
  intros Hf Hge. unfold find_support_chain in Hf.
  case_decide; [inv_step Hf; by simplify_eq|].
  apply Rd_bind_Ok in Hf as (st1 & _ & Hf).
  case_decide.
  - inv_step Hf. by simplify_eq.
  - inv_all. by simplify_eq.
Qed.

End support_chain.

(** ** The tie-break distance *)

Section tie_break.
Context `{Collaborators}.

Lemma distance_between_border_B_eq (chain_1 chain_2 : nat) (w : World) :
  distance_between_border chain_1 chain_2 ch.B w =
  (c2 ← get_chain chain_2;
   vB ← chain_py.node_of (ch.Chain.extB c2);
   vA ← chain_py.node_of (ch.Chain.extA c2);
   mret (euclidean_distance_between_nodes vB vA)) w.
Proof.
  unfold distance_between_border, mbind, Rd_bind, mret, Rd_ret. simpl.
  destruct (get_chain chain_2 w); reflexivity.
Qed.

Lemma select_closest_chain_both (chain ka kb : nat) (w : World) (d_a d_b : float) :
  distance_between_border chain ka ch.A w = Ok d_a →
  distance_between_border chain kb ch.B w = Ok d_b →
  PyFloat.leb PyFloat.zero d_a = true → PyFloat.leb PyFloat.zero d_b = true →
  select_closest_chain chain (Some ka) (Some kb) w
  = Ok (if PyFloat.leb d_b d_a then (Some ka, Some ch.A) else (Some kb, Some ch.B)).
Proof.
  intros Ha Hb Hna Hnb. unfold select_closest_chain, mbind, Rd_bind.
  rewrite Ha, Hb. rewrite (nonneg_not_minus_one d_b Hnb), andb_false_r.
  destruct (PyFloat.leb d_b d_a) eqn:Hle; [done|].
  by rewrite (nonneg_total d_a d_b Hna Hnb Hle).
Qed.

End tie_break.

(** ** The intersection matrix *)

Lemma mget_Some_lt (n : nat) (M : Matrix) (a b : nat) (x : Z) :
  length M = n → (∀ a row, M !! a = Some row → length row = n) →
  mget M a b = Some x → (a < n)%nat ∧ (b < n)%nat.
Proof.
  intros Hr Hc Hx. unfold mget in Hx. apply bind_Some in Hx as (row & Hrow & Hb).
  split.
  - rewrite <- Hr. by eapply lookup_lt_Some.
  - rewrite <- (Hc _ _ Hrow). by eapply lookup_lt_Some.
Qed.

Lemma mget_lt_Some (n : nat) (M : Matrix) (a b : nat) :
  length M = n → (∀ a row, M !! a = Some row → length row = n) →
  (a < n)%nat → (b < n)%nat → is_Some (mget M a b).
Proof.
  intros Hr Hc Ha Hb. unfold mget.
  destruct (lookup_lt_is_Some_2 M a) as [row Hrow]; [lia|]. rewrite Hrow. simpl.
  apply lookup_lt_is_Some_2. rewrite (Hc _ _ Hrow). lia.
Qed.

Lemma np_index_Ok (n : nat) (i : Z) (r : nat) :
  Py.np_index n i = Ok r → (r < n)%nat.
Proof. unfold Py.np_index. repeat case_decide; intros [= <-]; lia. Qed.

Lemma ncols_square (n : nat) (M : Matrix) :
  length M = n → (∀ a row, M !! a = Some row → length row = n) → (0 < n)%nat →
  np.ncols M = n.
Proof.
  intros Hr Hc Hn. destruct M as [|row M]; simpl in *; [lia|].
  by apply (Hc 0%nat).
Qed.

(** *** Element-wise description of the array operations *)

Lemma mget_set_row (M : Matrix) (r : nat) (v : list Z) (a b : nat) :
  (r < length M)%nat →
  mget (<[r := v]> M) a b = if decide (a = r) then v !! b else mget M a b.
Proof.
  intros Hr. unfold mget. case_decide as Ha.
  - subst a. by rewrite list_lookup_insert_eq.
  - by rewrite list_lookup_insert_ne.
Qed.

Lemma mget_set_col (n : nat) (M : Matrix) (c : nat) (v : list Z) (a b : nat) :
  length M = n → (∀ a row, M !! a = Some row → length row = n) →
  length v = n → (c < n)%nat → (a < n)%nat →
  mget (zip_with (λ row x, <[c := x]> row) M v) a b
  = if decide (b = c) then v !! a else mget M a b.
Proof.
  intros Hr Hc Hv Hcn Ha. unfold mget. rewrite lookup_zip_with.
  destruct (lookup_lt_is_Some_2 M a) as [row Hrow]; [lia|].
  destruct (lookup_lt_is_Some_2 v a) as [x Hx]; [lia|].
  rewrite Hrow, Hx. simpl. case_decide as Hb.
  - subst b. rewrite list_lookup_insert_eq; [done|]. rewrite (Hc _ _ Hrow). lia.
  - by rewrite list_lookup_insert_ne.
Qed.

Lemma mget_delete_col (M : Matrix) (k a b : nat) :
  mget (map (delete k) M) a b = mget M a (skip k b).
Proof.
  unfold mget, skip. change (map (delete k) M) with (delete k <$> M).
  rewrite list_lookup_fmap.
  destruct (M !! a) as [row|]; simpl; [|done]. apply list_lookup_delete.
Qed.

Lemma mget_delete_row (M : Matrix) (k a b : nat) :
  mget (delete k M) a b = mget M (skip k a) b.
Proof. unfold mget, skip. by rewrite list_lookup_delete. Qed.

Lemma lookup_logical_or (u v : list Z) (i : nat) :
  np.logical_or u v !! i
  = x ← u !! i; y ← v !! i; Some (if decide (x = 0 ∧ y = 0) then 0 else 1).
Proof. unfold np.logical_or. apply lookup_zip_with. Qed.

(** *** Merging the row and column of [ch_k] into those of [ch_j] *)

Lemma merged_matrix (n : nat) (M : Matrix) (idj idk : Z) (M' : Matrix) :
  intersection_matrix n M →
  (inter_cad_1 ← np.get_row M idj;
   inter_cad_2 ← np.get_row M idk;
   let or_inter_cad1_cad2 := np.logical_or inter_cad_1 inter_cad_2 in
   m ← np.set_row M idj or_inter_cad1_cad2;
   m ← np.set_col m idj or_inter_cad1_cad2;
   m ← np.delete_col m idk;
   np.delete_row m idk) = Ok M' →
  intersection_matrix (n - 1) M'.
Proof.
  intros [Hr Hc Hsym Hdiag] HM.
  apply Result_bind_Ok in HM as (rowj & Hgetj & HM).
  apply Result_bind_Ok in HM as (rowk & Hgetk & HM). cbv zeta in HM.
  apply Result_bind_Ok in HM as (M1 & HM1 & HM).
  apply Result_bind_Ok in HM as (M2 & HM2 & HM).
  apply Result_bind_Ok in HM as (M3 & HM3 & HM).
  unfold np.get_row, np.nrows in Hgetj, Hgetk.
  apply Result_bind_Ok in Hgetj as (rj & Hrj & Hgetj). apply from_option_Ok in Hgetj.
  apply Result_bind_Ok in Hgetk as (rk & Hrk & Hgetk). apply from_option_Ok in Hgetk.
  unfold np.set_row, np.nrows in HM1. rewrite Hrj in HM1. injection HM1 as <-.
  pose proof (np_index_Ok _ _ _ Hrj) as Hrjn. pose proof (np_index_Ok _ _ _ Hrk) as Hrkn.
  rewrite Hr in Hrj, Hrk, Hrjn, Hrkn.
  assert (Hn : (0 < n)%nat) by lia.
  assert (Hlj : length rowj = n) by eauto.
  assert (Hlk : length rowk = n) by eauto.
  set (v := np.logical_or rowj rowk) in *.
  assert (Hlv : length v = n).
  { unfold v, np.logical_or. rewrite length_zip_with. lia. }
  set (M1 := <[rj := v]> M) in *.
  assert (Hr1 : length M1 = n) by (unfold M1; by rewrite length_insert).
  assert (Hc1 : ∀ a row, M1 !! a = Some row → length row = n).
  { intros a row Hrow. unfold M1 in Hrow.
    apply list_lookup_insert_Some in Hrow as [(_ & <- & _)|[_ ?]]; eauto. }
  unfold np.set_col in HM2. rewrite (ncols_square n M1) in HM2 by done.
  rewrite Hrj in HM2. injection HM2 as <-.
  set (M2 := zip_with (λ row x, <[_ := x]> row) M1 v) in *.
  assert (Hr2 : length M2 = n).
  { unfold M2. rewrite length_zip_with. lia. }
  assert (Hc2 : ∀ a row, M2 !! a = Some row → length row = n).
  { intros a row Hrow. unfold M2 in Hrow.
    apply lookup_zip_with_Some in Hrow as (row0 & x & -> & Hrow0 & _).
    rewrite length_insert. eauto. }
  unfold np.delete_col in HM3. rewrite (ncols_square n M2) in HM3 by done.
  rewrite Hrk in HM3. injection HM3 as <-.
  unfold np.delete_row, np.nrows in HM. rewrite length_map, Hr2, Hrk in HM.
  injection HM as <-.
  assert (Hget2 : ∀ a b, (a < n)%nat → (b < n)%nat →
    mget M2 a b = if decide (b = rj) then v !! a
                  else if decide (a = rj) then v !! b else mget M a b).
  { intros a b Ha Hb. unfold M2. rewrite (mget_set_col n); try done.
    case_decide; [done|]. unfold M1. rewrite mget_set_row; [done|lia]. }
  assert (Hsym2 : ∀ a b, (a < n)%nat → (b < n)%nat → mget M2 a b = mget M2 b a).
  { intros a b Ha Hb. rewrite !Hget2 by done.
    repeat case_decide; subst; try done; apply Hsym. }
  assert (Hdiag2 : ∀ a, (a < n)%nat → mget M2 a a = Some 1).
  { intros a Ha. rewrite Hget2 by done. case_decide as Haj; [|by apply Hdiag].
    subst a. unfold v. rewrite lookup_logical_or.
    specialize (Hdiag rj Ha). unfold mget in Hdiag.
    rewrite Hgetj in Hdiag.
    simpl in Hdiag. rewrite Hdiag. simpl.
    destruct (lookup_lt_is_Some_2 rowk rj) as [y Hy]; [lia|]. rewrite Hy. simpl.
    done. }
  assert (Hskip : ∀ i, (i < n - 1)%nat → (skip rk i < n)%nat).
  { intros i Hi. unfold skip. case_decide; lia. }
  split.
  - rewrite length_delete, length_fmap; [lia|].
    apply lookup_lt_is_Some_2. rewrite length_fmap. lia.
  - intros a row Hrow. rewrite list_lookup_delete in Hrow.
    change (map (delete rk) M2) with (delete rk <$> M2) in Hrow.
    rewrite list_lookup_fmap in Hrow.
    apply fmap_Some in Hrow as (row0 & Hrow0 & ->).
    rewrite length_delete; [by rewrite (Hc2 _ _ Hrow0)|].
    apply lookup_lt_is_Some_2. rewrite (Hc2 _ _ Hrow0). lia.
  - intros a b. rewrite !mget_delete_row, !mget_delete_col.
    destruct (decide (a < n - 1)%nat) as [Ha|Ha], (decide (b < n - 1)%nat) as [Hb|Hb].
    + apply Hsym2; by apply Hskip.
    + transitivity (@None Z).
      * destruct (mget M2 (skip rk a) (skip rk b)) eqn:Hx; [|done].
        apply (mget_Some_lt n) in Hx as [_ Hx]; try done. unfold skip in Hx.
        case_decide; lia.
      * destruct (mget M2 (skip rk b) (skip rk a)) eqn:Hx; [|done].
        apply (mget_Some_lt n) in Hx as [Hx _]; try done. unfold skip in Hx.
        case_decide; lia.
    + transitivity (@None Z).
      * destruct (mget M2 (skip rk a) (skip rk b)) eqn:Hx; [|done].
        apply (mget_Some_lt n) in Hx as [Hx _]; try done. unfold skip in Hx.
        case_decide; lia.
      * destruct (mget M2 (skip rk b) (skip rk a)) eqn:Hx; [|done].
        apply (mget_Some_lt n) in Hx as [_ Hx]; try done. unfold skip in Hx.
        case_decide; lia.
    + transitivity (@None Z).
      * destruct (mget M2 (skip rk a) (skip rk b)) eqn:Hx; [|done].
        apply (mget_Some_lt n) in Hx as [Hx _]; try done. unfold skip in Hx.
        case_decide; lia.
      * destruct (mget M2 (skip rk b) (skip rk a)) eqn:Hx; [|done].
        apply (mget_Some_lt n) in Hx as [_ Hx]; try done. unfold skip in Hx.
        case_decide; lia.
  - intros a Ha. rewrite mget_delete_row, mget_delete_col. apply Hdiag2. by apply Hskip.
Qed.

(** *** Marking entries with 1 *)

Ltac cons_hyps :=
  repeat match goal with
         | H : context [_ ∈ _ :: _] |- _ => rewrite elem_of_cons in H
         end.

Lemma mark_mark (x : option Z) : mark (mark x) = mark x.
Proof. by destruct x. Qed.

Lemma mget_mark_entry (M : Matrix) (r c a b : nat) :
  mget (alter (λ row, <[c := 1]> row) r M) a b
  = if decide (a = r ∧ b = c) then mark (mget M a b) else mget M a b.
Proof.
  unfold mget. rewrite list_lookup_alter.
  destruct (decide (r = a)) as [->|Hne].
  - destruct (M !! a) as [row|]; simpl; [|by case_decide].
    rewrite list_lookup_insert. case_decide as Hc; case_decide as Hd; try done.
    + destruct Hc as [-> Hlt]. apply lookup_lt_is_Some_2 in Hlt as [x ->]. done.
    + destruct Hc as [-> _]. by destruct Hd.
    + destruct Hd as [_ ->]. destruct (row !! c) eqn:Hrow; [|done].
      apply lookup_lt_Some in Hrow. by destruct Hc.
  - rewrite decide_False; [done|]. intros [-> _]. done.
Qed.

Lemma shape_mark_entry (n : nat) (M : Matrix) (r c : nat) :
  length M = n → (∀ a row, M !! a = Some row → length row = n) →
  length (alter (λ row, <[c := 1]> row) r M) = n
  ∧ ∀ a row, alter (λ row, <[c := 1]> row) r M !! a = Some row → length row = n.
Proof.
  intros Hr Hc. split; [by rewrite length_alter|].
  intros a row. rewrite list_lookup_alter. case_decide.
  - intros (row0 & Hrow0 & ->)%fmap_Some. rewrite length_insert. eauto.
  - eauto.
Qed.

Lemma mget_set_row_entries (cs : list nat) (M : Matrix) (r a b : nat) :
  mget (np.set_row_entries M r cs) a b
  = if decide (a = r ∧ b ∈ cs) then mark (mget M a b) else mget M a b.
Proof.
  revert M. induction cs as [|c cs IH]; intros M; cbn [np.set_row_entries].
  - case_decide as Hd; [|done]. by destruct Hd as [_ ?%elem_of_nil].
  - rewrite IH, mget_mark_entry.
    repeat case_decide; try done; rewrite ?mark_mark; try done;
      exfalso; cons_hyps; intuition congruence.
Qed.

Lemma mget_set_col_entries (rs : list nat) (M : Matrix) (c a b : nat) :
  mget (np.set_col_entries M rs c) a b
  = if decide (a ∈ rs ∧ b = c) then mark (mget M a b) else mget M a b.
Proof.
  revert M. induction rs as [|r rs IH]; intros M; cbn [np.set_col_entries].
  - case_decide as Hd; [|done]. by destruct Hd as [?%elem_of_nil _].
  - rewrite IH, mget_mark_entry.
    repeat case_decide; try done; rewrite ?mark_mark; try done;
      exfalso; cons_hyps; intuition congruence.
Qed.

Lemma shape_set_row_entries (n : nat) (cs : list nat) (M : Matrix) (r : nat) :
  length M = n → (∀ a row, M !! a = Some row → length row = n) →
  length (np.set_row_entries M r cs) = n
  ∧ ∀ a row, np.set_row_entries M r cs !! a = Some row → length row = n.
Proof.
  revert M. induction cs as [|c cs IH]; intros M Hr Hc; simpl; [done|].
  destruct (shape_mark_entry n M r c Hr Hc). by apply IH.
Qed.

Lemma shape_set_col_entries (n : nat) (rs : list nat) (M : Matrix) (c : nat) :
  length M = n → (∀ a row, M !! a = Some row → length row = n) →
  length (np.set_col_entries M rs c) = n
  ∧ ∀ a row, np.set_col_entries M rs c !! a = Some row → length row = n.
Proof.
  revert M. induction rs as [|r rs IH]; intros M Hr Hc; simpl; [done|].
  destruct (shape_mark_entry n M r c Hr Hc). by apply IH.
Qed.

Lemma mark_diagonal (x : option Z) : x = Some 1 → mark x = Some 1.
Proof. by intros ->. Qed.

(** [M[j, ids] = 1; M[ids, j] = 1] *)
Lemma marked_matrix (n : nat) (M M1 M2 : Matrix) (j : Z) (ids : list Z) :
  intersection_matrix n M →
  np.assign_row_1 M j ids = Ok M1 →
  np.assign_col_1 M1 ids j = Ok M2 →
  intersection_matrix n M2.
Proof.
  intros [Hr Hc Hsym Hdiag] H1 H2.
  unfold np.assign_row_1 in H1. unfold np.assign_col_1 in H2.
  apply Result_bind_Ok in H1 as (r & Hidx & H1).
  apply Result_bind_Ok in H1 as (cs & Hcs & H1). injection H1 as <-.
  apply Result_bind_Ok in H2 as (rs & Hrs & H2).
  apply Result_bind_Ok in H2 as (c & Hidx' & H2). injection H2 as <-.
  pose proof (np_index_Ok _ _ _ Hidx) as Hlt. unfold np.nrows in *.
  rewrite Hr in Hlt, Hidx. assert (Hn : (0 < n)%nat) by lia.
  destruct (shape_set_row_entries n cs M r Hr Hc) as [Hr1 Hc1].
  rewrite (ncols_square n M) in Hcs by done.
  rewrite (ncols_square n _ Hr1 Hc1 Hn) in Hidx'. rewrite Hr1 in Hrs.
  assert (rs = cs) by congruence. assert (c = r) by congruence. subst rs c.
  destruct (shape_set_col_entries n cs _ r Hr1 Hc1) as [Hr2 Hc2].
  split; try done.
  - intros a b. rewrite !mget_set_col_entries, !mget_set_row_entries.
    rewrite (Hsym b a).
    repeat case_decide; try done; rewrite ?mark_mark; try done; intuition congruence.
  - intros a Ha. rewrite !mget_set_col_entries, !mget_set_row_entries.
    specialize (Hdiag a Ha).
    repeat case_decide; rewrite ?mark_mark; try done; by apply mark_diagonal.
Qed.

(** [M[x, y] = 1] over the pairs of a list of ids *)
Lemma mget_mesh (rs cs : list nat) (M : Matrix) (a b : nat) :
  mget (foldl (λ acc r, np.set_row_entries acc r cs) M rs) a b
  = if decide (a ∈ rs ∧ b ∈ cs) then mark (mget M a b) else mget M a b.
Proof.
  revert M. induction rs as [|r rs IH]; intros M; cbn [foldl].
  - case_decide as Hd; [|done]. by destruct Hd as [?%elem_of_nil _].
  - rewrite IH, mget_set_row_entries.
    repeat case_decide; try done; rewrite ?mark_mark; try done;
      exfalso; cons_hyps; intuition congruence.
Qed.

Lemma shape_mesh (n : nat) (rs cs : list nat) (M : Matrix) :
  length M = n → (∀ a row, M !! a = Some row → length row = n) →
  length (foldl (λ acc r, np.set_row_entries acc r cs) M rs) = n
  ∧ ∀ a row, foldl (λ acc r, np.set_row_entries acc r cs) M rs !! a = Some row
             → length row = n.
Proof.
  revert M. induction rs as [|r rs IH]; intros M Hr Hc; simpl; [done|].
  destruct (shape_set_row_entries n cs M r Hr Hc). by apply IH.
Qed.

Lemma meshed_matrix (n : nat) (M M' : Matrix) (ids : list Z) :
  intersection_matrix n M → np.assign_mesh_1 M ids = Ok M' → intersection_matrix n M'.
Proof.
  intros [Hr Hc Hsym Hdiag] HM. unfold np.assign_mesh_1 in HM.
  apply Result_bind_Ok in HM as (rs & Hrs & HM).
  apply Result_bind_Ok in HM as (cs & Hcs & HM). injection HM as <-.
  unfold np.nrows in *.
  destruct (decide (n = 0)%nat) as [->|Hn].
  { destruct M; [|done]. simpl in *. destruct ids as [|i ids]; simpl in *.
    - injection Hrs as <-. simpl. by split.
    - unfold Py.np_index in Hrs. simpl in Hrs.
      repeat case_decide; try lia; done. }
  rewrite (ncols_square n M) in Hcs by (done || lia). rewrite Hr in Hrs.
  assert (rs = cs) by congruence. subst rs.
  destruct (shape_mesh n cs cs M Hr Hc) as [Hr1 Hc1].
  split; try done.
  - intros a b. rewrite !mget_mesh, (Hsym b a).
    repeat case_decide; try done; intuition congruence.
  - intros a Ha. rewrite mget_mesh. specialize (Hdiag a Ha).
    case_decide; [by apply mark_diagonal|done].
Qed.

Lemma eye_matrix (n : nat) : intersection_matrix n (np.eye n).
Proof.
  assert (Hget : ∀ a b, mget (np.eye n) a b
    = if decide (a < n ∧ b < n)%nat then Some (if decide (a = b) then 1 else 0) else None).
  { intros a b. unfold mget, np.eye.
    change (map ?f ?l) with (f <$> l). rewrite list_lookup_fmap.
    destruct (decide (a < n)%nat) as [Ha|Ha].
    - rewrite lookup_seq_lt by lia. simpl. rewrite list_lookup_fmap.
      destruct (decide (b < n)%nat) as [Hb|Hb].
      + rewrite lookup_seq_lt by lia. simpl. destruct (decide ((a < n)%nat ∧ (b < n)%nat)); [done|lia].
      + rewrite lookup_seq_ge by lia. simpl. rewrite decide_False; [done|lia].
    - rewrite lookup_seq_ge by lia. simpl. rewrite decide_False; [done|lia]. }
  split.
  - unfold np.eye. by rewrite length_map, length_seq.
  - intros a row. unfold np.eye. change (map ?f ?l) with (f <$> l).
    rewrite list_lookup_fmap. intros (i & _ & ->)%fmap_Some.
    by rewrite length_fmap, length_seq.
  - intros a b. rewrite !Hget. repeat case_decide; try done; lia.
  - intros a Ha. rewrite Hget. destruct (decide ((a < n)%nat ∧ (a < n)%nat)); [|lia].
    by rewrite decide_True.
Qed.

(** ** Frames: what an operation leaves unchanged in the store *)

Lemma chain_core_eq (c c' : ch.Chain.t) :
  chain_core c = chain_core c' →
  ch.Chain.id c = ch.Chain.id c' ∧ ch.Chain.l_nodes c = ch.Chain.l_nodes c'
  ∧ ch.Chain.size c = ch.Chain.size c' ∧ ch.Chain.Nr c = ch.Chain.Nr c'.
Proof. unfold chain_core. by intros [= -> -> -> _ -> _ _]. Qed.

Lemma pointers_only_refl (w : World) : pointers_only w w.
Proof. by split. Qed.

Lemma pointers_only_trans (w1 w2 w3 : World) :
  pointers_only w1 w2 → pointers_only w2 w3 → pointers_only w1 w3.
Proof. intros [? ?] [? ?]. split; congruence. Qed.

Lemma pointers_only_lookup (w w' : World) (r : nat) :
  pointers_only w w' → chain_core <$> chains w' !! r = chain_core <$> chains w !! r.
Proof. intros [_ Hc]. by rewrite <- !list_lookup_fmap, Hc. Qed.

Lemma pointers_only_chain (w w' : World) (r : nat) (c : ch.Chain.t) :
  pointers_only w w' → chains w !! r = Some c →
  ∃ c', chains w' !! r = Some c' ∧ chain_core c' = chain_core c.
Proof.
  intros Hp Hc. apply (pointers_only_lookup _ _ r) in Hp. rewrite Hc in Hp.
  apply fmap_Some in Hp as (c' & ? & ?). by exists c'.
Qed.

Lemma pointers_only_sym (w w' : World) : pointers_only w w' → pointers_only w' w.
Proof. intros [? ?]. by split. Qed.

Lemma fmap_alter_core (f : ch.Chain.t → ch.Chain.t) (r : nat) (l : list ch.Chain.t) :
  (∀ c, chain_core (f c) = chain_core c) →
  chain_core <$> alter f r l = chain_core <$> l.
Proof.
  intros Hf. revert r. induction l as [|c l IH]; intros [|r]; simpl; try done.
  - by rewrite Hf.
  - f_equal. apply IH.
Qed.

Lemma upd_chain_Ok (r : nat) (f : ch.Chain.t → ch.Chain.t) (w w' : World) :
  upd_chain r f w = Ok (tt, w') →
  ∃ c, chains w !! r = Some c ∧ w' = mkWorld (nodes w) (alter f r (chains w)).
Proof.
  unfold upd_chain. destruct (chains w !! r) as [c|]; [|done].
  intros [= <-]. by exists c.
Qed.

Lemma upd_node_Ok (r : nat) (f : ch.Node.t → ch.Node.t) (w w' : World) :
  upd_node r f w = Ok (tt, w') →
  ∃ v, nodes w !! r = Some v ∧ w' = mkWorld (alter f r (nodes w)) (chains w).
Proof.
  unfold upd_node. destruct (nodes w !! r) as [v|]; [|done].
  intros [= <-]. by exists v.
Qed.

Lemma upd_chain_pointers_only (r : nat) (f : ch.Chain.t → ch.Chain.t) (w w' : World) :
  (∀ c, chain_core (f c) = chain_core c) →
  upd_chain r f w = Ok (tt, w') → pointers_only w w'.
Proof.
  intros Hf (c & _ & ->)%upd_chain_Ok. split; [done|]. simpl. by apply fmap_alter_core.
Qed.

Lemma st_iter_preserves {A : Type} (R : World → World → Prop) (f : A → St unit)
    (l : list A) (w w' : World) :
  (∀ w, R w w) → (∀ w1 w2 w3, R w1 w2 → R w2 w3 → R w1 w3) →
  (∀ a w w', a ∈ l → f a w = Ok (tt, w') → R w w') →
  st_iter f l w = Ok (tt, w') → R w w'.
Proof.
  intros Hrefl Htrans. revert w. induction l as [|a l IH]; intros w Hf Hi; simpl in Hi.
  - inv_step Hi. apply Hrefl.
  - inv_step Hi. destruct a0. eapply Htrans.
    + eapply Hf; [left|done].
    + apply IH; [|done]. intros. eapply Hf; [by right|done].
Qed.

Ltac core_setter :=
  match goal with
  | |- ∀ c, chain_core (_ c) = chain_core c => by intros []
  end.

Section frames.
Context `{Collaborators}.

Lemma update_chain_neighbourhood_pointers_only (state : SystemStatus.t)
    (l : list nat) (w w' : World) :
  update_chain_neighbourhood state l w = Ok (tt, w') → pointers_only w w'.
Proof.
  apply st_iter_preserves; [apply pointers_only_refl|apply pointers_only_trans|].
  clear. intros chain_p w w' _ Hb.
  inv_step Hb. inv_step Hb0. destruct a as [[? ?] ?].
  inv_step Hb. destruct a. inv_step Hb. destruct a.
  inv_step Hb. inv_step Hb3. destruct a as [[? ?] ?].
  inv_step Hb. destruct a.
  repeat match goal with
         | Hu : upd_chain _ _ _ = Ok _ |- _ =>
             apply upd_chain_pointers_only in Hu; [|core_setter]
         end.
  eauto using pointers_only_trans.
Qed.

Lemma set_pointer_at_endpoint_pointers_only (chain : option nat) (dot : nat)
    (set_at_A set_at_B : option nat → ch.Chain.t → ch.Chain.t) (ch_j : nat)
    (w w' : World) :
  (∀ o c, chain_core (set_at_A o c) = chain_core c) →
  (∀ o c, chain_core (set_at_B o c) = chain_core c) →
  set_pointer_at_endpoint chain dot set_at_A set_at_B ch_j w = Ok (tt, w') →
  pointers_only w w'.
Proof.
  intros HA HB Hs. unfold set_pointer_at_endpoint in Hs.
  destruct chain as [r|]; [|done]. inv_step Hs. inv_step Hs0.
  repeat case_decide.
  - apply upd_chain_pointers_only in Hs; [done|intros; apply HA].
  - apply upd_chain_pointers_only in Hs; [done|intros; apply HB].
  - inv_step Hs. apply pointers_only_refl.
Qed.

Lemma update_visibility_pointers_only (chains_over : list nat) (new_node ch_j : nat)
    (w w' : World) :
  update_visibility_chain_pointers_in_radial_direction chains_over new_node ch_j w
    = Ok (tt, w') →
  pointers_only w w'.
Proof.
  intros Hu. unfold update_visibility_chain_pointers_in_radial_direction in Hu.
  repeat (inv_all || case_match);
    repeat match goal with
           | Hs : set_pointer_at_endpoint _ _ _ _ _ _ = Ok (?u, _) |- _ =>
               destruct u;
               apply set_pointer_at_endpoint_pointers_only in Hs; [| by intros ? [] ..]
           end;
    eauto using pointers_only_trans, pointers_only_refl.
Qed.

Lemma radial_direction_matrix (n : nat) (state state' : SystemStatus.t)
    (ch_j new_node : nat) (w : World) (l : list nat) :
  update_intersection_matrix_in_radial_direction state ch_j new_node w = Ok (l, state') →
  SystemStatus.l_ch_s state' = SystemStatus.l_ch_s state
  ∧ SystemStatus.l_nodes_s state' = SystemStatus.l_nodes_s state
  ∧ (intersection_matrix n (SystemStatus.M state) →
     intersection_matrix n (SystemStatus.M state')).
Proof.
  intros Hu. unfold update_intersection_matrix_in_radial_direction in Hu.
  inv_step Hu. inv_step Hu. destruct a0 as [ids cs].
  inv_step Hu. inv_step Hu. inv_step Hu. inv_step Hu. injection Hu as <- <-.
  inv_step Hu3. inv_step Hu4.
  destruct state. simpl in *. split_and!; try done.
  intros Hm. by eapply marked_matrix.
Qed.

Lemma add_interpolated_nodes_loop_frame (n : nat) (interpolated : list nat)
    (state state' : SystemStatus.t) (ch_j : nat) (w w' : World) :
  add_interpolated_nodes_loop state ch_j interpolated w = Ok (state', w') →
  pointers_only w w'
  ∧ SystemStatus.l_ch_s state' = SystemStatus.l_ch_s state
  ∧ (intersection_matrix n (SystemStatus.M state) →
     intersection_matrix n (SystemStatus.M state')).
Proof.
  revert state w. induction interpolated as [|new_node rest IH]; intros state w Ha;
    simpl in Ha.
  - inv_step Ha. subst. split_and!; by try apply pointers_only_refl.
  - case_match; [done|]. inv_step Ha. inv_step Ha0. destruct a as [cs st1].
    inv_step Ha. destruct a.
    apply (radial_direction_matrix n) in Ha0 as (Hl & _ & Hm).
    apply update_visibility_pointers_only in Ha1.
    apply IH in Ha as (Hp & Hl' & Hm').
    split_and!.
    + by eapply pointers_only_trans.
    + rewrite Hl', Hl. by destruct state.
    + intros Hgood. apply Hm', Hm. by destruct state.
Qed.

Lemma add_interpolated_nodes_to_system_frame (n : nat) (interpolated : list nat)
    (state state' : SystemStatus.t) (ch_j : nat) (w w' : World) :
  add_interpolated_nodes_to_system state ch_j interpolated w = Ok (state', w') →
  pointers_only w w'
  ∧ SystemStatus.l_ch_s state' = SystemStatus.l_ch_s state
  ∧ (intersection_matrix n (SystemStatus.M state) →
     intersection_matrix n (SystemStatus.M state')).
Proof.
  intros Ha. unfold add_interpolated_nodes_to_system in Ha.
  inv_step Ha. inv_step Ha. destruct a0. inv_step Ha.
  apply (add_interpolated_nodes_loop_frame n) in Ha0 as (Hp & Hl & Hm).
  apply update_chain_neighbourhood_pointers_only in Ha1.
  split_and!; try done. by eapply pointers_only_trans.
Qed.

Lemma repoint_pointers_only (ch_j ch_k chain : nat) (get : ch.Chain.t → option nat)
    (set : option nat → ch.Chain.t → ch.Chain.t) (w w' : World) :
  (∀ o c, chain_core (set o c) = chain_core c) →
  repoint ch_j ch_k chain get set w = Ok (tt, w') → pointers_only w w'.
Proof.
  intros Hset Hr. unfold repoint in Hr. inv_step Hr. inv_step Hr0.
  case_match.
  - inv_step Hr. inv_step Hr1. inv_step Hr. inv_step Hr2. case_decide.
    + apply upd_chain_pointers_only in Hr; [done|intros; apply Hset].
    + inv_step Hr. apply pointers_only_refl.
  - inv_step Hr. apply pointers_only_refl.
Qed.

Lemma update_chain_after_connect_pointers_only (state : SystemStatus.t)
    (ch_j ch_k : nat) (w w' : World) :
  update_chain_after_connect state ch_j ch_k w = Ok (tt, w') → pointers_only w w'.
Proof.
  apply st_iter_preserves; [apply pointers_only_refl|apply pointers_only_trans|].
  clear. intros chain w w' _ Hb.
  inv_step Hb. destruct a. inv_step Hb. destruct a. inv_step Hb. destruct a.
  repeat match goal with
         | Hu : repoint _ _ _ _ _ _ = Ok _ |- _ =>
             apply repoint_pointers_only in Hu; [|by intros ? []]
         end.
  eauto using pointers_only_trans.
Qed.

End frames.

(** ** The merge executor *)

Lemma delete_NoDup {A : Type} (l : list A) (i : nat) (x : A) :
  NoDup l → l !! i = Some x →
  NoDup (delete i l) ∧ ∀ y, y ∈ delete i l ↔ y ∈ l ∧ y ≠ x.
Proof.
  intros Hnd Hi.
  assert (Hl : ∀ y, y ∈ l ↔ y ∈ take i l ∨ y = x ∨ y ∈ drop (S i) l).
  { intros y. rewrite <- (take_drop_middle l i x Hi) at 1.
    by rewrite elem_of_app, elem_of_cons. }
  rewrite delete_take_drop.
  rewrite <- (take_drop_middle l i x Hi) in Hnd.
  apply NoDup_app in Hnd as (Hnd1 & Hdis & Hnd2).
  apply NoDup_cons in Hnd2 as [Hx Hnd2].
  split.
  - apply NoDup_app. split_and!; try done.
    intros y Hy Hy'. apply (Hdis y Hy). by right.
  - intros y. rewrite Hl, elem_of_app. split.
    + intros [Hy|Hy].
      * split; [by left|]. intros ->. apply (Hdis x Hy). left.
      * split; [by right; right|]. by intros ->.
    + intros [[Hy|[->|Hy]] Hne]; [by left|done|by right].
Qed.

Lemma st_map_new_node (vals : list ch.Node.t) (w w' : World) (refs : list nat) :
  st_map new_node vals w = Ok (refs, w') →
  w' = mkWorld (nodes w ++ vals) (chains w)
  ∧ refs = seq (length (nodes w)) (length vals).
Proof.
  revert w refs. induction vals as [|v vals IH]; intros w refs Hm; simpl in Hm.
  - inv_step Hm. subst. rewrite app_nil_r. by destruct w'.
  - inv_step Hm. inv_step Hm. inv_step Hm. subst.
    unfold new_node in Hm0. injection Hm0 as <- <-.
    apply IH in Hm1 as [-> ->]. simpl. rewrite <- app_assoc. simpl.
    rewrite length_app. simpl. split; [done|]. f_equal. f_equal. lia.
Qed.

(** Setting the chain id of a list of nodes. *)
Lemma set_chain_ids_Ok (i : Z) (ns : list nat) (w w' : World) :
  st_iter (λ n, upd_node n (ch.Node.set_chain_id i)) ns w = Ok (tt, w') →
  chains w' = chains w
  ∧ length (nodes w') = length (nodes w)
  ∧ (∀ n, n ∈ ns → ∃ v, nodes w' !! n = Some v ∧ ch.Node.chain_id v = i)
  ∧ (∀ n, n ∉ ns → nodes w' !! n = nodes w !! n).
Proof.
  revert w. induction ns as [|a ns IH]; intros w Hs; simpl in Hs.
  - inv_step Hs. subst. split_and!; try done. by intros n ?%elem_of_nil.
  - inv_step Hs. destruct a0. apply upd_node_Ok in Hs0 as (v & Hv & ->).
    apply IH in Hs as (Hc & Hlen & Hin & Hout). simpl in *.
    split_and!; try done.
    + by rewrite Hlen, length_alter.
    + intros n Hn. destruct (decide (n ∈ ns)) as [Hns|Hns]; [by apply Hin|].
      apply elem_of_cons in Hn as [->|?]; [|done].
      rewrite (Hout a Hns), list_lookup_alter_eq, Hv. simpl. by eexists.
    + intros n Hn. apply not_elem_of_cons in Hn as [Hne Hn].
      rewrite (Hout n Hn). by rewrite list_lookup_alter_ne.
Qed.

Section merge_executor.
Context `{Collaborators}.

Lemma add_nodes_list_Ok (r : nat) (l : list nat) (w w' : World) (b : bool) :
  add_nodes_list r l w = Ok (b, w') →
  ∃ c ea eb,
    chains w !! r = Some c
    ∧ w' = mkWorld (nodes w)
             (alter (ch.Chain.set_nodes (ch.Chain.l_nodes c ++ l) ea eb) r (chains w)).
Proof.
  intros Ha. unfold add_nodes_list in Ha.
  inv_step Ha. inv_step Ha0. inv_step Ha0. inv_step Ha. inv_step Ha1.
  inv_step Ha. destruct a1. inv_step Ha.
  apply upd_chain_Ok in Ha2 as (c & Hc & ->). simplify_eq. eauto.
Qed.

Lemma interpolate_Ok (ch_i : option nat) (ej ek : option nat) (e : ch.EndPoints)
    (ch_j : nat) (support2 : option nat) (w w' : World) (refs : list nat) :
  interpolate ch_i ej ek e ch_j support2 w = Ok (refs, w') →
  ∃ vals, w' = mkWorld (nodes w ++ vals) (chains w)
          ∧ refs = seq (length (nodes w)) (length vals).
Proof.
  intros Hi. unfold interpolate in Hi.
  inv_step Hi. inv_step Hi0. inv_step Hi. inv_step Hi1. inv_step Hi.
  case_match; [|done]. injection Hi2 as <- <-.
  apply st_map_new_node in Hi as [-> ->]. eauto.
Qed.

(** [merge_two_chains]: what the store looks like afterwards. *)
Lemma merge_two_chains_Ok (ch_j ch_k : nat) (e : ch.EndPoints) (ch_i : nat)
    (support2 : option nat) (w w' : World) (interpolated : list nat)
    (cj ck : ch.Chain.t) :
  ch_j ≠ ch_k →
  chains w !! ch_j = Some cj → chains w !! ch_k = Some ck →
  merge_two_chains ch_j ch_k e ch_i support2 w = Ok (interpolated, w') →
  (∀ r, r ≠ ch_j → chains w' !! r = chains w !! r)
  ∧ (∃ cj', chains w' !! ch_j = Some cj'
            ∧ ch.Chain.id cj' = ch.Chain.id cj
            ∧ ch.Chain.l_nodes cj'
              = ch.Chain.l_nodes cj ++ interpolated ++ ch.Chain.l_nodes ck
            ∧ ch.Chain.size cj'
              = Z.of_nat (length (ch.Chain.l_nodes cj) + length interpolated
                          + length (ch.Chain.l_nodes ck)))
  ∧ (∀ n, n ∈ ch.Chain.l_nodes ck →
       ∃ v, nodes w' !! n = Some v ∧ ch.Node.chain_id v = ch.Chain.id cj).
Proof.
  intros Hne Hcj Hck Hm. unfold merge_two_chains in Hm. inv_all. simplify_eq.
  match goal with
  | Hi : interpolate _ _ _ _ _ _ _ = Ok _ |- _ =>
      apply interpolate_Ok in Hi as (vals & -> & ->)
  end.
  match goal with
  | Ha : add_nodes_list _ _ _ = Ok _ |- _ =>
      apply add_nodes_list_Ok in Ha as (c1 & ea & eb & Hc1 & ->)
  end.
  simpl in Hc1. simplify_eq.
  match goal with
  | Hmv : move_nodes_from_one_chain_to_another _ _ _ = Ok _ |- _ =>
      unfold move_nodes_from_one_chain_to_another in Hmv;
      apply St_bind_Ok in Hmv as (ck' & w1 & Hck' & Hmv);
      apply St_bind_Ok in Hmv as (cj' & w2 & Hcj' & Hmv);
      apply St_bind_Ok in Hmv as ([] & w3 & Hset & Hadd)
  end.
  inv_all. simpl in *.
  rewrite list_lookup_alter_ne in Hck' by done.
  rewrite list_lookup_alter_eq, Hcj in Hcj'. simpl in Hcj'. simplify_eq.
  apply set_chain_ids_Ok in Hset as (Hc & _ & Hin & _). simpl in *.
  apply add_nodes_list_Ok in Hadd as (c2 & ea' & eb' & Hc2 & ->).
  rewrite Hc in Hc2. simpl in *.
  rewrite list_lookup_alter_eq, Hcj in Hc2. simpl in Hc2. simplify_eq. simpl.
  rewrite Hc. split_and!.
  - intros r Hr. by rewrite !list_lookup_alter_ne.
  - rewrite !list_lookup_alter_eq, Hcj. simpl. eexists. split; [done|]. simpl.
    split_and!; try done.
    + by rewrite <- app_assoc.
    + rewrite !length_app. lia.
  - done.
Qed.

Lemma change_id_Ok (r : nat) (i : Z) (w w' : World) :
  change_id r i w = Ok (tt, w') →
  ∃ c, chains w !! r = Some c
       ∧ chains w' = alter (ch.Chain.set_id i) r (chains w)
       ∧ (∀ n, n ∈ ch.Chain.l_nodes c →
            ∃ v, nodes w' !! n = Some v ∧ ch.Node.chain_id v = i)
       ∧ (∀ n, n ∉ ch.Chain.l_nodes c → nodes w' !! n = nodes w !! n).
Proof.
  intros Hc. unfold change_id in Hc. inv_step Hc. destruct a.
  apply upd_chain_Ok in Hc0 as (c & Hr & ->).
  inv_step Hc. inv_step Hc0. inv_step Hc0. simpl in Hc0.
  rewrite list_lookup_alter_eq, Hr in Hc0. simpl in Hc0. simplify_eq. simpl in Hc.
  apply set_chain_ids_Ok in Hc as (Hch & _ & Hin & Hout). simpl in *.
  exists c. by split_and!.
Qed.

Lemma update_chains_ids_Ok (l : list nat) (ch_k : nat) (ck : ch.Chain.t)
    (state : SystemStatus.t) (w w' : World) :
  NoDup l → ch_k ∉ l → chains w !! ch_k = Some ck →
  update_chains_ids (SystemStatus.set_l_ch_s l state) ch_k w = Ok (tt, w') →
  (∀ r c, chains w !! r = Some c →
     ∃ c', chains w' !! r = Some c'
           ∧ ch.Chain.l_nodes c' = ch.Chain.l_nodes c
           ∧ ch.Chain.id c'
             = if decide (r ∈ l) then renumber (ch.Chain.id ck) (ch.Chain.id c)
               else ch.Chain.id c)
  ∧ (∀ r, r ∈ l → is_Some (chains w !! r))
  ∧ (∀ n,
       (∀ r c, r ∈ l → chains w !! r = Some c → ch.Chain.id c > ch.Chain.id ck →
               n ∉ ch.Chain.l_nodes c) →
       nodes w' !! n = nodes w !! n)
  ∧ (∀ n r0 c0,
       r0 ∈ l → chains w !! r0 = Some c0 → ch.Chain.id c0 > ch.Chain.id ck →
       n ∈ ch.Chain.l_nodes c0 →
       (∀ r c, r ∈ l → r ≠ r0 → chains w !! r = Some c → n ∉ ch.Chain.l_nodes c) →
       ∃ v, nodes w' !! n = Some v ∧ ch.Node.chain_id v = ch.Chain.id c0 - 1).
Proof.
  unfold update_chains_ids. replace (SystemStatus.l_ch_s (SystemStatus.set_l_ch_s l state))
    with l by (by destruct state). clear state. revert w.
  induction l as [|a l IH]; intros w Hnd Hk Hck Hu; simpl in Hu.
  - inv_step Hu. subst. split_and!.
    + intros r c Hc. exists c. split_and!; try done.
    + by intros r ?%elem_of_nil.
    + done.
    + by intros n r0 c0 ?%elem_of_nil.
  - apply NoDup_cons in Hnd as [Ha Hnd]. apply not_elem_of_cons in Hk as [Hka Hk].
    inv_step Hu. destruct a0. inv_step Hu0. inv_step Hu1. inv_step Hu1.
    inv_step Hu0. inv_step Hu2. inv_step Hu2. simplify_eq.
    rename a0 into ca.
    assert (∃ ca', chains w0 !! a = Some ca'
                   ∧ ch.Chain.l_nodes ca' = ch.Chain.l_nodes ca
                   ∧ ch.Chain.id ca' = renumber (ch.Chain.id ck) (ch.Chain.id ca)
                   ∧ (∀ r, r ≠ a → chains w0 !! r = chains w !! r)
                   ∧ (∀ n, (ch.Chain.id ca > ch.Chain.id ck → n ∉ ch.Chain.l_nodes ca) →
                           nodes w0 !! n = nodes w !! n)
                   ∧ (∀ n, ch.Chain.id ca > ch.Chain.id ck → n ∈ ch.Chain.l_nodes ca →
                        ∃ v, nodes w0 !! n = Some v
                             ∧ ch.Node.chain_id v = ch.Chain.id ca - 1))
      as (ca' & Hca' & Hln & Hid & Hother & Hnout & Hnin).
    { unfold renumber. case_decide as Hgt.
      - apply change_id_Ok in Hu0 as (c & Hc & Hch & Hin & Hout). simplify_eq.
        rewrite Hch. rewrite list_lookup_alter_eq, Hu1. simpl.
        eexists. split_and!; try done.
        + intros r Hr. by rewrite list_lookup_alter_ne.
        + intros n Hn. apply Hout. by apply Hn.
        + intros n _ Hn. by apply Hin.
      - inv_step Hu0. subst. exists ca. split_and!; try done; intros; lia. }
    assert (Hck0 : chains w0 !! ch_k = Some ck) by (by rewrite Hother).
    destruct (IH w0 Hnd Hk Hck0 Hu) as (Hchains & Hvalid & Huntouched & Howned).
    split_and!.
    + intros r c Hc. destruct (decide (r = a)) as [->|Hra].
      * simplify_eq. destruct (Hchains a ca' Hca') as (c' & Hc' & Hl' & Hid').
        exists c'. split_and!; try done; [congruence|].
        rewrite decide_False in Hid' by done. rewrite decide_True by left. congruence.
      * rewrite <- Hother in Hc by done.
        destruct (Hchains r c Hc) as (c' & Hc' & Hl' & Hid').
        exists c'. split_and!; try done. rewrite Hid'.
        destruct (decide (r ∈ l)) as [Hrl|Hrl].
        -- rewrite decide_True; [done|by right].
        -- rewrite decide_False; [done|]. by intros [?|?]%elem_of_cons.
    + intros r [->|Hr]%elem_of_cons; [done|].
      destruct (Hvalid r Hr) as [c Hc]. rewrite Hother in Hc; [done|].
      by intros ->.
    + intros n Hn. rewrite Huntouched.
      * apply Hnout. intros Hgt. eapply Hn; [left|done|done].
      * intros r c Hr Hc Hgt. rewrite Hother in Hc by (by intros ->).
        eapply Hn; [by right|done|done].
    + intros n r0 c0 Hr0 Hc0 Hgt Hn Huniq.
      apply elem_of_cons in Hr0 as [->|Hr0].
      * simplify_eq. destruct (Hnin n Hgt Hn) as (v & Hv & Hvid).
        exists v. split; [|done]. rewrite Huntouched; [done|].
        intros r c Hr Hc _. rewrite Hother in Hc by (by intros ->).
        eapply Huniq; [by right| |done]. by intros ->.
      * assert (r0 ≠ a) by (by intros ->).
        rewrite <- Hother in Hc0 by done.
        destruct (Howned n r0 c0 Hr0 Hc0 Hgt Hn) as (v & Hv & Hvid).
        { intros r c Hr Hne Hc. rewrite Hother in Hc by (by intros ->).
          eapply Huniq; [by right|done|done]. }
        by exists v.
Qed.

Lemma index_Ok (l : list nat) (r : nat) (w : World) (i : nat) :
  index l r w = Ok i →
  ∃ a ca cr, l !! i = Some a ∧ chains w !! a = Some ca ∧ chains w !! r = Some cr
             ∧ ch.Chain.id ca = ch.Chain.id cr.
Proof.
  revert i. induction l as [|a l IH]; intros i Hi; simpl in Hi; [done|].
  inv_step Hi. unfold chain_eq in Hi0. inv_step Hi0. inv_step Hi1. inv_step Hi0.
  inv_step Hi2. inv_step Hi0. subst. case_bool_decide.
  - inv_step Hi. subst. by exists a, a1, a2.
  - inv_step Hi. inv_step Hi. subst.
    destruct (IH _ Hi0) as (a' & ca & cr & ? & ? & ? & ?). by exists a', ca, cr.
Qed.

Lemma update_intersection_matrix_Ok (n : nat) (state state' : SystemStatus.t)
    (ch_j ch_k : nat) (w : World) :
  update_intersection_matrix state ch_j ch_k w = Ok state' →
  SystemStatus.l_ch_s state' = SystemStatus.l_ch_s state
  ∧ (intersection_matrix n (SystemStatus.M state) →
     intersection_matrix (n - 1) (SystemStatus.M state') ∧ (0 < n)%nat).
Proof.
  intros Hu. unfold update_intersection_matrix in Hu. inv_all.
  split; [by destruct state|]. intros Hm.
  match goal with
  | H1 : np.get_row _ _ = Ok ?r1, H2 : np.get_row _ _ = Ok ?r2,
    H3 : np.set_row _ _ _ = Ok ?m1, H4 : np.set_col _ _ _ = Ok ?m2,
    H5 : np.delete_col _ _ = Ok ?m3, H6 : np.delete_row _ _ = Ok ?m4 |- _ =>
      assert (Hidx : ∃ r, Py.np_index (length (SystemStatus.M state)) (ch.Chain.id a) = Ok r)
        by (unfold np.get_row in H1; apply Result_bind_Ok in H1 as (r & ? & _); by exists r);
      pose proof (merged_matrix n (SystemStatus.M state) (ch.Chain.id a) (ch.Chain.id a0) m4 Hm)
        as Hgood;
      unfold mbind, Result_bind in Hgood; rewrite H1, H2 in Hgood; cbv zeta in Hgood;
      rewrite H3, H4, H5 in Hgood; specialize (Hgood H6)
  end.
  destruct state; simpl in *. split; [done|].
  destruct Hidx as (r & Hr%np_index_Ok). destruct Hm as [Hrows _ _ _]. lia.
Qed.

Lemma delete_closest_chain_Ok (state state' : SystemStatus.t) (ch_k : nat)
    (cands cands' : list nat) (w : World) :
  delete_closest_chain state ch_k cands w = Ok (state', cands') →
  ∃ i a ca ck,
    SystemStatus.l_ch_s state !! i = Some a
    ∧ chains w !! a = Some ca ∧ chains w !! ch_k = Some ck
    ∧ ch.Chain.id ca = ch.Chain.id ck
    ∧ state' = SystemStatus.set_l_ch_s (delete i (SystemStatus.l_ch_s state)) state.
Proof.
  intros Hd. unfold delete_closest_chain in Hd. inv_all. simplify_eq.
  match goal with
  | Hi : index (SystemStatus.l_ch_s state) _ _ = Ok ?i |- _ =>
      apply index_Ok in Hi as (a' & ca & ck & ? & ? & ? & ?); by exists i, a', ca, ck
  end.
Qed.

(** The merge step at store level. *)
Lemma merge_and_update_Ok (n : nat) (state state' : SystemStatus.t) (ch_j ch_k : nat)
    (e : ch.EndPoints) (ch_i : nat) (cands cands' : list nat) (w w' : World)
    (cj ck : ch.Chain.t) :
  ch_j ≠ ch_k → chains w !! ch_j = Some cj → chains w !! ch_k = Some ck →
  merge_and_update state ch_j ch_k e ch_i cands w = Ok ((state', cands'), w') →
  ∃ w2 i a ca l',
    (* the store before the ids are renumbered *)
    (∀ r, r ≠ ch_j → chain_core <$> chains w2 !! r = chain_core <$> chains w !! r)
    ∧ (∃ cj2, chains w2 !! ch_j = Some cj2
              ∧ ch.Chain.id cj2 = ch.Chain.id cj
              ∧ ∀ n, n ∈ ch.Chain.l_nodes ck → n ∈ ch.Chain.l_nodes cj2)
    ∧ (∀ n, n ∈ ch.Chain.l_nodes ck →
         ∃ v, nodes w2 !! n = Some v ∧ ch.Node.chain_id v = ch.Chain.id cj)
    ∧ SystemStatus.l_ch_s state !! i = Some a
    ∧ chains w2 !! a = Some ca ∧ ch.Chain.id ca = ch.Chain.id ck
    ∧ l' = delete i (SystemStatus.l_ch_s state)
    ∧ SystemStatus.l_ch_s state' = l'
    ∧ update_chains_ids (SystemStatus.set_l_ch_s l' state') ch_k w2 = Ok (tt, w')
    ∧ (intersection_matrix n (SystemStatus.M state) →
       intersection_matrix (n - 1) (SystemStatus.M state') ∧ (0 < n)%nat).
Proof.
  intros Hne Hcj Hck Hm. unfold merge_and_update in Hm.
  apply St_bind_Ok in Hm as (new_nodes & w1 & Hmerge & Hm).
  destruct (merge_two_chains_Ok _ _ _ _ _ _ _ _ _ _ Hne Hcj Hck Hmerge)
    as (Hother & (cj1 & Hcj1 & Hid1 & Hln1 & _) & Hnodes).
  unfold update_chain_list in Hm.
  apply St_bind_Ok in Hm as (st1 & w2 & Hadd & Hm).
  apply (add_interpolated_nodes_to_system_frame n) in Hadd as (Hp1 & Hl1 & Hm1).
  apply St_bind_Ok in Hm as ([] & w3 & Hconn & Hm).
  apply update_chain_after_connect_pointers_only in Hconn.
  apply St_bind_Ok in Hm as (st2 & w4 & Hmat & Hm). apply read_Ok in Hmat as [Hmat ->].
  apply (update_intersection_matrix_Ok n) in Hmat as [Hl2 Hm2].
  apply St_bind_Ok in Hm as ([st3 cands3] & w5 & Hdel & Hm).
  apply read_Ok in Hdel as [Hdel ->].
  apply delete_closest_chain_Ok in Hdel as (i & a & ca & ck3 & Hi & Hca & Hck3 & Hid & ->).
  apply St_bind_Ok in Hm as ([] & w6 & Hids & Hm). apply St_ret_Ok in Hm as [[= <- <-] <-].
  pose proof (pointers_only_trans _ _ _ Hp1 Hconn) as Hp.
  assert (Hck1 : chains w1 !! ch_k = Some ck) by (rewrite Hother; done).
  destruct (pointers_only_chain _ _ _ _ Hp Hck1) as (ck3' & Hck3' & Hcore).
  simplify_eq.
  exists w3, i, a, ca, (delete i (SystemStatus.l_ch_s state)).
  split_and!.
  - intros r Hr. rewrite <- Hother by done. by apply pointers_only_lookup.
  - destruct (pointers_only_chain _ _ _ _ Hp Hcj1) as (cj3 & Hcj3 & Hcore3).
    exists cj3. split; [done|]. apply chain_core_eq in Hcore3 as (? & Hln & _).
    split; [congruence|]. intros x Hx. rewrite Hln, Hln1, !elem_of_app. auto.
  - intros x Hx. destruct Hp as [-> _]. by apply Hnodes.
  - by rewrite <- Hl1, <- Hl2.
  - done.
  - congruence.
  - done.
  - destruct st2; simpl in *. by rewrite Hl2, Hl1.
  - destruct st2; simpl in *. by rewrite Hl2, Hl1 in Hids |- *.
  - intros Hgood. destruct st2; simpl in *. by apply Hm2, Hm1.
Qed.

Lemma renumber_inj (k x y : Z) :
  x ≠ k → y ≠ k → renumber k x = renumber k y → x = y.
Proof. unfold renumber. repeat case_decide; lia. Qed.

End merge_executor.

(** ** Entry of [merge_chains] *)

Section entry.
Context `{Collaborators}.

Lemma st_map_copy_chain (l refs : list nat) (w w' : World) :
  st_map copy_chain l w = Ok (refs, w') →
  (∃ cs ns, chains w' = chains w ++ cs ∧ nodes w' = nodes w ++ ns)
  ∧ ∀ r, r ∈ refs → (length (chains w) ≤ r)%nat.
Proof.
  revert refs w. induction l as [|a l IH]; intros refs w Hm; simpl in Hm.
  - inv_step Hm. subst. split; [|by intros r ?%elem_of_nil].
    exists [], []. by rewrite !app_nil_r.
  - apply St_bind_Ok in Hm as (r0 & w1 & Hcopy & Hm).
    apply St_bind_Ok in Hm as (rs & w2 & Hrest & Hm).
    apply St_ret_Ok in Hm as [<- <-].
    unfold copy_chain in Hcopy.
    apply St_bind_Ok in Hcopy as (c & w3 & Hc & Hcopy). apply read_Ok in Hc as [_ ->].
    apply St_bind_Ok in Hcopy as (ns & w3 & Hns & Hcopy). apply read_Ok in Hns as [_ ->].
    apply St_bind_Ok in Hcopy as (news & w3 & Hnews & Hcopy).
    apply st_map_new_node in Hnews as [-> _].
    unfold new_chain in Hcopy. injection Hcopy as <- <-. simpl in *.
    destruct (IH _ _ Hrest) as [(cs & ns' & Hcs & Hns') Hfresh]. simpl in *.
    split.
    + eexists _, _. rewrite Hcs, Hns', <- !app_assoc. done.
    + intros r [->|Hr]%elem_of_cons; [done|].
      specialize (Hfresh r Hr). rewrite length_app in Hfresh. simpl in Hfresh. lia.
Qed.

(** The matrix computed at entry *)
Lemma mark_rays_matrix (n : nat) (vals : list ch.Node.t) (rays : list float)
    (M M' : Matrix) :
  intersection_matrix n M → mark_rays vals rays M = Ok M' → intersection_matrix n M'.
Proof.
  revert M. induction rays as [|angle rays IH]; intros M Hgood Hm; simpl in Hm.
  - by injection Hm as <-.
  - case_match; [by eapply IH|].
    apply Result_bind_Ok in Hm as (M1 & HM1 & Hm).
    eapply IH; [|done]. by eapply meshed_matrix.
Qed.

Lemma compute_intersection_matrix_Ok (nodes_list : list nat) (Nr : Z) (w : World)
    (M : Matrix) :
  compute_intersection_matrix nodes_list Nr w = Ok M →
  ∃ n, intersection_matrix n M.
Proof.
  intros Hc. unfold compute_intersection_matrix in Hc. inv_all.
  match goal with
  | He : np_eye _ = Ok _ |- _ => unfold np_eye in He; case_decide; [done|]; injection He as <-
  end.
  eexists. eapply mark_rays_matrix; [apply eye_matrix|done].
Qed.

End entry.

(** ** The border chain of a list *)

Lemma rd_filter_sublist {A : Type} (f : A → Rd bool) (l r : list A) (w : World) :
  rd_filter f l w = Ok r → sublist r l.
Proof.
  revert r. induction l as [|a l IH]; intros r Hr; simpl in Hr.
  - inv_step Hr. by subst.
  - inv_step Hr. inv_step Hr. inv_step Hr.
    destruct a0; [apply sublist_skip | apply sublist_cons]; eauto.
Qed.

Lemma first_border_Ok (ch_s : list nat) (w : World) (b : nat) :
  first_border ch_s w = Ok b →
  ∃ before after cb,
    ch_s = before ++ b :: after
    ∧ chains w !! b = Some cb ∧ ch.Chain.type cb = ch.border
    ∧ ∀ x, x ∈ before → ∃ c, chains w !! x = Some c ∧ ch.Chain.type c ≠ ch.border.
Proof.
  revert b. induction ch_s as [|a l IH]; intros b Hb; simpl in Hb; [done|].
  inv_step Hb. inv_step Hb0. case_decide as Ht.
  - inv_step Hb. exists [], l, a0. split_and!; try done. by intros x ?%elem_of_nil.
  - destruct (IH _ Hb) as (before & after & cb & -> & Hcb & Hty & Hbefore).
    exists (a :: before), after, cb. split_and!; try done.
    intros x [->|Hx]%elem_of_cons; [by exists a0|by apply Hbefore].
Qed.

Lemma first_border_none (ch_s : list nat) (w : World) :
  (∀ x, x ∈ ch_s → ∃ c, chains w !! x = Some c ∧ ch.Chain.type c ≠ ch.border) →
  first_border ch_s w = Raise StopIteration.
Proof.
  induction ch_s as [|a l IH]; intros Hall; simpl; [done|].
  destruct (Hall a) as (c & Hc & Ht); [by left|].
  unfold mbind, Rd_bind, get_chain. rewrite Hc. simpl.
  rewrite decide_False by done. apply IH. intros x Hx. apply Hall. by right.
Qed.

Lemma rd_filter_total {A : Type} (f : A → Rd bool) (l : list A) (w : World) :
  (∀ x, x ∈ l → ∃ b, f x w = Ok b) → ∃ r, rd_filter f l w = Ok r.
Proof.
  induction l as [|a l IH]; intros Hall; simpl; [by eexists|].
  destruct (Hall a) as [b Hb]; [by left|].
  destruct IH as [r Hr]; [intros x Hx; apply Hall; by right|].
  unfold mbind, Rd_bind. rewrite Hb, Hr. by eexists.
Qed.

(** ** The computed intersection matrix *)

Lemma insert_unique_elem (x y : Z) (l : list Z) :
  y ∈ Py.insert_unique Z.ltb Z.eqb x l ↔ y = x ∨ y ∈ l.
Proof.
  induction l as [|a l IH]; simpl.
  - rewrite list_elem_of_singleton, elem_of_nil. tauto.
  - destruct (Z.eqb x a) eqn:He.
    + apply Z.eqb_eq in He as ->. rewrite elem_of_cons. tauto.
    + destruct (Z.ltb x a); rewrite !elem_of_cons; [tauto|]. rewrite IH. tauto.
Qed.

Lemma np_unique_elem (y : Z) (l : list Z) :
  y ∈ Py.np_unique Z.ltb Z.eqb l ↔ y ∈ l.
Proof.
  unfold Py.np_unique.
  assert (H : ∀ acc, y ∈ foldl (λ acc x, Py.insert_unique Z.ltb Z.eqb x acc) acc l
                     ↔ y ∈ acc ∨ y ∈ l).
  { induction l as [|a l IH]; intros acc; simpl.
    - rewrite elem_of_nil. tauto.
    - rewrite IH, insert_unique_elem, elem_of_cons. tauto. }
  rewrite H, elem_of_nil. tauto.
Qed.

Lemma indices_elem (n : nat) (ids : list Z) (rs : list nat) (a : nat) :
  np.indices n ids = Ok rs → a ∈ rs ↔ ∃ i, i ∈ ids ∧ Py.np_index n i = Ok a.
Proof.
  revert rs. induction ids as [|i ids IH]; intros rs Hrs; simpl in Hrs.
  - injection Hrs as <-. rewrite elem_of_nil. split; [done|].
    by intros (i & ?%elem_of_nil & _).
  - apply Result_bind_Ok in Hrs as (r & Hr & Hrs).
    apply Result_bind_Ok in Hrs as (rs' & Hrs' & Hrs). injection Hrs as <-.
    rewrite elem_of_cons, (IH _ Hrs'). split.
    + intros [->|(j & Hj & Hja)]; [exists i; split; [by left|done]|].
      exists j. split; [by right|done].
    + intros (j & [->|Hj]%elem_of_cons & Hja); [left; congruence|right; by exists j].
Qed.

Lemma mget_eye (n a b : nat) :
  mget (np.eye n) a b
  = if decide (a < n ∧ b < n)%nat then Some (if decide (a = b) then 1 else 0) else None.
Proof.
  unfold mget, np.eye.
  change (map ?f ?l) with (f <$> l). rewrite list_lookup_fmap.
  destruct (decide (a < n)%nat) as [Ha|Ha].
  - rewrite lookup_seq_lt by lia. simpl. rewrite list_lookup_fmap.
    destruct (decide (b < n)%nat) as [Hb|Hb].
    + rewrite lookup_seq_lt by lia. simpl.
      destruct (decide ((a < n)%nat ∧ (b < n)%nat)); [done|lia].
    + rewrite lookup_seq_ge by lia. simpl. rewrite decide_False; [done|lia].
  - rewrite lookup_seq_ge by lia. simpl. rewrite decide_False; [done|lia].
Qed.

Lemma share_ray_cons (vals : list ch.Node.t) (angle : float) (rays : list float)
    (n a b : nat) :
  share_ray vals (angle :: rays) n a b
  ↔ share_ray vals [angle] n a b ∨ share_ray vals rays n a b.
Proof.
  unfold share_ray. split.
  - intros (g & u & v & [->|Hg]%elem_of_cons & Hrest).
    + left. exists angle, u, v. split; [by left|done].
    + right. by exists g, u, v.
  - intros [(g & u & v & ->%list_elem_of_singleton & Hrest)|(g & u & v & Hg & Hrest)].
    + exists angle, u, v. split; [by left|done].
    + exists g, u, v. split; [by right|done].
Qed.

(** The entries of the matrix after the rays were marked. *)
Lemma mark_rays_entries (n : nat) (vals : list ch.Node.t) (rays : list float)
    (M M' : Matrix) :
  length M = n → (∀ a row, M !! a = Some row → length row = n) →
  mark_rays vals rays M = Ok M' →
  ∀ a b,
    (share_ray vals rays n a b → mget M' a b = mark (mget M a b))
    ∧ (mget M' a b = mget M a b ∨ share_ray vals rays n a b).
Proof.
  revert M. induction rays as [|angle rays IH]; intros M Hr Hc Hm a b; simpl in Hm.
  - injection Hm as <-. split; [|by left].
    by intros (g & u & v & ?%elem_of_nil & _).
  - set (ids := Py.np_unique Z.ltb Z.eqb
                  (ch.Node.chain_id <$>
                     filter (λ node, PyFloat.eqb (ch.Node.angle node) angle = true) vals))
      in *.
    assert (Hids : ∀ i, i ∈ ids ↔
              ∃ u, u ∈ vals ∧ PyFloat.eqb (ch.Node.angle u) angle = true
                   ∧ ch.Node.chain_id u = i).
    { intros i. unfold ids. rewrite np_unique_elem, list_elem_of_fmap. split.
      - intros (u & -> & [Hu Hin]%list_elem_of_filter). by exists u.
      - intros (u & Hin & Hu & <-). exists u. split; [done|].
        by apply list_elem_of_filter. }
    destruct ids as [|i0 ids0] eqn:Hnil.
    + destruct (IH _ Hr Hc Hm a b) as [Hfwd Hbwd].
      assert (Hnone : ¬ share_ray vals [angle] n a b).
      { intros (g & u & v & ->%list_elem_of_singleton & Hu & _ & Hua & _).
        assert (Hin : ch.Node.chain_id u ∈ ([] : list Z)) by (apply Hids; by exists u).
        by apply elem_of_nil in Hin. }
      rewrite share_ray_cons. split; [intros [?|?]; [done|by apply Hfwd]|].
      destruct Hbwd; [by left|right; by right].
    + apply Result_bind_Ok in Hm as (M1 & HM1 & Hm).
      unfold np.assign_mesh_1 in HM1.
      apply Result_bind_Ok in HM1 as (rs & Hrs & HM1).
      apply Result_bind_Ok in HM1 as (cs & Hcs & HM1). injection HM1 as <-.
      unfold np.nrows in *.
      assert (Hn : (0 < n)%nat).
      { simpl in Hrs. apply Result_bind_Ok in Hrs as (r & Hri & _).
        apply np_index_Ok in Hri. lia. }
      rewrite (ncols_square n M) in Hcs by done. rewrite Hr in Hrs.
      assert (rs = cs) by congruence. subst rs.
      destruct (shape_mesh n cs cs M Hr Hc) as [Hr1 Hc1].
      destruct (IH _ Hr1 Hc1 Hm a b) as [Hfwd Hbwd].
      assert (Hone : share_ray vals [angle] n a b ↔ a ∈ cs ∧ b ∈ cs).
      { rewrite !(indices_elem _ _ _ _ Hcs). split.
        - intros (g & u & v & ->%list_elem_of_singleton & Hu & Hv & Hua & Hva & Ha & Hb).
          split.
          + exists (ch.Node.chain_id u). split; [apply Hids; by exists u|done].
          + exists (ch.Node.chain_id v). split; [apply Hids; by exists v|done].
        - intros [(i & Hi & Ha) (j & Hj & Hb)].
          apply Hids in Hi as (u & Hu & Hua & <-). apply Hids in Hj as (v & Hv & Hva & <-).
          exists angle, u, v. split_and!; try done. by left. }
      rewrite mget_mesh in Hfwd, Hbwd. rewrite share_ray_cons, Hone. split.
      * intros [Hin|Hrest].
        -- destruct Hbwd as [->|Hrest]; [by rewrite decide_True|].
           rewrite (Hfwd Hrest), decide_True by done. apply mark_mark.
        -- rewrite (Hfwd Hrest). case_decide; [apply mark_mark|done].
      * destruct Hbwd as [Heq|Hrest]; [|by right; right].
        rewrite Heq. case_decide; [right; by left|by left].
Qed.

Lemma np_max_Ok (l : list Z) (mx : Z) :
  np_max l = Ok mx → mx ∈ l ∧ ∀ x, x ∈ l → x ≤ mx.
Proof.
  destruct l as [|a l]; simpl; [done|]. intros [= <-].
  assert (H : ∀ acc, (foldl Z.max acc l = acc ∨ foldl Z.max acc l ∈ l)
                     ∧ acc ≤ foldl Z.max acc l
                     ∧ ∀ x, x ∈ l → x ≤ foldl Z.max acc l).
  { induction l as [|b l IH]; intros acc; simpl.
    - split_and!; [by left|lia|by intros x ?%elem_of_nil].
    - destruct (IH (Z.max acc b)) as (Hin & Hle & Hall). split_and!.
      + destruct Hin as [->|Hin]; [|right; by right].
        destruct (Z.max_spec acc b) as [[_ ->]|[_ ->]]; [right; by left|by left].
      + lia.
      + intros x [->|Hx]%elem_of_cons; [lia|by apply Hall]. }
  destruct (H a) as (Hin & Hle & Hall). split.
  - destruct Hin as [->|Hin]; [by left|by right].
  - intros x [->|Hx]%elem_of_cons; [done|by apply Hall].
Qed.

(** ** Entries of the matrix after a merge *)

Lemma merged_entries (n : nat) (M : Matrix) (idj idk : Z) (M' : Matrix) (rj rk : nat) :
  length M = n → (∀ a row, M !! a = Some row → length row = n) →
  Py.np_index n idj = Ok rj → Py.np_index n idk = Ok rk →
  (inter_cad_1 ← np.get_row M idj;
   inter_cad_2 ← np.get_row M idk;
   let or_inter_cad1_cad2 := np.logical_or inter_cad_1 inter_cad_2 in
   m ← np.set_row M idj or_inter_cad1_cad2;
   m ← np.set_col m idj or_inter_cad1_cad2;
   m ← np.delete_col m idk;
   np.delete_row m idk) = Ok M' →
  ∀ a b, (a < n - 1)%nat → (b < n - 1)%nat →
    mget M' a b
    = if decide (skip rk b = rj)
      then entry_or (mget M rj (skip rk a)) (mget M rk (skip rk a))
      else if decide (skip rk a = rj)
           then entry_or (mget M rj (skip rk b)) (mget M rk (skip rk b))
           else mget M (skip rk a) (skip rk b).
Proof.
  intros Hr Hc Hj Hk HM.
  apply Result_bind_Ok in HM as (rowj & Hgetj & HM).
  apply Result_bind_Ok in HM as (rowk & Hgetk & HM). cbv zeta in HM.
  apply Result_bind_Ok in HM as (M1 & HM1 & HM).
  apply Result_bind_Ok in HM as (M2 & HM2 & HM).
  apply Result_bind_Ok in HM as (M3 & HM3 & HM).
  unfold np.get_row, np.nrows in Hgetj, Hgetk. rewrite Hr in Hgetj, Hgetk.
  rewrite Hj in Hgetj. rewrite Hk in Hgetk. simpl in Hgetj, Hgetk.
  apply from_option_Ok in Hgetj, Hgetk.
  unfold np.set_row, np.nrows in HM1. rewrite Hr, Hj in HM1. injection HM1 as <-.
  pose proof (np_index_Ok _ _ _ Hj) as Hrjn. pose proof (np_index_Ok _ _ _ Hk) as Hrkn.
  assert (Hn : (0 < n)%nat) by lia.
  assert (Hlj : length rowj = n) by eauto.
  assert (Hlk : length rowk = n) by eauto.
  set (v := np.logical_or rowj rowk) in *.
  assert (Hlv : length v = n).
  { unfold v, np.logical_or. rewrite length_zip_with. lia. }
  set (M1 := <[rj := v]> M) in *.
  assert (Hr1 : length M1 = n) by (unfold M1; by rewrite length_insert).
  assert (Hc1 : ∀ a row, M1 !! a = Some row → length row = n).
  { intros a row Hrow. unfold M1 in Hrow.
    apply list_lookup_insert_Some in Hrow as [(_ & <- & _)|[_ ?]]; eauto. }
  unfold np.set_col in HM2. rewrite (ncols_square n M1) in HM2 by done.
  rewrite Hj in HM2. injection HM2 as <-.
  set (M2 := zip_with (λ row x, <[_ := x]> row) M1 v) in *.
  assert (Hr2 : length M2 = n).
  { unfold M2. rewrite length_zip_with. lia. }
  assert (Hc2 : ∀ a row, M2 !! a = Some row → length row = n).
  { intros a row Hrow. unfold M2 in Hrow.
    apply lookup_zip_with_Some in Hrow as (row0 & x & -> & Hrow0 & _).
    rewrite length_insert. eauto. }
  unfold np.delete_col in HM3. rewrite (ncols_square n M2) in HM3 by done.
  rewrite Hk in HM3. injection HM3 as <-.
  unfold np.delete_row, np.nrows in HM. rewrite length_map, Hr2, Hk in HM.
  injection HM as <-.
  assert (Hv : ∀ x, v !! x = entry_or (mget M rj x) (mget M rk x)).
  { intros x. unfold v, entry_or, mget. rewrite lookup_logical_or, Hgetj, Hgetk. done. }
  intros a b Ha Hb.
  assert (Hsa : (skip rk a < n)%nat) by (unfold skip; case_decide; lia).
  assert (Hsb : (skip rk b < n)%nat) by (unfold skip; case_decide; lia).
  rewrite mget_delete_row, mget_delete_col.
  unfold M2. rewrite (mget_set_col n); try done.
  case_decide; [apply Hv|]. unfold M1. rewrite mget_set_row by lia.
  case_decide; [apply Hv|done].
Qed.

(** ** Neighbour references after a merge *)

Lemma retarget_idemp (w : World) (ch_j : nat) (idk : Z) (p : option nat) :
  retarget w ch_j idk (retarget w ch_j idk p) = retarget w ch_j idk p.
Proof.
  unfold retarget. destruct p as [q|]; [|done].
  destruct (chains w !! q) as [cq|] eqn:Hq; [|by rewrite Hq].
  case_decide; [|by rewrite Hq, decide_False].
  destruct (chains w !! ch_j); [by case_decide|done].
Qed.

Lemma retarget_chain_idemp (w : World) (ch_j : nat) (idk : Z) (c : ch.Chain.t) :
  retarget_chain w ch_j idk (retarget_chain w ch_j idk c) = retarget_chain w ch_j idk c.
Proof. destruct c. unfold retarget_chain. simpl. by rewrite !retarget_idemp. Qed.

Lemma retarget_frame (w w1 : World) (ch_j : nat) (idk : Z) (p : option nat) :
  pointers_only w w1 → retarget w1 ch_j idk p = retarget w ch_j idk p.
Proof.
  intros Hp. unfold retarget. destruct p as [q|]; [|done].
  pose proof (pointers_only_lookup _ _ q Hp) as Hq.
  destruct (chains w !! q) as [c|], (chains w1 !! q) as [c1|]; simpl in Hq; try done.
  assert (Hcore : chain_core c1 = chain_core c) by congruence.
  apply chain_core_eq in Hcore as (-> & _). done.
Qed.

Lemma retarget_chain_frame (w w1 : World) (ch_j : nat) (idk : Z) (c : ch.Chain.t) :
  pointers_only w w1 → retarget_chain w1 ch_j idk c = retarget_chain w ch_j idk c.
Proof. intros Hp. unfold retarget_chain. by rewrite !(retarget_frame w w1). Qed.

Lemma repoint_Ok (ch_j ch_k chain : nat) (get : ch.Chain.t → option nat)
    (set : option nat → ch.Chain.t → ch.Chain.t) (w w' : World) (ck : ch.Chain.t) :
  (∀ c, set (get c) c = c) →
  chains w !! ch_k = Some ck →
  repoint ch_j ch_k chain get set w = Ok (tt, w') →
  ∃ c, chains w !! chain = Some c
       ∧ w' = mkWorld (nodes w)
                (<[chain := set (retarget w ch_j (ch.Chain.id ck) (get c)) c]> (chains w)).
Proof.
  intros Hlaw Hck Hr. unfold repoint in Hr.
  apply St_bind_Ok in Hr as (c & ? & Hc & Hr). apply read_Ok in Hc as [Hc ->].
  apply get_chain_Ok in Hc. exists c. split; [done|].
  assert (Hid : ∀ o, o = get c → w = mkWorld (nodes w) (<[chain := set o c]> (chains w))).
  { intros o ->. rewrite Hlaw, list_insert_id by done. by destruct w. }
  unfold retarget. destruct (get c) as [p|] eqn:Hp.
  - apply St_bind_Ok in Hr as (cp & ? & Hcp & Hr). apply read_Ok in Hcp as [Hcp ->].
    apply get_chain_Ok in Hcp. rewrite Hcp.
    apply St_bind_Ok in Hr as (ck' & ? & Hck' & Hr). apply read_Ok in Hck' as [Hck' ->].
    apply get_chain_Ok in Hck'. simplify_eq.
    case_decide.
    + apply upd_chain_Ok in Hr as (c' & Hc' & ->). simplify_eq.
      f_equal. apply list_eq. intros i. rewrite list_lookup_alter.
      destruct (decide (i = chain)) as [->|Hi].
      * rewrite decide_True, Hc by done. simpl.
        by rewrite list_lookup_insert_eq by (by eapply lookup_lt_Some).
      * rewrite decide_False by done. by rewrite list_lookup_insert_ne.
    + apply St_ret_Ok in Hr as [_ <-]. by apply Hid.
  - apply St_ret_Ok in Hr as [_ <-]. by apply Hid.
Qed.

Lemma repoint_Ok_frame (ch_j ch_k chain : nat) (get : ch.Chain.t → option nat)
    (set : option nat → ch.Chain.t → ch.Chain.t) (w0 w w' : World) (ck : ch.Chain.t) :
  (∀ c, set (get c) c = c) → (∀ o c, chain_core (set o c) = chain_core c) →
  pointers_only w0 w → chains w0 !! ch_k = Some ck →
  repoint ch_j ch_k chain get set w = Ok (tt, w') →
  pointers_only w0 w'
  ∧ ∃ c, chains w !! chain = Some c
         ∧ w' = mkWorld (nodes w)
                  (<[chain := set (retarget w0 ch_j (ch.Chain.id ck) (get c)) c]> (chains w)).
Proof.
  intros Hlaw Hcore Hp Hck Hr.
  destruct (pointers_only_chain _ _ _ _ Hp Hck) as (ck' & Hck' & Hid).
  apply chain_core_eq in Hid as (Hid & _).
  split.
  - eapply pointers_only_trans; [done|]. by eapply repoint_pointers_only.
  - destruct (repoint_Ok _ _ _ _ _ _ _ _ Hlaw Hck' Hr) as (c & Hc & ->).
    exists c. split; [done|]. by rewrite (retarget_frame w0 w), Hid.
Qed.

Section pointers.
Context `{Collaborators}.

Lemma update_chain_after_connect_step (ch_j ch_k chain : nat) (w0 w w' : World)
    (ck : ch.Chain.t) :
  pointers_only w0 w → chains w0 !! ch_k = Some ck →
  (_ ← repoint ch_j ch_k chain ch.Chain.A_outward ch.Chain.set_A_outward;
   _ ← repoint ch_j ch_k chain ch.Chain.A_inward ch.Chain.set_A_inward;
   _ ← repoint ch_j ch_k chain ch.Chain.B_outward ch.Chain.set_B_outward;
   repoint ch_j ch_k chain ch.Chain.B_inward ch.Chain.set_B_inward) w = Ok (tt, w') →
  pointers_only w0 w'
  ∧ ∃ c, chains w !! chain = Some c
         ∧ w' = mkWorld (nodes w)
                  (<[chain := retarget_chain w0 ch_j (ch.Chain.id ck) c]> (chains w)).
Proof.
  intros Hp Hck Hb.
  apply St_bind_Ok in Hb as ([] & w1 & H1 & Hb).
  apply St_bind_Ok in Hb as ([] & w2 & H2 & Hb).
  apply St_bind_Ok in Hb as ([] & w3 & H3 & Hb).
  apply (repoint_Ok_frame _ _ _ _ _ w0 _ _ ck) in H1 as (Hp1 & c & Hc & ->);
    [|by intros []|by intros ? []|done|done].
  apply (repoint_Ok_frame _ _ _ _ _ w0 _ _ ck) in H2 as (Hp2 & c1 & Hc1 & ->);
    [|by intros []|by intros ? []|done|done].
  apply (repoint_Ok_frame _ _ _ _ _ w0 _ _ ck) in H3 as (Hp3 & c2 & Hc2 & ->);
    [|by intros []|by intros ? []|done|done].
  apply (repoint_Ok_frame _ _ _ _ _ w0 _ _ ck) in Hb as (Hp4 & c3 & Hc3 & ->);
    [|by intros []|by intros ? []|done|done].
  split; [done|]. exists c. split; [done|]. simpl in *.
  assert (Hlt : (chain < length (chains w))%nat) by (by eapply lookup_lt_Some).
  rewrite list_lookup_insert_eq in Hc1 by done. injection Hc1 as <-.
  rewrite list_lookup_insert_eq in Hc2 by (by rewrite length_insert). injection Hc2 as <-.
  rewrite list_lookup_insert_eq in Hc3 by (by rewrite !length_insert). injection Hc3 as <-.
  rewrite !list_insert_insert_eq. f_equal.
Qed.

Lemma update_chain_after_connect_loop (ch_j ch_k : nat) (l : list nat) (w0 w w' : World)
    (ck : ch.Chain.t) :
  pointers_only w0 w → chains w0 !! ch_k = Some ck →
  st_iter (λ chain,
    _ ← repoint ch_j ch_k chain ch.Chain.A_outward ch.Chain.set_A_outward;
    _ ← repoint ch_j ch_k chain ch.Chain.A_inward ch.Chain.set_A_inward;
    _ ← repoint ch_j ch_k chain ch.Chain.B_outward ch.Chain.set_B_outward;
    repoint ch_j ch_k chain ch.Chain.B_inward ch.Chain.set_B_inward) l w = Ok (tt, w') →
  nodes w' = nodes w
  ∧ ∀ r, chains w' !! r
         = if decide (r ∈ l)
           then retarget_chain w0 ch_j (ch.Chain.id ck) <$> chains w !! r
           else chains w !! r.
Proof.
  revert w. induction l as [|a l IH]; intros w Hp Hck Hi; simpl in Hi.
  - apply St_ret_Ok in Hi as [_ <-]. split; [done|]. intros r.
    rewrite decide_False; [done|]. by intros ?%elem_of_nil.
  - apply St_bind_Ok in Hi as ([] & w1 & Hstep & Hi).
    destruct (update_chain_after_connect_step _ _ _ _ _ _ _ Hp Hck Hstep)
      as (Hp1 & c & Hc & ->).
    destruct (IH _ Hp1 Hck Hi) as [Hn Hch]. simpl in *. split; [done|].
    intros r. rewrite Hch.
    assert (Hlt : (a < length (chains w))%nat) by (by eapply lookup_lt_Some).
    destruct (decide (r = a)) as [->|Hra].
    + rewrite list_lookup_insert_eq, Hc by done. simpl.
      rewrite (decide_True (P := a ∈ a :: l)) by (by left).
      case_decide; [by rewrite retarget_chain_idemp|done].
    + rewrite list_lookup_insert_ne by done.
      destruct (decide (r ∈ l)) as [Hr|Hr].
      * rewrite decide_True; [done|by right].
      * rewrite decide_False; [done|]. by intros [?|?]%elem_of_cons.
Qed.

End pointers.

(** ** Visible chains *)

Lemma chain_eq_inv (r1 r2 : nat) (w : World) (b : bool) :
  chain_eq r1 r2 w = Ok b →
  ∃ c1 c2, chains w !! r1 = Some c1 ∧ chains w !! r2 = Some c2
           ∧ b = bool_decide (ch.Chain.id c1 = ch.Chain.id c2).
Proof.
  unfold chain_eq. intros Hb.
  apply Rd_bind_Ok in Hb as (c1 & H1 & Hb). apply get_chain_Ok in H1.
  apply Rd_bind_Ok in Hb as (c2 & H2 & Hb). apply get_chain_Ok in H2.
  apply Rd_ret_Ok in Hb. by exists c1, c2.
Qed.

Lemma contains_Ok (l : list nat) (r : nat) (w : World) (b : bool) :
  contains l r w = Ok b → b = true ↔ ∃ a, a ∈ l ∧ same_id w a r.
Proof.
  revert b. induction l as [|a l IH]; intros b Hb; simpl in Hb.
  - apply Rd_ret_Ok in Hb as <-. split; [done|]. by intros (a & ?%elem_of_nil & _).
  - apply Rd_bind_Ok in Hb as (e & He & Hb).
    apply chain_eq_inv in He as (ca & cr & Ha & Hr & ->).
    case_bool_decide as Hid.
    + apply Rd_ret_Ok in Hb as <-. split; [|done]. intros _.
      exists a. split; [by left|]. by exists ca, cr.
    + rewrite (IH _ Hb). split.
      * intros (x & Hx & Hs). exists x. split; [by right|done].
      * intros (x & [->|Hx]%elem_of_cons & Hs); [|by exists x].
        destruct Hs as (ca' & cr' & ? & ? & ?). by simplify_eq.
Qed.

Lemma contains_distinct (l0 l : list nat) (r : nat) (w : World) (b : bool) :
  distinct_ids w l0 → (∀ x, x ∈ l → x ∈ l0) → r ∈ l0 →
  contains l r w = Ok b → b = true ↔ r ∈ l.
Proof.
  intros Hd Hsub Hr Hb. rewrite (contains_Ok _ _ _ _ Hb). split.
  - intros (a & Ha & ca & cr & Hca & Hcr & Hid).
    by rewrite <- (Hd a r ca cr (Hsub _ Ha) Hr Hca Hcr Hid).
  - intros Hin. exists r. split; [done|].
    assert (∃ c, chains w !! r = Some c) as [c Hc].
    { revert Hb Hin. clear. revert b. induction l as [|a l IH]; intros b Hb Hin.
      - by apply elem_of_nil in Hin.
      - simpl in Hb. apply Rd_bind_Ok in Hb as (e & He & Hb).
        apply chain_eq_inv in He as (ca & cr & _ & Hr & _). by exists cr. }
    by exists c, c.
Qed.

Lemma visible_loop_Ok (l0 rest : list nat) (s : nat) (outw inw O I : list nat)
    (w : World) :
  distinct_ids w l0 →
  (∀ x, x ∈ rest → x ∈ l0) → (∀ x, x ∈ outw → x ∈ l0) → (∀ x, x ∈ inw → x ∈ l0) →
  NoDup outw → NoDup inw →
  get_inward_and_outward_list_chains_via_pointers_loop rest s outw inw w = Ok (O, I) →
  NoDup O ∧ NoDup I
  ∧ (∀ x, x ∈ O ↔ x ∈ outw ∨ (x ∈ rest ∧ ¬ same_id w x s ∧ points_inward w s x))
  ∧ (∀ x, x ∈ I ↔ x ∈ inw ∨ (x ∈ rest ∧ ¬ same_id w x s ∧ points_outward w s x)).
Proof.
  intros Hd. revert outw inw.
  induction rest as [|a rest IH]; intros outw inw Hrest Hout Hinw Hnd1 Hnd2 Hl;
    simpl in Hl.
  - apply Rd_ret_Ok in Hl. injection Hl as <- <-. split_and!; try done.
    + intros x. split; [by left|]. by intros [?|[?%elem_of_nil _]].
    + intros x. split; [by left|]. by intros [?|[?%elem_of_nil _]].
  - apply Rd_bind_Ok in Hl as (same & Hsame & Hl).
    apply chain_eq_inv in Hsame as (ca & cs & Hca & Hcs & ->).
    assert (Hsid : same_id w a s ↔ ch.Chain.id ca = ch.Chain.id cs).
    { split; [intros (? & ? & ? & ? & ?); by simplify_eq|]. intros ?. by exists ca, cs. }
    assert (Hrest' : ∀ x, x ∈ rest → x ∈ l0) by (intros; apply Hrest; by right).
    case_bool_decide as Hid.
    + destruct (IH _ _ Hrest' Hout Hinw Hnd1 Hnd2 Hl) as (? & ? & HO & HI).
      split_and!; try done.
      * intros x. rewrite HO, elem_of_cons. split; [intros [?|(? & ? & ?)]; eauto|].
        intros [?|([->|?] & Hns & ?)]; eauto. by destruct Hns; apply Hsid.
      * intros x. rewrite HI, elem_of_cons. split; [intros [?|(? & ? & ?)]; eauto|].
        intros [?|([->|?] & Hns & ?)]; eauto. by destruct Hns; apply Hsid.
    + apply Rd_bind_Ok in Hl as (c & Hc & Hl). apply get_chain_Ok in Hc.
      rewrite Hca in Hc. injection Hc as <-.
      apply Rd_bind_Ok in Hl as (in_out & Hio & Hl).
      apply Rd_bind_Ok in Hl as (in_inw & Hii & Hl).
      assert (Ha0 : a ∈ l0) by (apply Hrest; by left).
      pose proof (contains_distinct _ _ _ _ _ Hd Hout Ha0 Hio) as Hio'.
      pose proof (contains_distinct _ _ _ _ _ Hd Hinw Ha0 Hii) as Hii'.
      set (pin := bool_decide (ch.Chain.A_inward ca = Some s)
                  || bool_decide (ch.Chain.B_inward ca = Some s)) in *.
      set (pout := bool_decide (ch.Chain.A_outward ca = Some s)
                   || bool_decide (ch.Chain.B_outward ca = Some s)) in *.
      assert (Hpin : pin = true ↔ points_inward w s a).
      { unfold pin, points_inward. rewrite orb_true_iff, !bool_decide_eq_true. split.
        - intros ?. by exists ca.
        - intros (c' & ? & ?). by simplify_eq. }
      assert (Hpout : pout = true ↔ points_outward w s a).
      { unfold pout, points_outward. rewrite orb_true_iff, !bool_decide_eq_true. split.
        - intros ?. by exists ca.
        - intros (c' & ? & ?). by simplify_eq. }
      assert (Hns : ¬ same_id w a s) by (by rewrite Hsid).
      apply IH in Hl as (? & ? & HO & HI); try done.
      * split_and!; try done.
        -- intros x. rewrite HO. destruct in_out, pin; simpl;
             rewrite ?elem_of_app, ?list_elem_of_singleton, elem_of_cons;
             split; intros Hx; try tauto.
           ++ destruct Hx as [?|([->|?] & ? & ?)]; [tauto| |tauto].
              left. by apply Hio'.
           ++ destruct Hx as [?|([->|?] & ? & Hp)]; [tauto| |tauto].
              left. by apply Hio'.
           ++ destruct Hx as [[?| ->]|?]; [tauto| |tauto].
              right. split_and!; [by left|done|by apply Hpin].
           ++ destruct Hx as [?|([->|?] & ? & Hp)]; [tauto| |tauto].
              apply Hpin in Hp. done.
        -- intros x. rewrite HI. destruct in_inw, pout; simpl;
             rewrite ?elem_of_app, ?list_elem_of_singleton, elem_of_cons;
             split; intros Hx; try tauto.
           ++ destruct Hx as [?|([->|?] & ? & ?)]; [tauto| |tauto].
              left. by apply Hii'.
           ++ destruct Hx as [?|([->|?] & ? & Hp)]; [tauto| |tauto].
              left. by apply Hii'.
           ++ destruct Hx as [[?| ->]|?]; [tauto| |tauto].
              right. split_and!; [by left|done|by apply Hpout].
           ++ destruct Hx as [?|([->|?] & ? & Hp)]; [tauto| |tauto].
              apply Hpout in Hp. done.
      * destruct in_out, pin; simpl; try done.
        intros x [?| ->%list_elem_of_singleton]%elem_of_app; eauto.
      * destruct in_inw, pout; simpl; try done.
        intros x [?| ->%list_elem_of_singleton]%elem_of_app; eauto.
      * destruct in_out, pin; simpl; try done.
        apply NoDup_app. split_and!; [done| |apply NoDup_singleton].
        intros x Hx ->%list_elem_of_singleton.
        assert (false = true) by (by apply Hio'). done.
      * destruct in_inw, pout; simpl; try done.
        apply NoDup_app. split_and!; [done| |apply NoDup_singleton].
        intros x Hx ->%list_elem_of_singleton.
        assert (false = true) by (by apply Hii'). done.
Qed.

Lemma remove_all_Ok (l0 S ud S' : list nat) (w : World) :
  distinct_ids w l0 → (∀ x, x ∈ S → x ∈ l0) → (∀ x, x ∈ ud → x ∈ l0) → NoDup S →
  remove_all S ud w = Ok S' →
  NoDup S' ∧ ∀ y, y ∈ S' ↔ y ∈ S ∧ y ∉ ud.
Proof.
  intros Hd. revert S. induction ud as [|x ud IH]; intros S HS Hud Hnd Hr; simpl in Hr.
  - apply Rd_ret_Ok in Hr as <-. split; [done|]. intros y. split; [|tauto].
    intros ?. split; [done|]. by intros ?%elem_of_nil.
  - apply Rd_bind_Ok in Hr as (S1 & H1 & Hr). unfold list_remove in H1.
    apply Rd_bind_Ok in H1 as (i & Hi & H1). apply Rd_ret_Ok in H1 as <-.
    apply index_Ok in Hi as (a & ca & cx & Ha & Hca & Hcx & Hid).
    assert (a = x) as ->.
    { eapply Hd; [|apply Hud; by left|done|done|done].
      apply HS. by eapply list_elem_of_lookup_2. }
    destruct (delete_NoDup _ _ _ Hnd Ha) as [Hnd1 Hin1].
    apply IH in Hr as [Hnd' Hin']; [|intros y Hy; apply HS; by apply Hin1
                                    |intros y Hy; apply Hud; by right|done].
    split; [done|]. intros y. rewrite Hin', Hin1, elem_of_cons. tauto.
Qed.

Section visibility.
Context `{Collaborators}.

(** The two groups of visible chains. *)
Lemma find_visible_chains_Ok (l_ch_s : list nat) (support_chain : nat) (w : World)
    (l_s_outward l_s_inward : list nat) :
  distinct_ids w l_ch_s →
  find_visible_chains l_ch_s support_chain w = Ok (l_s_outward, l_s_inward) →
  NoDup l_s_outward ∧ NoDup l_s_inward
  ∧ (∀ x, x ∈ l_s_inward ↔
          x ∈ l_ch_s ∧ ¬ same_id w x support_chain ∧ points_outward w support_chain x)
  ∧ (∀ x, x ∈ l_s_outward ↔
          x ∈ l_ch_s ∧ ¬ same_id w x support_chain ∧ points_inward w support_chain x
          ∧ ¬ points_outward w support_chain x).
Proof.
  intros Hd Hf. unfold find_visible_chains in Hf.
  apply Rd_bind_Ok in Hf as ([O I] & Hl & Hf).
  apply Rd_bind_Ok in Hf as ([ud O'] & Hr & Hf).
  apply Rd_ret_Ok in Hf. injection Hf as <- <-.
  unfold get_inward_and_outward_list_chains_via_pointers in Hl.
  apply (visible_loop_Ok l_ch_s) in Hl as (HndO & HndI & HO & HI); try done;
    try apply NoDup_nil_2; try (by intros x ?%elem_of_nil).
  assert (HOl : ∀ x, x ∈ O → x ∈ l_ch_s).
  { intros x [?%elem_of_nil|(? & _)]%HO; done. }
  assert (HIl : ∀ x, x ∈ I → x ∈ l_ch_s).
  { intros x [?%elem_of_nil|(? & _)]%HI; done. }
  unfold remove_chains_if_present_at_both_groups in Hr.
  apply Rd_bind_Ok in Hr as (ud' & Hud & Hr).
  apply Rd_bind_Ok in Hr as (O'' & Hrm & Hr).
  apply Rd_ret_Ok in Hr. injection Hr as <- <-.
  pose proof (rd_filter_Ok _ _ _ _ Hud) as Hudin.
  assert (Hud' : ∀ x, x ∈ ud' ↔ x ∈ O ∧ x ∈ I).
  { intros x. rewrite Hudin. split.
    - intros [Hx Hc]. split; [done|].
      by apply (contains_distinct l_ch_s _ _ _ _ Hd HIl (HOl _ Hx) Hc).
    - intros [Hx Hi]. split; [done|].
      destruct (contains I x w) as [b|e] eqn:Hc.
      + f_equal. by apply (contains_distinct l_ch_s _ _ _ _ Hd HIl (HOl _ Hx) Hc).
      + exfalso. clear -Hud Hx Hc. revert ud' Hud.
        induction O as [|a O IH]; intros ud' Hud; [by apply elem_of_nil in Hx|].
        simpl in Hud. apply Rd_bind_Ok in Hud as (b & Hb & Hud).
        apply Rd_bind_Ok in Hud as (r & Hr & _).
        apply elem_of_cons in Hx as [->|Hx]; [congruence|by eapply IH]. }
  apply (remove_all_Ok l_ch_s) in Hrm as [Hnd' Hin']; try done;
    [|intros x Hx; apply HOl; by apply Hud'].
  split_and!; try done.
  - intros x. rewrite HI, elem_of_nil. tauto.
  - intros x. rewrite Hin', Hud', HO, HI, !elem_of_nil. tauto.
Qed.

End visibility.

(** ** Choice between the two neighbours *)

Lemma nonneg_above_minus_one (d : float) :
  PyFloat.leb PyFloat.zero d = true →
  PyFloat.leb PyFloat.minus_one d = true
  ∧ PyFloat.leb d PyFloat.minus_one = false
  ∧ PyFloat.ltb PyFloat.minus_one d = true.
Proof.
  unfold PyFloat.leb, PyFloat.ltb, SFleb, SFltb, PyFloat.zero, PyFloat.minus_one.
  destruct d as [s|s| |s m e]; try destruct s; cbn [SFcompare]; done.
Qed.

(** ** Chains of the neighbourhood *)

Section neighbourhood.
Context `{Collaborators}.

Lemma chains_within_angular_neighbourhood_Ok (n : Z) (l : list nat) (ch_j : nat)
    (e : ch.EndPoints) (w : World) (r : list Set_) :
  chains_within_angular_neighbourhood n l ch_j e w = Ok r →
  ∀ s, s ∈ r →
    s.2 ∈ l
    ∧ ∃ ck cj, chains w !! s.2 = Some ck ∧ chains w !! ch_j = Some cj
               ∧ ch.Chain.id ck ≠ ch.Chain.id cj
               ∧ PyFloat.leb (angular_distance_between_chains w ch_j s.2 e)
                   (PyFloat.of_Z n) = true.
Proof.
  revert r. induction l as [|a l IH]; intros r Hr s Hs; simpl in Hr.
  - apply Rd_ret_Ok in Hr as <-. by apply elem_of_nil in Hs.
  - apply Rd_bind_Ok in Hr as (w0 & Hw & Hr). unfold ask in Hw. injection Hw as <-.
    apply Rd_bind_Ok in Hr as (cc & Hcc & Hr). apply get_chain_Ok in Hcc.
    apply Rd_bind_Ok in Hr as (cj & Hcj & Hr). apply get_chain_Ok in Hcj.
    apply Rd_bind_Ok in Hr as (r0 & Hr0 & Hr).
    destruct (PyFloat.leb _ _ && negb _) eqn:Hc; apply Rd_ret_Ok in Hr as <-.
    + apply elem_of_cons in Hs as [->|Hs].
      * simpl. split; [by left|]. apply andb_true_iff in Hc as [Hle Hid].
        apply negb_true_iff, bool_decide_eq_false in Hid. by exists cc, cj.
      * destruct (IH _ Hr0 s Hs) as [? ?]. split; [by right|done].
    + destruct (IH _ Hr0 s Hs) as [? ?]. split; [by right|done].
Qed.

Lemma get_chains_in_neighbourhood_Ok (state : SystemStatus.t) (l : list nat)
    (ch_j ch_i : nat) (e : ch.EndPoints) (loc : ch.ChainLocation) (w : World)
    (r : list Set_) :
  get_chains_in_neighbourhood (SystemStatus.neighbourhood_size state) l ch_j ch_i e loc w
  = Ok r →
  ∀ k, k ∈ r.*2 → k ∈ l ∧ in_neighbourhood state ch_j ch_i loc e w k.
Proof.
  intros Hr k Hk. unfold get_chains_in_neighbourhood in Hr.
  apply Rd_bind_Ok in Hr as (l1 & H1 & Hr).
  apply Rd_bind_Ok in Hr as (l2 & H2 & Hr).
  apply list_elem_of_fmap in Hk as (s & -> & Hs).
  apply (sort_chains_in_neighbourhood_elem _ _ _ _ Hr) in Hs.
  apply list_elem_of_fmap in Hs as (p & -> & Hp).
  apply (rd_filter_Ok _ _ _ _ H2) in Hp as [Hp Hptr].
  destruct (chains_within_angular_neighbourhood_Ok _ _ _ _ _ _ H1 p Hp)
    as (Hin & ck & cj & Hck & Hcj & Hid & Hle).
  split; [done|]. exists ck, cj. split_and!; try done.
  apply Rd_bind_Ok in Hptr as (c & Hc & Hptr). apply get_chain_Ok in Hc.
  simplify_eq. by destruct e, loc.
Qed.

End neighbourhood.

(** ** Sorting by size *)

Lemma insert_sorted_Permutation {A : Type} (lt : A → A → bool) (x : A) (l : list A) :
  Py.insert_sorted lt x l ≡ₚ x :: l.
Proof.
  induction l as [|y l IH]; simpl; [done|].
  destruct (lt x y); [done|]. rewrite IH. apply Permutation_swap.
Qed.

Lemma sorted_Permutation {A : Type} (lt : A → A → bool) (l : list A) :
  Py.sorted lt l ≡ₚ l.
Proof.
  unfold Py.sorted.
  assert (H : ∀ acc, foldl (λ acc x, Py.insert_sorted lt x acc) acc l ≡ₚ l ++ acc).
  { induction l as [|x l IH]; intros acc; simpl; [done|].
    rewrite IH, insert_sorted_Permutation. by rewrite Permutation_middle. }
  rewrite H. by rewrite app_nil_r.
Qed.

Lemma descending_cons {A : Type} (x : Z * A) (l : list (Z * A)) :
  descending (x :: l) ↔ (∀ y, y ∈ l → y.1 ≤ x.1) ∧ descending l.
Proof.
  unfold descending. split.
  - intros Hd. split.
    + intros y [i Hi]%list_elem_of_lookup. apply (Hd 0%nat (S i)); [lia|done|done].
    + intros i j a b Hij Ha Hb. apply (Hd (S i) (S j)); [lia|done|done].
  - intros [Hx Hd] i j a b Hij Ha Hb. destruct i as [|i], j as [|j]; simpl in *.
    + simplify_eq. lia.
    + simplify_eq. apply Hx. by eapply list_elem_of_lookup_2.
    + lia.
    + eapply (Hd i j); [lia|done|done].
Qed.

Lemma insert_sorted_descending {A : Type} (x : Z * A) (l : list (Z * A)) :
  descending l → descending (Py.insert_sorted (λ a b, Z.ltb b.1 a.1) x l).
Proof.
  induction l as [|y l IH]; intros Hd; simpl.
  - apply descending_cons. split; [by intros ? ?%elem_of_nil|done].
  - apply descending_cons in Hd as [Hy Hd].
    destruct (Z.ltb y.1 x.1) eqn:Hlt.
    + apply Z.ltb_lt in Hlt. apply descending_cons. split.
      * intros z [->|Hz]%elem_of_cons; [lia|]. specialize (Hy z Hz). lia.
      * by apply descending_cons.
    + apply Z.ltb_ge in Hlt. apply descending_cons. split; [|by apply IH].
      intros z Hz. rewrite insert_sorted_Permutation in Hz.
      apply elem_of_cons in Hz as [->|Hz]; [done|by apply Hy].
Qed.

Lemma sorted_descending {A : Type} (l : list (Z * A)) :
  descending (Py.sorted (λ a b, Z.ltb b.1 a.1) l).
Proof.
  unfold Py.sorted.
  assert (H : ∀ acc, descending acc →
    descending (foldl (λ acc x, Py.insert_sorted (λ a b, Z.ltb b.1 a.1) x acc) acc l)).
  { induction l as [|x l IH]; intros acc Hacc; simpl; [done|].
    apply IH. by apply insert_sorted_descending. }
  apply H. by intros i j a b _ ?.
Qed.

Lemma with_size_Ok (l : list nat) (w : World) (keyed : list (Z * nat)) :
  with_size l w = Ok keyed →
  keyed.*2 = l
  ∧ ∀ p, p ∈ keyed → ∃ c, chains w !! p.2 = Some c ∧ p.1 = ch.Chain.size c.
Proof.
  unfold with_size. revert keyed. induction l as [|a l IH]; intros keyed Hk; simpl in Hk.
  - apply Rd_ret_Ok in Hk as <-. split; [done|]. by intros p ?%elem_of_nil.
  - apply Rd_bind_Ok in Hk as (b & Hb & Hk).
    apply Rd_bind_Ok in Hb as (c & Hc & Hb). apply get_chain_Ok in Hc.
    apply Rd_ret_Ok in Hb as <-.
    apply Rd_bind_Ok in Hk as (bs & Hbs & Hk). apply Rd_ret_Ok in Hk as <-.
    destruct (IH _ Hbs) as [Hl Hin]. split; [rewrite fmap_cons; by rewrite Hl|].
    intros p [->|Hp]%elem_of_cons; [by exists c|by apply Hin].
Qed.

(** The chains sorted by size, largest first. *)
Lemma sort_by_size_desc_Ok (l r : list nat) (w : World) :
  sort_by_size_desc l w = Ok r →
  r ≡ₚ l
  ∧ ∀ i j a b ca cb,
      (i ≤ j)%nat → r !! i = Some a → r !! j = Some b →
      chains w !! a = Some ca → chains w !! b = Some cb →
      ch.Chain.size cb ≤ ch.Chain.size ca.
Proof.
  unfold sort_by_size_desc. intros Hs.
  apply Rd_bind_Ok in Hs as (keyed & Hk & Hs). apply Rd_ret_Ok in Hs as <-.
  destruct (with_size_Ok _ _ _ Hk) as [Hl Hkeys].
  unfold Py.sorted_by_key.
  set (s := Py.sorted (λ a b : Z * nat, Z.ltb b.1 a.1) keyed).
  assert (Hperm : s ≡ₚ keyed) by apply sorted_Permutation.
  split.
  - rewrite <- Hl. by apply fmap_Permutation.
  - intros i j a b ca cb Hij Ha Hb Hca Hcb.
    rewrite list_lookup_fmap in Ha, Hb.
    apply fmap_Some in Ha as (pa & Hpa & ->). apply fmap_Some in Hb as (pb & Hpb & ->).
    pose proof (sorted_descending keyed i j pa pb Hij Hpa Hpb) as Hle.
    destruct (Hkeys pa) as (ca' & Hca' & Hsa).
    { rewrite <- Hperm. by eapply list_elem_of_lookup_2. }
    destruct (Hkeys pb) as (cb' & Hcb' & Hsb).
    { rewrite <- Hperm. by eapply list_elem_of_lookup_2. }
    simplify_eq. lia.
Qed.

Section initialisation.
Context `{Collaborators}.

Lemma SystemStatus_init_Ok (l_ch l_nodes : list nat) (M : Matrix) (cy cx : float) (Nr : Z)
    (th_radial_tolerance : float) (th_distribution_size : Z)
    (th_regular_derivative : float) (neighbourhood_size : Z)
    (derivative_from_center : bool) (w w' : World) (state : SystemStatus.t) :
  SystemStatus_init l_ch l_nodes M cy cx Nr th_radial_tolerance th_distribution_size
    th_regular_derivative neighbourhood_size derivative_from_center w = Ok (state, w') →
  sort_by_size_desc l_ch w = Ok (SystemStatus.l_ch_s state)
  ∧ pointers_only w w'
  ∧ state = SystemStatus.mk l_nodes (SystemStatus.l_ch_s state) Nr derivative_from_center
              th_distribution_size neighbourhood_size M (cy, cx) 0%nat 0
              th_radial_tolerance th_regular_derivative true None None.
Proof.
  intros Hi. unfold SystemStatus_init in Hi.
  apply St_bind_Ok in Hi as (sorted & w1 & Hs & Hi). apply read_Ok in Hs as [Hs ->].
  apply St_bind_Ok in Hi as ([] & w2 & Hn & Hi). apply St_ret_Ok in Hi as [<- <-].
  apply update_chain_neighbourhood_pointers_only in Hn. by split_and!.
Qed.

Lemma sizes_frame (w w' : World) (r : nat) (c' : ch.Chain.t) :
  pointers_only w w' → chains w' !! r = Some c' →
  ∃ c, chains w !! r = Some c ∧ ch.Chain.size c = ch.Chain.size c'.
Proof.
  intros Hp Hc. apply pointers_only_sym in Hp.
  destruct (pointers_only_chain _ _ _ _ Hp Hc) as (c & Hc0 & Hcore).
  apply chain_core_eq in Hcore as (_ & _ & ? & _). by exists c.
Qed.

End initialisation.

(** ** Growth of the store *)

Lemma only_grows_refl (w : World) : only_grows w w.
Proof.
  split; [exists []; by rewrite app_nil_r|]. intros r c Hc. by exists c.
Qed.

Lemma only_grows_trans (w1 w2 w3 : World) :
  only_grows w1 w2 → only_grows w2 w3 → only_grows w1 w3.
Proof.
  intros [[v1 Hn1] Hc1] [[v2 Hn2] Hc2]. split.
  - exists (v1 ++ v2). by rewrite Hn2, Hn1, app_assoc.
  - intros r c Hc. destruct (Hc1 r c Hc) as (c2 & Hr2 & ? & ? & ? & ?).
    destruct (Hc2 r c2 Hr2) as (c3 & Hr3 & ? & ? & ? & ?).
    exists c3. split_and!; try congruence. by etrans.
Qed.

Lemma pointers_only_grows (w w' : World) : pointers_only w w' → only_grows w w'.
Proof.
  intros Hp. split.
  - exists []. destruct Hp as [-> _]. by rewrite app_nil_r.
  - intros r c Hc. destruct (pointers_only_chain _ _ _ _ Hp Hc) as (c' & Hc' & Hcore).
    exists c'. unfold chain_core in Hcore. injection Hcore as -> _ -> -> -> _ _.
    by split_and!.
Qed.

Lemma copy_chain_grows (r r' : nat) (w w' : World) :
  copy_chain r w = Ok (r', w') → only_grows w w'.
Proof.
  intros Hc. unfold copy_chain in Hc.
  apply St_bind_Ok in Hc as (c & ? & Hg & Hc). apply read_Ok in Hg as [_ ->].
  apply St_bind_Ok in Hc as (ns & ? & Hns & Hc). apply read_Ok in Hns as [_ ->].
  apply St_bind_Ok in Hc as (news & w1 & Hnews & Hc).
  apply st_map_new_node in Hnews as [-> _].
  unfold new_chain in Hc. injection Hc as _ <-. simpl. split.
  - by exists ns.
  - intros x cx Hx. exists cx. simpl. split_and!; try done.
    by apply lookup_app_l_Some.
Qed.

Section closing.
Context `{Collaborators}.

Lemma interpolate_grows (ch_i : option nat) (ej ek : option nat) (e : ch.EndPoints)
    (ch_j : nat) (support2 : option nat) (w w' : World) (refs : list nat) :
  interpolate ch_i ej ek e ch_j support2 w = Ok (refs, w') → only_grows w w'.
Proof.
  intros Hi. apply interpolate_Ok in Hi as (vals & -> & _). split.
  - by exists vals.
  - intros r c Hc. by exists c.
Qed.

Lemma add_nodes_list_grows (r : nat) (l : list nat) (w w' : World) (b : bool) :
  add_nodes_list r l w = Ok (b, w') → only_grows w w'.
Proof.
  intros Ha. apply add_nodes_list_Ok in Ha as (c & ea & eb & Hc & ->). split.
  - exists []. simpl. by rewrite app_nil_r.
  - intros x cx Hx. simpl. rewrite list_lookup_alter.
    destruct (decide (r = x)) as [->|Hne].
    + rewrite Hx. simpl. eexists. split; [done|].
      rewrite Hc in Hx. injection Hx as <-.
      destruct c. simpl. split_and!; try done. by apply prefix_app_r.
    + by exists cx.
Qed.

Lemma close_chain_frame (n : nat) (state : SystemStatus.t) (chain : nat)
    (ch_i support2 : option nat) (o : option SystemStatus.t) (w w' : World) :
  close_chain (Some state) chain ch_i support2 w = Ok (o, w') →
  only_grows w w'
  ∧ SystemStatus.l_ch_s (default state o) = SystemStatus.l_ch_s state
  ∧ (intersection_matrix n (SystemStatus.M state) →
     intersection_matrix n (SystemStatus.M (default state o))).
Proof.
  intros Hc. unfold close_chain in Hc.
  apply St_bind_Ok in Hc as (c & ? & Hg & Hc). apply read_Ok in Hg as [_ ->].
  apply St_bind_Ok in Hc as (cp & w1 & Hcp & Hc). apply copy_chain_grows in Hcp.
  apply St_bind_Ok in Hc as (ns & w2 & Hi & Hc). apply interpolate_grows in Hi.
  apply St_bind_Ok in Hc as (ex & w3 & Hex & Hc). injection Hex as <- <-.
  pose proof (only_grows_trans _ _ _ Hcp Hi) as H12.
  destruct (exist_chain_overlapping _ _ _ _ _ _ _).
  - apply St_ret_Ok in Hc as [<- <-]. by split_and!.
  - apply St_bind_Ok in Hc as (b & w4 & Ha & Hc). apply add_nodes_list_grows in Ha.
    apply St_bind_Ok in Hc as (st & w5 & Hs & Hc). apply St_ret_Ok in Hc as [<- <-].
    apply (add_interpolated_nodes_to_system_frame n) in Hs as (Hp & Hl & Hm).
    split_and!; try done.
    eauto using only_grows_trans, pointers_only_grows.
Qed.

Lemma closing_loop_frame (n : nat) (state state' : SystemStatus.t) (threshold : float)
    (l : list nat) (w w' : World) :
  closing_loop state threshold l w = Ok (state', w') →
  only_grows w w'
  ∧ SystemStatus.l_ch_s state' = SystemStatus.l_ch_s state
  ∧ (intersection_matrix n (SystemStatus.M state) →
     intersection_matrix n (SystemStatus.M state')).
Proof.
  revert state w. induction l as [|a l IH]; intros state w Hl; simpl in Hl.
  - apply St_ret_Ok in Hl as [<- <-]. split_and!; try done. apply only_grows_refl.
  - apply St_bind_Ok in Hl as (c & ? & Hg & Hl). apply read_Ok in Hg as [_ ->].
    destruct (skip_closing threshold c); [by apply IH|].
    apply St_bind_Ok in Hl as (s1 & ? & Hs & Hl). apply read_Ok in Hs as [_ ->].
    apply St_bind_Ok in Hl as (o & w1 & Hc & Hl).
    apply (close_chain_frame n) in Hc as (Hg1 & Hl1 & Hm1).
    apply IH in Hl as (Hg2 & Hl2 & Hm2). split_and!.
    + by eapply only_grows_trans.
    + congruence.
    + tauto.
Qed.

End closing.

(** ** Marks on a ray *)

Lemma rd_map_elem_2 {A B : Type} (f : A → Rd B) (l : list A) (r : list B) (w : World)
    (a : A) (b : B) :
  rd_map f l w = Ok r → a ∈ l → f a w = Ok b → b ∈ r.
Proof.
  revert r. induction l as [|x l IH]; intros r Hr Ha Hb; simpl in Hr.
  - by apply elem_of_nil in Ha.
  - apply Rd_bind_Ok in Hr as (y & Hy & Hr). apply Rd_bind_Ok in Hr as (ys & Hys & Hr).
    apply Rd_ret_Ok in Hr as <-.
    apply elem_of_cons in Ha as [->|Ha]; [|right; by eapply IH].
    assert (y = b) as -> by congruence. by left.
Qed.

Lemma mark_Some (x : option Z) : is_Some x → mark x = Some 1.
Proof. by intros [y ->]. Qed.

(** ** Reading a row of the matrix *)

Lemma where_eq_1_NoDup (v : list Z) : NoDup (np.where_eq_1 v).
Proof.
  unfold np.where_eq_1.
  eapply sublist_NoDup; [|apply fmap_sublist, sublist_filter].
  rewrite fst_zip by (by rewrite length_fmap, length_seq).
  apply NoDup_fmap_2; [apply _|apply NoDup_seq].
Qed.

Lemma index_where_eqb (x : Z) (l : list Z) :
  match Py.index_where (Z.eqb x) l with
  | Some i => l !! i = Some x
  | None => x ∉ l
  end.
Proof.
  induction l as [|a l IH]; simpl; [by intros ?%elem_of_nil|].
  destruct (Z.eqb x a) eqn:He.
  - apply Z.eqb_eq in He as ->. done.
  - apply Z.eqb_neq in He.
    destruct (Py.index_where (Z.eqb x) l) as [i|]; simpl; [done|].
    by intros [?|?]%elem_of_cons.
Qed.

(** ** The inner loop of the driver *)

Lemma merged_only_refl (state : SystemStatus.t) (cands : list nat) :
  merged_only state cands state cands.
Proof. by repeat split. Qed.

Lemma merged_only_trans (s1 s2 s3 : SystemStatus.t) (c1 c2 c3 : list nat) :
  merged_only s1 c1 s2 c2 → merged_only s2 c2 s3 c3 → merged_only s1 c1 s3 c3.
Proof.
  intros ([? ?] & ? & ? & ? & ?) ([? ?] & ? & ? & ? & ?).
  unfold merged_only, same_counters. split_and!; [congruence|congruence|auto|auto|auto|lia].
Qed.

(** The position of a chain in a list of chains with distinct ids. *)
Lemma index_unique (l : list nat) (r : nat) (w : World) (i j : nat) :
  NoDup l → distinct_ids w l → l !! j = Some r → index l r w = Ok i → i = j.
Proof.
  intros Hnd Hids Hj Hi.
  apply index_Ok in Hi as (a & ca & cr & Hi & Hca & Hcr & Hid).
  assert (a = r) as ->.
  { eapply (Hids a r ca cr); try done; by eapply list_elem_of_lookup_2. }
  by eapply NoDup_lookup.
Qed.

Lemma lookup_delete_other {A : Type} (l : list A) (i j : nat) (x : A) :
  l !! j = Some x → i ≠ j →
  delete i l !! (if decide (i < j)%nat then pred j else j) = Some x.
Proof.
  intros Hj Hne. case_decide.
  - rewrite list_lookup_delete_ge by lia. by replace (S (pred j)) with j by lia.
  - rewrite list_lookup_delete_lt by lia. done.
Qed.

Section inner_loop.
Context `{Collaborators}.

Lemma get_closest_chain_other (state : SystemStatus.t) (ch_j : nat) (l : list nat)
    (ch_i : nat) (loc : ch.ChainLocation) (e : ch.EndPoints) (M : Matrix) (w : World)
    (k : nat) :
  get_closest_chain state ch_j l ch_i loc e M w = Ok (Some k) →
  in_neighbourhood state ch_j ch_i loc e w k.
Proof.
  intros Hk. unfold get_closest_chain in Hk.
  apply Rd_bind_Ok in Hk as (nb & Hnb & Hk).
  apply get_closest_chain_loop_elem in Hk as [Hk _]; [|done].
  by apply (get_chains_in_neighbourhood_Ok _ _ _ _ _ _ _ _ Hnb).
Qed.

Lemma get_closest_chain_logic_other (state : SystemStatus.t) (ch_j : nat)
    (cands l : list nat) (ch_i : nat) (loc : ch.ChainLocation) (e : ch.EndPoints)
    (w : World) (k : nat) :
  get_closest_chain_logic state ch_j cands l ch_i loc e true w = Ok (Some k) →
  in_neighbourhood state ch_j ch_i loc e w k.
Proof.
  intros Hk. unfold get_closest_chain_logic in Hk. inv_step Hk.
  destruct a as [k'|]; [|by inv_step Hk]. simpl in Hk.
  assert (k = k') as ->; [|by eapply get_closest_chain_other].
  do 3 inv_step Hk. destruct (negb _); [by inv_step Hk|].
  do 2 inv_step Hk. case_decide; inv_step Hk; by simplify_eq.
Qed.

(** The chain to merge has another id than [ch_j]. *)
Lemma find_merge_target_other (state : SystemStatus.t) (cands : list nat)
    (ch_j ch_i : nat) (loc : ch.ChainLocation) (w : World) (k : nat)
    (e : option ch.EndPoints) :
  find_merge_target state cands ch_j ch_i loc w = Ok (Some k, e) →
  ∃ cj ck, chains w !! ch_j = Some cj ∧ chains w !! k = Some ck
           ∧ ch.Chain.id ck ≠ ch.Chain.id cj.
Proof.
  intros Ht. unfold find_merge_target in Ht. inv_step Ht.
  unfold find_closest in Ht. inv_step Ht. inv_step Ht.
  apply select_closest_chain_Ok in Ht as [[[=] _]|[[<- ->]|[<- ->]]].
  - apply get_closest_chain_logic_other in Ht2 as (ck & cj & ? & ? & ? & _). by exists cj, ck.
  - apply get_closest_chain_logic_other in Ht1 as (ck & cj & ? & ? & ? & _). by exists cj, ck.
Qed.

(** The merge leaves the bookkeeping of the outer loop alone. *)
Lemma add_interpolated_nodes_loop_counters (interpolated : list nat)
    (state state' : SystemStatus.t) (ch_j : nat) (w w' : World) :
  add_interpolated_nodes_loop state ch_j interpolated w = Ok (state', w') →
  same_counters state state'.
Proof.
  revert state w. induction interpolated as [|new_node rest IH]; intros state w Ha;
    simpl in Ha.
  - inv_step Ha. by subst.
  - case_match; [done|]. inv_step Ha. inv_step Ha0. destruct a as [cs st1].
    inv_step Ha. destruct a. apply IH in Ha as [Hs Hi].
    unfold update_intersection_matrix_in_radial_direction in Ha0. inv_all.
    destruct a0. inv_all. simplify_eq. split; [by rewrite Hs|by rewrite Hi].
Qed.

Lemma update_intersection_matrix_counters (state state' : SystemStatus.t)
    (ch_j ch_k : nat) (w : World) :
  update_intersection_matrix state ch_j ch_k w = Ok state' → same_counters state state'.
Proof. intros Hu. unfold update_intersection_matrix in Hu. inv_all. by subst. Qed.

Lemma delete_closest_chain_lists (state state' : SystemStatus.t) (ch_k : nat)
    (cands cands' : list nat) (w : World) :
  delete_closest_chain state ch_k cands w = Ok (state', cands') →
  ∃ i i',
    index (SystemStatus.l_ch_s state) ch_k w = Ok i
    ∧ index cands ch_k w = Ok i'
    ∧ state' = SystemStatus.set_l_ch_s (delete i (SystemStatus.l_ch_s state)) state
    ∧ cands' = delete i' cands.
Proof.
  intros Hd. unfold delete_closest_chain in Hd.
  apply Rd_bind_Ok in Hd as (i & Hi & Hd). apply Rd_bind_Ok in Hd as (i' & Hi' & Hd).
  apply Rd_ret_Ok in Hd as [= <- <-]. by exists i, i'.
Qed.

(** The two lists after a merge, and the ids of the chains left. *)
Lemma merge_and_update_lists (state state' : SystemStatus.t) (ch_j ch_k : nat)
    (e : ch.EndPoints) (ch_i : nat) (cands cands' : list nat) (w w' : World)
    (cj ck : ch.Chain.t) :
  NoDup (SystemStatus.l_ch_s state) → distinct_ids w (SystemStatus.l_ch_s state) →
  NoDup cands → (∀ x, x ∈ cands → x ∈ SystemStatus.l_ch_s state) → ch_k ∈ cands →
  chains w !! ch_j = Some cj → chains w !! ch_k = Some ck →
  ch.Chain.id ck ≠ ch.Chain.id cj →
  merge_and_update state ch_j ch_k e ch_i cands w = Ok ((state', cands'), w') →
  ∃ i i',
    SystemStatus.l_ch_s state !! i = Some ch_k
    ∧ SystemStatus.l_ch_s state' = delete i (SystemStatus.l_ch_s state)
    ∧ cands !! i' = Some ch_k ∧ cands' = delete i' cands
    ∧ distinct_ids w' (SystemStatus.l_ch_s state')
    ∧ same_counters state state'.
Proof.
  intros Hnd Hids Hndc Hsub Hk Hcj Hck Hidne Hm.
  assert (Hne : ch_j ≠ ch_k) by (intros ->; simplify_eq).
  unfold merge_and_update in Hm.
  apply St_bind_Ok in Hm as (new_nodes & w1 & Hmerge & Hm).
  destruct (merge_two_chains_Ok _ _ _ _ _ _ _ _ _ _ Hne Hcj Hck Hmerge)
    as (Hother & (cj1 & Hcj1 & Hid1 & _) & _).
  unfold update_chain_list in Hm.
  apply St_bind_Ok in Hm as (st1 & w2 & Hadd & Hm).
  assert (Hsc1 : same_counters state st1).
  { unfold add_interpolated_nodes_to_system in Hadd.
    apply St_bind_Ok in Hadd as (st & w0 & Hloop & Hadd).
    apply St_bind_Ok in Hadd as ([] & w0' & _ & Hadd). apply St_ret_Ok in Hadd as [<- _].
    by eapply add_interpolated_nodes_loop_counters. }
  apply (add_interpolated_nodes_to_system_frame 0) in Hadd as (Hp1 & Hl1 & _).
  apply St_bind_Ok in Hm as ([] & w3 & Hconn & Hm).
  apply update_chain_after_connect_pointers_only in Hconn.
  apply St_bind_Ok in Hm as (st2 & w4 & Hmat & Hm). apply read_Ok in Hmat as [Hmat ->].
  pose proof (update_intersection_matrix_counters _ _ _ _ _ Hmat) as Hsc2.
  apply (update_intersection_matrix_Ok 0) in Hmat as [Hl2 _].
  apply St_bind_Ok in Hm as ([st3 cands3] & w5 & Hdel & Hm).
  apply read_Ok in Hdel as [Hdel ->].
  apply delete_closest_chain_lists in Hdel as (i & i' & Hi & Hi' & -> & ->).
  apply St_bind_Ok in Hm as ([] & w6 & Hupd & Hm). apply St_ret_Ok in Hm as [[= <- <-] <-].
  pose proof (pointers_only_trans _ _ _ Hp1 Hconn) as Hp.
  rewrite Hl2, Hl1 in *.
  (* every chain has the id in [w3] that it had in [w] *)
  assert (Hid3 : ∀ r c3, chains w3 !! r = Some c3 →
            ∃ c, chains w !! r = Some c ∧ ch.Chain.id c3 = ch.Chain.id c).
  { intros r c3 Hc3.
    destruct (pointers_only_chain _ _ _ _ (pointers_only_sym _ _ Hp) Hc3)
      as (c1 & Hc1 & Hcore).
    apply chain_core_eq in Hcore as (Hid & _).
    destruct (decide (r = ch_j)) as [->|Hr].
    - exists cj. simplify_eq. split; [done|congruence].
    - rewrite Hother in Hc1 by done. exists c1. split; [done|congruence]. }
  assert (Hids3 : distinct_ids w3 (SystemStatus.l_ch_s state)).
  { intros r1 r2 c1 c2 Hr1 Hr2 Hc1 Hc2 Heq.
    destruct (Hid3 _ _ Hc1) as (d1 & Hd1 & He1).
    destruct (Hid3 _ _ Hc2) as (d2 & Hd2 & He2).
    eapply (Hids r1 r2 d1 d2); try done. congruence. }
  assert (Hkl : ch_k ∈ SystemStatus.l_ch_s state) by auto.
  apply list_elem_of_lookup_1 in Hkl as [i0 Hi0].
  apply list_elem_of_lookup_1 in Hk as [i0' Hi0'].
  apply (index_unique _ _ _ _ _ Hnd Hids3 Hi0) in Hi as ->.
  assert (Hidsc : distinct_ids w3 cands).
  { intros r1 r2 c1 c2 Hr1 Hr2. apply Hids3; auto. }
  apply (index_unique _ _ _ _ _ Hndc Hidsc Hi0') in Hi' as ->.
  exists i0, i0'. split; [done|]. split; [by destruct st2|]. split; [done|]. split; [done|].
  split; [|destruct Hsc1 as [? ?], Hsc2 as [? ?]; split; destruct st2; simpl in *; congruence].
  destruct (delete_NoDup _ _ _ Hnd Hi0) as [Hnd' Hin'].
  assert (Hk' : ch_k ∉ delete i0 (SystemStatus.l_ch_s state)).
  { intros [_ ?]%Hin'. done. }
  destruct (pointers_only_chain _ _ _ _ Hp (eq_trans (Hother ch_k (not_eq_sym Hne)) Hck))
    as (ck3 & Hck3 & Hcorek).
  apply chain_core_eq in Hcorek as (Hidk & _).
  destruct (update_chains_ids_Ok _ _ _ _ _ _ Hnd' Hk' Hck3 Hupd) as (Hchains & Hvalid & _).
  replace (SystemStatus.l_ch_s (SystemStatus.set_l_ch_s _ st2))
    with (delete i0 (SystemStatus.l_ch_s state)) by (by destruct st2).
  intros r1 r2 c1 c2 Hr1 Hr2 Hc1 Hc2 Heq.
  destruct (Hvalid r1 Hr1) as [d1 Hd1]. destruct (Hvalid r2 Hr2) as [d2 Hd2].
  destruct (Hchains r1 d1 Hd1) as (c1' & Hc1' & _ & Hid1').
  destruct (Hchains r2 d2 Hd2) as (c2' & Hc2' & _ & Hid2').
  simplify_eq. rewrite decide_True in Hid1' by done. rewrite decide_True in Hid2' by done.
  apply Hin' in Hr1 as [Hr1 Hr1k]. apply Hin' in Hr2 as [Hr2 Hr2k].
  eapply (Hids3 r1 r2 d1 d2); try done.
  apply (renumber_inj (ch.Chain.id ck3)); [| |congruence].
  - intros Hx. apply Hr1k. eapply (Hids3 r1 ch_k d1 ck3); try done.
    by eapply list_elem_of_lookup_2.
  - intros Hx. apply Hr2k. eapply (Hids3 r2 ch_k d2 ck3); try done.
    by eapply list_elem_of_lookup_2.
Qed.

(** One turn of the inner loop: either nothing is merged and the pointer
    advances, or a candidate is merged and leaves both lists. *)
Lemma candidate_step_Ok (state state' : SystemStatus.t) (cands cands' : list nat)
    (j j' : nat) (ch_i : nat) (loc : ch.ChainLocation) (w w' : World) :
  NoDup (SystemStatus.l_ch_s state) → distinct_ids w (SystemStatus.l_ch_s state) →
  NoDup cands → (∀ x, x ∈ cands → x ∈ SystemStatus.l_ch_s state) →
  candidate_step state cands j ch_i loc w = Ok ((state', cands', j'), w') →
  NoDup (SystemStatus.l_ch_s state') ∧ distinct_ids w' (SystemStatus.l_ch_s state')
  ∧ NoDup cands' ∧ (∀ x, x ∈ cands' → x ∈ SystemStatus.l_ch_s state')
  ∧ merged_only state cands state' cands'
  ∧ (j < length cands)%nat
  ∧ ((state' = state ∧ cands' = cands ∧ w' = w ∧ j' = S j)
     ∨ (S (length cands') = length cands
        ∧ S (length (SystemStatus.l_ch_s state')) = length (SystemStatus.l_ch_s state)
        ∧ (j' ≤ j)%nat ∧ (j ≤ S j')%nat)).
Proof.
  intros Hnd Hids Hndc Hsub Hs. unfold candidate_step in Hs.
  apply St_bind_Ok in Hs as (ch_j & w0 & Hj & Hs). apply read_Ok in Hj as [Hj ->].
  apply pure_Ok, from_option_Ok in Hj.
  apply St_bind_Ok in Hs as ([ch_k endpoint] & w0 & Ht & Hs). apply read_Ok in Ht as [Ht ->].
  apply St_bind_Ok in Hs as ([st1 cands1] & w1 & Hm & Hs).
  apply St_bind_Ok in Hs as (jp & w2 & Hp & Hs). apply read_Ok in Hp as [Hp ->].
  apply St_ret_Ok in Hs as [[= <- <- <-] <-].
  assert (Hlt : (j < length cands)%nat) by (by eapply lookup_lt_Some).
  assert (Hidsc : distinct_ids w cands).
  { intros r1 r2 c1 c2 Hr1 Hr2. apply Hids; auto. }
  unfold update_pointer in Hp. apply Rd_bind_Ok in Hp as (ix & Hix & Hp).
  apply Rd_ret_Ok in Hp as <-.
  destruct endpoint as [e|].
  - apply St_bind_Ok in Hm as (same & w0 & Hsame & Hm). apply read_Ok in Hsame as [Hsame ->].
    destruct ch_k as [k|]; [|simpl in Hsame; apply Rd_ret_Ok in Hsame as <-; done].
    destruct (find_merge_target_elem _ _ _ _ _ _ _ _ Ht) as (cj & ck & _ & _ & Hcj & Hck & Hk & _).
    destruct (find_merge_target_other _ _ _ _ _ _ _ _ Ht) as (cj' & ck' & ? & ? & Hidne).
    simplify_eq. simpl in Hsame. rewrite (chain_eq_Ok _ _ _ _ _ Hck Hcj) in Hsame.
    injection Hsame as <-. rewrite bool_decide_eq_false_2 in Hm by done.
    apply St_bind_Ok in Hm as (k' & w0 & Hk' & Hm). apply read_Ok in Hk' as [Hk' ->].
    apply pure_Ok in Hk'. injection Hk' as <-.
    destruct (merge_and_update_lists _ _ _ _ _ _ _ _ _ _ _ _ Hnd Hids Hndc Hsub Hk Hcj Hck
                Hidne Hm) as (i & i' & Hi & Hl & Hi' & -> & Hids1 & Hcount).
    destruct (delete_NoDup _ _ _ Hnd Hi) as [Hnd1 Hin1].
    destruct (delete_NoDup _ _ _ Hndc Hi') as [Hndc1 Hinc1].
    rewrite Hl in *.
    assert (Hsub1 : ∀ x, x ∈ delete i' cands → x ∈ delete i (SystemStatus.l_ch_s state)).
    { intros x [Hx Hxk]%Hinc1. apply Hin1. auto. }
    assert (Hne : i' ≠ j) by (intros ->; simplify_eq).
    pose proof (lookup_delete_other _ _ _ _ Hj Hne) as Hj1.
    assert (Hidsc1 : distinct_ids w1 (delete i' cands)).
    { intros r1 r2 c1 c2 Hr1 Hr2. apply Hids1; auto. }
    apply (index_unique _ _ _ _ _ Hndc1 Hidsc1 Hj1) in Hix as ->.
    assert (0 < length (SystemStatus.l_ch_s state))%nat
      by (apply lookup_lt_Some in Hi; lia).
    assert (Hlen : length (delete i (SystemStatus.l_ch_s state))
                   = (length (SystemStatus.l_ch_s state) - 1)%nat)
      by (by apply length_delete; eexists).
    assert (Hlenc : length (delete i' cands) = (length cands - 1)%nat)
      by (by apply length_delete; eexists).
    split_and!; try done.
    + unfold merged_only. rewrite Hl. split_and!; [done| | | |lia].
      * by intros x [Hx _]%Hinc1.
      * by intros x [Hx _]%Hin1.
      * intros x Hx Hnc. apply Hin1. split; [done|]. intros ->.
        apply Hnc. by eapply list_elem_of_lookup_2.
    + right. split_and!; [lia|lia|case_decide; lia|case_decide; lia].
  - apply St_ret_Ok in Hm as [[= <- <-] <-].
    destruct ch_k as [k|].
    { by destruct (find_merge_target_elem _ _ _ _ _ _ _ _ Ht)
        as (? & ? & ? & ? & _ & _ & _ & _ & _ & ? & _). }
    apply (index_unique _ _ _ _ _ Hndc Hidsc Hj) in Hix as ->.
    split_and!; try done; try apply merged_only_refl. left. split_and!; try done. lia.
Qed.

(** What a run of the inner loop that returns leaves behind. *)
Lemma candidates_loop_Ok (fuel : nat) :
  ∀ (state state' : SystemStatus.t) (cands cands' : list nat) (j ch_i : nat)
    (loc : ch.ChainLocation) (w w' : World),
    NoDup (SystemStatus.l_ch_s state) → distinct_ids w (SystemStatus.l_ch_s state) →
    NoDup cands → (∀ x, x ∈ cands → x ∈ SystemStatus.l_ch_s state) →
    candidates_loop fuel state cands j ch_i loc w = Ok ((state', cands'), w') →
    NoDup (SystemStatus.l_ch_s state') ∧ distinct_ids w' (SystemStatus.l_ch_s state')
    ∧ NoDup cands' ∧ (∀ x, x ∈ cands' → x ∈ SystemStatus.l_ch_s state')
    ∧ merged_only state cands state' cands'.
Proof.
  induction fuel as [|fuel IH]; intros state state' cands cands' j ch_i loc w w'
    Hnd Hids Hndc Hsub Hl; simpl in Hl; case_decide; try done.
  - apply St_ret_Ok in Hl as [[= <- <-] <-]. split_and!; try done; apply merged_only_refl.
  - apply St_bind_Ok in Hl as ([[st1 c1] j1] & w1 & Hs & Hl).
    destruct (candidate_step_Ok _ _ _ _ _ _ _ _ _ _ Hnd Hids Hndc Hsub Hs)
      as (Hnd1 & Hids1 & Hndc1 & Hsub1 & Hmo1 & _).
    destruct (IH _ _ _ _ _ _ _ _ _ Hnd1 Hids1 Hndc1 Hsub1 Hl) as (? & ? & ? & ? & Hmo).
    split_and!; try done. by eapply merged_only_trans.
  - apply St_ret_Ok in Hl as [[= <- <-] <-]. split_and!; try done; apply merged_only_refl.
Qed.

(** The inner loop makes at most [2 * len(candidates_chi) - j_pointer]
    turns. *)
Lemma candidates_loop_turns (m : nat) :
  ∀ (state : SystemStatus.t) (cands : list nat) (j ch_i : nat)
    (loc : ch.ChainLocation) (w : World),
    NoDup (SystemStatus.l_ch_s state) → distinct_ids w (SystemStatus.l_ch_s state) →
    NoDup cands → (∀ x, x ∈ cands → x ∈ SystemStatus.l_ch_s state) →
    (2 * length cands - j ≤ m)%nat →
    ∃ n, (n ≤ m)%nat
      ∧ ((∃ e, candidate_turns n state cands j ch_i loc w = Raise e
               ∧ ∀ fuel, (m ≤ fuel)%nat →
                   candidates_loop fuel state cands j ch_i loc w = Raise e)
         ∨ (∃ state' cands' j' w',
              candidate_turns n state cands j ch_i loc w = Ok ((state', cands', j'), w')
              ∧ (length cands' ≤ j')%nat
              ∧ ∀ fuel, (m ≤ fuel)%nat →
                  candidates_loop fuel state cands j ch_i loc w
                  = Ok ((state', cands'), w'))).
Proof.
  induction m as [|m IH]; intros state cands j ch_i loc w Hnd Hids Hndc Hsub Hm.
  - exists 0%nat. split; [done|]. right. exists state, cands, j, w.
    assert (length cands ≤ j)%nat by lia.
    split; [done|]. split; [done|]. intros fuel _.
    destruct fuel; simpl; by rewrite decide_False by lia.
  - destruct (decide (j < length cands)%nat) as [Hlt|Hge].
    + destruct (candidate_step state cands j ch_i loc w) as [[[[st1 c1] j1] w1]|e] eqn:Hs.
      * destruct (candidate_step_Ok _ _ _ _ _ _ _ _ _ _ Hnd Hids Hndc Hsub Hs)
          as (Hnd1 & Hids1 & Hndc1 & Hsub1 & _ & _ & Hcase).
        assert (2 * length c1 - j1 ≤ m)%nat as Hm1.
        { destruct Hcase as [(-> & -> & -> & ->)|(? & ? & ? & ?)]; lia. }
        destruct (IH st1 c1 j1 ch_i loc w1 Hnd1 Hids1 Hndc1 Hsub1 Hm1) as (n & Hn & Hres).
        assert (Hb : ∀ (B : Type) (f : SystemStatus.t * list nat * nat → St B),
                  (candidate_step state cands j ch_i loc ≫= f) w = f (st1, c1, j1) w1)
          by (intros; unfold mbind, St_bind; by rewrite Hs).
        exists (S n). split; [lia|]. simpl. rewrite !Hb.
        destruct Hres as [(e & Ht & Hl)|(st' & c' & j' & w' & Ht & Hj' & Hl)].
        -- left. exists e. split; [done|]. intros [|fuel] Hfuel; [lia|]. simpl.
           rewrite decide_True, Hb by done. apply Hl. lia.
        -- right. exists st', c', j', w'. split; [done|]. split; [done|].
           intros [|fuel] Hfuel; [lia|]. simpl.
           rewrite decide_True, Hb by done. apply Hl. lia.
      * assert (Hb : ∀ (B : Type) (f : SystemStatus.t * list nat * nat → St B),
                  (candidate_step state cands j ch_i loc ≫= f) w = Raise e)
          by (intros; unfold mbind, St_bind; by rewrite Hs).
        exists 1%nat. split; [lia|]. left. exists e. simpl. rewrite !Hb. split; [done|].
        intros [|fuel] Hfuel; [lia|]. simpl. by rewrite decide_True, Hb.
    + exists 0%nat. split; [lia|]. right. exists state, cands, j, w.
      split; [done|]. split; [lia|]. intros fuel _.
      destruct fuel; simpl; by rewrite decide_False by lia.
Qed.

(** Past the bound, the fuel does not matter. *)
Lemma candidates_loop_fuel (fuel fuel' : nat) (state : SystemStatus.t)
    (cands : list nat) (j ch_i : nat) (loc : ch.ChainLocation) (w : World) :
  NoDup (SystemStatus.l_ch_s state) → distinct_ids w (SystemStatus.l_ch_s state) →
  NoDup cands → (∀ x, x ∈ cands → x ∈ SystemStatus.l_ch_s state) →
  (2 * length cands - j ≤ fuel)%nat → (2 * length cands - j ≤ fuel')%nat →
  candidates_loop fuel state cands j ch_i loc w
  = candidates_loop fuel' state cands j ch_i loc w.
Proof.
  intros Hnd Hids Hndc Hsub Hf Hf'.
  destruct (candidates_loop_turns _ state cands j ch_i loc w Hnd Hids Hndc Hsub (le_n _))
    as (n & _ & [(e & _ & Hl)|(st' & c' & j' & w' & _ & _ & Hl)]);
    by rewrite (Hl fuel), (Hl fuel').
Qed.

End inner_loop.

(** ** The outer loop of the driver *)

Section outer_loop.
Context `{Collaborators}.

(** The call of [find_support_chain] that ends a turn. *)
Lemma find_support_chain_next (state state' : SystemStatus.t) (ch_i : nat)
    (outs inws : option (list nat)) (w : World) (r : option nat) (s : Z) :
  SystemStatus.size_l_chain_init state = Some s →
  find_support_chain state (Some ch_i) outs inws w = Ok (r, state') →
  SystemStatus.l_ch_s state' ≡ₚ SystemStatus.l_ch_s state
  ∧ (r = None
     ∨ ∃ c, r = Some c
            ∧ SystemStatus.size_l_chain_init state'
              = Some (Z.of_nat (length (SystemStatus.l_ch_s state')))
            ∧ SystemStatus.iterations_since_last_change state'
              < Z.of_nat (length (SystemStatus.l_ch_s state'))
            ∧ ((s > Z.of_nat (length (SystemStatus.l_ch_s state))
                ∧ SystemStatus.iterations_since_last_change state' = 0)
               ∨ (s ≤ Z.of_nat (length (SystemStatus.l_ch_s state))
                  ∧ SystemStatus.iterations_since_last_change state'
                    = SystemStatus.iterations_since_last_change state + 1))).
Proof.
  intros Hs Hf. unfold find_support_chain in Hf.
  case_decide; [apply Rd_ret_Ok in Hf as [= <- <-]; split; [done|by left]|].
  apply Rd_bind_Ok in Hf as (st1 & H1 & Hf).
  assert (SystemStatus.l_ch_s st1 ≡ₚ SystemStatus.l_ch_s state
          ∧ ((s > Z.of_nat (length (SystemStatus.l_ch_s state))
              ∧ SystemStatus.iterations_since_last_change st1 = 0)
             ∨ (s ≤ Z.of_nat (length (SystemStatus.l_ch_s state))
                ∧ SystemStatus.iterations_since_last_change st1
                  = SystemStatus.iterations_since_last_change state + 1)))
    as [Hperm Hcount].
  { apply Rd_bind_Ok in H1 as (s' & Hs' & H1). apply pure_Ok, from_option_Ok in Hs'.
    simpl in Hs'. rewrite Hs in Hs'. injection Hs' as <-.
    simpl in H1. case_bool_decide.
    - apply Rd_bind_Ok in H1 as (sorted & Hsorted & H1).
      apply sort_by_size_desc_Ok in Hsorted as [Hperm _].
      assert (SystemStatus.l_ch_s st1 = sorted
              ∧ SystemStatus.iterations_since_last_change st1 = 0) as [-> ->].
      { inv_all. repeat case_decide; inv_all; by subst. }
      split; [done|]. left. split; [lia|done].
    - apply Rd_bind_Ok in H1 as (i & _ & H1). apply Rd_ret_Ok in H1 as <-.
      split; [done|]. right. split; [lia|done]. }
  case_decide.
  - apply Rd_ret_Ok in Hf as [= <- <-]. split; [done|by left].
  - apply Rd_bind_Ok in Hf as (c & Hc & Hf). apply Rd_ret_Ok in Hf as [= <- <-].
    split; [done|]. right. exists c. split; [done|]. simpl. split; [done|]. split; [lia|done].
Qed.

Lemma NoDup_length_le {A : Type} (c l : list A) :
  NoDup c → (∀ x, x ∈ c → x ∈ l) → (length c ≤ length l)%nat.
Proof. intros Hnd Hsub. by apply submseteq_length, NoDup_submseteq. Qed.

(** The two candidate lists of a turn. *)
Lemma visible_lists (l : list nat) (s : nat) (w : World) (O I : list nat) :
  distinct_ids w l → find_visible_chains l s w = Ok (O, I) →
  NoDup O ∧ NoDup I ∧ (∀ x, x ∈ O → x ∈ l) ∧ (∀ x, x ∈ I → x ∈ l)
  ∧ (∀ x, x ∈ O → x ∉ I).
Proof.
  intros Hids Hf.
  destruct (find_visible_chains_Ok _ _ _ _ _ Hids Hf) as (HO & HI & HinI & HinO).
  split_and!; try done.
  - by intros x (? & _)%HinO.
  - by intros x (? & _)%HinI.
  - intros x (_ & _ & _ & Hno)%HinO (_ & _ & Hyes)%HinI. done.
Qed.

(** One turn of the outer loop. *)
Lemma support_step_Ok (fuel : nat) (state state' : SystemStatus.t) (ch_i : nat)
    (w w' : World) (r : option nat) :
  NoDup (SystemStatus.l_ch_s state) → distinct_ids w (SystemStatus.l_ch_s state) →
  SystemStatus.size_l_chain_init state
  = Some (Z.of_nat (length (SystemStatus.l_ch_s state))) →
  support_step fuel state ch_i w = Ok ((r, state'), w') →
  NoDup (SystemStatus.l_ch_s state') ∧ distinct_ids w' (SystemStatus.l_ch_s state')
  ∧ (∀ x, x ∈ SystemStatus.l_ch_s state' → x ∈ SystemStatus.l_ch_s state)
  ∧ (r = None
     ∨ ∃ c, r = Some c
            ∧ SystemStatus.size_l_chain_init state'
              = Some (Z.of_nat (length (SystemStatus.l_ch_s state')))
            ∧ SystemStatus.iterations_since_last_change state'
              < Z.of_nat (length (SystemStatus.l_ch_s state'))
            ∧ (((length (SystemStatus.l_ch_s state') < length (SystemStatus.l_ch_s state))%nat
                ∧ SystemStatus.iterations_since_last_change state' = 0)
               ∨ (length (SystemStatus.l_ch_s state') = length (SystemStatus.l_ch_s state)
                  ∧ SystemStatus.iterations_since_last_change state'
                    = SystemStatus.iterations_since_last_change state + 1))).
Proof.
  intros Hnd Hids Hsize Hs. unfold support_step in Hs.
  apply St_bind_Ok in Hs as ([O I] & w0 & Hv & Hs). apply read_Ok in Hv as [Hv ->].
  destruct (visible_lists _ _ _ _ _ Hids Hv) as (HndO & HndI & HO & HI & Hdisj).
  apply St_bind_Ok in Hs as ([st1 I1] & w1 & Hl1 & Hs).
  destruct (candidates_loop_Ok _ _ _ _ _ _ _ _ _ _ Hnd Hids HndI HI Hl1)
    as (Hnd1 & Hids1 & _ & _ & ([Hsz1 Hit1] & HI1 & Hsub1 & Hkept1 & Hlen1)).
  assert (HO1 : ∀ x, x ∈ O → x ∈ SystemStatus.l_ch_s st1) by auto.
  apply St_bind_Ok in Hs as ([st2 O2] & w2 & Hl2 & Hs).
  destruct (candidates_loop_Ok _ _ _ _ _ _ _ _ _ _ Hnd1 Hids1 HndO HO1 Hl2)
    as (Hnd2 & Hids2 & _ & _ & ([Hsz2 Hit2] & HO2 & Hsub2 & Hkept2 & Hlen2)).
  apply read_Ok in Hs as [Hs ->].
  assert (Hsize2 : SystemStatus.size_l_chain_init st2
                   = Some (Z.of_nat (length (SystemStatus.l_ch_s state))))
    by congruence.
  destruct (find_support_chain_next _ _ _ _ _ _ _ _ Hsize2 Hs) as [Hperm Hr].
  split_and!.
  - by rewrite Hperm.
  - intros r1 r2 c1 c2 Hr1 Hr2. apply Hids2; by rewrite <- Hperm.
  - intros x Hx. rewrite Hperm in Hx. auto.
  - destruct Hr as [->|(c & -> & Hsz & Hlt & Hcase)]; [by left|right].
    exists c. split; [done|]. split; [done|]. split; [done|].
    rewrite (Permutation_length Hperm).
    destruct Hcase as [[? ?]|[? ?]]; [left|right]; split; try lia; congruence.
Qed.

(** Past twice the length of the chain list, the fuel of a turn does not
    matter. *)
Lemma support_step_fuel (fuel fuel' : nat) (state : SystemStatus.t) (ch_i : nat)
    (w : World) :
  NoDup (SystemStatus.l_ch_s state) → distinct_ids w (SystemStatus.l_ch_s state) →
  (2 * length (SystemStatus.l_ch_s state) ≤ fuel)%nat →
  (2 * length (SystemStatus.l_ch_s state) ≤ fuel')%nat →
  support_step fuel state ch_i w = support_step fuel' state ch_i w.
Proof.
  intros Hnd Hids Hf Hf'. unfold support_step, mbind, St_bind.
  destruct (read (find_visible_chains (SystemStatus.l_ch_s state) ch_i) w)
    as [[[O I] w0]|e] eqn:Hv; [|done].
  apply read_Ok in Hv as [Hv ->].
  destruct (visible_lists _ _ _ _ _ Hids Hv) as (HndO & HndI & HO & HI & Hdisj).
  pose proof (NoDup_length_le _ _ HndO HO). pose proof (NoDup_length_le _ _ HndI HI).
  rewrite (candidates_loop_fuel fuel fuel' state I) by (done || lia).
  destruct (candidates_loop fuel' state I 0 ch_i ch.inwards w)
    as [[[st1 I1] w1]|e] eqn:Hl1; [|done].
  destruct (candidates_loop_Ok _ _ _ _ _ _ _ _ _ _ Hnd Hids HndI HI Hl1)
    as (Hnd1 & Hids1 & _ & _ & (_ & HI1 & Hsub1 & Hkept1 & Hlen1)).
  assert (HO1 : ∀ x, x ∈ O → x ∈ SystemStatus.l_ch_s st1) by auto.
  by rewrite (candidates_loop_fuel fuel fuel' st1 O) by (done || lia).
Qed.

(** The inner loop ends, and past the bound on its turns the function
    with fuel returns its result. *)
Lemma candidates_run_loop (m : nat) :
  ∀ (state : SystemStatus.t) (cands : list nat) (j ch_i : nat)
    (loc : ch.ChainLocation) (w : World),
    NoDup (SystemStatus.l_ch_s state) → distinct_ids w (SystemStatus.l_ch_s state) →
    NoDup cands → (∀ x, x ∈ cands → x ∈ SystemStatus.l_ch_s state) →
    (2 * length cands - j ≤ m)%nat →
    ∃ r, candidates_run ch_i loc state cands j w r
      ∧ ∀ fuel, (m ≤ fuel)%nat → candidates_loop fuel state cands j ch_i loc w = r.
Proof.
  induction m as [|m IH]; intros state cands j ch_i loc w Hnd Hids Hndc Hsub Hm.
  - exists (Ok ((state, cands), w)). split; [constructor; lia|].
    intros fuel _. destruct fuel; simpl; by rewrite decide_False by lia.
  - destruct (decide (j < length cands)%nat) as [Hlt|Hge].
    + destruct (candidate_step state cands j ch_i loc w) as [[[[st1 c1] j1] w1]|e] eqn:Hs.
      * destruct (candidate_step_Ok _ _ _ _ _ _ _ _ _ _ Hnd Hids Hndc Hsub Hs)
          as (Hnd1 & Hids1 & Hndc1 & Hsub1 & _ & _ & Hcase).
        assert (2 * length c1 - j1 ≤ m)%nat as Hm1.
        { destruct Hcase as [(-> & -> & -> & ->)|(? & ? & ? & ?)]; lia. }
        destruct (IH st1 c1 j1 ch_i loc w1 Hnd1 Hids1 Hndc1 Hsub1 Hm1) as (r & Hr & Hl).
        exists r. split; [by eapply candidates_run_turn|].
        intros [|fuel] Hfuel; [lia|]. simpl. rewrite decide_True by done.
        unfold mbind, St_bind. rewrite Hs. apply Hl. lia.
      * exists (Raise e). split; [by apply candidates_run_raise|].
        intros [|fuel] Hfuel; [lia|]. simpl. rewrite decide_True by done.
        unfold mbind, St_bind. by rewrite Hs.
    + exists (Ok ((state, cands), w)). split; [constructor; lia|].
      intros fuel _. destruct fuel; simpl; by rewrite decide_False by lia.
Qed.

(** A turn of the outer loop ends, and with fuel for its inner loops
    [support_step] returns its result. *)
Lemma support_turn_step (state : SystemStatus.t) (ch_i : nat) (w : World) :
  NoDup (SystemStatus.l_ch_s state) → distinct_ids w (SystemStatus.l_ch_s state) →
  ∃ r, support_turn state ch_i w r
    ∧ ∀ fuel, (2 * length (SystemStatus.l_ch_s state) ≤ fuel)%nat →
        support_step fuel state ch_i w = r.
Proof.
  intros Hnd Hids. unfold support_turn, support_step, mbind, St_bind.
  destruct (read (find_visible_chains (SystemStatus.l_ch_s state) ch_i) w)
    as [[[O I] w0]|e] eqn:Hv; [|by exists (Raise e)].
  apply read_Ok in Hv as [Hv ->].
  destruct (visible_lists _ _ _ _ _ Hids Hv) as (HndO & HndI & HO & HI & Hdisj).
  pose proof (NoDup_length_le _ _ HndO HO). pose proof (NoDup_length_le _ _ HndI HI).
  destruct (candidates_run_loop (2 * length I) state I 0 ch_i ch.inwards w
              Hnd Hids HndI HI) as (r1 & Hr1 & Hl1); [lia|].
  destruct r1 as [[[st1 I1] w1]|e].
  2:{ exists (Raise e). split.
      - exists (Raise e). by split.
      - intros fuel Hf. by rewrite Hl1 by lia. }
  destruct (candidates_loop_Ok _ _ _ _ _ _ _ _ _ _ Hnd Hids HndI HI (Hl1 _ (le_n _)))
    as (Hnd1 & Hids1 & _ & _ & (_ & HI1 & Hsub1 & Hkept1 & Hlen1)).
  assert (HO1 : ∀ x, x ∈ O → x ∈ SystemStatus.l_ch_s st1) by auto.
  destruct (candidates_run_loop (2 * length O) st1 O 0 ch_i ch.outwards w1
              Hnd1 Hids1 HndO HO1) as (r2 & Hr2 & Hl2); [lia|].
  destruct r2 as [[[st2 O2] w2]|e].
  2:{ exists (Raise e). split.
      - exists (Ok ((st1, I1), w1)). split; [done|]. exists (Raise e). by split.
      - intros fuel Hf. rewrite Hl1 by lia. by rewrite Hl2 by lia. }
  exists (read (find_support_chain st2 (Some ch_i) (Some O2) (Some I1)) w2). split.
  - exists (Ok ((st1, I1), w1)). split; [done|].
    exists (Ok ((st2, O2), w2)). by split.
  - intros fuel Hf. rewrite Hl1 by lia. by rewrite Hl2 by lia.
Qed.

(** The outer loop ends within [len * len + len + 1] turns, [len] the
    length of the chain list: a turn that merges nothing counts towards
    [iterations_since_last_change], and a turn that merges shortens the
    list. *)
Lemma support_run_loop (m : nat) :
  ∀ (state : SystemStatus.t) (ch_i : option nat) (w : World),
    NoDup (SystemStatus.l_ch_s state) → distinct_ids w (SystemStatus.l_ch_s state) →
    SystemStatus.size_l_chain_init state
    = Some (Z.of_nat (length (SystemStatus.l_ch_s state))) →
    0 ≤ SystemStatus.iterations_since_last_change state
      ≤ Z.of_nat (length (SystemStatus.l_ch_s state)) →
    Z.of_nat (length (SystemStatus.l_ch_s state)) * Z.of_nat (length (SystemStatus.l_ch_s state))
    + Z.of_nat (length (SystemStatus.l_ch_s state))
    - SystemStatus.iterations_since_last_change state < Z.of_nat m →
    ∃ n r, (n ≤ m)%nat ∧ support_run n state ch_i w r
      ∧ ∀ fuel, (m + 2 * length (SystemStatus.l_ch_s state) ≤ fuel)%nat →
          support_loop fuel state ch_i w = r.
Proof.
  induction m as [|m IH]; intros state ch_i w Hnd Hids Hsize Hit Hm; [lia|].
  destruct ch_i as [c|].
  2:{ exists 0%nat, (Ok (state, w)). split; [lia|]. split; [constructor|].
      intros fuel _. by destruct fuel. }
  set (len := length (SystemStatus.l_ch_s state)) in *.
  destruct (support_turn_step state c w Hnd Hids) as (rt & Hturn & Hstep). fold len in Hstep.
  destruct rt as [[[r st1] w1]|e].
  - destruct (support_step_Ok _ _ _ _ _ _ _ Hnd Hids Hsize (Hstep _ (le_n _)))
      as (Hnd1 & Hids1 & Hsub1 & Hr).
    pose proof (NoDup_length_le _ _ Hnd1 Hsub1) as Hlen1. fold len in Hlen1.
    destruct Hr as [->|(c1 & -> & Hsize1 & Hlt1 & Hcase)].
    + exists 1%nat, (Ok (st1, w1)). split; [lia|]. split.
      * eapply support_run_turn; [exact Hturn|constructor].
      * intros [|fuel] Hf; [lia|]. simpl. unfold mbind, St_bind.
        rewrite Hstep by lia. by destruct fuel.
    + destruct (IH st1 (Some c1) w1 Hnd1 Hids1 Hsize1) as (n & r & Hn & Hrun & Hl).
      { fold len in Hcase. destruct Hcase as [[? Hi]|[? Hi]]; lia. }
      { fold len in Hcase. destruct Hcase as [[? Hi]|[Heq Hi]]; [nia|].
        rewrite Heq, Hi. lia. }
      exists (S n), r. split; [lia|]. split; [by eapply support_run_turn|].
      intros [|fuel] Hf; [lia|]. simpl. unfold mbind, St_bind.
      rewrite Hstep by lia. apply Hl. lia.
  - exists 1%nat, (Raise e). split; [lia|]. split; [by apply support_run_raise|].
    intros [|fuel] Hf; [lia|]. simpl. unfold mbind, St_bind. by rewrite Hstep by lia.
Qed.

(** The first call of [find_support_chain]. *)
Lemma find_support_chain_first (state state' : SystemStatus.t) (w : World)
    (r : option nat) :
  find_support_chain state None None None w = Ok (r, state') →
  SystemStatus.l_ch_s state' = SystemStatus.l_ch_s state
  ∧ SystemStatus.iterations_since_last_change state'
    = SystemStatus.iterations_since_last_change state
  ∧ (is_Some r →
     SystemStatus.size_l_chain_init state'
     = Some (Z.of_nat (length (SystemStatus.l_ch_s state)))
     ∧ SystemStatus.iterations_since_last_change state
       < Z.of_nat (length (SystemStatus.l_ch_s state))).
Proof.
  intros Hf. unfold find_support_chain in Hf.
  case_decide; [apply Rd_ret_Ok in Hf as [= <- <-]; split_and!; try done; by intros [? ?]|].
  apply Rd_bind_Ok in Hf as (st1 & H1 & Hf). apply Rd_ret_Ok in H1 as <-.
  case_decide.
  - apply Rd_ret_Ok in Hf as [= <- <-]. split_and!; try done; by intros [? ?].
  - apply Rd_bind_Ok in Hf as (c & Hc & Hf). apply Rd_ret_Ok in Hf as [= <- <-].
    simpl in *. split_and!; try done. intros _. split; [done|lia].
Qed.

End outer_loop.

(** ** The chains of the list are only removed *)

Lemma submseteq_NoDup {A : Type} (l k : list A) : l ⊆+ k → NoDup k → NoDup l.
Proof.
  intros (k' & Hperm & Hsub)%submseteq_sublist_r Hnd. rewrite Hperm.
  by eapply sublist_NoDup.
Qed.

Section chains_kept.
Context `{Collaborators}.

(** A turn of the inner loop removes chains from the list of the state,
    and adds none. *)
Lemma candidate_step_sub (state state' : SystemStatus.t) (cands cands' : list nat)
    (j j' : nat) (ch_i : nat) (loc : ch.ChainLocation) (w w' : World) :
  candidate_step state cands j ch_i loc w = Ok ((state', cands', j'), w') →
  SystemStatus.l_ch_s state' ⊆+ SystemStatus.l_ch_s state.
Proof.
  intros Hs. unfold candidate_step in Hs.
  apply St_bind_Ok in Hs as (ch_j & w0 & Hj & Hs). apply read_Ok in Hj as [Hj ->].
  apply St_bind_Ok in Hs as ([ch_k endpoint] & w0 & Ht & Hs). apply read_Ok in Ht as [Ht ->].
  apply St_bind_Ok in Hs as ([st1 cands1] & w1 & Hm & Hs).
  apply St_bind_Ok in Hs as (jp & w2 & Hp & Hs). apply read_Ok in Hp as [Hp ->].
  apply St_ret_Ok in Hs as [[= <- <- <-] <-].
  destruct endpoint as [e|]; [|by apply St_ret_Ok in Hm as [[= <- <-] <-]].
  apply St_bind_Ok in Hm as (same & w0 & Hsame & Hm). apply read_Ok in Hsame as [Hsame ->].
  destruct same; [by apply St_ret_Ok in Hm as [[= <- <-] <-]|].
  apply St_bind_Ok in Hm as (k & w0 & Hk & Hm). apply read_Ok in Hk as [Hk ->].
  apply pure_Ok, from_option_Ok in Hk. subst ch_k. simpl in Hsame.
  unfold chain_eq in Hsame.
  apply Rd_bind_Ok in Hsame as (ck & Hck & Hsame). apply get_chain_Ok in Hck.
  apply Rd_bind_Ok in Hsame as (cj & Hcj & Hsame). apply get_chain_Ok in Hcj.
  apply Rd_ret_Ok in Hsame. apply bool_decide_eq_false in Hsame.
  assert (Hne : ch_j ≠ k) by (intros ->; simplify_eq).
  destruct (merge_and_update_Ok 0 _ _ _ _ _ _ _ _ _ _ _ _ Hne Hcj Hck Hm)
    as (_ & i & _ & _ & l' & _ & _ & _ & _ & _ & _ & -> & -> & _).
  apply submseteq_delete.
Qed.

Lemma candidates_loop_sub (fuel : nat) :
  ∀ (state state' : SystemStatus.t) (cands cands' : list nat) (j ch_i : nat)
    (loc : ch.ChainLocation) (w w' : World),
    candidates_loop fuel state cands j ch_i loc w = Ok ((state', cands'), w') →
    SystemStatus.l_ch_s state' ⊆+ SystemStatus.l_ch_s state.
Proof.
  induction fuel as [|fuel IH]; intros state state' cands cands' j ch_i loc w w' Hl;
    simpl in Hl; case_decide; try done;
    try (by apply St_ret_Ok in Hl as [[= <- <-] <-]).
  apply St_bind_Ok in Hl as ([[st1 c1] j1] & w1 & Hs & Hl).
  etrans; [by eapply IH|by eapply candidate_step_sub].
Qed.

(** [find_support_chain] keeps the chains of the list; it may reorder them. *)
Lemma find_support_chain_perm (state state' : SystemStatus.t) (ch_i : option nat)
    (outs inws : option (list nat)) (w : World) (r : option nat) :
  find_support_chain state ch_i outs inws w = Ok (r, state') →
  SystemStatus.l_ch_s state' ≡ₚ SystemStatus.l_ch_s state.
Proof.
  intros Hf. destruct ch_i as [c|].
  - destruct (SystemStatus.size_l_chain_init state) as [s|] eqn:Hs.
    + by destruct (find_support_chain_next _ _ _ _ _ _ _ _ Hs Hf).
    + unfold find_support_chain in Hf.
      case_decide; [by apply Rd_ret_Ok in Hf as [= <- <-]|].
      apply Rd_bind_Ok in Hf as (st1 & H1 & _).
      apply Rd_bind_Ok in H1 as (s' & Hs' & _). apply pure_Ok, from_option_Ok in Hs'.
      simpl in Hs'. congruence.
  - apply find_support_chain_first in Hf as (Hl & _). by rewrite Hl.
Qed.

Lemma support_step_sub (fuel : nat) (state state' : SystemStatus.t) (ch_i : nat)
    (w w' : World) (r : option nat) :
  support_step fuel state ch_i w = Ok ((r, state'), w') →
  SystemStatus.l_ch_s state' ⊆+ SystemStatus.l_ch_s state.
Proof.
  intros Hs. unfold support_step in Hs.
  apply St_bind_Ok in Hs as ([O I] & w0 & Hv & Hs). apply read_Ok in Hv as [Hv ->].
  apply St_bind_Ok in Hs as ([st1 I1] & w1 & Hl1 & Hs). apply candidates_loop_sub in Hl1.
  apply St_bind_Ok in Hs as ([st2 O2] & w2 & Hl2 & Hs). apply candidates_loop_sub in Hl2.
  apply read_Ok in Hs as [Hs ->]. apply find_support_chain_perm in Hs.
  rewrite Hs. by etrans.
Qed.

Lemma support_loop_sub (fuel : nat) :
  ∀ (state state' : SystemStatus.t) (ch_i : option nat) (w w' : World),
    support_loop fuel state ch_i w = Ok (state', w') →
    SystemStatus.l_ch_s state' ⊆+ SystemStatus.l_ch_s state.
Proof.
  induction fuel as [|fuel IH]; intros state state' ch_i w w' Hl;
    destruct ch_i as [c|]; simpl in Hl; try done;
    try (by apply St_ret_Ok in Hl as [<- <-]).
  apply St_bind_Ok in Hl as ([r st1] & w1 & Hs & Hl).
  etrans; [by eapply IH|by eapply support_step_sub].
Qed.

(** One run of the main logic. *)
Lemma merge_chains_main_logic_sub (fuel : nat) (M : Matrix) (cy cx : float)
    (nr : Z) (l_ch_s l_nodes_s : list nat) (th_radial_tolerance : float)
    (th_distribution_size : Z) (th_regular_derivative : float) (neighbourhood_size : Z)
    (derivative_from_center : bool) (w w' : World) (l_ch_c l_nodes_c : list nat)
    (M' : Matrix) :
  merge_chains_main_logic fuel M cy cx nr l_ch_s l_nodes_s th_radial_tolerance
    th_distribution_size th_regular_derivative neighbourhood_size derivative_from_center w
  = Ok ((l_ch_c, l_nodes_c, M'), w') →
  l_ch_c ⊆+ l_ch_s.
Proof.
  intros Hm. unfold merge_chains_main_logic in Hm.
  apply St_bind_Ok in Hm as (st0 & w0 & Hinit & Hm).
  apply SystemStatus_init_Ok in Hinit as (Hsort & _).
  apply sort_by_size_desc_Ok in Hsort as [Hperm _].
  apply St_bind_Ok in Hm as ([ch_i st1] & w1 & Hfirst & Hm).
  apply read_Ok in Hfirst as [Hfirst ->]. apply find_support_chain_perm in Hfirst.
  apply St_bind_Ok in Hm as (st2 & w2 & Hloop & Hm). apply support_loop_sub in Hloop.
  unfold iterate_over_chains_list_and_complete_them_if_met_conditions in Hm.
  apply St_bind_Ok in Hm as (st3 & w3 & Hclose & Hm).
  apply (closing_loop_frame 0) in Hclose as (_ & Hl3 & _).
  apply St_ret_Ok in Hm as [[= <- _ _] _].
  rewrite Hl3, <- Hperm, <- Hfirst. done.
Qed.

End chains_kept.

(** ** The copies made at entry *)

Section copies.
Context `{Collaborators}.

(** The copies made at entry are new chain objects, one after the other. *)
Lemma st_map_copy_chain_refs (l refs : list nat) (w w' : World) :
  st_map copy_chain l w = Ok (refs, w') →
  refs = seq (length (chains w)) (length l)
  ∧ length (chains w') = (length (chains w) + length l)%nat.
Proof.
  revert refs w. induction l as [|a l IH]; intros refs w Hm; simpl in Hm.
  - apply St_ret_Ok in Hm as [<- <-]. simpl. split; [done|lia].
  - apply St_bind_Ok in Hm as (r0 & w1 & Hcopy & Hm).
    apply St_bind_Ok in Hm as (rs & w2 & Hrest & Hm).
    apply St_ret_Ok in Hm as [<- <-].
    unfold copy_chain in Hcopy.
    apply St_bind_Ok in Hcopy as (c & w3 & Hc & Hcopy). apply read_Ok in Hc as [_ ->].
    apply St_bind_Ok in Hcopy as (ns & w3 & Hns & Hcopy). apply read_Ok in Hns as [_ ->].
    apply St_bind_Ok in Hcopy as (news & w3 & Hnews & Hcopy).
    apply st_map_new_node in Hnews as [-> _].
    unfold new_chain in Hcopy. injection Hcopy as <- <-. simpl in *.
    destruct (IH _ _ Hrest) as [-> Hlen]. simpl in *.
    rewrite length_app in *. simpl in *.
    split; [|lia]. f_equal. f_equal. lia.
Qed.

(** The chain list of a pass. *)
Lemma get_iteration_parameters_l_ch_s (self : ConnectParameters.t) (counter : nat)
    (w w' : World) (iteration_params : IterationParams.t) :
  get_iteration_parameters self counter w = Ok (iteration_params, w') →
  IterationParams.l_ch_s iteration_params
  = if bool_decide (counter < ConnectParameters.iterations - 1)%nat
    then ConnectParameters.ch_s_without_border self
    else ConnectParameters.ch_s_without_border self
         ++ [ConnectParameters.border_chain self].
Proof.
  intros Hg. unfold get_iteration_parameters in Hg.
  repeat (apply St_bind_Ok in Hg as (? & ? & _ & Hg)).
  by apply St_ret_Ok in Hg as [<- _].
Qed.

Lemma schedule_pass_sub (fuel : nat) (cy cx : float) (nr : Z) (i : nat)
    (parameters parameters' : ConnectParameters.t) (M M' : Matrix) (w w' : World)
    (l_ch_c : list nat) :
  schedule_pass fuel cy cx nr i parameters M w = Ok ((l_ch_c, parameters', M'), w') →
  ConnectParameters.border_chain parameters' = ConnectParameters.border_chain parameters
  ∧ ConnectParameters.ch_s_without_border parameters' = l_ch_c
  ∧ l_ch_c ⊆+ (if bool_decide (i < ConnectParameters.iterations - 1)%nat
               then ConnectParameters.ch_s_without_border parameters
               else ConnectParameters.ch_s_without_border parameters
                    ++ [ConnectParameters.border_chain parameters]).
Proof.
  intros Hp. unfold schedule_pass in Hp.
  apply St_bind_Ok in Hp as (ip & w1 & Hip & Hp).
  apply get_iteration_parameters_l_ch_s in Hip as <-.
  apply St_bind_Ok in Hp as ([[l ln] M1] & w2 & Hm & Hp).
  apply St_ret_Ok in Hp as [[= <- <- <-] <-].
  apply merge_chains_main_logic_sub in Hm. done.
Qed.

(** The passes before the last one: the border chain waits. *)
Lemma schedule_sub (fuel : nat) (cy cx : float) (nr : Z) (counters : list nat) :
  ∀ (l0 l_ch_c : list nat) (parameters parameters' : ConnectParameters.t)
    (M M' : Matrix) (w w' : World),
    (∀ i, i ∈ counters → (i < ConnectParameters.iterations - 1)%nat) →
    schedule fuel cy cx nr counters l0 parameters M w = Ok ((l_ch_c, parameters', M'), w') →
    ConnectParameters.border_chain parameters' = ConnectParameters.border_chain parameters
    ∧ ConnectParameters.ch_s_without_border parameters'
      ⊆+ ConnectParameters.ch_s_without_border parameters.
Proof.
  induction counters as [|i rest IH]; intros l0 l_ch_c p p' M M' w w' Hlt Hs; simpl in Hs.
  - by apply St_ret_Ok in Hs as [[= _ <- _] _].
  - apply St_bind_Ok in Hs as ([[l1 p1] M1] & w1 & Hp & Hs).
    apply schedule_pass_sub in Hp as (Hb & Hw & Hsub).
    rewrite bool_decide_eq_true_2 in Hsub by (apply Hlt; by left).
    apply IH in Hs as [Hb' Hsub']; [|intros; apply Hlt; by right].
    split; [congruence|]. etrans; [done|]. by rewrite Hw.
Qed.

Lemma schedule_app (fuel : nat) (cy cx : float) (nr : Z) (c1 c2 : list nat) :
  ∀ (l0 : list nat) (parameters : ConnectParameters.t) (M : Matrix) (w : World),
    schedule fuel cy cx nr (c1 ++ c2) l0 parameters M w
    = (schedule fuel cy cx nr c1 l0 parameters M
       ≫= λ '(l, p, M), schedule fuel cy cx nr c2 l p M) w.
Proof.
  induction c1 as [|i c1 IH]; intros l0 p M w; simpl; [done|].
  unfold mbind, St_bind.
  destruct (schedule_pass fuel cy cx nr i p M w) as [[[[l1 p1] M1] w1]|e]; [|done].
  apply IH.
Qed.

(** The copies made at entry are deep copies. *)
Lemma rd_map_get_node (l : list nat) (w : World) (ns : list ch.Node.t) :
  rd_map get_node l w = Ok ns → Forall2 (λ n v, nodes w !! n = Some v) l ns.
Proof.
  revert ns. induction l as [|n l IH]; intros ns Hm; simpl in Hm.
  - apply Rd_ret_Ok in Hm as <-. constructor.
  - apply Rd_bind_Ok in Hm as (v & Hv & Hm). apply Rd_bind_Ok in Hm as (vs & Hvs & Hm).
    apply Rd_ret_Ok in Hm as <-. apply get_node_Ok in Hv. constructor; auto.
Qed.

Lemma st_map_copy_chain_deep (w : World) (l : list nat) :
  ∀ (w0 w' : World) (refs : list nat),
    (∃ cs ns, chains w0 = chains w ++ cs ∧ nodes w0 = nodes w ++ ns) →
    st_map copy_chain l w0 = Ok (refs, w') →
    Forall2 (deep_copy w w') l refs.
Proof.
  induction l as [|r l IH]; intros w0 w' refs (cs0 & ns0 & Hcs0 & Hns0) Hm; simpl in Hm.
  - apply St_ret_Ok in Hm as [<- _]. constructor.
  - apply St_bind_Ok in Hm as (r0 & w1 & Hcopy & Hm).
    apply St_bind_Ok in Hm as (rs & w2 & Hrest & Hm).
    apply St_ret_Ok in Hm as [<- <-].
    unfold copy_chain in Hcopy.
    apply St_bind_Ok in Hcopy as (c & w3 & Hc & Hcopy). apply read_Ok in Hc as [Hc ->].
    apply get_chain_Ok in Hc.
    apply St_bind_Ok in Hcopy as (ns & w3 & Hns & Hcopy). apply read_Ok in Hns as [Hns ->].
    apply rd_map_get_node in Hns.
    apply St_bind_Ok in Hcopy as (news & w3 & Hnews & Hcopy).
    apply st_map_new_node in Hnews as [-> ->].
    unfold new_chain in Hcopy. injection Hcopy as <- <-. simpl in *.
    destruct (st_map_copy_chain _ _ _ _ Hrest) as [(cs & ns' & Hcs & Hns') _].
    simpl in Hcs, Hns'.
    constructor.
    + split; [rewrite Hcs0, length_app; lia|].
      eexists c, _. split_and!.
      * rewrite Hcs, <- app_assoc. apply lookup_app_l_Some. done.
      * rewrite Hcs. rewrite lookup_app_l by (rewrite length_app; simpl; lia).
        by rewrite lookup_app_r, Nat.sub_diag by lia.
      * done.
      * done.
      * done.
      * done.
      * simpl. apply Forall2_same_length_lookup_2.
        { rewrite length_seq. by eapply Forall2_length. }
        intros i n n' Hn Hn'. apply lookup_seq in Hn' as [-> Hi].
        destruct (Forall2_lookup_l _ _ _ _ _ Hns Hn) as (v & Hv & Hnv).
        split; [rewrite Hns0, length_app; lia|].
        exists v. rewrite Hns', <- app_assoc. split.
        -- by apply lookup_app_l_Some.
        -- rewrite lookup_app_r by lia.
           rewrite lookup_app_l by (apply lookup_lt_Some in Hv; lia).
           by replace (length (nodes w0) + i - length (nodes w0))%nat with i by lia.
    + eapply IH; [|done]. simpl.
      eexists _, _. rewrite Hcs0, Hns0, <- !app_assoc. done.
Qed.

Lemma get_iteration_parameters_Ok (self : ConnectParameters.t) (counter : nat)
    (w w' : World) (iteration_params : IterationParams.t) :
  get_iteration_parameters self counter w = Ok (iteration_params, w') →
  ∃ cb,
    chains w !! ConnectParameters.border_chain self = Some cb
    ∧ ((counter < ConnectParameters.iterations - 1)%nat →
       IterationParams.l_ch_s iteration_params = ConnectParameters.ch_s_without_border self
       ∧ IterationParams.l_nodes_s iteration_params
         = ConnectParameters.nodes_s_without_border self
       ∧ w' = w)
    ∧ (counter = (ConnectParameters.iterations - 1)%nat →
       IterationParams.l_ch_s iteration_params
       = ConnectParameters.ch_s_without_border self ++ [ConnectParameters.border_chain self]
       ∧ IterationParams.l_nodes_s iteration_params
         = ConnectParameters.nodes_s_without_border self ++ ch.Chain.l_nodes cb
       ∧ change_id (ConnectParameters.border_chain self)
           (Z.of_nat (length (ConnectParameters.ch_s_without_border self))) w
         = Ok (tt, w')).
Proof.
  intros Hg. unfold get_iteration_parameters in Hg.
  do 5 (apply St_bind_Ok in Hg as (? & ? & Hp & Hg); apply read_Ok in Hp as [_ ->]).
  apply St_bind_Ok in Hg as (cb & ? & Hcb & Hg). apply read_Ok in Hcb as [Hcb ->].
  apply get_chain_Ok in Hcb.
  apply St_bind_Ok in Hg as ([] & w1 & Hid & Hg). apply St_ret_Ok in Hg as [<- <-].
  exists cb. split; [done|]. simpl. unfold ConnectParameters.iterations in *. split.
  - intros Hlt. rewrite bool_decide_eq_true_2 by done.
    rewrite decide_False in Hid by lia. by apply St_ret_Ok in Hid as [_ <-].
  - intros ->. rewrite bool_decide_eq_false_2 by lia.
    by rewrite decide_True in Hid by done.
Qed.

Lemma ConnectParameters_init_Ok (ch_s nodes_s : list nat) (w : World)
    (parameters : ConnectParameters.t) :
  ConnectParameters_init ch_s nodes_s w = Ok parameters →
  ConnectParameters.border_chain parameters ∈ ch_s
  ∧ sublist (ConnectParameters.ch_s_without_border parameters) ch_s
  ∧ sublist (ConnectParameters.nodes_s_without_border parameters) nodes_s.
Proof.
  intros Hi. unfold ConnectParameters_init in Hi.
  apply Rd_bind_Ok in Hi as ([[b l] n] & He & Hi). apply Rd_ret_Ok in Hi as <-. simpl.
  unfold extract_border_chain_from_list in He.
  apply Rd_bind_Ok in He as (l' & Hl & He).
  apply Rd_bind_Ok in He as (b' & Hb & He).
  apply Rd_bind_Ok in He as (cb & Hcb & He).
  apply Rd_bind_Ok in He as (n' & Hn & He).
  apply Rd_ret_Ok in He. injection He as -> -> ->.
  destruct (first_border_Ok _ _ _ Hb) as (before & after & _ & -> & _).
  split_and!.
  - apply elem_of_app. right. by left.
  - by eapply rd_filter_sublist.
  - by eapply rd_filter_sublist.
Qed.

Lemma copied_nodes_fresh (w w' : World) (l refs : list nat) (cs : list ch.Chain.t) :
  Forall2 (deep_copy w w') l refs → rd_map get_chain refs w' = Ok cs →
  ∀ n, n ∈ concat (ch.Chain.l_nodes <$> cs) → (length (nodes w) ≤ n)%nat.
Proof.
  intros Hdeep. revert cs. induction Hdeep as [|r r' l refs Hd _ IH]; intros cs Hm; simpl in Hm.
  - apply Rd_ret_Ok in Hm as <-. by intros n ?%elem_of_nil.
  - apply Rd_bind_Ok in Hm as (c' & Hc' & Hm). apply Rd_bind_Ok in Hm as (cs' & Hcs' & Hm).
    apply Rd_ret_Ok in Hm as <-. apply get_chain_Ok in Hc'.
    intros n. simpl. rewrite elem_of_app. intros [Hn|Hn]; [|by eapply IH].
    destruct Hd as (_ & c & c'' & _ & Hc'' & _ & _ & _ & _ & Hnodes). simplify_eq.
    apply list_elem_of_lookup_1 in Hn as [i Hi].
    destruct (Forall2_lookup_r _ _ _ _ _ Hnodes Hi) as (n0 & _ & Hfresh & _). done.
Qed.

End copies.

(** ** Candidates that intersect and candidates that do not *)

(** A filter and the filter of the opposite test split a list in two. *)
Lemma rd_filter_split {A : Type} (f : A → Rd bool) (l yes : list A) (w : World) :
  rd_filter f l w = Ok yes →
  ∃ no,
    rd_filter (λ x, b ← f x; mret (negb b)) l w = Ok no
    ∧ (length yes + length no = length l)%nat
    ∧ (∀ x, x ∈ l ↔ x ∈ yes ∨ x ∈ no)
    ∧ (∀ x, x ∈ yes → f x w = Ok true)
    ∧ (∀ x, x ∈ no → f x w = Ok false).
Proof.
  revert yes. induction l as [|a l IH]; intros yes Hf; simpl in Hf.
  - apply Rd_ret_Ok in Hf as <-. exists []. split; [done|]. split; [done|].
    split; [|split; by intros x ?%elem_of_nil]. intros x. split; [by intros ?%elem_of_nil|].
    by intros [?%elem_of_nil|?%elem_of_nil].
  - apply Rd_bind_Ok in Hf as (b & Hb & Hf). apply Rd_bind_Ok in Hf as (r & Hr & Hf).
    apply Rd_ret_Ok in Hf as <-.
    destruct (IH _ Hr) as (no & Hno & Hlen & Hsplit & Hyes & Hnot).
    exists (if b then no else a :: no). split.
    { simpl. unfold mbind, Rd_bind in *. rewrite Hb. simpl. rewrite Hno. by destruct b. }
    destruct b; simpl.
    + split; [lia|]. split; [|split].
      * intros x. rewrite !elem_of_cons, Hsplit. tauto.
      * intros x [->|Hx]%elem_of_cons; auto.
      * done.
    + split; [lia|]. split; [|split].
      * intros x. rewrite !elem_of_cons, Hsplit. tauto.
      * done.
      * intros x [->|Hx]%elem_of_cons; auto.
Qed.

(** ** Registration of interpolated nodes *)

Lemma mem_node_eq (n : nat) (l : list nat) : Py.mem node_eq n l = true ↔ n ∈ l.
Proof.
  unfold Py.mem. rewrite existsb_exists. split.
  - intros (x & Hx%list_elem_of_In & Heq). apply bool_decide_eq_true in Heq. by subst.
  - intros Hn. exists n. split; [by apply list_elem_of_In|]. by apply bool_decide_eq_true.
Qed.

Section registration.
Context `{Collaborators}.

Lemma add_interpolated_nodes_loop_nodes (interpolated : list nat)
    (state state' : SystemStatus.t) (ch_j : nat) (w w' : World) :
  add_interpolated_nodes_loop state ch_j interpolated w = Ok (state', w') →
  SystemStatus.l_nodes_s state' = SystemStatus.l_nodes_s state ++ interpolated
  ∧ NoDup interpolated
  ∧ ∀ n, n ∈ interpolated → n ∉ SystemStatus.l_nodes_s state.
Proof.
  revert state w. induction interpolated as [|new_node rest IH]; intros state w Ha;
    simpl in Ha.
  - apply St_ret_Ok in Ha as [<- _]. rewrite app_nil_r.
    split; [done|]. split; [apply NoDup_nil_2|by intros n ?%elem_of_nil].
  - destruct (Py.mem node_eq new_node (SystemStatus.l_nodes_s state)) eqn:Hmem; [done|].
    assert (Hnew : new_node ∉ SystemStatus.l_nodes_s state).
    { intros Hin%mem_node_eq. congruence. }
    apply St_bind_Ok in Ha as ([cs st1] & w1 & Hr & Ha). apply read_Ok in Hr as [Hr ->].
    apply St_bind_Ok in Ha as ([] & w2 & _ & Ha).
    assert (Hn1 : SystemStatus.l_nodes_s st1 = SystemStatus.l_nodes_s state ++ [new_node]).
    { unfold update_intersection_matrix_in_radial_direction in Hr. inv_all.
      destruct a0. inv_all. by simplify_eq. }
    apply IH in Ha as (Hl & Hnd & Hfresh). rewrite Hn1 in Hl, Hfresh.
    split; [by rewrite Hl, <- app_assoc|]. split.
    + apply NoDup_cons. split; [|done]. intros Hin%Hfresh. apply Hin.
      apply elem_of_app. right. by left.
    + intros n [->|Hn%Hfresh]%elem_of_cons; [done|].
      intros Hin. apply Hn. apply elem_of_app. by left.
Qed.

End registration.

(** * The claims

    The statements below are about the program for every instance of the
    geometric routines. *)

Section claims.
Context `{Collaborators}.


(** C2, amended: a merge turns a symmetric [n] by [n] matrix with all-1
    diagonal into a symmetric [n - 1] by [n - 1] matrix with all-1
    diagonal, and removes exactly one chain from the live chain list: the
    dimension and the number of live chains decrease together, so that the
    dimension exceeds the number of live chains after the merge by what it
    exceeded it before (the matrix computed at entry counts the border
    chain, which the passes before the last one hold out of the list). *)
Theorem merge_keeps_matrix (n : nat) (state state' : SystemStatus.t) (ch_j ch_k : nat)
    (endpoint : ch.EndPoints) (ch_i : nat) (l_candidates_chi l_candidates_chi' : list nat)
    (w w' : World) (cj ck : ch.Chain.t) :
  intersection_matrix n (SystemStatus.M state) →
  ch_j ≠ ch_k → chains w !! ch_j = Some cj → chains w !! ch_k = Some ck →
  merge_and_update state ch_j ch_k endpoint ch_i l_candidates_chi w
    = Ok ((state', l_candidates_chi'), w') →
  intersection_matrix (n - 1) (SystemStatus.M state')
  ∧ (0 < n)%nat
  ∧ S (length (SystemStatus.l_ch_s state')) = length (SystemStatus.l_ch_s state).
Proof.
  intros Hgood Hne Hcj Hck Hm.
  destruct (merge_and_update_Ok n _ _ _ _ _ _ _ _ _ _ _ _ Hne Hcj Hck Hm)
    as (w2 & i & a & ca & l' & _ & _ & _ & Hi & _ & _ & -> & Hl' & _ & Hmat).
  destruct (Hmat Hgood) as [? ?]. split_and!; try done.
  rewrite Hl', length_delete by eauto. apply lookup_lt_Some in Hi. lia.
Qed.

(** C4: when [get_closest_chain_logic] (with the symmetric check) finds a
    candidate [ch_k] from the endpoint of [ch_j], it runs the closest-chain
    search again from the opposite endpoint of [ch_k], over the candidates
    that do not intersect [ch_k]; it returns [ch_k] exactly when that
    search yields a chain equal to [ch_j] and
    [ch_k.size + ch_j.size <= ch_k.Nr], and [None] otherwise.  When the
    first search finds no candidate the result is [None]. *)
Theorem get_closest_chain_logic_symmetric (state : SystemStatus.t) (ch_j : nat)
    (l_candidates_chi l_no_intersection_j : list nat) (ch_i : nat)
    (location : ch.ChainLocation) (endpoint : ch.EndPoints) (w : World)
    (res : option nat) :
  get_closest_chain_logic state ch_j l_candidates_chi l_no_intersection_j ch_i
    location endpoint true w = Ok res →
  ∃ found,
    get_closest_chain state ch_j l_no_intersection_j ch_i location endpoint
      (SystemStatus.M state) w = Ok found
    ∧ (found = None → res = None)
    ∧ ∀ ch_k, found = Some ch_k →
        ∃ l_no_intersection_k symmetric_chain ck cj,
          find_non_intersection (SystemStatus.M state) l_candidates_chi ch_k w
            = Ok l_no_intersection_k
          ∧ get_closest_chain state ch_k l_no_intersection_k ch_i location
              (opposite endpoint) (SystemStatus.M state) w = Ok symmetric_chain
          ∧ chains w !! ch_k = Some ck ∧ chains w !! ch_j = Some cj
          ∧ (res = Some ch_k ∨ res = None)
          ∧ (res = Some ch_k ↔
               (∃ s cs, symmetric_chain = Some s ∧ chains w !! s = Some cs
                        ∧ ch.Chain.id cs = ch.Chain.id cj)
               ∧ ch.Chain.size ck + ch.Chain.size cj ≤ ch.Chain.Nr ck).
Proof.
  intros Hr. unfold get_closest_chain_logic in Hr. inv_step Hr.
  exists a. split; [done|]. destruct a as [k|].
  2:{ inv_step Hr. split; [done|]. by intros ? [=]. }
  split; [by intros [=]|]. intros ch_k [= <-]. simpl in Hr.
  inv_step Hr. inv_step Hr. inv_step Hr.
  assert (∃ ck cj, chains w !! k = Some ck ∧ chains w !! ch_j = Some cj)
    as (ck & cj & Hck & Hcj).
  { apply find_non_intersection_Ok in Hr1 as (ck & _ & Hck & _).
    destruct (get_closest_chain_elem _ _ _ _ _ _ _ _ _ Hr0) as [_ [d Hd]].
    apply connectivity_goodness_condition_true in Hd as (cj & _ & Hcj & _).
    by exists ck, cj. }
  exists a, a0, ck, cj. split_and!; try done.
  - destruct a1; simpl in Hr; [|inv_all; by right].
    inv_all. simplify_eq. case_decide; inv_all; [by right|by left].
  - destruct a1; simpl in Hr.
    + apply opt_chain_eq_true in Hr3 as (s & cs & cr & -> & Hs & Hj & Hid).
      inv_all. simplify_eq. case_decide; inv_all; split.
      * by intros [=].
      * intros [_ ?]. lia.
      * intros _. split; [by exists s, cs|lia].
      * done.
    + inv_all. split; [by intros [=]|].
      intros [(s & cs & -> & Hs & Hid) _].
      assert (opt_chain_eq (Some s) ch_j w = Ok true) as Ht
        by (apply opt_chain_eq_true; by exists s, cs, cj).
      congruence.
Qed.


(** C6: [find_support_chain] returns [None] as soon as the counter of
    iterations since the last change has reached the number of live
    chains; and from a state with [n] live chains, at most [n] consecutive
    calls that observe no structural change reach the call that returns
    [None]. *)
Theorem support_chain_driver_terminal (state : SystemStatus.t) (ch_i : nat)
    (outs inws : option (list nat)) (w : World) (n : nat) :
  length (SystemStatus.l_ch_s state) = n →
  (0 < n)%nat →
  SystemStatus.size_l_chain_init state = Some (Z.of_nat n) →
  0 ≤ SystemStatus.iterations_since_last_change state →
  ch_i ∈ SystemStatus.l_ch_s state →
  (∀ x, x ∈ SystemStatus.l_ch_s state → is_Some (chains w !! x)) →
  (∀ previous l_s_outward l_s_inward r state',
     find_support_chain state previous l_s_outward l_s_inward w = Ok (r, state') →
     SystemStatus.iterations_since_last_change state'
     >= Z.of_nat (length (SystemStatus.l_ch_s state')) →
     r = None)
  ∧ ∃ state', idle_calls n state ch_i outs inws w = Ok (None, state').
Proof.
  intros <- Hn Hinit Hc0 Hin Hval.
  set (n := length (SystemStatus.l_ch_s state)) in *. split.
  - intros previous outs' inws' r state' Hcall Hge.
    by eapply find_support_chain_terminal.
  - assert (Hgen : ∀ k st c,
      length (SystemStatus.l_ch_s st) = n →
      SystemStatus.l_ch_s st = SystemStatus.l_ch_s state →
      SystemStatus.size_l_chain_init st = Some (Z.of_nat n) →
      c ∈ SystemStatus.l_ch_s st →
      Z.of_nat n - SystemStatus.iterations_since_last_change st ≤ Z.of_nat k →
      (0 < k)%nat →
      ∃ st', idle_calls k st c outs inws w = Ok (None, st')).
    { induction k as [|k IH]; intros st c Hlen Hl Hi Hc Hk Hpos; [lia|].
      destruct (find_support_chain_idle st c outs inws w) as
        (r & st1 & Hcall & Hl1 & Hcnt & Hnone & Hsome).
      { rewrite Hlen. exact Hn. }
      { rewrite Hlen. exact Hi. }
      { exact Hc. }
      { rewrite Hl. exact Hval. }
      rewrite Hlen in Hnone, Hsome.
      simpl. unfold mbind at 1. unfold Rd_bind. rewrite Hcall.
      destruct (decide (SystemStatus.iterations_since_last_change st1 >= Z.of_nat n))
        as [Hge|Hlt].
      - rewrite (Hnone Hge). by eexists.
      - destruct Hsome as (c' & -> & Hc' & Hi'); [lia|].
        apply IH.
        + by rewrite Hl1.
        + by rewrite Hl1.
        + exact Hi'.
        + by rewrite Hl1.
        + lia.
        + lia. }
    apply Hgen; try done. lia.
Qed.

(** C7, amended: [merge_chains] makes one deep copy of the chains and nodes
    it is given, at entry: new chain objects with new node objects, the
    objects it was given left as they were; the parameters and the matrix
    are computed from the copies, whose chains and nodes the parameters
    hold, and the nine passes are run on them, one after the other.
    Between two passes nothing is copied: a pass before the last runs
    [merge_chains_main_logic] on the chain and node lists of its
    parameters, in the store as it finds it, and a pass [j] that starts
    from what a pass [i] returned runs it on the very chain list and node
    list that the main logic of pass [i] returned, in the store as pass
    [i] left it (in the last pass, with the border chain, renumbered, and
    its nodes added to the lists); the chains it returns are among them. *)
Theorem passes_share_chain_objects (fuel : nat) (cy cx : float) (nr : Z) :
  (∀ l_ch_s w l_ch_c w',
     merge_chains fuel l_ch_s cy cx nr w = Ok (l_ch_c, w') →
     ∃ copies l_nodes_s w1 parameters M parameters' M',
       copy_chains_and_nodes l_ch_s w = Ok ((copies, l_nodes_s), w1)
       ∧ (∃ cs ns, chains w1 = chains w ++ cs ∧ nodes w1 = nodes w ++ ns)
       ∧ Forall2 (deep_copy w w1) l_ch_s copies
       ∧ (∀ n, n ∈ l_nodes_s → (length (nodes w) ≤ n)%nat)
       ∧ ConnectParameters_init copies l_nodes_s w1 = Ok parameters
       ∧ ConnectParameters.border_chain parameters ∈ copies
       ∧ sublist (ConnectParameters.ch_s_without_border parameters) copies
       ∧ sublist (ConnectParameters.nodes_s_without_border parameters) l_nodes_s
       ∧ compute_intersection_matrix l_nodes_s nr w1 = Ok M
       ∧ schedule fuel cy cx nr (seq 0 ConnectParameters.iterations) [] parameters M w1
         = Ok ((l_ch_c, parameters', M'), w'))
  ∧ (∀ i j parameters M w l_ch_c parameters' M' w' l_ch_c2 parameters2 M2 w2,
       schedule_pass fuel cy cx nr i parameters M w = Ok ((l_ch_c, parameters', M'), w') →
       schedule_pass fuel cy cx nr j parameters' M' w'
       = Ok ((l_ch_c2, parameters2, M2), w2) →
       ∃ p_i w_i l_nodes_c p_j w_j l_nodes_c2,
         get_iteration_parameters parameters i w = Ok (p_i, w_i)
         ∧ merge_chains_main_logic fuel M cy cx nr
             (IterationParams.l_ch_s p_i) (IterationParams.l_nodes_s p_i)
             (IterationParams.th_radial_tolerance p_i)
             (IterationParams.th_distribution_size p_i)
             (IterationParams.th_regular_derivative p_i)
             (IterationParams.neighbourhood_size p_i)
             (IterationParams.derivative_from_center p_i) w_i
           = Ok ((l_ch_c, l_nodes_c, M'), w')
         ∧ ((i < ConnectParameters.iterations - 1)%nat →
            IterationParams.l_ch_s p_i = ConnectParameters.ch_s_without_border parameters
            ∧ IterationParams.l_nodes_s p_i
              = ConnectParameters.nodes_s_without_border parameters
            ∧ w_i = w)
         ∧ parameters' = update_list_for_next_iteration parameters l_ch_c l_nodes_c
         ∧ get_iteration_parameters parameters' j w' = Ok (p_j, w_j)
         ∧ merge_chains_main_logic fuel M' cy cx nr
             (IterationParams.l_ch_s p_j) (IterationParams.l_nodes_s p_j)
             (IterationParams.th_radial_tolerance p_j)
             (IterationParams.th_distribution_size p_j)
             (IterationParams.th_regular_derivative p_j)
             (IterationParams.neighbourhood_size p_j)
             (IterationParams.derivative_from_center p_j) w_j
           = Ok ((l_ch_c2, l_nodes_c2, M2), w2)
         ∧ ((j < ConnectParameters.iterations - 1)%nat →
            IterationParams.l_ch_s p_j = l_ch_c
            ∧ IterationParams.l_nodes_s p_j = l_nodes_c
            ∧ w_j = w')
         ∧ (j = (ConnectParameters.iterations - 1)%nat →
            ∃ cb,
              chains w' !! ConnectParameters.border_chain parameters = Some cb
              ∧ IterationParams.l_ch_s p_j
                = l_ch_c ++ [ConnectParameters.border_chain parameters]
              ∧ IterationParams.l_nodes_s p_j = l_nodes_c ++ ch.Chain.l_nodes cb
              ∧ change_id (ConnectParameters.border_chain parameters)
                  (Z.of_nat (length l_ch_c)) w'
                = Ok (tt, w_j))
         ∧ l_ch_c2 ⊆+ IterationParams.l_ch_s p_j).
Proof.
  split.
  - intros l_ch_s w l_ch_c w' Hm. unfold merge_chains in Hm.
    apply St_bind_Ok in Hm as ([copies nodes_s] & w1 & Hcopy & Hm).
    apply St_bind_Ok in Hm as (p & w2 & Hinit & Hm). apply read_Ok in Hinit as [Hinit ->].
    apply St_bind_Ok in Hm as (M & w2 & HM & Hm). apply read_Ok in HM as [HM ->].
    apply St_bind_Ok in Hm as ([[l p'] M'] & w2 & Hs & Hm).
    apply St_ret_Ok in Hm as [<- <-].
    exists copies, nodes_s, w1, p, M, p', M'. split; [done|].
    unfold copy_chains_and_nodes in Hcopy.
    apply St_bind_Ok in Hcopy as (refs & w0 & Hrefs & Hcopy).
    apply St_bind_Ok in Hcopy as (cs & w0' & Hcs & Hcopy). apply read_Ok in Hcs as [Hcs ->].
    apply St_ret_Ok in Hcopy as [[= <- <-] <-].
    assert (Hdeep : Forall2 (deep_copy w w0) l_ch_s refs).
    { eapply st_map_copy_chain_deep; [|done]. exists [], []. by rewrite !app_nil_r. }
    destruct (ConnectParameters_init_Ok _ _ _ _ Hinit) as (Hb & Hl & Hn).
    split_and!; try done.
    + by destruct (st_map_copy_chain _ _ _ _ Hrefs) as [? _].
    + by eapply copied_nodes_fresh.
  - intros i j p M w l_ch_c p' M' w' l_ch_c2 p2 M2 w2 Hi Hj.
    unfold schedule_pass in Hi, Hj.
    apply St_bind_Ok in Hi as (p_i & w_i & Hgi & Hi).
    apply St_bind_Ok in Hi as ([[l ln] M1] & w1 & Hmi & Hi).
    apply St_ret_Ok in Hi as [[= <- <- <-] <-].
    apply St_bind_Ok in Hj as (p_j & w_j & Hgj & Hj).
    apply St_bind_Ok in Hj as ([[l2 ln2] M3] & w3 & Hmj & Hj).
    apply St_ret_Ok in Hj as [[= <- _ <-] <-].
    exists p_i, w_i, ln, p_j, w_j, ln2.
    destruct (get_iteration_parameters_Ok _ _ _ _ _ Hgj) as (cb & Hcb & Hlt & Heq).
    destruct (get_iteration_parameters_Ok _ _ _ _ _ Hgi) as (_ & _ & Hlti & _).
    split_and!; try done.
    + intros ->. exists cb. destruct (Heq eq_refl) as (? & ? & ?). by split_and!.
    + by apply merge_chains_main_logic_sub in Hmj.
Qed.

(** C8, amended: on an empty chain collection [merge_chains] raises
    [StopIteration]: [extract_border_chain_from_list] takes the border
    chain with [next] and there is none. *)
Theorem merge_chains_empty (fuel : nat) (cy cx : float) (nr : Z) (w : World) :
  merge_chains fuel [] cy cx nr w = Raise StopIteration.
Proof. reflexivity. Qed.

(** C9: when the symmetric search finds a candidate at both endpoints of
    [ch_j], and the two tie-break distances [d_a] and [d_b] are numbers not
    below zero, [select_closest_chain], and with it [find_closest],
    returns the candidate of endpoint A with [EndPoints.A] when
    [d_a >= d_b], and the candidate of endpoint B with [EndPoints.B]
    otherwise: the candidate with the larger distance. *)
Theorem find_closest_larger_distance (state : SystemStatus.t) (ch_j : nat)
    (l_candidates_chi l_no_intersection_j : list nat) (ch_i : nat)
    (location : ch.ChainLocation) (w : World) (ch_k_a ch_k_b : nat) (d_a d_b : float) :
  get_closest_chain_logic state ch_j l_candidates_chi l_no_intersection_j ch_i
    location ch.A true w = Ok (Some ch_k_a) →
  get_closest_chain_logic state ch_j l_candidates_chi l_no_intersection_j ch_i
    location ch.B true w = Ok (Some ch_k_b) →
  distance_between_border ch_j ch_k_a ch.A w = Ok d_a →
  distance_between_border ch_j ch_k_b ch.B w = Ok d_b →
  PyFloat.leb PyFloat.zero d_a = true → PyFloat.leb PyFloat.zero d_b = true →
  select_closest_chain ch_j (Some ch_k_a) (Some ch_k_b) w
  = Ok (if PyFloat.leb d_b d_a then (Some ch_k_a, Some ch.A) else (Some ch_k_b, Some ch.B))
  ∧ find_closest state ch_j l_candidates_chi l_no_intersection_j ch_i location true w
    = Ok (if PyFloat.leb d_b d_a then (Some ch_k_a, Some ch.A) else (Some ch_k_b, Some ch.B)).
Proof.
  intros HA HB Ha Hb Hna Hnb.
  pose proof (select_closest_chain_both _ _ _ _ _ _ Ha Hb Hna Hnb) as Hs.
  split; [done|].
  unfold find_closest, mbind, Rd_bind. by rewrite HB, HA.
Qed.

(** C10: [distance_between_border chain_1 chain_2 EndPoints.B] does not
    depend on [chain_1]: it is the Euclidean distance between the nodes
    [extB] and [extA] of [chain_2].  With [EndPoints.A] it is the distance
    between [chain_1.extA] and [chain_2.extB].  Hence the result of
    [select_closest_chain] with a candidate at endpoint B only does not
    depend on the chain either. *)
Theorem distance_between_border_spec (w : World) (chain_2 : nat) :
  (∀ chain_1 chain_1',
     distance_between_border chain_1 chain_2 ch.B w
     = distance_between_border chain_1' chain_2 ch.B w)
  ∧ (∀ chain_1 c2 nA nB vA vB,
       chains w !! chain_2 = Some c2 →
       ch.Chain.extA c2 = Some nA → ch.Chain.extB c2 = Some nB →
       nodes w !! nA = Some vA → nodes w !! nB = Some vB →
       distance_between_border chain_1 chain_2 ch.B w
       = Ok (euclidean_distance_between_nodes vB vA))
  ∧ (∀ chain_1 c1 c2 nA nB vA vB,
       chains w !! chain_1 = Some c1 → chains w !! chain_2 = Some c2 →
       ch.Chain.extA c1 = Some nA → ch.Chain.extB c2 = Some nB →
       nodes w !! nA = Some vA → nodes w !! nB = Some vB →
       distance_between_border chain_1 chain_2 ch.A w
       = Ok (euclidean_distance_between_nodes vA vB))
  ∧ (∀ chain chain',
       select_closest_chain chain None (Some chain_2) w
       = select_closest_chain chain' None (Some chain_2) w).
Proof.
  split; [|split; [|split]].
  - intros. by rewrite !distance_between_border_B_eq.
  - intros chain_1 c2 nA nB vA vB Hc HA HB HvA HvB.
    rewrite distance_between_border_B_eq.
    unfold mbind, Rd_bind, get_chain. rewrite Hc. simpl.
    rewrite HA, HB. unfold chain_py.node_of, get_node. rewrite HvA, HvB. done.
  - intros chain_1 c1 c2 nA nB vA vB Hc1 Hc2 HA HB HvA HvB.
    unfold distance_between_border, mbind, Rd_bind, get_chain. simpl.
    rewrite Hc1, Hc2. simpl. rewrite HA, HB.
    unfold chain_py.node_of, get_node. rewrite HvA, HvB. done.
  - intros chain chain'. unfold select_closest_chain, mbind, Rd_bind.
    simpl. by rewrite (distance_between_border_B_eq chain), (distance_between_border_B_eq chain').
Qed.

End claims.

(** * Further properties of the program

    Like the claims, they hold for every instance of the geometric
    routines. *)

Section properties.
Context `{Collaborators}.

(** X1: [extract_border_chain_from_list] returns the first chain of type border
    of the list, the chains of the list that are not of type border, in their
    order, and the nodes whose chain id differs from the id of that border
    chain, in their order. When no chain of the list is of type border it raises
    [StopIteration]. *)
Theorem extract_border_chain_from_list_spec (ch_s nodes_s : list nat) (w : World) :
  (∀ border_chain ch_s_without_border nodes_s_without_border,
     extract_border_chain_from_list ch_s nodes_s w
     = Ok (border_chain, ch_s_without_border, nodes_s_without_border) →
     ∃ before after cb,
       ch_s = before ++ border_chain :: after
       ∧ chains w !! border_chain = Some cb ∧ ch.Chain.type cb = ch.border
       ∧ (∀ x, x ∈ before → ∃ c, chains w !! x = Some c ∧ ch.Chain.type c ≠ ch.border)
       ∧ sublist ch_s_without_border ch_s
       ∧ (∀ x, x ∈ ch_s_without_border ↔
               x ∈ ch_s ∧ ∃ c, chains w !! x = Some c ∧ ch.Chain.type c ≠ ch.border)
       ∧ sublist nodes_s_without_border nodes_s
       ∧ (∀ n, n ∈ nodes_s_without_border ↔
               n ∈ nodes_s ∧ ∃ v, nodes w !! n = Some v
                                  ∧ ch.Node.chain_id v ≠ ch.Chain.id cb))
  ∧ ((∀ x, x ∈ ch_s → ∃ c, chains w !! x = Some c ∧ ch.Chain.type c ≠ ch.border) →
     extract_border_chain_from_list ch_s nodes_s w = Raise StopIteration).
Proof.
  split.
  - intros b l n He. unfold extract_border_chain_from_list in He.
    apply Rd_bind_Ok in He as (l' & Hl & He).
    apply Rd_bind_Ok in He as (b' & Hb & He).
    apply Rd_bind_Ok in He as (cb & Hcb & He). apply get_chain_Ok in Hcb.
    apply Rd_bind_Ok in He as (n' & Hn & He).
    apply Rd_ret_Ok in He. injection He as -> -> ->.
    destruct (first_border_Ok _ _ _ Hb) as (before & after & cb' & -> & Hcb' & Hty & Hbefore).
    simplify_eq. exists before, after, cb. split_and!; try done.
    + by eapply rd_filter_sublist.
    + intros x. rewrite (rd_filter_Ok _ _ _ _ Hl). apply and_iff_compat_l.
      unfold mbind, Rd_bind, get_chain. split.
      * intros Hx. destruct (chains w !! x) as [c|] eqn:Hc; [|done]. simpl in Hx.
        apply Rd_ret_Ok in Hx. exists c. split; [done|]. by bool_hyps.
      * intros (c & -> & Ht). simpl. unfold mret, Rd_ret.
        by rewrite bool_decide_eq_false_2.
    + by eapply rd_filter_sublist.
    + intros x. rewrite (rd_filter_Ok _ _ _ _ Hn). apply and_iff_compat_l.
      unfold mbind, Rd_bind, get_node. split.
      * intros Hx. destruct (nodes w !! x) as [v|] eqn:Hv; [|done]. simpl in Hx.
        apply Rd_ret_Ok in Hx. exists v. split; [done|]. by bool_hyps.
      * intros (v & -> & Ht). simpl. unfold mret, Rd_ret.
        by rewrite bool_decide_eq_false_2.
  - intros Hall. unfold extract_border_chain_from_list.
    destruct (rd_filter_total
                (λ chain, c ← get_chain chain;
                   mret (negb (bool_decide (ch.Chain.type c = ch.border)))) ch_s w)
      as [r Hr].
    { intros x Hx. destruct (Hall x Hx) as (c & Hc & _).
      unfold mbind, Rd_bind, get_chain. rewrite Hc. by eexists. }
    unfold mbind at 1. unfold Rd_bind at 1. rewrite Hr.
    unfold mbind at 1. unfold Rd_bind at 1. by rewrite first_border_none.
Qed.

(** X2: [get_iteration_parameters] raises [IndexError] for every counter from 9
    on. For the last counter, 8, it appends the border chain to the chain list
    and its nodes to the node list, gives the border chain the number of the
    other chains as id, writes that id into each of its nodes and leaves every
    other node as it was. *)
Theorem get_iteration_parameters_bounds (self : ConnectParameters.t) (w : World) :
  (∀ counter, (ConnectParameters.iterations ≤ counter)%nat →
     get_iteration_parameters self counter w = Raise IndexError)
  ∧ (∀ iteration_params w',
       get_iteration_parameters self (ConnectParameters.iterations - 1) w
       = Ok (iteration_params, w') →
       ∃ cb,
         chains w !! ConnectParameters.border_chain self = Some cb
         ∧ IterationParams.l_ch_s iteration_params
           = ConnectParameters.ch_s_without_border self
             ++ [ConnectParameters.border_chain self]
         ∧ IterationParams.l_nodes_s iteration_params
           = ConnectParameters.nodes_s_without_border self ++ ch.Chain.l_nodes cb
         ∧ chains w'
           = alter (ch.Chain.set_id
                      (Z.of_nat (length (ConnectParameters.ch_s_without_border self))))
               (ConnectParameters.border_chain self) (chains w)
         ∧ (∀ n, n ∈ ch.Chain.l_nodes cb →
              ∃ v, nodes w' !! n = Some v
                   ∧ ch.Node.chain_id v
                     = Z.of_nat (length (ConnectParameters.ch_s_without_border self)))
         ∧ (∀ n, n ∉ ch.Chain.l_nodes cb → nodes w' !! n = nodes w !! n)).
Proof.
  split.
  - intros counter Hc. unfold get_iteration_parameters.
    unfold mbind at 1. unfold St_bind at 1. unfold read, pure.
    rewrite (lookup_ge_None_2 ConnectParameters.th_radial_tolerance counter); [done|].
    exact Hc.
  - intros ip w' Hg. unfold get_iteration_parameters in Hg.
    do 5 (apply St_bind_Ok in Hg as (? & ? & Hp & Hg); apply read_Ok in Hp as [_ ->]).
    apply St_bind_Ok in Hg as (cb & ? & Hcb & Hg). apply read_Ok in Hcb as [Hcb ->].
    apply get_chain_Ok in Hcb.
    apply St_bind_Ok in Hg as ([] & w1 & Hid & Hg). apply St_ret_Ok in Hg as [<- <-].
    rewrite decide_True in Hid by done.
    apply change_id_Ok in Hid as (c & Hc & Hch & Hin & Hout). simplify_eq.
    exists cb. by split_and!.
Qed.

(** X3: [compute_intersection_matrix] raises [ValueError] on an empty node list.
    Otherwise the matrix is square of dimension the largest chain id plus one,
    symmetric with ones on the diagonal, holds only 0 and 1, and an entry off
    the diagonal is 1 exactly when a node of each of the two chains lies on one
    common ray. *)
Theorem compute_intersection_matrix_spec (nodes_list : list nat) (Nr : Z) (w : World) :
  compute_intersection_matrix [] Nr w = Raise ValueError
  ∧ ∀ M, compute_intersection_matrix nodes_list Nr w = Ok M →
      ∃ vals rays mx,
        rd_map get_node nodes_list w = Ok vals
        ∧ Py.np_arange_0_360 Nr = Ok rays
        ∧ (∃ v, v ∈ vals ∧ ch.Node.chain_id v = mx)
        ∧ (∀ v, v ∈ vals → ch.Node.chain_id v ≤ mx)
        ∧ intersection_matrix (Z.to_nat (mx + 1)) M
        ∧ ∀ a b, (a < Z.to_nat (mx + 1))%nat → (b < Z.to_nat (mx + 1))%nat →
            (mget M a b = Some 1 ∨ mget M a b = Some 0)
            ∧ (mget M a b = Some 1
               ↔ a = b ∨ share_ray vals rays (Z.to_nat (mx + 1)) a b).
Proof.
  split; [reflexivity|].
  intros M Hc.
  pose proof (compute_intersection_matrix_Ok _ _ _ _ Hc) as [n0 Hgood0].
  unfold compute_intersection_matrix in Hc.
  apply Rd_bind_Ok in Hc as (vals & Hvals & Hc).
  apply Rd_bind_Ok in Hc as (mx & Hmx & Hc). apply pure_Ok in Hmx.
  apply Rd_bind_Ok in Hc as (M0 & HM0 & Hc). apply pure_Ok in HM0.
  apply Rd_bind_Ok in Hc as (rays & Hrays & Hc). apply pure_Ok in Hrays, Hc.
  unfold np_eye in HM0. case_decide; [done|]. injection HM0 as <-.
  set (n := Z.to_nat (mx + 1)) in *.
  destruct (np_max_Ok _ _ Hmx) as [Hin Hle].
  apply list_elem_of_fmap in Hin as (v & -> & Hv).
  destruct (eye_matrix n) as [Hr Hcols _ _].
  pose proof (mark_rays_matrix n _ _ _ _ (eye_matrix n) Hc) as Hgood.
  exists vals, rays, (ch.Node.chain_id v). split_and!; try done.
  - by exists v.
  - intros u Hu. apply Hle. by apply list_elem_of_fmap_2.
  - intros a b Ha Hb.
    destruct (mark_rays_entries n _ _ _ _ Hr Hcols Hc a b) as [Hfwd Hbwd].
    rewrite mget_eye, decide_True in Hfwd, Hbwd by done. simpl in Hfwd, Hbwd.
    split.
    + destruct Hbwd as [->|Hs]; [case_decide; [by left|by right]|].
      left. by apply Hfwd.
    + split.
      * intros H1. destruct Hbwd as [Heq|Hs]; [|by right].
        rewrite Heq in H1. case_decide; [by left|done].
      * intros [->|Hs]; [|by apply Hfwd].
        destruct Hgood as [_ _ _ Hdiag]. by apply Hdiag.
Qed.

(** X4: after [update_intersection_matrix] every entry of the matrix in the row
    or column of [ch_j] is the logical or of the entries the rows of [ch_j] and
    [ch_k] had there, and every other entry is the one of the old matrix with
    row and column of [ch_k] skipped. *)
Theorem update_intersection_matrix_entries (n : nat) (state state' : SystemStatus.t)
    (ch_j ch_k : nat) (w : World) (cj ck : ch.Chain.t) (rj rk : nat) :
  intersection_matrix n (SystemStatus.M state) →
  chains w !! ch_j = Some cj → chains w !! ch_k = Some ck →
  Py.np_index n (ch.Chain.id cj) = Ok rj → Py.np_index n (ch.Chain.id ck) = Ok rk →
  update_intersection_matrix state ch_j ch_k w = Ok state' →
  ∀ a b, (a < n - 1)%nat → (b < n - 1)%nat →
    mget (SystemStatus.M state') a b
    = if decide (skip rk b = rj)
      then entry_or (mget (SystemStatus.M state) rj (skip rk a))
                    (mget (SystemStatus.M state) rk (skip rk a))
      else if decide (skip rk a = rj)
           then entry_or (mget (SystemStatus.M state) rj (skip rk b))
                         (mget (SystemStatus.M state) rk (skip rk b))
           else mget (SystemStatus.M state) (skip rk a) (skip rk b).
Proof.
  intros [Hr Hc _ _] Hcj Hck Hj Hk Hu. unfold update_intersection_matrix in Hu.
  apply Rd_bind_Ok in Hu as (cj' & Hcj' & Hu). apply get_chain_Ok in Hcj'.
  apply Rd_bind_Ok in Hu as (ck' & Hck' & Hu). apply get_chain_Ok in Hck'.
  simplify_eq.
  apply Rd_bind_Ok in Hu as (r1 & H1 & Hu). apply pure_Ok in H1.
  apply Rd_bind_Ok in Hu as (r2 & H2 & Hu). apply pure_Ok in H2. cbv zeta in Hu.
  apply Rd_bind_Ok in Hu as (m1 & H3 & Hu). apply pure_Ok in H3.
  apply Rd_bind_Ok in Hu as (m2 & H4 & Hu). apply pure_Ok in H4.
  apply Rd_bind_Ok in Hu as (m3 & H5 & Hu). apply pure_Ok in H5.
  apply Rd_bind_Ok in Hu as (m4 & H6 & Hu). apply pure_Ok in H6.
  apply Rd_ret_Ok in Hu as <-.
  replace (SystemStatus.M (SystemStatus.set_M m4 state)) with m4 by (by destruct state).
  apply (merged_entries (length (SystemStatus.M state)) _ (ch.Chain.id cj) (ch.Chain.id ck));
    try done.
  unfold mbind, Result_bind. rewrite H1, H2. cbv zeta. by rewrite H3, H4, H5.
Qed.

(** X5: [update_intersection_matrix] raises [IndexError] when the id of [ch_j]
    or of [ch_k] is not an index of the matrix, negative indices counted from
    the end. *)
Theorem update_intersection_matrix_out_of_range (state : SystemStatus.t) (ch_j ch_k : nat)
    (w : World) (cj ck : ch.Chain.t) :
  chains w !! ch_j = Some cj → chains w !! ch_k = Some ck →
  (ch.Chain.id cj < - Z.of_nat (length (SystemStatus.M state))
   ∨ Z.of_nat (length (SystemStatus.M state)) ≤ ch.Chain.id cj
   ∨ ch.Chain.id ck < - Z.of_nat (length (SystemStatus.M state))
   ∨ Z.of_nat (length (SystemStatus.M state)) ≤ ch.Chain.id ck) →
  update_intersection_matrix state ch_j ch_k w = Raise IndexError.
Proof.
  intros Hcj Hck Hout. unfold update_intersection_matrix, mbind, Rd_bind, get_chain.
  rewrite Hcj, Hck. simpl. unfold pure, np.get_row, np.nrows.
  destruct (Py.np_index (length (SystemStatus.M state)) (ch.Chain.id cj)) as [rj|e] eqn:Hj.
  - simpl.
    assert (Py.np_index (length (SystemStatus.M state)) (ch.Chain.id ck) = Raise IndexError)
      as Hk.
    { unfold Py.np_index in *. repeat case_decide; try congruence; lia. }
    destruct (from_option IndexError (SystemStatus.M state !! rj)) as [row|e] eqn:Hrow.
    + simpl. by rewrite Hk.
    + simpl. destruct (SystemStatus.M state !! rj); simpl in Hrow; congruence.
  - simpl. unfold Py.np_index in Hj. repeat case_decide; congruence.
Qed.

(** X6: [update_chain_after_connect] changes no node and no chain outside the
    chain list of the state; in each chain of the list every neighbour reference
    to a chain with the id of [ch_k] becomes a reference to [ch_j], and nothing
    else of the chain changes. *)
Theorem update_chain_after_connect_retargets (state : SystemStatus.t) (ch_j ch_k : nat)
    (w w' : World) (ck : ch.Chain.t) :
  chains w !! ch_k = Some ck →
  update_chain_after_connect state ch_j ch_k w = Ok (tt, w') →
  nodes w' = nodes w
  ∧ (∀ r, r ∉ SystemStatus.l_ch_s state → chains w' !! r = chains w !! r)
  ∧ (∀ r c, r ∈ SystemStatus.l_ch_s state → chains w !! r = Some c →
       ∃ c', chains w' !! r = Some c'
             ∧ chain_core c' = chain_core c
             ∧ ch.Chain.A_outward c'
               = retarget w ch_j (ch.Chain.id ck) (ch.Chain.A_outward c)
             ∧ ch.Chain.A_inward c'
               = retarget w ch_j (ch.Chain.id ck) (ch.Chain.A_inward c)
             ∧ ch.Chain.B_outward c'
               = retarget w ch_j (ch.Chain.id ck) (ch.Chain.B_outward c)
             ∧ ch.Chain.B_inward c'
               = retarget w ch_j (ch.Chain.id ck) (ch.Chain.B_inward c)).
Proof.
  intros Hck Hu. unfold update_chain_after_connect in Hu.
  destruct (update_chain_after_connect_loop _ _ _ w _ _ _ (pointers_only_refl w) Hck Hu)
    as [Hn Hch].
  split_and!; [done| |].
  - intros r Hr. by rewrite Hch, decide_False.
  - intros r c Hr Hc. rewrite Hch, decide_True, Hc by done. simpl.
    eexists. split; [done|]. by destruct c.
Qed.

(** X7: when the chains of the list have distinct ids, [find_visible_chains]
    returns two lists without repetition: the inward one holds exactly the
    chains other than the support chain with an outward reference to it, the
    outward one exactly those with an inward reference to it and no outward one.
    *)
Theorem find_visible_chains_spec (l_ch_s : list nat) (support_chain : nat) (w : World)
    (l_s_outward l_s_inward : list nat) :
  distinct_ids w l_ch_s →
  find_visible_chains l_ch_s support_chain w = Ok (l_s_outward, l_s_inward) →
  NoDup l_s_outward ∧ NoDup l_s_inward
  ∧ (∀ x, x ∈ l_s_inward ↔
          x ∈ l_ch_s ∧ ¬ same_id w x support_chain ∧ points_outward w support_chain x)
  ∧ (∀ x, x ∈ l_s_outward ↔
          x ∈ l_ch_s ∧ ¬ same_id w x support_chain ∧ points_inward w support_chain x
          ∧ ¬ points_outward w support_chain x).
Proof. apply find_visible_chains_Ok. Qed.

(** X8: [select_closest_chain] returns no chain and no endpoint when both
    neighbours are missing, the only neighbour with its endpoint when one is
    missing and the distance to the other is not negative, and in every case one
    of the two neighbours with its endpoint or nothing. *)
Theorem select_closest_chain_one_sided (chain : nat) (w : World) :
  select_closest_chain chain None None w = Ok (None, None)
  ∧ (∀ a d_a,
       distance_between_border chain a ch.A w = Ok d_a →
       PyFloat.leb PyFloat.zero d_a = true →
       select_closest_chain chain (Some a) None w = Ok (Some a, Some ch.A))
  ∧ (∀ b d_b,
       distance_between_border chain b ch.B w = Ok d_b →
       PyFloat.leb PyFloat.zero d_b = true →
       select_closest_chain chain None (Some b) w = Ok (Some b, Some ch.B))
  ∧ (∀ a b o e,
       select_closest_chain chain a b w = Ok (o, e) →
       (o = None ∧ e = None) ∨ (o = a ∧ e = Some ch.A) ∨ (o = b ∧ e = Some ch.B)).
Proof.
  split_and!.
  - reflexivity.
  - intros a d_a Ha Hn. unfold select_closest_chain, mbind, Rd_bind. rewrite Ha.
    cbn [mret Rd_ret].
    destruct (nonneg_above_minus_one _ Hn) as (Hle & _ & _).
    rewrite (nonneg_not_minus_one _ Hn). cbn [andb]. by rewrite Hle.
  - intros b d_b Hb Hn. unfold select_closest_chain, mbind, Rd_bind.
    cbn [mret Rd_ret]. rewrite Hb.
    destruct (nonneg_above_minus_one _ Hn) as (_ & Hle & Hlt).
    rewrite (nonneg_not_minus_one _ Hn), andb_false_r. by rewrite Hle, Hlt.
  - intros a b o e Hs. by apply select_closest_chain_Ok in Hs.
Qed.

(** X9: [get_closest_chain] returns no chain for an empty candidate list, and a
    chain it returns is one of the candidates, has another id than [ch_j], lies
    within the angular neighbourhood of the endpoint, faces the support chain
    with the neighbour reference of its opposite endpoint and passes
    [connectivity_goodness_condition]. *)
Theorem get_closest_chain_sound (state : SystemStatus.t) (ch_j : nat)
    (l_no_intersection_j : list nat) (ch_i : nat) (location : ch.ChainLocation)
    (endpoint : ch.EndPoints) (M : Matrix) (w : World) :
  get_closest_chain state ch_j [] ch_i location endpoint M w = Ok None
  ∧ ∀ ch_k,
      get_closest_chain state ch_j l_no_intersection_j ch_i location endpoint M w
      = Ok (Some ch_k) →
      ch_k ∈ l_no_intersection_j
      ∧ (∃ d, connectivity_goodness_condition state ch_j ch_k ch_i endpoint w = Ok (true, d))
      ∧ in_neighbourhood state ch_j ch_i location endpoint w ch_k.
Proof.
  split; [reflexivity|]. intros k Hk.
  destruct (get_closest_chain_elem _ _ _ _ _ _ _ _ _ Hk) as [Hin Hadm].
  split; [done|]. split; [done|].
  unfold get_closest_chain in Hk.
  apply Rd_bind_Ok in Hk as (nb & Hnb & Hk).
  apply get_closest_chain_loop_elem in Hk as [Hk _]; [|done].
  by apply (get_chains_in_neighbourhood_Ok _ _ _ _ _ _ _ _ Hnb).
Qed.

(** X10: on a freshly initialised state the first call of [find_support_chain]
    returns no chain when the chain list is empty, and otherwise a chain of the
    list no smaller than any chain of the list, and records the length of the
    list. *)
Theorem first_support_chain_is_largest (l_ch l_nodes : list nat) (M : Matrix)
    (cy cx : float) (Nr : Z) (th_radial_tolerance : float) (th_distribution_size : Z)
    (th_regular_derivative : float) (neighbourhood_size : Z)
    (derivative_from_center : bool) (w w' : World) (state : SystemStatus.t) :
  SystemStatus_init l_ch l_nodes M cy cx Nr th_radial_tolerance th_distribution_size
    th_regular_derivative neighbourhood_size derivative_from_center w = Ok (state, w') →
  (l_ch = [] → find_support_chain state None None None w' = Ok (None, state))
  ∧ (l_ch ≠ [] →
     ∃ a ca state',
       find_support_chain state None None None w' = Ok (Some a, state')
       ∧ a ∈ l_ch ∧ chains w' !! a = Some ca
       ∧ (∀ x cx, x ∈ l_ch → chains w' !! x = Some cx →
                  ch.Chain.size cx ≤ ch.Chain.size ca)
       ∧ SystemStatus.l_ch_s state' = SystemStatus.l_ch_s state
       ∧ SystemStatus.size_l_chain_init state' = Some (Z.of_nat (length l_ch))).
Proof.
  intros Hi. apply SystemStatus_init_Ok in Hi as (Hs & Hp & Hst).
  destruct (sort_by_size_desc_Ok _ _ _ Hs) as [Hperm Hdesc].
  destruct (SystemStatus.l_ch_s state) as [|a l'] eqn:Hl.
  - split; [|intros Hne; by apply Permutation_nil_l in Hperm].
    intros _. unfold find_support_chain. by rewrite Hl.
  - split; [intros ->; by apply Permutation_nil_r in Hperm|]. intros _.
    assert (Hlen : length l_ch = S (length l')) by (by rewrite <- Hperm).
    assert (Hin : a ∈ l_ch) by (rewrite <- Hperm; by left).
    assert (∃ ca0, chains w !! a = Some ca0) as [ca0 Hca0].
    { unfold sort_by_size_desc in Hs.
      apply Rd_bind_Ok in Hs as (keyed & Hk & _).
      destruct (with_size_Ok _ _ _ Hk) as [Hl2 Hkeys].
      rewrite <- Hl2 in Hin. apply list_elem_of_fmap in Hin as (p & -> & Hp').
      destruct (Hkeys p Hp') as (c & ? & _). by exists c. }
    destruct (pointers_only_chain _ _ _ _ Hp Hca0) as (ca & Hca & Hcore).
    apply chain_core_eq in Hcore as (_ & _ & Hsz & _).
    subst state. eexists a, ca, _. split_and!.
    + unfold find_support_chain. cbn. reflexivity.
    + done.
    + done.
    + intros x cx0 Hx Hcx.
      destruct (sizes_frame _ _ _ _ Hp Hcx) as (cx1 & Hcx1 & <-). rewrite Hsz.
      rewrite <- Hperm in Hx. apply list_elem_of_lookup in Hx as [j Hj].
      eapply (Hdesc 0%nat j); [lia|done|done|done|done].
    + done.
    + cbn. by rewrite Hlen.
Qed.

(** X11: the constructor of [SystemStatus] keeps the chains of the list, in
    descending order of size, changes only neighbour references in the store,
    and starts with index 0, no iteration without change and no recorded length.
    *)
Theorem SystemStatus_init_sorts (l_ch l_nodes : list nat) (M : Matrix) (cy cx : float)
    (Nr : Z) (th_radial_tolerance : float) (th_distribution_size : Z)
    (th_regular_derivative : float) (neighbourhood_size : Z)
    (derivative_from_center : bool) (w w' : World) (state : SystemStatus.t) :
  SystemStatus_init l_ch l_nodes M cy cx Nr th_radial_tolerance th_distribution_size
    th_regular_derivative neighbourhood_size derivative_from_center w = Ok (state, w') →
  SystemStatus.l_ch_s state ≡ₚ l_ch
  ∧ (∀ i j a b ca cb,
       (i ≤ j)%nat →
       SystemStatus.l_ch_s state !! i = Some a → SystemStatus.l_ch_s state !! j = Some b →
       chains w' !! a = Some ca → chains w' !! b = Some cb →
       ch.Chain.size cb ≤ ch.Chain.size ca)
  ∧ pointers_only w w'
  ∧ SystemStatus.l_nodes_s state = l_nodes
  ∧ SystemStatus.M state = M
  ∧ SystemStatus.next_chain_index state = 0%nat
  ∧ SystemStatus.iterations_since_last_change state = 0
  ∧ SystemStatus.size_l_chain_init state = None.
Proof.
  intros Hi. apply SystemStatus_init_Ok in Hi as (Hs & Hp & Hst).
  destruct (sort_by_size_desc_Ok _ _ _ Hs) as [Hperm Hdesc].
  split_and!; try done; try (by rewrite Hst).
  intros i j a b ca cb Hij Ha Hb Hca Hcb.
  destruct (sizes_frame _ _ _ _ Hp Hca) as (ca0 & Hca0 & <-).
  destruct (sizes_frame _ _ _ _ Hp Hcb) as (cb0 & Hcb0 & <-).
  by eapply Hdesc.
Qed.

(** X12: [iterate_over_chains_list_and_complete_them_if_met_conditions] returns
    the chain list of the state unchanged: it removes and renumbers no chain,
    only appends nodes to the store and to chains, and keeps the matrix square,
    symmetric, with ones on the diagonal and of the same dimension. *)
Theorem closing_pass_keeps_chains (n : nat) (state : SystemStatus.t) (threshold : float)
    (w w' : World) (l_ch_c l_nodes_c : list nat) (M : Matrix) :
  iterate_over_chains_list_and_complete_them_if_met_conditions state threshold w
  = Ok ((l_ch_c, l_nodes_c, M), w') →
  l_ch_c = SystemStatus.l_ch_s state
  ∧ only_grows w w'
  ∧ (intersection_matrix n (SystemStatus.M state) → intersection_matrix n M).
Proof.
  intros Hi. unfold iterate_over_chains_list_and_complete_them_if_met_conditions in Hi.
  apply St_bind_Ok in Hi as (st & w1 & Hl & Hi). apply St_ret_Ok in Hi as [[= <- <- <-] <-].
  apply (closing_loop_frame n) in Hl as (? & ? & ?). by split_and!.
Qed.

(** X13: [update_intersection_matrix_in_radial_direction] marks the entries
    between [ch_j] and every chain it returns with 1, in both directions, and
    changes no other entry than entries of the row and column of [ch_j], which
    it sets to 1. *)
Theorem update_intersection_matrix_in_radial_direction_marks (n : nat)
    (state state' : SystemStatus.t) (ch_j new_node : nat) (w : World)
    (chains_over_radial_direction : list nat) :
  intersection_matrix n (SystemStatus.M state) →
  update_intersection_matrix_in_radial_direction state ch_j new_node w
  = Ok (chains_over_radial_direction, state') →
  ∃ cj rj,
    chains w !! ch_j = Some cj ∧ Py.np_index n (ch.Chain.id cj) = Ok rj
    ∧ (∀ x cx rx,
         x ∈ chains_over_radial_direction → chains w !! x = Some cx →
         Py.np_index n (ch.Chain.id cx) = Ok rx →
         mget (SystemStatus.M state') rj rx = Some 1
         ∧ mget (SystemStatus.M state') rx rj = Some 1)
    ∧ (∀ a b,
         mget (SystemStatus.M state') a b = mget (SystemStatus.M state) a b
         ∨ ((a = rj ∨ b = rj) ∧ mget (SystemStatus.M state') a b = Some 1)).
Proof.
  intros [Hr Hc Hsym Hdiag] Hu.
  unfold update_intersection_matrix_in_radial_direction in Hu.
  apply Rd_bind_Ok in Hu as (nn & Hnn & Hu).
  apply Rd_bind_Ok in Hu as ([ids over] & Hover & Hu).
  apply Rd_bind_Ok in Hu as (cj & Hcj & Hu). apply get_chain_Ok in Hcj.
  apply Rd_bind_Ok in Hu as (m1 & H1 & Hu). apply pure_Ok in H1.
  apply Rd_bind_Ok in Hu as (m2 & H2 & Hu). apply pure_Ok in H2.
  apply Rd_ret_Ok in Hu. injection Hu as <- <-.
  replace (SystemStatus.M (SystemStatus.set_M m2 state)) with m2 by (by destruct state).
  unfold chains_id_over_radial_direction in Hover.
  apply Rd_bind_Ok in Hover as (over' & Hw & Hover).
  apply Rd_bind_Ok in Hover as (cs & Hcs & Hover).
  apply Rd_ret_Ok in Hover. injection Hover as <- <-.
  unfold np.assign_row_1 in H1. unfold np.assign_col_1 in H2.
  apply Result_bind_Ok in H1 as (r & Hidx & H1).
  apply Result_bind_Ok in H1 as (cols & Hcols & H1). injection H1 as <-.
  apply Result_bind_Ok in H2 as (rows & Hrows & H2).
  apply Result_bind_Ok in H2 as (c & Hidx' & H2). injection H2 as <-.
  pose proof (np_index_Ok _ _ _ Hidx) as Hlt. unfold np.nrows in *.
  rewrite Hr in Hlt, Hidx. assert (Hn : (0 < n)%nat) by lia.
  destruct (shape_set_row_entries n cols (SystemStatus.M state) r Hr Hc) as [Hr1 Hc1].
  rewrite (ncols_square n (SystemStatus.M state)) in Hcols by done.
  rewrite (ncols_square n _ Hr1 Hc1 Hn) in Hidx'. rewrite Hr1 in Hrows.
  assert (rows = cols) by congruence. assert (c = r) by congruence. subst rows c.
  exists cj, r. split; [done|]. split; [done|].
  assert (Hget : ∀ a b,
    mget (np.set_col_entries (np.set_row_entries (SystemStatus.M state) r cols) cols r) a b
    = if decide ((a ∈ cols ∧ b = r) ∨ (a = r ∧ b ∈ cols))
      then mark (mget (SystemStatus.M state) a b) else mget (SystemStatus.M state) a b).
  { intros a b. rewrite mget_set_col_entries, mget_set_row_entries.
    repeat case_decide; rewrite ?mark_mark; try done; exfalso; tauto. }
  split.
  - intros x cx rx Hx Hcx Hrx.
    assert (Hin : rx ∈ cols).
    { apply (indices_elem _ _ _ _ Hcols). exists (ch.Chain.id cx). split; [|done].
      apply list_elem_of_fmap. exists cx. split; [done|].
      eapply rd_map_elem_2; [done|done|]. by apply get_chain_Ok. }
    pose proof (np_index_Ok _ _ _ Hrx) as Hrxn.
    rewrite !Hget. rewrite !decide_True by tauto.
    split; apply mark_Some; by eapply mget_lt_Some.
  - intros a b. rewrite Hget. case_decide as Hd; [|by left].
    destruct (mget (SystemStatus.M state) a b) as [v|] eqn:Hv; [|by left].
    right. split; [tauto|done].
Qed.

(** X14: for an id within the matrix [get_ids_chain_intersection] lists, each
    once, the other ids marked 1 in the row of that id; for a negative index of
    the matrix it raises [ValueError], and for an id outside the matrix
    [IndexError]. *)
Theorem get_ids_chain_intersection_spec (n : nat) (state : SystemStatus.t) (chain_id : Z) :
  intersection_matrix n (SystemStatus.M state) →
  (0 ≤ chain_id < Z.of_nat n →
   ∃ ids, get_ids_chain_intersection state chain_id = Ok ids
          ∧ NoDup ids
          ∧ ∀ j, j ∈ ids ↔
                 0 ≤ j ∧ j ≠ chain_id
                 ∧ mget (SystemStatus.M state) (Z.to_nat chain_id) (Z.to_nat j) = Some 1)
  ∧ (- Z.of_nat n ≤ chain_id < 0 →
     get_ids_chain_intersection state chain_id = Raise ValueError)
  ∧ (chain_id < - Z.of_nat n ∨ Z.of_nat n ≤ chain_id →
     get_ids_chain_intersection state chain_id = Raise IndexError).
Proof.
  intros [Hr Hc Hsym Hdiag]. unfold get_ids_chain_intersection, np.get_row, np.nrows.
  rewrite Hr. split_and!.
  - intros Hid. unfold Py.np_index. rewrite decide_True by done.
    cbn [mbind Result_bind].
    destruct (lookup_lt_is_Some_2 (SystemStatus.M state) (Z.to_nat chain_id)) as [row Hrow];
      [lia|].
    rewrite Hrow. cbn [from_option mbind Result_bind].
    assert (Hself : chain_id ∈ np.where_eq_1 row).
    { apply where_eq_1_elem. split; [lia|].
      specialize (Hdiag (Z.to_nat chain_id)). unfold mget in Hdiag.
      rewrite Hrow in Hdiag. simpl in Hdiag. apply Hdiag. lia. }
    pose proof (index_where_eqb chain_id (np.where_eq_1 row)) as Hidx.
    destruct (Py.index_where (Z.eqb chain_id) (np.where_eq_1 row)) as [i|]; [|done].
    cbn [from_option mbind Result_bind mret Result_ret].
    destruct (delete_NoDup _ _ _ (where_eq_1_NoDup row) Hidx) as [Hnd Hin].
    eexists. split; [done|]. split; [done|].
    intros j. rewrite Hin, where_eq_1_elem. unfold mget. rewrite Hrow. simpl. tauto.
  - intros Hid. unfold Py.np_index. rewrite decide_False by lia.
    rewrite decide_True by lia. cbn [mbind Result_bind].
    destruct (lookup_lt_is_Some_2 (SystemStatus.M state) (Z.to_nat (Z.of_nat n + chain_id)))
      as [row Hrow]; [lia|].
    rewrite Hrow. cbn [from_option mbind Result_bind].
    pose proof (index_where_eqb chain_id (np.where_eq_1 row)) as Hidx.
    destruct (Py.index_where (Z.eqb chain_id) (np.where_eq_1 row)) as [i|]; [|done].
    apply list_elem_of_lookup_2, where_eq_1_elem in Hidx. lia.
  - intros Hid. unfold Py.np_index. by rewrite !decide_False by lia.
Qed.

(** X15: when the chains of the state are listed once and have distinct ids, and
    the candidates are chains of the state, each listed once, the inner [while]
    loop of [merge_chains_main_logic] ends within [2 * len(candidates_chi) -
    j_pointer] turns: with at least that much fuel its result is the result of
    that many turns at most, the last of which raises or leaves [j_pointer] at
    the end of the candidates. *)
Theorem candidates_loop_terminates (state : SystemStatus.t)
    (candidates_chi : list nat) (j_pointer ch_i : nat) (location : ch.ChainLocation)
    (w : World) :
  NoDup (SystemStatus.l_ch_s state) → distinct_ids w (SystemStatus.l_ch_s state) →
  NoDup candidates_chi → (∀ x, x ∈ candidates_chi → x ∈ SystemStatus.l_ch_s state) →
  ∃ n, (n ≤ 2 * length candidates_chi - j_pointer)%nat
    ∧ ((∃ e, candidate_turns n state candidates_chi j_pointer ch_i location w = Raise e
             ∧ ∀ fuel, (2 * length candidates_chi - j_pointer ≤ fuel)%nat →
                 candidates_loop fuel state candidates_chi j_pointer ch_i location w
                 = Raise e)
       ∨ (∃ state' candidates_chi' j_pointer' w',
            candidate_turns n state candidates_chi j_pointer ch_i location w
            = Ok ((state', candidates_chi', j_pointer'), w')
            ∧ (length candidates_chi' ≤ j_pointer')%nat
            ∧ ∀ fuel, (2 * length candidates_chi - j_pointer ≤ fuel)%nat →
                candidates_loop fuel state candidates_chi j_pointer ch_i location w
                = Ok ((state', candidates_chi'), w'))).
Proof.
  intros Hnd Hids Hndc Hsub.
  exact (candidates_loop_turns _ state candidates_chi j_pointer ch_i location w
           Hnd Hids Hndc Hsub (le_n _)).
Qed.

(** X16: under the same conditions on the chains of the state, and with the
    bookkeeping of [find_support_chain] as it is at the head of the loop, the
    outer [while ch_i:] loop of [merge_chains_main_logic] ends, and ends within
    [len * len + len + 1] turns, [len] the number of chains: the loop run
    without any bound on the turns of the inner loops and of the outer loop
    leaves with a result after that many turns at most, and with fuel for [len
    * len + 3 * len + 1] turns or more [support_loop] returns that result. *)
Theorem support_loop_terminates (state : SystemStatus.t) (ch_i : option nat) (w : World) :
  NoDup (SystemStatus.l_ch_s state) → distinct_ids w (SystemStatus.l_ch_s state) →
  SystemStatus.size_l_chain_init state
  = Some (Z.of_nat (length (SystemStatus.l_ch_s state))) →
  0 ≤ SystemStatus.iterations_since_last_change state
    ≤ Z.of_nat (length (SystemStatus.l_ch_s state)) →
  ∃ n r,
    (n ≤ length (SystemStatus.l_ch_s state) * length (SystemStatus.l_ch_s state)
         + length (SystemStatus.l_ch_s state) + 1)%nat
    ∧ support_run n state ch_i w r
    ∧ ∀ fuel,
        (length (SystemStatus.l_ch_s state) * length (SystemStatus.l_ch_s state)
         + 3 * length (SystemStatus.l_ch_s state) + 1 ≤ fuel)%nat →
        support_loop fuel state ch_i w = r.
Proof.
  intros Hnd Hids Hsize Hit.
  set (len := length (SystemStatus.l_ch_s state)) in *.
  destruct (support_run_loop (len * len + len + 1) state ch_i w Hnd Hids Hsize Hit)
    as (n & r & Hn & Hrun & Hl); [fold len; lia|].
  exists n, r. split; [done|]. split; [done|].
  intros fuel Hf. apply Hl. fold len. lia.
Qed.

(** X17: the chain list that [merge_chains_main_logic] returns holds every chain
    at most as often as the list it was given: the main logic adds no chain,
    returns at most as many as it received, and repeats none when the input
    repeats none. *)
Theorem merge_chains_main_logic_keeps_chains (fuel : nat) (M : Matrix) (cy cx : float)
    (nr : Z) (l_ch_s l_nodes_s : list nat) (th_radial_tolerance : float)
    (th_distribution_size : Z) (th_regular_derivative : float) (neighbourhood_size : Z)
    (derivative_from_center : bool) (w w' : World) (l_ch_c l_nodes_c : list nat)
    (M' : Matrix) :
  merge_chains_main_logic fuel M cy cx nr l_ch_s l_nodes_s th_radial_tolerance
    th_distribution_size th_regular_derivative neighbourhood_size derivative_from_center w
  = Ok ((l_ch_c, l_nodes_c, M'), w') →
  l_ch_c ⊆+ l_ch_s
  ∧ (∀ x, x ∈ l_ch_c → x ∈ l_ch_s)
  ∧ (length l_ch_c ≤ length l_ch_s)%nat
  ∧ (NoDup l_ch_s → NoDup l_ch_c).
Proof.
  intros Hsub%merge_chains_main_logic_sub. split_and!.
  - done.
  - intros x Hx. by eapply elem_of_submseteq.
  - by apply submseteq_length.
  - by apply submseteq_NoDup.
Qed.

(** X18: the chains that [merge_chains] returns are among the copies made at
    entry, new objects and never the chains it was given, each at most once and
    at most as many as the chains it was given. *)
Theorem merge_chains_returns_copies (fuel : nat) (l_ch_s : list nat) (cy cx : float)
    (nr : Z) (w w' : World) (l_ch_c : list nat) :
  merge_chains fuel l_ch_s cy cx nr w = Ok (l_ch_c, w') →
  NoDup l_ch_c
  ∧ (∀ x, x ∈ l_ch_c →
       (length (chains w) ≤ x < length (chains w) + length l_ch_s)%nat)
  ∧ (length l_ch_c ≤ length l_ch_s)%nat.
Proof.
  intros Hm. unfold merge_chains in Hm.
  apply St_bind_Ok in Hm as ([copies nodes_s] & w1 & Hcopy & Hm).
  unfold copy_chains_and_nodes in Hcopy.
  apply St_bind_Ok in Hcopy as (refs & w0 & Hrefs & Hcopy).
  apply st_map_copy_chain_refs in Hrefs as [-> _].
  apply St_bind_Ok in Hcopy as (cs & w0' & _ & Hcopy).
  apply St_ret_Ok in Hcopy as [[= <- _] _].
  apply St_bind_Ok in Hm as (p & w2 & Hinit & Hm). apply read_Ok in Hinit as [Hinit ->].
  unfold ConnectParameters_init in Hinit.
  apply Rd_bind_Ok in Hinit as ([[b without] nodes'] & Hex & Hinit).
  apply Rd_ret_Ok in Hinit as <-.
  unfold extract_border_chain_from_list in Hex.
  apply Rd_bind_Ok in Hex as (without' & Hfilter & Hex).
  apply Rd_bind_Ok in Hex as (b' & Hb & Hex).
  apply Rd_bind_Ok in Hex as (cb & Hcb & Hex). apply get_chain_Ok in Hcb.
  apply Rd_bind_Ok in Hex as (nodes'' & _ & Hex).
  apply Rd_ret_Ok in Hex as [= <- <- <-].
  apply St_bind_Ok in Hm as (M & w3 & _ & Hm).
  apply St_bind_Ok in Hm as ([[l p'] M'] & w4 & Hs & Hm).
  apply St_ret_Ok in Hm as [<- _].
  set (copies := seq (length (chains w)) (length l_ch_s)) in *.
  (* the chain lists of the passes hold copies only, each once *)
  assert (NoDup (without' ++ [b']) ∧ ∀ x, x ∈ without' ++ [b'] → x ∈ copies)
    as [Hnd Hin].
  { pose proof (rd_filter_sublist _ _ _ _ Hfilter) as Hsub.
    pose proof (rd_filter_Ok _ _ _ _ Hfilter) as Hwithout.
    destruct (first_border_Ok _ _ _ Hb) as (before & after & cb' & Hcopies & Hcb' & Hty & _).
    assert (Hbin : b' ∈ copies)
      by (rewrite Hcopies; apply elem_of_app; right; by left).
    split.
    - apply NoDup_app. split; [apply (sublist_NoDup _ copies); [apply NoDup_seq|exact Hsub]|].
      split; [|apply NoDup_singleton].
      intros x Hx ->%list_elem_of_singleton. apply Hwithout in Hx as [_ Hx].
      apply Rd_bind_Ok in Hx as (c & Hc & Hx). apply get_chain_Ok in Hc.
      apply Rd_ret_Ok in Hx. simplify_eq. by rewrite bool_decide_eq_true_2 in Hx.
    - intros x [Hx| ->%list_elem_of_singleton]%elem_of_app; [|done].
      by apply Hwithout in Hx as [? _]. }
  change (seq 0 ConnectParameters.iterations)
    with (seq 0 (ConnectParameters.iterations - 1) ++ [(ConnectParameters.iterations - 1)%nat])
    in Hs.
  rewrite schedule_app in Hs.
  apply St_bind_Ok in Hs as ([[l8 p8] M8] & w8 & Hs8 & Hs).
  apply schedule_sub in Hs8 as [Hb8 Hsub8]; [|by intros i ?%elem_of_seq; lia].
  simpl in Hs. apply St_bind_Ok in Hs as ([[l9 p9] M9] & w9 & Hs9 & Hs).
  apply St_ret_Ok in Hs as [[= <- _ _] _].
  apply schedule_pass_sub in Hs9 as (_ & _ & Hsub9).
  rewrite bool_decide_eq_false_2 in Hsub9 by (unfold ConnectParameters.iterations; lia). rewrite Hb8 in Hsub9. simpl in *.
  assert (Hsub : l9 ⊆+ without' ++ [b']).
  { etrans; [done|]. by apply submseteq_skips_r. }
  assert (Hl9 : ∀ x, x ∈ l9 → x ∈ copies).
  { intros x Hx. apply Hin. by eapply elem_of_submseteq. }
  pose proof (submseteq_NoDup _ _ Hsub Hnd) as Hnd9.
  split; [done|]. split.
  - intros x Hx%Hl9. apply elem_of_seq in Hx. lia.
  - pose proof (submseteq_length _ _ (NoDup_submseteq _ _ Hnd9 Hl9)) as Hlen.
    unfold copies in Hlen. by rewrite length_seq in Hlen.
Qed.

(** X19: [get_intersection_chains] and [find_non_intersection] split the
    candidates in two: when the first returns, so does the second, both results
    keep the order of the candidates, every candidate is in one of them and none
    in both. *)
Theorem intersection_chains_partition (M : Matrix) (l_candidates_chi : list nat)
    (ch_j : nat) (w : World) (intersecting : list nat) :
  get_intersection_chains M l_candidates_chi ch_j w = Ok intersecting →
  ∃ non_intersecting,
    find_non_intersection M l_candidates_chi ch_j w = Ok non_intersecting
    ∧ sublist intersecting l_candidates_chi
    ∧ sublist non_intersecting l_candidates_chi
    ∧ (length intersecting + length non_intersecting = length l_candidates_chi)%nat
    ∧ (∀ x, x ∈ l_candidates_chi ↔ x ∈ intersecting ∨ x ∈ non_intersecting)
    ∧ (∀ x, x ∈ intersecting → x ∉ non_intersecting).
Proof.
  intros Hi. unfold get_intersection_chains in Hi.
  apply Rd_bind_Ok in Hi as (ids & Hids & Hi).
  destruct (rd_filter_split _ _ _ _ Hi) as (no & Hno & Hlen & Hsplit & Hyes & Hnot).
  exists no. split_and!; try done.
  - unfold find_non_intersection, mbind, Rd_bind in *. by rewrite Hids.
  - by eapply rd_filter_sublist.
  - by eapply rd_filter_sublist.
  - intros x Hx%Hyes Hx'%Hnot. congruence.
Qed.

(** X20: [add_interpolated_nodes_to_system] appends the new nodes to the node
    list of the state, in their order, keeps the chain list and changes only
    neighbour references in the store; it returns only when the new nodes are
    distinct and none was registered before, and raises [AssertionError] when
    the first of them is registered already. *)
Theorem add_interpolated_nodes_to_system_registers (state : SystemStatus.t) (ch_j : nat)
    (interpolated : list nat) (w : World) :
  (∀ state' w',
     add_interpolated_nodes_to_system state ch_j interpolated w = Ok (state', w') →
     SystemStatus.l_nodes_s state' = SystemStatus.l_nodes_s state ++ interpolated
     ∧ SystemStatus.l_ch_s state' = SystemStatus.l_ch_s state
     ∧ NoDup interpolated
     ∧ (∀ n, n ∈ interpolated → n ∉ SystemStatus.l_nodes_s state)
     ∧ pointers_only w w')
  ∧ (∀ new_node rest,
       interpolated = new_node :: rest → new_node ∈ SystemStatus.l_nodes_s state →
       add_interpolated_nodes_to_system state ch_j interpolated w = Raise AssertionError).
Proof.
  split.
  - intros state' w' Ha.
    destruct (add_interpolated_nodes_to_system_frame 0 _ _ _ _ _ _ Ha) as (Hp & Hl & _).
    unfold add_interpolated_nodes_to_system in Ha.
    apply St_bind_Ok in Ha as (st & w1 & Hloop & Ha).
    apply St_bind_Ok in Ha as ([] & w2 & _ & Ha). apply St_ret_Ok in Ha as [<- _].
    apply add_interpolated_nodes_loop_nodes in Hloop as (Hn & Hnd & Hfresh).
    by split_and!.
  - intros n rest -> Hin%mem_node_eq.
    unfold add_interpolated_nodes_to_system, mbind, St_bind. simpl. by rewrite Hin.
Qed.

(** X21: the two guards on the size of a chain.
    [connectivity_goodness_condition] returns [(False, -1)] whenever
    [ch_j.size + candidate.size > ch_j.Nr]; hence a chain the driver selects
    for a merge with [ch_j] satisfies [ch_j.size + ch_k.size <= ch_j.Nr]; and
    the closing pass skips every chain whose size is not strictly below [Nr]: a
    chain it attempts to close has [size < Nr]. *)
Theorem size_guards (state : SystemStatus.t) (w : World) :
  (∀ ch_j candidate_chain ch_i endpoint cj cc,
     chains w !! ch_j = Some cj → chains w !! candidate_chain = Some cc →
     ch.Chain.size cj + ch.Chain.size cc > ch.Chain.Nr cj →
     connectivity_goodness_condition state ch_j candidate_chain ch_i endpoint w
     = Ok (false, PyFloat.minus_one))
  ∧ (∀ l_candidates_chi ch_j ch_i location ch_k endpoint cj ck,
       find_merge_target state l_candidates_chi ch_j ch_i location w
       = Ok (Some ch_k, endpoint) →
       chains w !! ch_j = Some cj → chains w !! ch_k = Some ck →
       ch.Chain.size cj + ch.Chain.size ck ≤ ch.Chain.Nr cj)
  ∧ (∀ threshold chain rest c,
       chains w !! chain = Some c →
       ch.Chain.size c >= ch.Chain.Nr c →
       closing_loop state threshold (chain :: rest) w
       = closing_loop state threshold rest w)
  ∧ (∀ threshold chain rest c,
       chains w !! chain = Some c →
       closing_loop state threshold (chain :: rest) w
       ≠ closing_loop state threshold rest w →
       ch.Chain.size c < ch.Chain.Nr c).
Proof.
  split_and!.
  - intros ch_j cand ch_i e cj cc Hj Hc Hgt.
    unfold connectivity_goodness_condition, mbind, Rd_bind, get_chain.
    rewrite Hj, Hc. simpl. by rewrite decide_True.
  - intros cands ch_j ch_i loc k e cj ck Ht Hcj Hck.
    apply find_merge_target_elem in Ht
      as (cj' & ck' & _ & _ & ? & ? & _ & _ & _ & _ & Hle).
    by simplify_eq.
  - intros th chain rest c Hc Hge. simpl.
    unfold mbind at 1. unfold St_bind, read, get_chain. rewrite Hc. simpl.
    unfold skip_closing. by rewrite bool_decide_eq_true_2.
  - intros th chain rest c Hc Hne.
    destruct (skip_closing th c) eqn:Hs; [|by eapply skip_closing_false].
    exfalso. apply Hne. simpl.
    unfold mbind at 1. unfold St_bind, read, get_chain. rewrite Hc. simpl.
    by rewrite Hs.
Qed.

End properties.

(** * The program on concrete chains *)

Import RayGeometry.

(** Case analysis on the membership in a list that is given by its
    elements. *)
Ltac elem_cases :=
  repeat match goal with
         | H : _ ∈ [] |- _ => by apply elem_of_nil in H
         | H : _ ∈ _ :: _ |- _ => apply elem_of_cons in H as [?|?]
         end.

(** The chain stored at a given address. *)
Ltac stored_chains :=
  repeat match goal with
         | H : chains _ !! _ = Some ?c |- _ =>
             is_var c; vm_compute in H; injection H as <-
         end.

Example first_pass_two_arcs : start1 empty_world = Ok ((Some 4%nat, state1), world1).
Proof. vm_compute. reflexivity. Qed.

Example visible_from_support_chain :
  find_visible_chains (SystemStatus.l_ch_s state1) 4 world1 = Ok ([5; 6]%nat, []).
Proof. vm_compute. reflexivity. Qed.

Example merge_of_two_arcs :
  merge1 world1 = Ok ((state2, [5]%nat), world2)
  ∧ candidate_step state1 [5; 6]%nat 0 4 ch.outwards world1
    = Ok ((state2, [5]%nat, 0%nat), world2).
Proof. split; vm_compute; reflexivity. Qed.

Example merge_chains_two_arcs :
  result_of [] (l ← two_arcs 20; merge_chains 50 l PyFloat.zero PyFloat.zero 72)
  = [4; 5; 7]%nat.
Proof. vm_compute. reflexivity. Qed.

Lemma live_chains_state1 : live_chains world1 (SystemStatus.l_ch_s state1).
Proof.
  split.
  - apply (bool_decide_unpack _). vm_compute. exact I.
  - intros r1 r2 c1 c2 H1 H2 Hc1 Hc2 Hid.
    change (SystemStatus.l_ch_s state1) with [4; 5; 6]%nat in H1, H2.
    elem_cases; subst; try done; stored_chains; vm_compute in Hid; discriminate.
  - intros r1 r2 c1 c2 n H1 H2 Hc1 Hc2 Hn1 Hn2.
    change (SystemStatus.l_ch_s state1) with [4; 5; 6]%nat in H1, H2.
    elem_cases; subst; try done; stored_chains; simpl in Hn1, Hn2;
      elem_cases; subst; discriminate.
Defined.

Lemma intersection_matrix_state1 : intersection_matrix 4 (SystemStatus.M state1).
Proof.
  split.
  - reflexivity.
  - intros a row Ha.
    do 4 (destruct a as [|a]; [vm_compute in Ha; by injection Ha as <-|]).
    vm_compute in Ha. discriminate.
  - intros a b. destruct a as [|[|[|[|a]]]], b as [|[|[|[|b]]]]; reflexivity.
  - intros a Ha. destruct a as [|[|[|[|a]]]]; try reflexivity. lia.
Defined.

(** ** C1 and C2: the merge of [K] into [J] *)


Lemma merge_keeps_matrix_witness :
  intersection_matrix 4 (SystemStatus.M state1)
  ∧ merge_and_update state1 5 6 ch.B 4 [5; 6]%nat world1 = Ok ((state2, [5]%nat), world2)
  ∧ intersection_matrix 3 (SystemStatus.M state2)
  ∧ S (length (SystemStatus.l_ch_s state2)) = length (SystemStatus.l_ch_s state1).
Proof.
  assert (Hrun : merge_and_update state1 5 6 ch.B 4 [5; 6]%nat world1
                 = Ok ((state2, [5]%nat), world2)) by (vm_compute; reflexivity).
  assert (Hne : 5%nat ≠ 6%nat) by discriminate.
  destruct (merge_keeps_matrix 4 state1 state2 5 6 ch.B 4 [5; 6]%nat [5]%nat
              world1 world2 _ _ intersection_matrix_state1 Hne eq_refl eq_refl Hrun)
    as (Hgood & _ & Hlen).
  by split_and!; [exact intersection_matrix_state1|..].
Defined.

(** After the first merge of the first pass the matrix has three rows and
    columns, for two live chains: it still counts the border chain. *)
Lemma matrix_dimension_exceeds_live_chains :
  start1 empty_world = Ok ((Some 4%nat, state1), world1)
  ∧ candidate_step state1 [5; 6]%nat 0 4 ch.outwards world1
    = Ok ((state2, [5]%nat, 0%nat), world2)
  ∧ SystemStatus.l_ch_s state2 = [4; 5]%nat
  ∧ SystemStatus.M state2 = [[1; 1; 1]; [1; 1; 1]; [1; 1; 1]]
  ∧ length (SystemStatus.M state2) ≠ length (SystemStatus.l_ch_s state2).
Proof. split_and!; try (vm_compute; reflexivity). vm_compute. discriminate. Qed.

(** ** C4 and C5: the candidate of [J] *)

Lemma get_closest_chain_logic_symmetric_witness :
  get_closest_chain_logic state1 5 [5; 6]%nat [6]%nat 4 ch.outwards ch.B true world1
  = Ok (Some 6%nat)
  ∧ ∃ s cs cj,
      get_closest_chain state1 6 [5]%nat 4 ch.outwards ch.A (SystemStatus.M state1) world1
      = Ok (Some s)
      ∧ chains world1 !! s = Some cs ∧ chains world1 !! 5%nat = Some cj
      ∧ ch.Chain.id cs = ch.Chain.id cj.
Proof.
  assert (Hrun : get_closest_chain_logic state1 5 [5; 6]%nat [6]%nat 4 ch.outwards
                   ch.B true world1 = Ok (Some 6%nat)) by (vm_compute; reflexivity).
  split; [exact Hrun|].
  destruct (get_closest_chain_logic_symmetric state1 5 [5; 6]%nat [6]%nat 4 ch.outwards ch.B world1
              (Some 6%nat) Hrun) as (found & Hfound & _ & Hsome).
  assert (Hf : found = Some 6%nat).
  { vm_compute in Hfound. injection Hfound as <-. reflexivity. }
  destruct (Hsome 6%nat Hf)
    as (l_k & symmetric_chain & ck & cj & Hl & Hsym & _ & Hcj & _ & Hiff).
  assert (Hlk : l_k = [5]%nat).
  { vm_compute in Hl. injection Hl as <-. reflexivity. }
  rewrite Hlk in Hsym.
  destruct (proj1 Hiff eq_refl) as [(s & cs & Hs & Hcs & Hid) _].
  rewrite Hs in Hsym.
  exists s, cs, cj. split; [exact Hsym|]. split; [exact Hcs|]. split; [exact Hcj|exact Hid].
Defined.


(** ** C6: a lap without a merge *)

Lemma support_chain_driver_terminal_witness :
  (∀ previous l_s_outward l_s_inward r state',
     find_support_chain state1 previous l_s_outward l_s_inward world1 = Ok (r, state') →
     SystemStatus.iterations_since_last_change state'
     >= Z.of_nat (length (SystemStatus.l_ch_s state')) →
     r = None)
  ∧ ∃ state', idle_calls 3 state1 4 None None world1 = Ok (None, state').
Proof.
  apply (support_chain_driver_terminal state1 4 None None world1 3).
  - reflexivity.
  - lia.
  - reflexivity.
  - vm_compute. discriminate.
  - apply (bool_decide_unpack _). vm_compute. exact I.
  - intros x Hx. change (SystemStatus.l_ch_s state1) with [4; 5; 6]%nat in Hx.
    elem_cases; subst; by eexists.
Defined.

(** ** C7: the passes *)

Lemma passes_share_chain_objects_witness :
  (∃ l_ch_c w' copies l_nodes_s w1,
     merge_chains 50 [0; 1; 2; 3]%nat PyFloat.zero PyFloat.zero 72 world1 = Ok (l_ch_c, w')
     ∧ copy_chains_and_nodes [0; 1; 2; 3]%nat world1 = Ok ((copies, l_nodes_s), w1)
     ∧ Forall2 (deep_copy world1 w1) [0; 1; 2; 3]%nat copies)
  ∧ ∃ l_nodes_c p l_nodes_c2,
      schedule_pass 50 PyFloat.zero PyFloat.zero 72 0 start23.1.2 start23.2 world_start23
      = Ok (pass0, world_pass0)
      ∧ pass0.1.2 = update_list_for_next_iteration start23.1.2 pass0.1.1 l_nodes_c
      ∧ get_iteration_parameters pass0.1.2 1 world_pass0 = Ok (p, world_pass0)
      ∧ IterationParams.l_ch_s p = pass0.1.1
      ∧ IterationParams.l_nodes_s p = l_nodes_c
      ∧ merge_chains_main_logic 50 pass0.2 PyFloat.zero PyFloat.zero 72
          (IterationParams.l_ch_s p) (IterationParams.l_nodes_s p)
          (IterationParams.th_radial_tolerance p)
          (IterationParams.th_distribution_size p)
          (IterationParams.th_regular_derivative p)
          (IterationParams.neighbourhood_size p)
          (IterationParams.derivative_from_center p) world_pass0
        = Ok ((pass1.1.1, l_nodes_c2, pass1.2), world_pass1).
Proof.
  destruct (passes_share_chain_objects 50 PyFloat.zero PyFloat.zero 72) as [Hentry Hshare].
  split.
  - assert (∃ l w', merge_chains 50 [0; 1; 2; 3]%nat PyFloat.zero PyFloat.zero 72 world1
                    = Ok (l, w')) as (l & w' & Hrun)
      by (eexists _, _; vm_compute; reflexivity).
    destruct (Hentry _ _ _ _ Hrun)
      as (copies & ns & w1 & p & M & p' & M' & Hcopy & _ & Hdeep & _).
    exists l, w', copies, ns, w1. split; [exact Hrun|]. split; [exact Hcopy|exact Hdeep].
  - assert (H0 : schedule_pass 50 PyFloat.zero PyFloat.zero 72 0 start23.1.2 start23.2
                   world_start23 = Ok (pass0, world_pass0)) by (vm_compute; reflexivity).
    assert (H1 : schedule_pass 50 PyFloat.zero PyFloat.zero 72 1 pass0.1.2 pass0.2
                   world_pass0 = Ok (pass1, world_pass1)) by (vm_compute; reflexivity).
    assert (Hlt1 : (1 < ConnectParameters.iterations - 1)%nat) by (vm_compute; lia).
    destruct (Hshare 0%nat 1%nat start23.1.2 start23.2 world_start23
                pass0.1.1 pass0.1.2 pass0.2 world_pass0
                pass1.1.1 pass1.1.2 pass1.2 world_pass1 H0 H1)
      as (p_i & w_i & ln & p_j & w_j & ln2 & _ & _ & _ & Hp & Hgj & Hmj & Hlt & _ & _).
    destruct (Hlt Hlt1) as (Hl & Hn & ->).
    exists ln, p_j, ln2.
    split; [exact H0|]. split; [exact Hp|].
    split; [exact Hgj|]. split; [exact Hl|]. split; [exact Hn|exact Hmj].
Defined.

(** The chain [J] as pass 0 returned it has two nodes.  Pass 1 receives
    the very objects pass 0 returned, creates no chain, and leaves [J]
    with five nodes. *)
Lemma pass_mutates_previous_output :
  passes23 1 empty_world = Ok (pass0, world_pass0)
  ∧ pass0.1.1 = [4; 5; 6]%nat
  ∧ schedule_pass 50 PyFloat.zero PyFloat.zero 72 1 pass0.1.2 pass0.2 world_pass0
    = Ok (pass1, world_pass1)
  ∧ pass1.1.1 = [4; 5]%nat
  ∧ ch.Chain.l_nodes <$> chains world_pass0 !! 5%nat = Some [19; 20]%nat
  ∧ ch.Chain.l_nodes <$> chains world_pass1 !! 5%nat = Some [19; 20; 28; 21; 22]%nat
  ∧ length (chains world_pass1) = length (chains world_pass0).
Proof. split_and!; vm_compute; reflexivity. Qed.

(** ** C8: no chains *)

Lemma merge_chains_empty_raises :
  merge_chains 50 [] PyFloat.zero PyFloat.zero 72 empty_world = Raise StopIteration
  ∧ ¬ ∃ l_ch_c w, merge_chains 50 [] PyFloat.zero PyFloat.zero 72 empty_world
                  = Ok (l_ch_c, w).
Proof. split; [reflexivity|]. by intros (l & w & [=]). Qed.

(** ** C9 and C10: the tie-break *)

Lemma find_closest_larger_distance_witness :
  get_closest_chain_logic state3 7 [6; 7; 8]%nat [6; 8]%nat 5 ch.outwards ch.A true world3
  = Ok (Some 6%nat)
  ∧ get_closest_chain_logic state3 7 [6; 7; 8]%nat [6; 8]%nat 5 ch.outwards ch.B true world3
    = Ok (Some 8%nat)
  ∧ distance_between_border 7 6 ch.A world3 = Ok (PyFloat.of_Z 10)
  ∧ distance_between_border 7 8 ch.B world3 = Ok (PyFloat.of_Z 5)
  ∧ find_closest state3 7 [6; 7; 8]%nat [6; 8]%nat 5 ch.outwards true world3
    = Ok (Some 6%nat, Some ch.A).
Proof.
  assert (HA : get_closest_chain_logic state3 7 [6; 7; 8]%nat [6; 8]%nat 5 ch.outwards
                 ch.A true world3 = Ok (Some 6%nat)) by (vm_compute; reflexivity).
  assert (HB : get_closest_chain_logic state3 7 [6; 7; 8]%nat [6; 8]%nat 5 ch.outwards
                 ch.B true world3 = Ok (Some 8%nat)) by (vm_compute; reflexivity).
  assert (Ha : distance_between_border 7 6 ch.A world3 = Ok (PyFloat.of_Z 10))
    by (vm_compute; reflexivity).
  assert (Hb : distance_between_border 7 8 ch.B world3 = Ok (PyFloat.of_Z 5))
    by (vm_compute; reflexivity).
  split; [exact HA|]. split; [exact HB|]. split; [exact Ha|]. split; [exact Hb|].
  exact (proj2 (find_closest_larger_distance state3 7 [6; 7; 8]%nat [6; 8]%nat 5
                  ch.outwards world3 6 8 _ _ HA HB Ha Hb eq_refl eq_refl)).
Defined.

Lemma distance_between_border_spec_witness :
  distance_between_border 7 8 ch.B world3 = distance_between_border 6 8 ch.B world3
  ∧ ∃ c2 nA nB vA vB,
      chains world3 !! 8%nat = Some c2
      ∧ ch.Chain.extA c2 = Some nA ∧ ch.Chain.extB c2 = Some nB
      ∧ nodes world3 !! nA = Some vA ∧ nodes world3 !! nB = Some vB
      ∧ ∀ chain_1, distance_between_border chain_1 8 ch.B world3
                   = Ok (euclidean_distance_between_nodes vB vA).
Proof.
  destruct (distance_between_border_spec world3 8) as (Hsame & HB & _).
  split; [apply Hsame|].
  do 5 eexists. split_and!; [reflexivity..|].
  intros chain_1. eapply HB; reflexivity.
Defined.

Example tie_break_distances :
  distance_between_border 7 8 ch.B world3 = Ok (PyFloat.of_Z 5)
  ∧ distance_between_border 6 8 ch.B world3 = Ok (PyFloat.of_Z 5)
  ∧ distance_between_border 7 6 ch.A world3 = Ok (PyFloat.of_Z 10).
Proof. split_and!; vm_compute; reflexivity. Qed.

(** ** The further properties on the concrete chains *)

Lemma intersection_matrix_state2 : intersection_matrix 3 (SystemStatus.M state2).
Proof.
  split.
  - reflexivity.
  - intros a row Ha.
    do 3 (destruct a as [|a]; [vm_compute in Ha; by injection Ha as <-|]).
    vm_compute in Ha. discriminate.
  - intros a b. destruct a as [|[|[|a]]], b as [|[|[|b]]]; reflexivity.
  - intros a Ha. destruct a as [|[|[|a]]]; try reflexivity. lia.
Defined.

Lemma extract_border_chain_from_list_spec_witness :
  extract_border_chain_from_list [4; 5; 6; 7]%nat [14; 23; 27]%nat world1
  = Ok (7%nat, [4; 5; 6]%nat, [14]%nat)
  ∧ ∃ before after cb,
      [4; 5; 6; 7]%nat = before ++ 7%nat :: after
      ∧ chains world1 !! 7%nat = Some cb ∧ ch.Chain.type cb = ch.border.
Proof.
  split; [vm_compute; reflexivity|].
  destruct (proj1 (extract_border_chain_from_list_spec
                     [4; 5; 6; 7]%nat [14; 23; 27]%nat world1)
              7%nat [4; 5; 6]%nat [14]%nat)
    as (before & after & cb & H1 & H2 & H3 & _); [vm_compute; reflexivity|].
  exists before, after, cb. split; [exact H1|]. split; [exact H2|exact H3].
Defined.

Lemma get_iteration_parameters_bounds_witness :
  ∃ iteration_params w',
    get_iteration_parameters (ConnectParameters.mk 7 [4; 5; 6]%nat [14]%nat) 8 world1
    = Ok (iteration_params, w')
    ∧ IterationParams.l_ch_s iteration_params = [4; 5; 6; 7]%nat
    ∧ get_iteration_parameters (ConnectParameters.mk 7 [4; 5; 6]%nat [14]%nat) 9 world1
      = Raise IndexError.
Proof.
  eexists _, _. split; [vm_compute; reflexivity|].
  destruct (get_iteration_parameters_bounds
              (ConnectParameters.mk 7 [4; 5; 6]%nat [14]%nat) world1) as [Hout Hlast].
  split.
  - edestruct Hlast as (cb & _ & Hl & _); [vm_compute; reflexivity|]. exact Hl.
  - apply Hout. vm_compute. lia.
Defined.

Lemma compute_intersection_matrix_spec_witness :
  ∃ M n,
    compute_intersection_matrix [0; 1; 2; 3; 4; 5; 6]%nat 3 world_three_rays = Ok M
    ∧ intersection_matrix n M.
Proof.
  eexists _. 
  destruct (proj2 (compute_intersection_matrix_spec
                     [0; 1; 2; 3; 4; 5; 6]%nat 3 world_three_rays)
              [[1; 1; 1]; [1; 1; 1]; [1; 1; 1]])
    as (vals & rays & mx & _ & _ & _ & _ & HM & _); [vm_compute; reflexivity|].
  exists (Z.to_nat (mx + 1)). split; [vm_compute; reflexivity|exact HM].
Defined.

Lemma update_intersection_matrix_entries_witness :
  ∃ state',
    update_intersection_matrix state1 5 6 world1 = Ok state'
    ∧ mget (SystemStatus.M state') 2 1
      = entry_or (mget (SystemStatus.M state1) 1 3) (mget (SystemStatus.M state1) 2 3).
Proof.
  eexists. split; [vm_compute; reflexivity|].
  refine (update_intersection_matrix_entries 4 state1 _ 5 6 world1 _ _ 1 2
            intersection_matrix_state1 eq_refl eq_refl eq_refl eq_refl _ 2%nat 1%nat _ _);
    [vm_compute; reflexivity|lia|lia].
Defined.

Lemma update_intersection_matrix_out_of_range_witness :
  update_intersection_matrix (SystemStatus.set_M [[1]] state1) 5 6 world1
  = Raise IndexError.
Proof.
  refine (update_intersection_matrix_out_of_range (SystemStatus.set_M [[1]] state1)
            5 6 world1 _ _ eq_refl eq_refl _).
  right. left. vm_compute. discriminate.
Defined.

Lemma update_chain_after_connect_retargets_witness :
  ∃ w',
    update_chain_after_connect state1 5 6 world1 = Ok (tt, w')
    ∧ nodes w' = nodes world1.
Proof.
  eexists. split; [vm_compute; reflexivity|].
  refine (proj1 (update_chain_after_connect_retargets state1 5 6 world1 _ _ eq_refl _)).
  vm_compute. reflexivity.
Defined.

Lemma find_visible_chains_spec_witness :
  distinct_ids world1 [4; 5; 6]%nat
  ∧ find_visible_chains [4; 5; 6]%nat 4 world1 = Ok ([5; 6]%nat, [])
  ∧ NoDup [5; 6]%nat
  ∧ ∀ x, x ∈ [5; 6]%nat ↔
         x ∈ [4; 5; 6]%nat ∧ ¬ same_id world1 x 4 ∧ points_inward world1 4 x
         ∧ ¬ points_outward world1 4 x.
Proof.
  split; [exact (live_ids _ _ live_chains_state1)|].
  split; [vm_compute; reflexivity|].
  destruct (find_visible_chains_spec [4; 5; 6]%nat 4 world1 [5; 6]%nat []
              (live_ids _ _ live_chains_state1)) as (Hnd & _ & _ & Hout);
    [vm_compute; reflexivity|].
  split; [exact Hnd|exact Hout].
Defined.

Lemma select_closest_chain_one_sided_witness :
  distance_between_border 7 8 ch.B world3 = Ok (PyFloat.of_Z 5)
  ∧ select_closest_chain 7 None (Some 8%nat) world3 = Ok (Some 8%nat, Some ch.B).
Proof.
  split; [vm_compute; reflexivity|].
  destruct (select_closest_chain_one_sided 7 world3) as (_ & _ & Hb & _).
  apply (Hb 8%nat (PyFloat.of_Z 5)); vm_compute; reflexivity.
Defined.

Lemma get_closest_chain_sound_witness :
  get_closest_chain state1 5 [6]%nat 4 ch.outwards ch.B (SystemStatus.M state1) world1
  = Ok (Some 6%nat)
  ∧ in_neighbourhood state1 5 4 ch.outwards ch.B world1 6.
Proof.
  split; [vm_compute; reflexivity|].
  destruct (proj2 (get_closest_chain_sound state1 5 [6]%nat 4 ch.outwards ch.B
                     (SystemStatus.M state1) world1) 6%nat) as (_ & _ & Hn);
    [vm_compute; reflexivity|exact Hn].
Defined.

Lemma first_support_chain_is_largest_witness :
  ∃ state w' a state',
    SystemStatus_init [0; 1; 2]%nat [] [] PyFloat.zero PyFloat.zero 3 PyFloat.zero 0
      PyFloat.zero 0 false world_three_rays = Ok (state, w')
    ∧ find_support_chain state None None None w' = Ok (Some a, state')
    ∧ ∀ x cx, x ∈ [0; 1; 2]%nat → chains w' !! x = Some cx →
        ∃ ca, chains w' !! a = Some ca ∧ ch.Chain.size cx ≤ ch.Chain.size ca.
Proof.
  eexists _, _.
  edestruct (first_support_chain_is_largest [0; 1; 2]%nat [] [] PyFloat.zero PyFloat.zero
               3 PyFloat.zero 0 PyFloat.zero 0 false world_three_rays) as [_ Hlargest];
    [vm_compute; reflexivity|].
  destruct Hlargest as (a & ca & state' & Hf & _ & Hca & Hmax & _); [discriminate|].
  exists a, state'. split; [vm_compute; reflexivity|]. split; [exact Hf|].
  intros x cx Hx Hcx. exists ca. split; [exact Hca|exact (Hmax x cx Hx Hcx)].
Defined.

Lemma SystemStatus_init_sorts_witness :
  ∃ state w',
    SystemStatus_init [0; 1; 2]%nat [] [] PyFloat.zero PyFloat.zero 3 PyFloat.zero 0
      PyFloat.zero 0 false world_three_rays = Ok (state, w')
    ∧ SystemStatus.l_ch_s state ≡ₚ [0; 1; 2]%nat
    ∧ pointers_only world_three_rays w'.
Proof.
  eexists _, _. split; [vm_compute; reflexivity|].
  edestruct (SystemStatus_init_sorts [0; 1; 2]%nat [] [] PyFloat.zero PyFloat.zero
               3 PyFloat.zero 0 PyFloat.zero 0 false world_three_rays)
    as (Hperm & _ & Hptr & _); [vm_compute; reflexivity|].
  split; [exact Hperm|exact Hptr].
Defined.

(** The closing pass on the open ring: [I] is complete and skipped, [J]
    is closed with the node 28 on the last ray. *)
Lemma intersection_matrix_ring : intersection_matrix 2 (SystemStatus.M state_ring).
Proof.
  split.
  - reflexivity.
  - intros a row Ha.
    do 2 (destruct a as [|a]; [vm_compute in Ha; by injection Ha as <-|]).
    vm_compute in Ha. discriminate.
  - intros a b. destruct a as [|[|a]], b as [|[|b]]; reflexivity.
  - intros a Ha. destruct a as [|[|a]]; try reflexivity. lia.
Defined.

Lemma closing_pass_keeps_chains_witness :
  ∃ l_ch_c l_nodes_c M w',
    iterate_over_chains_list_and_complete_them_if_met_conditions (H := full_turn)
      state_ring PyFloat.lit_0_9 world_ring = Ok ((l_ch_c, l_nodes_c, M), w')
    ∧ l_ch_c = SystemStatus.l_ch_s state_ring
    ∧ only_grows world_ring w'
    ∧ intersection_matrix 2 M
    ∧ ch.Chain.l_nodes <$> chains world_ring !! 1%nat
      = Some [10; 11; 12; 13; 14; 15; 16; 17; 18]%nat
    ∧ ch.Chain.l_nodes <$> chains w' !! 1%nat
      = Some [10; 11; 12; 13; 14; 15; 16; 17; 18; 28]%nat.
Proof.
  assert (∃ l n M w',
            iterate_over_chains_list_and_complete_them_if_met_conditions (H := full_turn)
              state_ring PyFloat.lit_0_9 world_ring = Ok ((l, n, M), w')
            ∧ ch.Chain.l_nodes <$> chains w' !! 1%nat
              = Some [10; 11; 12; 13; 14; 15; 16; 17; 18; 28]%nat)
    as (l & n & M & w' & Hrun & Hgrown)
    by (eexists _, _, _, _; split; vm_compute; reflexivity).
  exists l, n, M, w'. split; [exact Hrun|].
  destruct (closing_pass_keeps_chains (H := full_turn) 2 state_ring PyFloat.lit_0_9
              world_ring w' l n M Hrun) as (Hl & Hg & HM).
  split; [exact Hl|]. split; [exact Hg|]. split; [exact (HM intersection_matrix_ring)|].
  split; [reflexivity|exact Hgrown].
Defined.

Lemma update_intersection_matrix_in_radial_direction_marks_witness :
  ∃ chains_over_radial_direction state',
    update_intersection_matrix_in_radial_direction state2 5 28 world2
    = Ok (chains_over_radial_direction, state')
    ∧ ∀ a b,
        mget (SystemStatus.M state') a b = mget (SystemStatus.M state2) a b
        ∨ ((a = 1%nat ∨ b = 1%nat) ∧ mget (SystemStatus.M state') a b = Some 1).
Proof.
  assert (∃ l s, update_intersection_matrix_in_radial_direction state2 5 28 world2
                 = Ok (l, s)) as (l & s & Hrun)
    by (eexists _, _; vm_compute; reflexivity).
  exists l, s. split; [exact Hrun|].
  destruct (update_intersection_matrix_in_radial_direction_marks 3 state2 s 5 28 world2
              l intersection_matrix_state2 Hrun) as (cj & rj & Hcj & Hrj & _ & Hrest).
  vm_compute in Hcj. injection Hcj as <-. vm_compute in Hrj. injection Hrj as <-.
  exact Hrest.
Defined.

Lemma get_ids_chain_intersection_spec_witness :
  get_ids_chain_intersection state1 1 = Ok [0; 3]
  ∧ ∀ j, j ∈ [0; 3] ↔
         0 ≤ j ∧ j ≠ 1 ∧ mget (SystemStatus.M state1) (Z.to_nat 1) (Z.to_nat j) = Some 1.
Proof.
  split; [vm_compute; reflexivity|].
  destruct (proj1 (get_ids_chain_intersection_spec 4 state1 1 intersection_matrix_state1))
    as (ids & Hids & _ & Hj); [lia|].
  vm_compute in Hids. injection Hids as <-. exact Hj.
Defined.

Lemma candidates_loop_terminates_witness :
  ∃ n state' candidates_chi' j_pointer' w',
    (n ≤ 4)%nat
    ∧ candidate_turns n state1 [5; 6]%nat 0 4 ch.outwards world1
      = Ok ((state', candidates_chi', j_pointer'), w')
    ∧ (length candidates_chi' ≤ j_pointer')%nat
    ∧ candidates_loop 4 state1 [5; 6]%nat 0 4 ch.outwards world1
      = Ok ((state', candidates_chi'), w').
Proof.
  assert (Hnd : NoDup [5; 6]%nat) by (apply (bool_decide_unpack _); vm_compute; exact I).
  assert (Hsub : ∀ x, x ∈ [5; 6]%nat → x ∈ SystemStatus.l_ch_s state1).
  { intros x Hx. change (SystemStatus.l_ch_s state1) with [4; 5; 6]%nat.
    by apply elem_of_cons; right. }
  destruct (candidates_loop_terminates state1 [5; 6]%nat 0 4 ch.outwards world1
              (live_nodup _ _ live_chains_state1) (live_ids _ _ live_chains_state1)
              Hnd Hsub)
    as (n & Hn & [(e & _ & Hl)|(st' & c' & j' & w' & Ht & Hj & Hl)]).
  - specialize (Hl 4%nat (le_n _)). vm_compute in Hl. discriminate.
  - exists n, st', c', j', w'. split; [exact Hn|]. split; [exact Ht|].
    split; [exact Hj|exact (Hl 4%nat (le_n _))].
Defined.

Lemma support_loop_terminates_witness :
  ∃ n state' w',
    (n ≤ 13)%nat
    ∧ support_run n state1 (Some 4%nat) world1 (Ok (state', w'))
    ∧ support_loop 19 state1 (Some 4%nat) world1 = Ok (state', w').
Proof.
  assert (Hsize : SystemStatus.size_l_chain_init state1
                  = Some (Z.of_nat (length (SystemStatus.l_ch_s state1))))
    by (vm_compute; reflexivity).
  assert (Hit : 0 ≤ SystemStatus.iterations_since_last_change state1
                ≤ Z.of_nat (length (SystemStatus.l_ch_s state1)))
    by (split; vm_compute; discriminate).
  destruct (support_loop_terminates state1 (Some 4%nat) world1
              (live_nodup _ _ live_chains_state1) (live_ids _ _ live_chains_state1)
              Hsize Hit)
    as (n & r & Hn & Hrun & Hl).
  specialize (Hl 19%nat (le_n _)).
  destruct r as [[st' w']|e]; [|vm_compute in Hl; discriminate].
  exists n, st', w'. split; [exact Hn|]. split; [exact Hrun|exact Hl].
Defined.

Lemma merge_chains_main_logic_keeps_chains_witness :
  ∃ l_ch_c l_nodes_c M w',
    merge_chains_main_logic 30 [[1; 1; 1; 1]; [1; 1; 0; 1]; [1; 0; 1; 1]; [1; 1; 1; 1]]
      PyFloat.zero PyFloat.zero 72 [0; 1; 2]%nat [0; 1; 2; 3; 4; 5; 6; 7; 8]%nat
      PyFloat.lit_0_1 2 PyFloat.lit_1_5 10 false world1
    = Ok ((l_ch_c, l_nodes_c, M), w')
    ∧ l_ch_c ⊆+ [0; 1; 2]%nat
    ∧ (length l_ch_c ≤ 3)%nat.
Proof.
  assert (∃ l ln M w',
            merge_chains_main_logic 30
              [[1; 1; 1; 1]; [1; 1; 0; 1]; [1; 0; 1; 1]; [1; 1; 1; 1]]
              PyFloat.zero PyFloat.zero 72 [0; 1; 2]%nat [0; 1; 2; 3; 4; 5; 6; 7; 8]%nat
              PyFloat.lit_0_1 2 PyFloat.lit_1_5 10 false world1
            = Ok ((l, ln, M), w')) as (l & ln & M & w' & Hrun)
    by (eexists _, _, _, _; vm_compute; reflexivity).
  exists l, ln, M, w'. split; [exact Hrun|].
  destruct (merge_chains_main_logic_keeps_chains _ _ _ _ _ _ _ _ _ _ _ _ _ _ _ _ _ Hrun)
    as (Hsub & _ & Hlen & _).
  split; [exact Hsub|exact Hlen].
Defined.

Lemma merge_chains_returns_copies_witness :
  ∃ l_ch_c w',
    merge_chains 50 [0; 1; 2; 3]%nat PyFloat.zero PyFloat.zero 72 world1 = Ok (l_ch_c, w')
    ∧ NoDup l_ch_c
    ∧ (∀ x, x ∈ l_ch_c → (8 ≤ x < 12)%nat)
    ∧ (length l_ch_c ≤ 4)%nat.
Proof.
  assert (∃ l w', merge_chains 50 [0; 1; 2; 3]%nat PyFloat.zero PyFloat.zero 72 world1
                  = Ok (l, w')) as (l & w' & Hrun)
    by (eexists _, _; vm_compute; reflexivity).
  exists l, w'. split; [exact Hrun|].
  exact (merge_chains_returns_copies _ _ _ _ _ _ _ _ Hrun).
Defined.

Lemma intersection_chains_partition_witness :
  get_intersection_chains (SystemStatus.M state1) [5; 6]%nat 5 world1 = Ok [5]%nat
  ∧ ∃ non_intersecting,
      find_non_intersection (SystemStatus.M state1) [5; 6]%nat 5 world1
      = Ok non_intersecting
      ∧ (length [5]%nat + length non_intersecting = length [5; 6]%nat)%nat
      ∧ ∀ x, x ∈ [5]%nat → x ∉ non_intersecting.
Proof.
  split; [vm_compute; reflexivity|].
  destruct (intersection_chains_partition (SystemStatus.M state1) [5; 6]%nat 5 world1
              [5]%nat) as (non & Hnon & _ & _ & Hlen & _ & Hdisj);
    [vm_compute; reflexivity|].
  exists non. split; [exact Hnon|]. split; [exact Hlen|exact Hdisj].
Defined.

Lemma add_interpolated_nodes_to_system_registers_witness :
  ∃ interpolated w1 state' w',
    merge_two_chains 5 6 ch.B 4 None world1 = Ok (interpolated, w1)
    ∧ add_interpolated_nodes_to_system state1 5 interpolated w1 = Ok (state', w')
    ∧ SystemStatus.l_nodes_s state' = SystemStatus.l_nodes_s state1 ++ interpolated
    ∧ NoDup interpolated
    ∧ add_interpolated_nodes_to_system state1 5 [14]%nat world1 = Raise AssertionError.
Proof.
  assert (∃ i w1 s' w',
            merge_two_chains 5 6 ch.B 4 None world1 = Ok (i, w1)
            ∧ add_interpolated_nodes_to_system state1 5 i w1 = Ok (s', w'))
    as (i & w1 & s' & w' & Hmerge & Hadd)
    by (eexists _, _, _, _; split; vm_compute; reflexivity).
  exists i, w1, s', w'. split; [exact Hmerge|]. split; [exact Hadd|].
  destruct (proj1 (add_interpolated_nodes_to_system_registers state1 5 i w1) s' w' Hadd)
    as (Hn & _ & Hnd & _).
  split; [exact Hn|]. split; [exact Hnd|].
  apply (proj2 (add_interpolated_nodes_to_system_registers state1 5 [14]%nat world1)
           14%nat [] eq_refl).
  vm_compute. apply elem_of_cons. by left.
Defined.

Lemma size_guards_witness :
  connectivity_goodness_condition state1 0 1 2 ch.B world_three_rays
  = Ok (false, PyFloat.minus_one)
  ∧ closing_loop state_ring PyFloat.lit_0_9 [0]%nat world_ring
    = closing_loop state_ring PyFloat.lit_0_9 [] world_ring
  ∧ (∃ c, chains world_ring !! 1%nat = Some c
          ∧ closing_loop (H := full_turn) state_ring PyFloat.lit_0_9 [1]%nat world_ring
            ≠ closing_loop (H := full_turn) state_ring PyFloat.lit_0_9 [] world_ring
          ∧ ch.Chain.size c < ch.Chain.Nr c)
  ∧ ∃ cj ck,
      chains world1 !! 5%nat = Some cj ∧ chains world1 !! 6%nat = Some ck
      ∧ find_merge_target state1 [5; 6]%nat 5 4 ch.outwards world1
        = Ok (Some 6%nat, Some ch.B)
      ∧ ch.Chain.size cj + ch.Chain.size ck ≤ ch.Chain.Nr cj.
Proof.
  destruct (size_guards state1 world_three_rays) as (Hreject & _ & _ & _).
  destruct (size_guards state1 world1) as (_ & Hdriver & _).
  destruct (size_guards state_ring world_ring) as (_ & _ & Hskip & _).
  destruct (size_guards (H := full_turn) state_ring world_ring) as (_ & _ & _ & Hclose).
  split_and!.
  - eapply Hreject; [reflexivity|reflexivity|]. vm_compute. reflexivity.
  - eapply Hskip; [reflexivity|]. vm_compute. discriminate.
  - eexists. split; [reflexivity|].
    assert (Hne : closing_loop (H := full_turn) state_ring PyFloat.lit_0_9 [1]%nat world_ring
                  ≠ closing_loop (H := full_turn) state_ring PyFloat.lit_0_9 [] world_ring)
      by (vm_compute; discriminate).
    split; [exact Hne|]. exact (Hclose PyFloat.lit_0_9 1%nat [] _ eq_refl Hne).
  - eexists _, _.
    assert (Hrun : find_merge_target state1 [5; 6]%nat 5 4 ch.outwards world1
                   = Ok (Some 6%nat, Some ch.B)) by (vm_compute; reflexivity).
    split; [reflexivity|]. split; [reflexivity|]. split; [exact Hrun|].
    exact (Hdriver _ _ _ _ _ _ _ _ Hrun eq_refl eq_refl).
Defined.
